(** * MotionCam Fuse: raw-to-DNG renderer and MCRAW frame indexer

    A shallow embedding of the parts of the repository that the
    specification makes claims about:

    - [src/src/Utils.cpp]: the bit packers [encodeTo2Bit] .. [encodeTo14Bit],
      [bitsNeeded], the shading-map functions, the level selection, pixel
      store and quad-Bayer binning of [preprocessData], the CFA and level
      tags of [generateDng], [gcd] and [toFraction];
    - [src/lib/mcraw-decoder.ts]: [unpackBits], the five frame detection
      strategies and [calculateFpsFromTimestamps];
    - [src/lib/client-mcraw-processor.ts]: the frame loop of
      [processClientSideMcraw].

    Conventions.  Machine integers are [Z] with the wrap-around of every
    narrowing store written out ([to_u8], [to_u16]).  A finite C++ [float]
    or JavaScript [number] is the rational [Q] it stands for.  Where a
    property depends on it, every floating-point operation is rounded to
    the nearest [float] or double ([Float.binary32], [Float.binary64]) and
    a value that can be infinite or NaN is an [fval]: in
    [colorOnlyShadingMap], [invertShadingMap], [getShadingMapValue],
    [toFraction] and [calculateFpsFromTimestamps].  Elsewhere every place
    where the code compares, clamps, truncates or divides is kept and the
    rounding of the individual operations is not modelled.  Behaviour that
    C++ leaves undefined (reads past a buffer, an out-of-range
    float-to-integer conversion, [INT_MIN % -1], the overflow of an [int]
    index into a shading map) and JavaScript exceptions are [None]. *)

From Stdlib Require Import ZArith QArith Qround Qabs Qpower Lia Lqa List Sorted Bool String.
From stdpp Require Import base option list.
Import ListNotations.

#[local] Open Scope Z_scope.

(** ** Shared arithmetic *)

(** Store into a [uint8_t] / a [Uint8Array] cell. *)
Definition to_u8 (x : Z) : Z := x mod 256.

(** Store into a [uint16_t] / a [Uint16Array] cell. *)
Definition to_u16 (x : Z) : Z := x mod 65536.

(** [for (x = 0; x < bound; x += step)]: the body runs [ceil(bound/step)]
    times. *)
Definition loopCount (bound step : Z) : nat := Z.to_nat ((bound + step - 1) / step).

(** A counting loop [for (i = start; ...; i++)] of [n] iterations over a
    state, stopping at the first undefined step. *)
Fixpoint forLoop {State : Type} (n : nat) (i : Z) (body : Z -> State -> option State)
         (s : State) : option State :=
  match n with
  | O => Some s
  | S n' => s' ← body i s; forLoop n' (i + 1) body s'
  end.

(** [a < b] on rationals, as a boolean. *)
Definition Qltb (a b : Q) : bool := negb (Qle_bool b a).

(** [std::min(a, b)] is [(b < a) ? b : a]; [std::max(a, b)] is
    [(a < b) ? b : a]. *)
Definition fmin (a b : Q) : Q := if Qltb b a then b else a.
Definition fmax (a b : Q) : Q := if Qltb a b then b else a.

(** Conversion of a floating-point value to an integer type truncates
    towards zero. *)
Definition Qtrunc (x : Q) : Z := if Qle_bool 0 x then Qfloor x else Qceiling x.

(** [static_cast<unsigned short>(x)]: undefined when the truncated value is
    not representable. *)
Definition float_to_u16 (x : Q) : option Z :=
  let t := Qtrunc x in
  if (0 <=? t) && (t <=? 65535) then Some t else None.

(** The result of an [int] operation whose mathematical value is [z]:
    signed overflow is undefined. *)
Definition int_of (z : Z) : option Z :=
  if (- 2 ^ 31 <=? z) && (z <? 2 ^ 31) then Some z else None.

(** [bytes.length]. *)
Definition len (l : list Z) : Z := Z.of_nat (length l).

(** [bytes[j]] of a typed array used as an operand: [undefined] outside the
    array, which a bit operator reads as 0. *)
Definition byteAt (bytes : list Z) (j : Z) : Z :=
  if j <? 0 then 0 else default 0 (bytes !! Z.to_nat j).

(** ** Binary floating point *)

(** IEEE 754 arithmetic computes every operation as if exactly and then
    rounds the result to the nearest representable number, to the one with
    an even significand when two are equally near.  [round prec emin x] is
    that number for a format of [prec] significant bits whose least
    exponent (of the last bit) is [emin]; the exponent is not bounded from
    above here, the code that uses the rounding says what an overflow
    does. *)

Module Float.

(** [2^e]. *)
Definition pow2 (e : Z) : Q := (2 ^ e)%Q.

(** [floor (log2 |x|)] of a rational that is not zero. *)
Definition ilog2 (x : Q) : Z :=
  let k := Z.log2 (Z.abs (Qnum x)) - Z.log2 (Z.pos (Qden x)) in
  if Qle_bool (pow2 k) (Qabs x) then k else k - 1.

(** The nearest integer, the even one of two that are equally near. *)
Definition rne (x : Q) : Z :=
  let f := Qfloor x in
  match Qcompare (x - inject_Z f) (1 # 2) with
  | Lt => f
  | Gt => f + 1
  | Eq => if Z.even f then f else f + 1
  end.

(** The exponent of the last bit of the significand of [x]. *)
Definition exponent (prec emin : Z) (x : Q) : Z := Z.max (ilog2 x - prec + 1) emin.

Definition round (prec emin : Z) (x : Q) : Q :=
  if Qeq_bool x 0 then 0%Q
  else let e := exponent prec emin x in
       Qred (inject_Z (rne (x / pow2 e)) * pow2 e).

(** C++ [float] and JavaScript [number]. *)
Definition binary32 : Q -> Q := round 24 (-149).
Definition binary64 : Q -> Q := round 53 (-1074).

End Float.

(** ** Bit packer (Utils.cpp, encodeTo*Bit) and unpacker (mcraw-decoder.ts) *)

Module BitPacker.

(** The encoders read the frame through [srcPtr], the buffer viewed as
    [uint16_t], which is the view [preprocessData] wrote it through; the
    model therefore takes the samples.  They write the packed bytes into the
    same buffer through [dstPtr]: a group is loaded into locals before its
    bytes are stored and [dstPtr] never passes [srcPtr] (5, 3, 7 or 1 bytes
    written per 8, 4, 8 or 2 bytes read), so no sample is overwritten before
    it is read and the bytes written are a function of the samples.  The
    final [data.resize(newSize)] keeps exactly the bytes written. *)

(** Loop body of [encodeTo10Bit]. *)
Definition encodeTo10Bit_group (g : list Z) : option (list Z) :=
  match g with
  | [p0; p1; p2; p3] =>
      Some [ to_u8 (Z.shiftr p0 2);
             to_u8 (Z.lor (Z.shiftl (Z.land p0 0x03) 6) (Z.shiftr p1 4));
             to_u8 (Z.lor (Z.shiftl (Z.land p1 0x0F) 4) (Z.shiftr p2 6));
             to_u8 (Z.lor (Z.shiftl (Z.land p2 0x3F) 2) (Z.shiftr p3 8));
             to_u8 (Z.land p3 0xFF) ]
  | _ => None
  end.

(** Loop body of [encodeTo12Bit]. *)
Definition encodeTo12Bit_group (g : list Z) : option (list Z) :=
  match g with
  | [p0; p1] =>
      Some [ to_u8 (Z.shiftr p0 4);
             to_u8 (Z.lor (Z.shiftl (Z.land p0 0x0F) 4) (Z.shiftr p1 8));
             to_u8 (Z.land p1 0xFF) ]
  | _ => None
  end.

(** Loop body of [encodeTo14Bit]. *)
Definition encodeTo14Bit_group (g : list Z) : option (list Z) :=
  match g with
  | [p0; p1; p2; p3] =>
      Some [ to_u8 (Z.shiftr p0 6);
             to_u8 (Z.lor (Z.shiftl (Z.land p0 0x3F) 2) (Z.shiftr p1 12));
             to_u8 (Z.land (Z.shiftr p1 4) 0xFF);
             to_u8 (Z.lor (Z.shiftl (Z.land p1 0x0F) 4) (Z.shiftr p2 10));
             to_u8 (Z.land (Z.shiftr p2 2) 0xFF);
             to_u8 (Z.lor (Z.shiftl (Z.land p2 0x03) 6) (Z.shiftr p3 8));
             to_u8 (Z.land p3 0xFF) ]
  | _ => None
  end.

(** Loop body of [encodeTo8Bit]. *)
Definition encodeTo8Bit_group (g : list Z) : option (list Z) :=
  match g with
  | [p0] => Some [ to_u8 (Z.land p0 0xFF) ]
  | _ => None
  end.

(** Loop body of [encodeTo6Bit]; [v0] .. [v3] are [uint8_t] locals. *)
Definition encodeTo6Bit_group (g : list Z) : option (list Z) :=
  match g with
  | [p0; p1; p2; p3] =>
      let v0 := to_u8 (Z.land p0 0x3F) in
      let v1 := to_u8 (Z.land p1 0x3F) in
      let v2 := to_u8 (Z.land p2 0x3F) in
      let v3 := to_u8 (Z.land p3 0x3F) in
      Some [ to_u8 (Z.lor (Z.shiftl v0 2) (Z.shiftr v1 4));
             to_u8 (Z.lor (Z.shiftl (Z.land v1 0x0F) 4) (Z.shiftr v2 2));
             to_u8 (Z.lor (Z.shiftl (Z.land v2 0x03) 6) v3) ]
  | _ => None
  end.

(** Loop body of [encodeTo4Bit]. *)
Definition encodeTo4Bit_group (g : list Z) : option (list Z) :=
  match g with
  | [p0; p1] =>
      let v0 := to_u8 (Z.land p0 0x0F) in
      let v1 := to_u8 (Z.land p1 0x0F) in
      Some [ to_u8 (Z.lor (Z.shiftl v0 4) v1) ]
  | _ => None
  end.

(** Loop body of [encodeTo2Bit]. *)
Definition encodeTo2Bit_group (g : list Z) : option (list Z) :=
  match g with
  | [p0; p1; p2; p3] =>
      Some [ to_u8 (Z.lor (Z.lor (Z.lor (Z.shiftl (Z.land p0 0x03) 6)
                                        (Z.shiftl (Z.land p1 0x03) 4))
                                 (Z.shiftl (Z.land p2 0x03) 2))
                          (Z.land p3 0x03)) ]
  | _ => None
  end.

(** One row of an encoder: [iters] groups of [step] samples are read at the
    cursor [src]; reading past the end of the buffer is undefined. *)
Fixpoint encodeRow (step : nat) (body : list Z -> option (list Z))
         (iters : nat) (src : list Z) : option (list Z * list Z) :=
  match iters with
  | O => Some ([], src)
  | S iters' =>
      if (step <=? length src)%nat then
        bytes ← body (take step src);
        '(out, rest) ← encodeRow step body iters' (drop step src);
        Some (bytes ++ out, rest)
      else None
  end.

(** The [for (y = 0; y < height; y++)] loop around the rows. *)
Fixpoint encodeRows (step : nat) (body : list Z -> option (list Z))
         (width : Z) (rows : nat) (src : list Z) : option (list Z) :=
  match rows with
  | O => Some []
  | S rows' =>
      '(out, rest) ← encodeRow step body (loopCount width (Z.of_nat step)) src;
      tl ← encodeRows step body width rows' rest;
      Some (out ++ tl)
  end.

Definition encodeTo10Bit (data : list Z) (width height : Z) : option (list Z) :=
  encodeRows 4 encodeTo10Bit_group width (Z.to_nat height) data.
Definition encodeTo12Bit (data : list Z) (width height : Z) : option (list Z) :=
  encodeRows 2 encodeTo12Bit_group width (Z.to_nat height) data.
Definition encodeTo14Bit (data : list Z) (width height : Z) : option (list Z) :=
  encodeRows 4 encodeTo14Bit_group width (Z.to_nat height) data.
Definition encodeTo8Bit (data : list Z) (width height : Z) : option (list Z) :=
  encodeRows 1 encodeTo8Bit_group width (Z.to_nat height) data.
Definition encodeTo6Bit (data : list Z) (width height : Z) : option (list Z) :=
  encodeRows 4 encodeTo6Bit_group width (Z.to_nat height) data.
Definition encodeTo4Bit (data : list Z) (width height : Z) : option (list Z) :=
  encodeRows 2 encodeTo4Bit_group width (Z.to_nat height) data.
Definition encodeTo2Bit (data : list Z) (width height : Z) : option (list Z) :=
  encodeRows 4 encodeTo2Bit_group width (Z.to_nat height) data.

(** The byte image of an unencoded 16-bit frame: the DNG is written
    little-endian ([SetBigEndian(false)]) from the buffer as it is. *)
Definition le16_bytes (data : list Z) : list Z :=
  flat_map (fun v => [v mod 256; (v / 256) mod 256]) data.

(** The encoder selection of [generateDng]: the packed bytes and the
    [BitsPerSample] written, from [encodeBits = bitsNeeded(dstWhiteLevel)]. *)
Definition encodeForBits (encodeBits : Z) (data : list Z) (width height : Z)
  : option (Z * list Z) :=
  if encodeBits <=? 2 then b ← encodeTo2Bit data width height; Some (2, b)
  else if encodeBits <=? 4 then b ← encodeTo4Bit data width height; Some (4, b)
  else if encodeBits <=? 6 then b ← encodeTo6Bit data width height; Some (6, b)
  else if encodeBits <=? 8 then b ← encodeTo8Bit data width height; Some (8, b)
  else if encodeBits <=? 10 then b ← encodeTo10Bit data width height; Some (10, b)
  else if encodeBits <=? 12 then b ← encodeTo12Bit data width height; Some (12, b)
  else if encodeBits <=? 14 then b ← encodeTo14Bit data width height; Some (14, b)
  else Some (16, le16_bytes data).

(** Samples read per loop iteration by the encoder that [encodeForBits]
    selects. *)
Definition samplesPerGroup (encodeBits : Z) : nat :=
  if encodeBits <=? 2 then 4
  else if encodeBits <=? 4 then 2
  else if encodeBits <=? 6 then 4
  else if encodeBits <=? 8 then 1
  else if encodeBits <=? 10 then 4
  else if encodeBits <=? 12 then 2
  else if encodeBits <=? 14 then 4
  else 1.

(** *** [McrawDecoder.unpackBits] *)

(** [result[i] = v] on a [Uint16Array]: the value wraps to 16 bits and a
    store outside the array is dropped. *)
Definition storeU16 (result : list Z) (i : Z) (v : Z) : list Z :=
  if i <? 0 then result else <[Z.to_nat i := to_u16 v]> result.

(** The [bits === 10] loop; the operands stay below [2^16], so the 32-bit
    range of the JavaScript bit operators is never left. *)
Fixpoint unpack10 (fuel : nat) (packed : list Z) (pixelCount shift : Z)
         (i j : Z) (result : list Z) : list Z :=
  match fuel with
  | O => result
  | S fuel' =>
      if (i <? pixelCount - 3) && (j <? len packed - 4) then
        let b := byteAt packed in
        let result := storeU16 result i
          (Z.shiftl (Z.lor (Z.shiftl (b j) 2) (Z.shiftr (b (j + 1)) 6)) shift) in
        let result := storeU16 result (i + 1)
          (Z.shiftl (Z.lor (Z.shiftl (Z.land (b (j + 1)) 0x3f) 4) (Z.shiftr (b (j + 2)) 4)) shift) in
        let result := storeU16 result (i + 2)
          (Z.shiftl (Z.lor (Z.shiftl (Z.land (b (j + 2)) 0x0f) 6) (Z.shiftr (b (j + 3)) 2)) shift) in
        let result := storeU16 result (i + 3)
          (Z.shiftl (Z.lor (Z.shiftl (Z.land (b (j + 3)) 0x03) 8) (b (j + 4))) shift) in
        unpack10 fuel' packed pixelCount shift (i + 4) (j + 5) result
      else result
  end.

(** The [bits === 12] loop. *)
Fixpoint unpack12 (fuel : nat) (packed : list Z) (pixelCount shift : Z)
         (i j : Z) (result : list Z) : list Z :=
  match fuel with
  | O => result
  | S fuel' =>
      if (i <? pixelCount - 1) && (j <? len packed - 2) then
        let b := byteAt packed in
        let result := storeU16 result i
          (Z.shiftl (Z.lor (Z.shiftl (b j) 4) (Z.shiftr (b (j + 1)) 4)) shift) in
        let result := storeU16 result (i + 1)
          (Z.shiftl (Z.lor (Z.shiftl (Z.land (b (j + 1)) 0x0f) 8) (b (j + 2))) shift) in
        unpack12 fuel' packed pixelCount shift (i + 2) (j + 3) result
      else result
  end.

(** [view.getUint16(off, true)]: a [RangeError] when the two bytes are not
    inside the view. *)
Definition getUint16LE (packed : list Z) (off : Z) : option Z :=
  if (0 <=? off) && (off + 2 <=? len packed)
  then Some (byteAt packed off + 256 * byteAt packed (off + 1))
  else None.

(** The fallback loop, [i < Math.min(pixelCount, packed.length / 2)] with a
    real-valued division: [i < pixelCount] and [2 * i < packed.length]. *)
Fixpoint unpack16 (fuel : nat) (packed : list Z) (pixelCount : Z)
         (i : Z) (result : list Z) : option (list Z) :=
  match fuel with
  | O => Some result
  | S fuel' =>
      if (i <? pixelCount) && (2 * i <? len packed) then
        v ← getUint16LE packed (i * 2);
        unpack16 fuel' packed pixelCount (i + 1) (storeU16 result i v)
      else Some result
  end.

(** Every iteration advances [j] (or [i]) towards [packed.length], so
    [packed.length + 1] iterations are never exceeded. *)
Definition unpackBits (packed : list Z) (pixelCount bits : Z) : option (list Z) :=
  let result := replicate (Z.to_nat pixelCount) 0 in
  let shift := 16 - bits in
  let fuel := S (length packed) in
  if bits =? 10 then Some (unpack10 fuel packed pixelCount shift 0 0 result)
  else if bits =? 12 then Some (unpack12 fuel packed pixelCount shift 0 0 result)
  else unpack16 fuel packed pixelCount 0 result.

End BitPacker.

(** ** Render settings (Types.h) *)

Inductive QuadBayerMode := Remosaic | WrongCFAMetadata | CorrectQBCFAMetadata.

Inductive LogTransformMode :=
  Disabled | KeepInput | ReduceBy2Bit | ReduceBy4Bit | ReduceBy6Bit | ReduceBy8Bit.

#[global] Instance QuadBayerMode_eq_dec : EqDecision QuadBayerMode.
Proof. solve_decision. Defined.

#[global] Instance LogTransformMode_eq_dec : EqDecision LogTransformMode.
Proof. solve_decision. Defined.

Definition RENDER_OPT_APPLY_VIGNETTE_CORRECTION : Z := Z.shiftl 1 1.
Definition RENDER_OPT_NORMALIZE_SHADING_MAP : Z := Z.shiftl 1 2.
Definition RENDER_OPT_DEBUG_SHADING_MAP : Z := Z.shiftl 1 3.
Definition RENDER_OPT_VIGNETTE_ONLY_COLOR : Z := Z.shiftl 1 4.
Definition RENDER_OPT_LOG_TRANSFORM : Z := Z.shiftl 1 9.
Definition RENDER_OPT_INTERPRET_AS_QUAD_BAYER : Z := Z.shiftl 1 10.

(** [bool b = options & FLAG]. *)
Definition hasOption (options flag : Z) : bool := negb (Z.land options flag =? 0).

Record RenderSettings := {
  options : Z;
  draftScale : Z;
  logTransform : LogTransformMode;
  quadBayerOption : QuadBayerMode
}.

(** ** Frame renderer (Utils.cpp, preprocessData) *)

Module Renderer.

(** [bitsNeeded]: [value] is an [unsigned short], so the loop ends within 16
    shifts. *)
Fixpoint bitsNeeded_loop (fuel : nat) (value bits : Z) : Z :=
  match fuel with
  | O => bits
  | S fuel' =>
      if 0 <? value then bitsNeeded_loop fuel' (Z.shiftr value 1) (bits + 1)
      else bits
  end.

Definition bitsNeeded (value : Z) : Z :=
  if value =? 0 then 1 else bitsNeeded_loop 16 value 0.

(** [scale = (scale > 1 ? (scale / 2) * 2 : 1)]. *)
Definition evenScale (scale : Z) : Z := if 1 <? scale then (scale / 2) * 2 else 1.

(** [cfaSize = (interpretAsQuadBayer ? 2 : 1)]. *)
Definition cfaSizeOf (interpretAsQuadBayer : bool) : Z :=
  if interpretAsQuadBayer then 2 else 1.

(** The source levels after [if (cfaSize > 1 && scale == 2)]: both are
    multiplied by [cfaSize * cfaSize]. *)
Definition binnedLevels (cfaSize scale : Z) (srcBlackLevel : list Q) (srcWhiteLevel : Q)
  : list Q * Q :=
  if (1 <? cfaSize) && (scale =? 2)
  then (map (fun b => (b * inject_Z (cfaSize * cfaSize))%Q) srcBlackLevel,
        (srcWhiteLevel * inject_Z (cfaSize * cfaSize))%Q)
  else (srcBlackLevel, srcWhiteLevel).

(** [useBits = std::min(16, bitsNeeded(static_cast<unsigned short>(dstWhiteLevel)) + delta)]. *)
Definition useBitsFor (dstWhiteLevel : Q) (delta : Z) : option Z :=
  w ← float_to_u16 dstWhiteLevel; Some (Z.min 16 (bitsNeeded w + delta)).

(** [dstWhiteLevel = std::pow(2.0f, useBits) - 1]; exact in [float] for every
    [useBits <= 16]. *)
Definition whiteForBits (useBits : Z) : Q := (Qpower 2 useBits - 1)%Q.

(** [for (auto& v : dstBlackLevel) v = 0]. *)
Definition zeroed (l : list Q) : list Q := map (fun _ => 0%Q) l.

(** The bit offset chosen in the shading branch when neither normalising nor
    debugging; the source's final [else] (no mode left) also adds 2. *)
Definition shadingBitDelta (mode : LogTransformMode) : Z :=
  match mode with
  | Disabled => 2
  | KeepInput => 0
  | ReduceBy2Bit => -2
  | ReduceBy4Bit => -4
  | ReduceBy6Bit => -6
  | ReduceBy8Bit => -8
  end.

(** The destination levels [(dstBlackLevel, dstWhiteLevel)], both still
    [float], from the levels after binning. *)
Definition destinationLevels (applyShadingMap normaliseShadingMap debugShadingMap : bool)
    (mode : LogTransformMode) (srcBlackLevel : list Q) (srcWhiteLevel : Q)
  : option (list Q * Q) :=
  if applyShadingMap then
    dstWhiteLevel ←
      (if normaliseShadingMap then
         _ ← useBitsFor srcWhiteLevel 4; Some srcWhiteLevel
       else if debugShadingMap then Some srcWhiteLevel
       else useBits ← useBitsFor srcWhiteLevel (shadingBitDelta mode);
            Some (whiteForBits useBits));
    Some (zeroed srcBlackLevel, dstWhiteLevel)
  else if bool_decide (mode <> Disabled) then
    dstWhiteLevel ←
      match mode with
      | ReduceBy2Bit => useBits ← useBitsFor srcWhiteLevel (-2); Some (whiteForBits useBits)
      | ReduceBy4Bit => useBits ← useBitsFor srcWhiteLevel (-4); Some (whiteForBits useBits)
      | ReduceBy6Bit => useBits ← useBitsFor srcWhiteLevel (-6); Some (whiteForBits useBits)
      | ReduceBy8Bit => useBits ← useBitsFor srcWhiteLevel (-8); Some (whiteForBits useBits)
      | _ => Some srcWhiteLevel
      end;
    Some (zeroed srcBlackLevel, dstWhiteLevel)
  else Some (srcBlackLevel, srcWhiteLevel).

(** The third component of the returned tuple,
    [static_cast<unsigned short>(dstWhiteLevel)]. *)
Definition returnedWhiteLevel (dstWhiteLevel : Q) : option Z := float_to_u16 dstWhiteLevel.

(** *** Source samples *)

(** [srcData[idx]]; a read outside the frame is undefined. *)
Definition srcAt (srcData : list Z) (idx : Z) : option Z :=
  if idx <? 0 then None else srcData !! Z.to_nat idx.

(** One binned sample: the four sub-samples at rows [srcY + dy], [+ 1] and
    columns [srcX + dx], [+ 1] are added as [int] and the sum is stored in a
    [uint16_t]. *)
Definition binnedSample (srcData : list Z) (originalWidth srcX srcY dy dx : Z) : option Z :=
  a ← srcAt srcData ((srcY + dy) * originalWidth + srcX + dx);
  b ← srcAt srcData ((srcY + dy) * originalWidth + srcX + dx + 1);
  c ← srcAt srcData ((srcY + dy + 1) * originalWidth + srcX + dx);
  d ← srcAt srcData ((srcY + dy + 1) * originalWidth + srcX + dx + 1);
  Some (to_u16 (a + b + c + d)).

(** The four samples [s[0..3]] of the 2x2-block path. *)
Definition fetchBlock (srcData : list Z) (originalWidth cfaSize scale srcX srcY : Z)
  : option (list Z) :=
  if (cfaSize =? 2) && (scale =? 2) then
    s0 ← binnedSample srcData originalWidth srcX srcY 0 0;
    s1 ← binnedSample srcData originalWidth srcX srcY 0 2;
    s2 ← binnedSample srcData originalWidth srcX srcY 2 0;
    s3 ← binnedSample srcData originalWidth srcX srcY 2 2;
    Some [s0; s1; s2; s3]
  else
    s0 ← srcAt srcData (srcY * originalWidth + srcX);
    s1 ← srcAt srcData (srcY * originalWidth + srcX + cfaSize);
    s2 ← srcAt srcData ((srcY + cfaSize) * originalWidth + srcX);
    s3 ← srcAt srcData ((srcY + cfaSize) * originalWidth + srcX + cfaSize);
    Some [s0; s1; s2; s3].

(** Linearisation of one sample,
    [std::max(0.0f, linear[i] * (s[i] - srcBlackLevel[i]) * shadingMapVals[i])]
    with [linear[i] = 1.0f / (srcWhiteLevel - srcBlackLevel[i])]. *)
Definition linearised (s : Z) (srcBlack srcWhite shading : Q) : Q :=
  fmax 0 ((1 / (srcWhite - srcBlack)) * (inject_Z s - srcBlack) * shading)%Q.

(** The linearised samples of one block of the 2x2-block path. *)
Definition linearisedBlock (srcData : list Z) (originalWidth cfaSize scale srcX srcY : Z)
    (srcBlackLevel : list Q) (srcWhiteLevel : Q) (shadingMapVals : list Q)
  : option (list Q) :=
  s ← fetchBlock srcData originalWidth cfaSize scale srcX srcY;
  Some (zip_with (fun si bs => linearised si bs.1 srcWhiteLevel bs.2)
                 s (zip srcBlackLevel shadingMapVals)).

(** *** Pixel store *)

(** A [float] about to be clamped: finite, infinite or not a number. *)
Inductive fval := FNaN | FNegInf | FPosInf | FFin (q : Q).

(** [a < b] on floats; false as soon as one side is NaN. *)
Definition flt (a b : fval) : bool :=
  match a, b with
  | FNaN, _ | _, FNaN => false
  | FNegInf, FNegInf => false
  | FNegInf, _ => true
  | _, FNegInf => false
  | FPosInf, _ => false
  | FFin _, FPosInf => true
  | FFin x, FFin y => Qltb x y
  end.

(** [std::clamp(v, lo, hi)], that is [(v < lo) ? lo : (hi < v) ? hi : v];
    undefined when [hi < lo]. *)
Definition fclamp (v : fval) (lo hi : Q) : option fval :=
  if Qltb hi lo then None
  else Some (if flt v (FFin lo) then FFin lo
             else if flt (FFin hi) v then FFin hi else v).

(** [s[i] = std::clamp(std::round(p[i] + dstBlackLevel[i]), 0.f, dstWhiteLevel)]
    into a [uint16_t], from the rounded value. *)
Definition storeSample (rounded : fval) (dstWhiteLevel : Q) : option Z :=
  c ← fclamp rounded 0 dstWhiteLevel;
  match c with
  | FFin q => float_to_u16 q
  | _ => None
  end.

(** [dstData[idx] = s]; a store outside the buffer is undefined. *)
Definition writeU16 (dst : list Z) (idx s : Z) : option (list Z) :=
  if (0 <=? idx) && (idx <? Z.of_nat (length dst))
  then Some (<[Z.to_nat idx := s]> dst) else None.

Section PixelLoop.

  (** [rounded x y i] stands for [std::round(p[i] + dstBlackLevel[i])] of
      the block at [(x, y)]: the value the floating-point pipeline (shading,
      linearisation, log curve and dither) hands to the clamp. *)
Variable rounded : Z -> Z -> Z -> fval.
Variables (newWidth newHeight cfaSize scale : Z) (dstWhiteLevel : Q).

  (** [cfaSize < 2 | scale > 1]. *)
Definition blockPath : bool := (cfaSize <? 2) || (1 <? scale).

  (** [2 * (scale < 2 ? cfaSize : 1)]. *)
Definition stride : Z := 2 * (if scale <? 2 then cfaSize else 1).

  (** The stores of a block: offset from [dstOffset] and index into [s]. *)
Definition bayerStores : list (Z * Z) :=
    [ (0, 0); (1, 1); (newWidth, 2); (newWidth + 1, 3) ].

Definition quadStores : list (Z * Z) :=
    [ (0, 0); (1, 1); (newWidth, 2); (newWidth + 1, 3);
      (2, 4); (3, 5); (newWidth + 2, 6); (newWidth + 3, 7);
      (newWidth * 2, 8); (newWidth * 2 + 1, 9);
      (newWidth * 3, 10); (newWidth * 3 + 1, 11);
      (newWidth * 2 + 2, 12); (newWidth * 2 + 3, 13);
      (newWidth * 3 + 2, 14); (newWidth * 3 + 3, 15) ].

Fixpoint writeBlock (x y dstOffset : Z) (stores : list (Z * Z)) (dst : list Z)
    : option (list Z) :=
    match stores with
    | [] => Some dst
    | (d, i) :: stores' =>
        s ← storeSample (rounded x y i) dstWhiteLevel;
        dst' ← writeU16 dst (dstOffset + d) s;
        writeBlock x y dstOffset stores' dst'
    end.

  (** Body of the [x] loop on the state [(dstOffset, dst)]. *)
Definition blockStep (x y : Z) (st : Z * list Z) : option (Z * list Z) :=
    if blockPath then
      dst' ← writeBlock x y st.1 bayerStores st.2; Some (st.1 + 2, dst')
    else
      dst' ← writeBlock x y st.1 quadStores st.2; Some (st.1 + 2 * cfaSize, dst').

Fixpoint rowLoop (n : nat) (x y : Z) (st : Z * list Z) : option (Z * list Z) :=
    match n with
    | O => Some st
    | S n' => st' ← blockStep x y st; rowLoop n' (x + stride) y st'
    end.

Fixpoint frameLoop (n : nat) (y : Z) (st : Z * list Z) : option (Z * list Z) :=
    match n with
    | O => Some st
    | S n' =>
        st' ← rowLoop (loopCount newWidth stride) 0 y st;
        frameLoop n' (y + stride)
          (st'.1 + newWidth * (if (cfaSize =? 2) && (scale =? 1) then 3 else 1), st'.2)
    end.

  (** The rendered 16-bit buffer: [newWidth * newHeight] zero samples, then
      the block stores. *)
Definition renderPixels : option (list Z) :=
    st ← frameLoop (loopCount newHeight stride) 0
           (0, replicate (Z.to_nat (newWidth * newHeight)) 0);
    Some st.2.

End PixelLoop.

(** The transfer applied to the pixels of a block. *)
Inductive Curve := CurveShadingDebug | CurveLinear | CurveLog.

(** The branch taken by the pixel loop: the 2x2-block path tests
    [debugShadingMap] first, the 4x4 quad-Bayer path does not. *)
Definition pixelCurve (cfaSize scale : Z) (debugShadingMap : bool) (mode : LogTransformMode)
  : Curve :=
  if blockPath cfaSize scale then
    if debugShadingMap then CurveShadingDebug
    else if bool_decide (mode = Disabled) then CurveLinear
    else CurveLog
  else
    if bool_decide (mode = Disabled) then CurveLinear else CurveLog.

End Renderer.

(** ** Single-precision values (C++ float) *)

(** Operations on [float]s that can be infinite or NaN.  A finite value is
    the rational it stands for; zero has no sign, it is read as [+0.0]
    where the sign matters (a division by zero). *)

Module F32.
Import Float Renderer.

(** The [float] an operation delivers when its exact result is [x]: the
    nearest one, and an infinity when that is [2^128] or beyond. *)
Definition ofQ (x : Q) : fval :=
  let r := binary32 x in
  if Qle_bool (pow2 128) (Qabs r) then (if Qle_bool 0 r then FPosInf else FNegInf)
  else FFin r.

(** [a / b]. *)
Definition div (a b : fval) : fval :=
  match a, b with
  | FNaN, _ | _, FNaN => FNaN
  | (FPosInf | FNegInf), (FPosInf | FNegInf) => FNaN
  | FPosInf, FFin y => if Qltb y 0 then FNegInf else FPosInf
  | FNegInf, FFin y => if Qltb y 0 then FPosInf else FNegInf
  | FFin _, (FPosInf | FNegInf) => FFin 0
  | FFin x, FFin y =>
      if Qeq_bool y 0 then
        (if Qeq_bool x 0 then FNaN else if Qltb x 0 then FNegInf else FPosInf)
      else ofQ (x / y)
  end.

(** [a * b]. *)
Definition mul (a b : fval) : fval :=
  match a, b with
  | FNaN, _ | _, FNaN => FNaN
  | FPosInf, FPosInf | FNegInf, FNegInf => FPosInf
  | FPosInf, FNegInf | FNegInf, FPosInf => FNegInf
  | FPosInf, FFin y | FFin y, FPosInf =>
      if Qeq_bool y 0 then FNaN else if Qltb y 0 then FNegInf else FPosInf
  | FNegInf, FFin y | FFin y, FNegInf =>
      if Qeq_bool y 0 then FNaN else if Qltb y 0 then FPosInf else FNegInf
  | FFin x, FFin y => ofQ (x * y)
  end.

(** [a + b]. *)
Definition add (a b : fval) : fval :=
  match a, b with
  | FNaN, _ | _, FNaN => FNaN
  | FPosInf, FNegInf | FNegInf, FPosInf => FNaN
  | FPosInf, _ | _, FPosInf => FPosInf
  | FNegInf, _ | _, FNegInf => FNegInf
  | FFin x, FFin y => ofQ (x + y)
  end.

(** [- a] and [a - b]. *)
Definition neg (a : fval) : fval :=
  match a with
  | FNaN => FNaN
  | FPosInf => FNegInf
  | FNegInf => FPosInf
  | FFin x => FFin (- x)
  end.

Definition sub (a b : fval) : fval := add a (neg b).

(** [std::min(a, b)] is [(b < a) ? b : a]; [std::max(a, b)] is
    [(a < b) ? b : a]. *)
Definition min (a b : fval) : fval := if flt b a then b else a.
Definition max (a b : fval) : fval := if flt a b then b else a.

End F32.

(** ** DNG tags (Utils.cpp, generateDng) *)

Module Dng.
Import Renderer.

(** The 2x2 pattern of [cameraConfiguration.sensorArrangement]; any other
    arrangement throws. *)
Definition sensorCfa (sensorArrangement : string) : option (list Z) :=
  if String.eqb sensorArrangement "rggb" then Some [0; 1; 1; 2]
  else if String.eqb sensorArrangement "bggr" then Some [2; 1; 1; 0]
  else if String.eqb sensorArrangement "grbg" then Some [1; 0; 2; 1]
  else if String.eqb sensorArrangement "gbrg" then Some [1; 2; 0; 1]
  else None.

(** [interpretAsQuadBayer = metadata.needRemosaic ||
    settings.options & RENDER_OPT_INTERPRET_AS_QUAD_BAYER]. *)
Definition interpretAsQuadBayer (needRemosaic : bool) (settings : RenderSettings) : bool :=
  needRemosaic || hasOption settings.(options) RENDER_OPT_INTERPRET_AS_QUAD_BAYER.

(** The 16-entry pattern [qcfa] chosen for a 2x2 pattern. *)
Definition quadCfa (cfa : list Z) : list Z :=
  if bool_decide (cfa = [0; 1; 1; 2]) then [0;0;1;1; 0;0;1;1; 1;1;2;2; 1;1;2;2]
  else if bool_decide (cfa = [2; 1; 1; 0]) then [2;2;1;1; 2;2;1;1; 1;1;0;0; 1;1;0;0]
  else if bool_decide (cfa = [1; 0; 2; 1]) then [1;1;0;0; 1;1;0;0; 2;2;1;1; 2;2;1;1]
  else [1;1;2;2; 1;1;2;2; 0;0;1;1; 0;0;1;1].

Record CfaTags := {
  CFARepeatPatternDim : Z * Z;
  CFAPattern : list Z
}.

Definition cfaTags (needRemosaic : bool) (settings : RenderSettings) (cfa : list Z)
  : CfaTags :=
  if interpretAsQuadBayer needRemosaic settings
     && (settings.(draftScale) =? 1)
     && bool_decide (settings.(quadBayerOption) = CorrectQBCFAMetadata)
  then {| CFARepeatPatternDim := (4, 4); CFAPattern := quadCfa cfa |}
  else {| CFARepeatPatternDim := (2, 2); CFAPattern := cfa |}.

(** The CFA tags of a frame, from the sensor arrangement of the container. *)
Definition generateDngCfa (sensorArrangement : string) (needRemosaic : bool)
    (settings : RenderSettings) : option CfaTags :=
  cfa ← sensorCfa sensorArrangement; Some (cfaTags needRemosaic settings cfa).

(** [applyShadingMap], [debugShadingMap] as read from the option bits. *)
Definition applyShadingMapOf (settings : RenderSettings) : bool :=
  hasOption settings.(options) RENDER_OPT_APPLY_VIGNETTE_CORRECTION.
Definition debugShadingMapOf (settings : RenderSettings) : bool :=
  hasOption settings.(options) RENDER_OPT_DEBUG_SHADING_MAP.

(** The guard around the linearization table:
    [logTransform != Disabled && !(logTransform == KeepInput && !applyShadingMap)]. *)
Definition writesLinearizationTable (settings : RenderSettings) : bool :=
  bool_decide (settings.(logTransform) <> Disabled)
  && negb (bool_decide (settings.(logTransform) = KeepInput)
           && negb (applyShadingMapOf settings)).

(** The transfer [preprocessData] applies to the pixels under the same
    settings. *)
Definition renderedCurve (needRemosaic : bool) (settings : RenderSettings) : Curve :=
  pixelCurve (cfaSizeOf (interpretAsQuadBayer needRemosaic settings))
             (evenScale settings.(draftScale))
             (debugShadingMapOf settings) settings.(logTransform).

Record LevelTags := {
  LinearizationTableSize : option Z;
  BlackLevel : list Z;
  WhiteLevel : Z
}.

(** The level tags, from the levels returned by [preprocessData]: with the
    table, [tableSize = dstWhiteLevel + 1] entries, black levels of 0 and
    the white level 65534; without it the levels of the renderer.  The
    entries of the table are computed with [std::pow] and [std::log2] and
    are not modelled. *)
Definition levelTags (settings : RenderSettings) (dstBlackLevel : list Z)
    (dstWhiteLevel : Z) : LevelTags :=
  if writesLinearizationTable settings then
    let tableSize := dstWhiteLevel + 1 in
    {| LinearizationTableSize := Some tableSize;
       BlackLevel := [0; 0; 0; 0];
       WhiteLevel := 65534 |}
  else
    {| LinearizationTableSize := None;
       BlackLevel := dstBlackLevel;
       WhiteLevel := dstWhiteLevel |}.

End Dng.

(** ** Shading map (Utils.cpp, colorOnlyShadingMap) *)

(** The gains that come in are finite floats, given as rationals
    ([list (list Q)]).  The second loop divides floats, which rounds and,
    with a divisor that is zero, gives an infinity or NaN: the map it works
    on holds [fval]s. *)

Module ShadingMap.
Import Renderer.

(** [bool aggressive = false]. *)
Definition aggressive : bool := false.

(** [shadingMap.empty() || shadingMap[0].empty()]. *)
Definition isEmptyMap (shadingMap : list (list Q)) : bool :=
  match shadingMap with
  | [] => true
  | [] :: _ => true
  | _ => false
  end.

(** The maximum over all planes, starting from [0.0f]. *)
Definition maxValueOf (shadingMap : list (list Q)) : Q :=
  foldl (fun acc row => foldl fmax acc row) 0%Q shadingMap.

(** [shadingMap[channel][k]]; undefined outside the plane. *)
Definition cell {A : Type} (shadingMap : list (list A)) (channel : nat) (k : Z) : option A :=
  if k <? 0 then None else row ← shadingMap !! channel; row !! Z.to_nat k.

(** [shadingMap[channel][k] = v]. *)
Definition setCell {A : Type} (shadingMap : list (list A)) (channel : nat) (k : Z) (v : A)
  : option (list (list A)) :=
  if k <? 0 then None
  else row ← shadingMap !! channel;
       if (Z.to_nat k <? length row)%nat
       then Some (<[channel := <[Z.to_nat k := v]> row]> shadingMap)
       else None.

Definition Minima : Type := Q * Q * Q * Q.

(** Body of the first double loop at position [j * width + i], an [int]:
    the minimum of each plane so far. *)
Definition minimaStep (shadingMap : list (list Q)) (position : Z) (mins : Minima)
  : option Minima :=
  let '(m00, m01, m10, m11) := mins in
  k ← int_of position;
  v0 ← cell shadingMap 0 k;
  v1 ← cell shadingMap 1 k;
  v2 ← cell shadingMap 2 k;
  v3 ← cell shadingMap 3 k;
  Some (if Qltb v0 m00 then v0 else m00,
        if Qltb v1 m01 then v1 else m01,
        if Qltb v2 m10 then v2 else m10,
        if Qltb v3 m11 then v3 else m11).

(** The first double loop, starting from [10.0f]. *)
Definition planeMinima (shadingMap : list (list Q)) (width height : Z) : option Minima :=
  forLoop (Z.to_nat height) 0 (fun j acc =>
    forLoop (Z.to_nat width) 0 (fun i acc =>
      minimaStep shadingMap (j * width + i) acc) acc)
    (10%Q, 10%Q, 10%Q, 10%Q).

(** The green channels: [minValue01 = std::min(minValue01, minValue10);
    minValue01 = minValue10;] for RGGB and BGGR, the same on
    [minValue00], [minValue11] for GRBG and GBRG. *)
Definition equaliseGreens (cfa : list Z) (mins : Minima) : Minima :=
  let '(minValue00, minValue01, minValue10, minValue11) := mins in
  if bool_decide (cfa = [0; 1; 1; 2]) || bool_decide (cfa = [2; 1; 1; 0]) then
    let minValue01 := fmin minValue01 minValue10 in
    let minValue01 := minValue10 in
    (minValue00, minValue01, minValue10, minValue11)
  else if bool_decide (cfa = [1; 0; 2; 1]) || bool_decide (cfa = [1; 2; 0; 1]) then
    let minValue00 := fmin minValue00 minValue11 in
    let minValue00 := minValue11 in
    (minValue00, minValue01, minValue10, minValue11)
  else mins.

(** The minima as they stand when the second double loop starts. *)
Definition greenMinima (shadingMap : list (list Q)) (width height : Z) (cfa : list Z)
  : option Minima :=
  mins ← planeMinima shadingMap width height; Some (equaliseGreens cfa mins).

(** The map as the second loop finds it. *)
Definition floats (shadingMap : list (list Q)) : list (list fval) :=
  map (map FFin) shadingMap.

(** [shadingMap[channel][k] = shadingMap[channel][k] / d]. *)
Definition divideCell (d : fval) (k : Z) (channel : nat) (shadingMap : list (list fval))
  : option (list (list fval)) :=
  v ← cell shadingMap channel k; setCell shadingMap channel k (F32.div v d).

(** Body of the second double loop at position [j * width + i], an
    [int]. *)
Definition reduceCell (mins : Minima) (position : Z) (shadingMap : list (list fval))
  : option (list (list fval)) :=
  let '(minValue00, minValue01, minValue10, minValue11) := mins in
  k ← int_of position;
  shadingMap ←
    (if aggressive then
       m ← divideCell (FFin minValue00) k 0 shadingMap;
       m ← divideCell (FFin minValue01) k 1 m;
       m ← divideCell (FFin minValue10) k 2 m;
       divideCell (FFin minValue11) k 3 m
     else Some shadingMap);
  v0 ← cell shadingMap 0 k;
  v1 ← cell shadingMap 1 k;
  v2 ← cell shadingMap 2 k;
  v3 ← cell shadingMap 3 k;
  let localMinValue := F32.min v0 (F32.min v1 (F32.min v2 v3)) in
  forLoop 4 0 (fun channel m => divideCell localMinValue k (Z.to_nat channel) m) shadingMap.

Definition colorOnlyShadingMap (shadingMap : list (list Q)) (lensShadingMapWidth
    lensShadingMapHeight : Z) (cfa : list Z) : option (list (list fval)) :=
  if isEmptyMap shadingMap then Some (floats shadingMap)
  else if Qeq_bool (maxValueOf shadingMap) 0 then Some (floats shadingMap)
  else
    mins ← greenMinima shadingMap lensShadingMapWidth lensShadingMapHeight cfa;
    forLoop (Z.to_nat lensShadingMapHeight) 0 (fun j m =>
      forLoop (Z.to_nat lensShadingMapWidth) 0 (fun i m =>
        reduceCell mins (j * lensShadingMapWidth + i) m) m) (floats shadingMap).

(** *** The reduction as the specification words it

    Not the loops: every gain of the four planes divided by the least of
    the four gains at its position, for the positions below [n].  The loops
    are compared with it. *)

Definition gainAt (shadingMap : list (list Q)) (channel k : nat) : Q :=
  default 0%Q (row ← shadingMap !! channel; row !! k).

Definition leastGainAt (shadingMap : list (list Q)) (k : nat) : Q :=
  fmin (gainAt shadingMap 0 k)
    (fmin (gainAt shadingMap 1 k) (fmin (gainAt shadingMap 2 k) (gainAt shadingMap 3 k))).

Definition reducedBelow (n : nat) (shadingMap : list (list Q)) : list (list fval) :=
  map (imap (fun k v => if (k <? n)%nat then F32.ofQ (v / leastGainAt shadingMap k)
                        else FFin v))
      (take 4 shadingMap)
  ++ floats (drop 4 shadingMap).

(** The float of a map at a position. *)
Definition valueAt (shadingMap : list (list fval)) (channel k : nat) : option fval :=
  row ← shadingMap !! channel; row !! k.

(** [m] is the least of 10 and the gains [gains]. *)
Definition leastWith10 (m : Q) (gains : list Q) : Prop :=
  (m <= 10)%Q /\ Forall (fun v => (m <= v)%Q) gains /\ (m = 10%Q \/ In m gains).

End ShadingMap.

(** ** MCRAW frame indexer (mcraw-decoder.ts) *)

Module Parser.

Definition BLOCK_TYPE_FRAME : Z := 2.
Definition BLOCK_TYPE_AUDIO : Z := 3.

(** [a || b] on a number that may be [undefined]: [undefined] and 0 are
    falsy. *)
Definition orZ (a : option Z) (b : Z) : Z :=
  match a with
  | Some v => if v =? 0 then b else v
  | None => b
  end.

Definition orQ (a : option Q) (b : Q) : Q :=
  match a with
  | Some v => if Qeq_bool v 0 then b else v
  | None => b
  end.

Definition truthyZ (a : option Z) : bool :=
  match a with
  | Some v => negb (v =? 0)
  | None => false
  end.

(** The per-frame JSON object; of its properties the indexer reads
    [timestamp], [None] when the property is absent. *)
Record PerFrameMetadata := {
  pf_timestamp : option Q
}.

(** The object literal [{}]. *)
Definition emptyMetadata : PerFrameMetadata := {| pf_timestamp := None |}.

Record FrameInfo := {
  offset : Z;
  size : Z;
  blockType : Z;
  isCompressed : bool;
  timestamp : Q;
  perFrameMetadata : option PerFrameMetadata
}.

(** The fields of the container JSON the strategies read; [None] is
    [undefined]. *)
Record RawMetadata := {
  sensorWidth : option Z;
  sensorHeight : option Z;
  numSegments : option Z;
  outputWidth : option Z;
  outputHeight : option Z;
  forwardMatrixLength : option Z
}.

(** [view.getUint32(offset, true)]; every call site has checked that the
    four bytes are inside the file. *)
Definition getUint32LE (bytes : list Z) (offset : Z) : Z :=
  byteAt bytes offset + 256 * byteAt bytes (offset + 1)
  + 65536 * byteAt bytes (offset + 2) + 16777216 * byteAt bytes (offset + 3).

(** [bytes[i] === v]. *)
Definition byteIs (bytes : list Z) (i v : Z) : bool :=
  if i <? 0 then false
  else match bytes !! Z.to_nat i with
       | Some b => b =? v
       | None => false
       end.

Definition isZstdCompressed (bytes : list Z) (offset : Z) : bool :=
  if len bytes <? offset + 4 then false
  else byteIs bytes offset 0x28 && byteIs bytes (offset + 1) 0xb5
       && byteIs bytes (offset + 2) 0x2f && byteIs bytes (offset + 3) 0xfd.

(** [bytes.slice(from, to)]. *)
Definition slice (bytes : list Z) (from to : Z) : list Z :=
  take (Z.to_nat (to - from)) (drop (Z.to_nat from) bytes).

(** [Math.floor((width * height * 12) / 8)]. *)
Definition expected12BitSize (raw : RawMetadata) : Z :=
  let width := orZ raw.(sensorWidth) 4032 in
  let height := orZ raw.(sensorHeight) 3024 in
  (width * height * 12) / 8.

(** [blockSize < expected12BitSize * 0.9]; on these integers the comparison
    of the doubles agrees with the comparison of the exact products. *)
Definition belowNineTenths (blockSize expected : Z) : bool :=
  Qltb (inject_Z blockSize) (inject_Z expected * (9 # 10))%Q.

Section TypePrefixed.

  (** [JSON.parse(new TextDecoder().decode(data))] on the payload of a
      type-3 block: [None] when it throws, otherwise the parsed value
      (a value that is not an object has no [timestamp]). *)
Variable parseJson : list Z -> option PerFrameMetadata.

Record ScanState := {
    st_offset : Z;
    st_frames : list FrameInfo;
    st_frameCount : Z;
    st_invalid : Z;
    st_current : option PerFrameMetadata
  }.

  (** The [while] loop of [scanTypePrefixedBlocks]; the counters that only
      feed the log are left out.  Every iteration advances [offset], so the
      file length bounds the number of iterations. *)
Fixpoint scanTypedLoop (fuel : nat) (bytes : list Z) (expected : Z) (st : ScanState)
    : ScanState :=
    match fuel with
    | O => st
    | S fuel' =>
        let offset := st.(st_offset) in
        if (offset <? len bytes - 8) && (st.(st_invalid) <? 5) then
          if len bytes <? offset + 8 then st
          else
            let blockType := getUint32LE bytes offset in
            let blockSize := getUint32LE bytes (offset + 4) in
            let isValidFrame := (blockType =? BLOCK_TYPE_FRAME) && (1024 <=? blockSize)
                                && (blockSize <=? 50 * 1024 * 1024) in
            let isValidAudio := (blockType =? BLOCK_TYPE_AUDIO) && (100 <=? blockSize)
                                && (blockSize <=? 10 * 1024 * 1024) in
            if negb isValidFrame && negb isValidAudio then
              scanTypedLoop fuel' bytes expected
                {| st_offset := offset + 1; st_frames := st.(st_frames);
                   st_frameCount := st.(st_frameCount);
                   st_invalid := st.(st_invalid) + 1;
                   st_current := st.(st_current) |}
            else if isValidFrame then
              let dataOffset := offset + 8 in
              let frameMetadata := default emptyMetadata st.(st_current) in
              let info :=
                {| offset := dataOffset;
                   size := blockSize;
                   blockType := BLOCK_TYPE_FRAME;
                   timestamp := orQ frameMetadata.(pf_timestamp)
                                  (inject_Z st.(st_frameCount) * (1000000 / 24))%Q;
                   isCompressed := belowNineTenths blockSize expected;
                   perFrameMetadata := Some frameMetadata |} in
              scanTypedLoop fuel' bytes expected
                {| st_offset := offset + 8 + blockSize;
                   st_frames := st.(st_frames) ++ [info];
                   st_frameCount := st.(st_frameCount) + 1;
                   st_invalid := 0;
                   st_current := None |}
            else
              let audioData := slice bytes (offset + 8) (offset + 8 + blockSize) in
              scanTypedLoop fuel' bytes expected
                {| st_offset := offset + 8 + blockSize;
                   st_frames := st.(st_frames);
                   st_frameCount := st.(st_frameCount);
                   st_invalid := 0;
                   st_current := match parseJson audioData with
                                 | Some audioMetadata => Some audioMetadata
                                 | None => st.(st_current)
                                 end |}
        else st
    end.

  (** Strategy 1; the frames pushed and the returned [frameCount]. *)
Definition scanTypePrefixedBlocks (bytes : list Z) (raw : RawMetadata) (startOffset : Z)
    : list FrameInfo * Z :=
    let st := scanTypedLoop (length bytes) bytes (expected12BitSize raw)
                {| st_offset := startOffset; st_frames := [];
                   st_frameCount := 0; st_invalid := 0; st_current := None |} in
    (st.(st_frames), st.(st_frameCount)).

End TypePrefixed.

(** Strategy 2, the [while] loop of [scanSizePrefixedZstd]. *)
Fixpoint scanSizePrefixedLoop (fuel : nat) (bytes : list Z) (offset : Z)
         (frameInfos : list FrameInfo) : list FrameInfo :=
  match fuel with
  | O => frameInfos
  | S fuel' =>
      if offset <? len bytes - 8 then
        let size := getUint32LE bytes offset in
        if (1024 <=? size) && (size <=? 50 * 1024 * 1024)
           && (offset + 4 + size <=? len bytes)
           && isZstdCompressed bytes (offset + 4)
        then
          scanSizePrefixedLoop fuel' bytes (offset + 4 + size)
            (frameInfos ++
             [ {| offset := offset + 4;
                  size := size;
                  blockType := BLOCK_TYPE_FRAME;
                  isCompressed := true;
                  timestamp := (inject_Z (Z.of_nat (length frameInfos)) * (1000 / 24))%Q;
                  perFrameMetadata := None |} ])
        else frameInfos
      else frameInfos
  end.

Definition scanSizePrefixedZstd (bytes : list Z) (startOffset : Z) : list FrameInfo :=
  scanSizePrefixedLoop (length bytes) bytes startOffset [].

(** Strategy 3, first loop: the offsets of the zstd signatures; a hit skips
    100 bytes on top of the increment. *)
Fixpoint findZstdMagic (fuel : nat) (bytes : list Z) (i : Z) (frameOffsets : list Z)
  : list Z :=
  match fuel with
  | O => frameOffsets
  | S fuel' =>
      if i <? len bytes - 4 then
        if byteIs bytes i 0x28 && byteIs bytes (i + 1) 0xb5
           && byteIs bytes (i + 2) 0x2f && byteIs bytes (i + 3) 0xfd
        then findZstdMagic fuel' bytes (i + 100 + 1) (frameOffsets ++ [i])
        else findZstdMagic fuel' bytes (i + 1) frameOffsets
      else frameOffsets
  end.

(** Strategy 3, second loop, over the indices of [frameOffsets]. *)
Definition magicFrame (bytes : list Z) (frameOffsets : list Z) (i : Z)
    (frameInfos : list FrameInfo) : option (list FrameInfo) :=
  offset ← frameOffsets !! Z.to_nat i;
  let nextOffset :=
    if i <? len frameOffsets - 1
    then default 0 (frameOffsets !! Z.to_nat (i + 1)) else len bytes in
  let size := nextOffset - offset in
  if (100 <=? size) && (size <=? 100 * 1024 * 1024) then
    Some (frameInfos ++
          [ {| offset := offset;
               size := size;
               blockType := BLOCK_TYPE_FRAME;
               isCompressed := true;
               timestamp := (inject_Z i * (1000 / 24))%Q;
               perFrameMetadata := None |} ])
  else Some frameInfos.

Definition scanZstdMagic (bytes : list Z) (startOffset : Z) : list FrameInfo :=
  let frameOffsets := findZstdMagic (length bytes) bytes startOffset [] in
  default [] (forLoop (length frameOffsets) 0 (magicFrame bytes frameOffsets) []).

(** Strategy 4, [applyFixedFrameSize]. *)
Definition fixedFrame (bytes : list Z) (startOffset frameSize i : Z)
    (frameInfos : list FrameInfo) : option (list FrameInfo) :=
  let offset := startOffset + i * frameSize in
  if offset + frameSize <=? len bytes then
    Some (frameInfos ++
          [ {| offset := offset;
               size := frameSize;
               blockType := BLOCK_TYPE_FRAME;
               isCompressed := isZstdCompressed bytes offset;
               timestamp := (inject_Z i * (1000 / 24))%Q;
               perFrameMetadata := None |} ])
  else Some frameInfos.

Definition applyFixedFrameSize (bytes : list Z) (raw : RawMetadata) (startOffset : Z)
  : list FrameInfo :=
  if negb (truthyZ raw.(numSegments)) || (default 0 raw.(numSegments) <=? 0) then []
  else
    let numSegments := default 0 raw.(numSegments) in
    let dataSize := len bytes - startOffset in
    let frameSize := dataSize / numSegments in
    if frameSize <? 1024 then []
    else default [] (forLoop (Z.to_nat numSegments) 0
                       (fixedFrame bytes startOffset frameSize) []).

(** Strategy 5, [scanRawBayerBlocks]; the conditional binds as
    [(outputWidth || forwardMatrix.length > 0) ? 4032 : 0]. *)
Definition rawFrame (startOffset expectedFrameSize i : Z) (frameInfos : list FrameInfo)
  : option (list FrameInfo) :=
  Some (frameInfos ++
        [ {| offset := startOffset + i * expectedFrameSize;
             size := expectedFrameSize;
             blockType := BLOCK_TYPE_FRAME;
             isCompressed := false;
             timestamp := (inject_Z i * (1000 / 24))%Q;
             perFrameMetadata := None |} ]).

Definition scanRawBayerBlocks (bytes : list Z) (raw : RawMetadata) (startOffset : Z)
  : list FrameInfo :=
  let hasForward := match raw.(forwardMatrixLength) with
                    | Some n => 0 <? n
                    | None => false
                    end in
  let width := if truthyZ raw.(outputWidth) || hasForward then 4032 else 0 in
  let height := if truthyZ raw.(outputHeight) || hasForward then 3024 else 0 in
  if (width =? 0) || (height =? 0) then []
  else
    let expectedFrameSize := width * height * 2 in
    let dataSize := len bytes - startOffset in
    let possibleFrames := dataSize / expectedFrameSize in
    if possibleFrames =? 0 then []
    else default [] (forLoop (Z.to_nat possibleFrames) 0
                       (rawFrame startOffset expectedFrameSize) []).

Section ScanFrameBlocks.

Variable parseJson : list Z -> option PerFrameMetadata.

  (** [scanFrameBlocks]: the strategies in order, the first that reports a
      frame wins.  The result is the number of the strategy (0 when none
      found a frame) and [this.frameInfos]. *)
Definition scanFrameBlocks (bytes : list Z) (raw : RawMetadata) (startOffset : Z)
    : Z * list FrameInfo :=
    let '(frames1, blocksFound) := scanTypePrefixedBlocks parseJson bytes raw startOffset in
    if 0 <? blocksFound then (1, frames1)
    else
      let frames2 := scanSizePrefixedZstd bytes startOffset in
      if (0 <? length frames2)%nat then (2, frames2)
      else
        let frames3 := scanZstdMagic bytes startOffset in
        if (0 <? length frames3)%nat then (3, frames3)
        else
          let frames4 := applyFixedFrameSize bytes raw startOffset in
          if (0 <? length frames4)%nat then (4, frames4)
          else
            let frames5 := scanRawBayerBlocks bytes raw startOffset in
            if (0 <? length frames5)%nat then (5, frames5)
            else (0, []).

End ScanFrameBlocks.

End Parser.

(** ** Frame rate inference (mcraw-decoder.ts, calculateFpsFromTimestamps) *)

(** JavaScript numbers are IEEE doubles: every subtraction and division
    below is rounded with [binary64].  The timestamps are finite numbers.
    The exponent is not bounded from above: where the code gets
    [Infinity] (a difference or a quotient of 2^1024 or more) the model
    has that large number, and both take the same branches: it is more
    than every threshold, no rate is close to it, and rounded it is not
    below 1000. *)

Module Fps.
Import Float.

(** The positive differences of consecutive timestamps. *)
Fixpoint deltasFrom (previous : Q) (rest : list Q) : list Q :=
  match rest with
  | [] => []
  | t :: rest' =>
      let delta := binary64 (t - previous) in
      (if Qltb 0 delta then [delta] else []) ++ deltasFrom t rest'
  end.

Definition deltasOf (timestamps : list Q) : list Q :=
  match timestamps with
  | [] => []
  | t :: rest => deltasFrom t rest
  end.

(** [deltas.sort((a, b) => a - b)]: ascending order; the sign of the
    rounded difference of two doubles is the sign of their difference. *)
Fixpoint insertSorted (x : Q) (l : list Q) : list Q :=
  match l with
  | [] => [x]
  | y :: l' => if Qle_bool x y then x :: l else y :: insertSorted x l'
  end.

Definition sortAscending (l : list Q) : list Q := foldr insertSorted [] l.

(** The unit inference on the median delta. *)
Definition rawFpsOf (medianDelta : Q) : Q :=
  if Qltb 10000000 medianDelta then binary64 (1000000000 / medianDelta)
  else if Qltb 10000 medianDelta then binary64 (1000000 / medianDelta)
  else if Qltb 10 medianDelta then binary64 (1000 / medianDelta)
  else binary64 (1 / medianDelta).

(** The literals [29.97], [59.94] and [0.05] are the nearest doubles. *)
Definition rate2997 : Q := Eval vm_compute in binary64 (2997 # 100).
Definition rate5994 : Q := Eval vm_compute in binary64 (5994 # 100).
Definition fivePercent : Q := Eval vm_compute in binary64 (5 # 100).

Definition commonRates : list Q :=
  [ 18; 24; 25; rate2997; 30; 48; 50; rate5994; 60; 120 ]%Q.

(** [Math.abs(rawFps - rate) / rate < 0.05]. *)
Definition closeTo (rawFps rate : Q) : bool :=
  Qltb (binary64 (Qabs (binary64 (rawFps - rate)) / rate)) fivePercent.

(** The [for (const rate of commonRates)] loop: the first rate that is
    close is returned. *)
Fixpoint snapToCommon (rates : list Q) (rawFps : Q) : option Q :=
  match rates with
  | [] => None
  | rate :: rates' =>
      if closeTo rawFps rate then Some rate else snapToCommon rates' rawFps
  end.

(** [Math.round]: the nearest whole number, the larger of two that are
    equally near; it is exact. *)
Definition jsRound (x : Q) : Z := Qfloor (x + (1 # 2))%Q.

(** The raw rate of a timestamp vector; [None] on the two paths that
    return the default before a median exists. *)
Definition rawFpsOfTimestamps (timestamps : list Q) : option Q :=
  if (length timestamps <? 2)%nat then None
  else
    let deltas := sortAscending (deltasOf timestamps) in
    medianDelta ← deltas !! (length deltas / 2)%nat;
    Some (rawFpsOf medianDelta).

Definition calculateFpsFromTimestamps (timestamps : list Q) : Q :=
  match rawFpsOfTimestamps timestamps with
  | None => 24%Q
  | Some rawFps =>
      match snapToCommon commonRates rawFps with
      | Some rate => rate
      | None =>
          let result := jsRound rawFps in
          if (0 <? result) && (result <? 1000) then inject_Z result else 24%Q
      end
  end.

End Fps.

(** ** Batch processing (client-mcraw-processor.ts, processClientSideMcraw) *)

Module Processor.

(** What happens to frame [i] inside the [try]: it is decoded and encoded,
    or [decodeFrame] hands back a frame without data, or something throws. *)
Inductive FrameOutcome := FrameProcessed | FrameNoData | FrameThrows.

Inductive JobError :=
  | NoFramesFound
  | TooManyFrameFailures (failedFrames framesToProcess : Z)
  | NoFrameProcessed.

Record ProcessingResult := {
  successfulFrames : Z;
  failedFrames : Z;
  totalFrames : Z
}.

Inductive JobOutcome :=
  | JobThrows (e : JobError)
  | JobReturns (r : ProcessingResult).

(** [failedFrames > framesToProcess * 0.8]; on these integers the doubles
    compare as the exact products do. *)
Definition overThreshold (failed framesToProcess : Z) : bool :=
  Qltb (inject_Z framesToProcess * (8 # 10))%Q (inject_Z failed).

(** The [for (i = startFrame; i <= endFrame; i++)] loop on the two
    counters. *)
Fixpoint frameLoop (fuel : nat) (outcome : Z -> FrameOutcome) (i framesToProcess : Z)
         (successful failed : Z) : JobError + (Z * Z) :=
  match fuel with
  | O => inr (successful, failed)
  | S fuel' =>
      match outcome i with
      | FrameNoData =>
          frameLoop fuel' outcome (i + 1) framesToProcess successful (failed + 1)
      | FrameProcessed =>
          frameLoop fuel' outcome (i + 1) framesToProcess (successful + 1) failed
      | FrameThrows =>
          let failed := failed + 1 in
          if overThreshold failed framesToProcess
          then inl (TooManyFrameFailures failed framesToProcess)
          else frameLoop fuel' outcome (i + 1) framesToProcess successful failed
      end
  end.

(** [processClientSideMcraw] after the container is parsed: [frameCount] is
    [decoder.getFrameCount()], [rangeStart] and [rangeEnd] are
    [settings.frameRange?.start] and [?.end]. *)
Definition processClientSideMcraw (frameCount : Z) (rangeStart rangeEnd : option Z)
    (outcome : Z -> FrameOutcome) : JobOutcome :=
  if frameCount =? 0 then JobThrows NoFramesFound
  else
    let startFrame := Parser.orZ rangeStart 0 in
    let endFrame := Z.min (Parser.orZ rangeEnd (frameCount - 1)) (frameCount - 1) in
    let framesToProcess := endFrame - startFrame + 1 in
    match frameLoop (Z.to_nat framesToProcess) outcome startFrame framesToProcess 0 0 with
    | inl e => JobThrows e
    | inr (successful, failed) =>
        if successful =? 0 then JobThrows NoFrameProcessed
        else JobReturns {| successfulFrames := successful;
                           failedFrames := failed;
                           totalFrames := framesToProcess |}
    end.

End Processor.

(** ** Example containers *)

Module Examples.

(** A 32-bit little-endian field. *)
Definition le32 (v : Z) : list Z :=
  [ v mod 256; (v / 256) mod 256; (v / 65536) mod 256; (v / 16777216) mod 256 ].

(** A typed block [type:u32, size:u32, payload]. *)
Definition typedBlock (blockType : Z) (payload : list Z) : list Z :=
  le32 blockType ++ le32 (len payload) ++ payload.

(** [n] bytes that open with the zstd magic [28 B5 2F FD]. *)
Definition zstdPayload (n : nat) : list Z :=
  [0x28; 0xb5; 0x2f; 0xfd] ++ replicate (n - 4) 0.

(** Container metadata of a 32 x 32 sensor: a 12-bit packed frame has 1536
    bytes. *)
Definition smallSensor : Parser.RawMetadata :=
  {| Parser.sensorWidth := Some 32; Parser.sensorHeight := Some 32;
     Parser.numSegments := None; Parser.outputWidth := None;
     Parser.outputHeight := None; Parser.forwardMatrixLength := None |}.

(** Container metadata that only announces two segments. *)
Definition twoSegments : Parser.RawMetadata :=
  {| Parser.sensorWidth := None; Parser.sensorHeight := None;
     Parser.numSegments := Some 2; Parser.outputWidth := None;
     Parser.outputHeight := None; Parser.forwardMatrixLength := None |}.

(** A payload region of one frame block of 1400 bytes that opens with the
    zstd magic. *)
Definition magicFrameContainer : list Z := typedBlock 2 (zstdPayload 1400).

(** A payload region of two frame blocks of 1024 zero bytes, without any
    type-3 block. *)
Definition twoPlainFrames : list Z :=
  typedBlock 2 (replicate 1024 0) ++ typedBlock 2 (replicate 1024 0).

(** A payload region of 2048 zero bytes. *)
Definition zeroPayload : list Z := replicate 2048 0.

(** No type-3 payload parses as JSON. *)
Definition noJson : list Z -> option Parser.PerFrameMetadata := fun _ => None.

(** A type-3 block of 100 bytes followed by one frame block. *)
Definition annotatedFrame : list Z :=
  typedBlock 3 (replicate 100 0x20) ++ typedBlock 2 (replicate 1024 0).

(** Every type-3 payload parses as an object with [timestamp = 777]. *)
Definition stampedJson : list Z -> option Parser.PerFrameMetadata :=
  fun _ => Some {| Parser.pf_timestamp := Some 777%Q |}.

End Examples.

(** ** Time code and frame rate (Utils.cpp) *)

(** [std::round]: halfway cases go away from zero. *)
Definition cRound (x : Q) : Z :=
  if Qle_bool 0 x then Qfloor (x + (1 # 2))%Q else Qceiling (x - (1 # 2))%Q.

(** [static_cast<int>(x)], [(int) x]: truncation towards zero, undefined
    when the truncated value is not an [int]. *)
Definition float_to_int (x : Q) : option Z :=
  let t := Qtrunc x in
  if (- 2 ^ 31 <=? t) && (t <? 2 ^ 31) then Some t else None.

Module Timecode.

(** [ToTimecodeByte]: [/] and [%] on [int] truncate towards zero; the
    result is stored into a [uint8_t], which keeps it modulo 256 whatever
    the width the [int] expression was computed in. *)
Definition ToTimecodeByte (value : Z) : Z :=
  to_u8 (Z.lor (Z.shiftl (Z.quot value 10) 4) (Z.rem value 10)).

(** The eight bytes handed to [SetTimeCode] by [generateDng]; the vector is
    created zeroed and only its first four bytes are assigned.  A frame rate
    of 0 makes [time] infinite or NaN, whose conversion to [int] is
    undefined. *)
Definition timeCode (frameNumber : Z) (recordingFps : Q) : option (list Z) :=
  if Qeq_bool recordingFps 0 then None
  else
    let time := (inject_Z frameNumber / recordingFps)%Q in
    hours ← float_to_int (inject_Z (Qfloor (time / 3600)));
    m ← float_to_int (inject_Z (Qfloor (time / 60)));
    s ← float_to_int (inject_Z (Qfloor time));
    let minutes := Z.rem m 60 in
    let seconds := Z.rem s 60 in
    frames ← (if Qltb 1 recordingFps
              then r ← float_to_int (inject_Z (cRound recordingFps));
                   Some (Z.rem frameNumber r)
              else Some 0);
    Some [ to_u8 (Z.land (ToTimecodeByte frames) 0x3F);
           to_u8 (Z.land (ToTimecodeByte seconds) 0x7F);
           to_u8 (Z.land (ToTimecodeByte minutes) 0x7F);
           to_u8 (Z.land (ToTimecodeByte hours) 0x3F);
           0; 0; 0; 0 ].

End Timecode.

Module FrameRate.

(** [a % b] and [a / b] on [int]: undefined when [b] is zero and for
    [INT_MIN] by [-1], whose quotient is not an [int]. *)
Definition int_rem (a b : Z) : option Z :=
  if (b =? 0) || ((a =? - 2 ^ 31) && (b =? -1)) then None else Some (Z.rem a b).

Definition int_quot (a b : Z) : option Z :=
  if (b =? 0) || ((a =? - 2 ^ 31) && (b =? -1)) then None else Some (Z.quot a b).

(** [gcd]: one iteration of the loop per unit of fuel.  The remainder is
    at most half of [a] in absolute value from the second iteration on, so
    the fuel given by [gcd] is never used up. *)
Fixpoint gcd_loop (fuel : nat) (a b : Z) : option Z :=
  match fuel with
  | O => None
  | S fuel' => if b =? 0 then Some a else r ← int_rem a b; gcd_loop fuel' b r
  end.

Definition gcd (a b : Z) : option Z :=
  gcd_loop (Z.to_nat (Z.log2 (Z.abs a) + Z.log2 (Z.abs b) + 4)) a b.

(** [toFraction]: [frameRate * base] is a [float] product, of the rate by
    the base converted to [float]; [std::round] of it is exact. *)
Definition toFraction (frameRate : Q) (base : Z) : option (Z * Z) :=
  if Qle_bool frameRate 0 then Some (0, 1)
  else
    numerator ← float_to_int
      (inject_Z (cRound (Float.binary32 (frameRate * Float.binary32 (inject_Z base)))));
    let denominator := base in
    divisor ← gcd numerator denominator;
    numerator ← int_quot numerator divisor;
    denominator ← int_quot denominator divisor;
    Some (numerator, denominator).

End FrameRate.

(** ** Output size and source reads (Utils.cpp, preprocessData) *)

Module Geometry.
Import Renderer.

(** [newWidth], [newHeight]: the crop target is used when both of its sides
    are positive and fit into the frame; both sides are then divided by the
    (even) [scale] and aligned down to a multiple of 4.  [cropWidth] and
    [cropHeight] are the numbers parsed from [cropTarget], 0 when it has
    none. *)
Definition newDimensions (inOutWidth inOutHeight cropWidth cropHeight scale : Z) : Z * Z :=
  let '(newWidth, newHeight) :=
    if (0 <? cropWidth) && (0 <? cropHeight)
       && (cropWidth <=? inOutWidth) && (cropHeight <=? inOutHeight)
    then (cropWidth / scale, cropHeight / scale)
    else (inOutWidth / scale, inOutHeight / scale) in
  ((newWidth / 4) * 4, (newHeight / 4) * 4).

(** The sixteen samples [s[0..15]] of the 4x4 quad-Bayer path, in the order
    of the initialiser: row and column offsets from [(srcY, srcX)]. *)
Definition quadOffsets : list (Z * Z) :=
  [ (0, 0); (0, 1); (1, 0); (1, 1);
    (0, 2); (0, 3); (1, 2); (1, 3);
    (2, 0); (2, 1); (3, 0); (3, 1);
    (2, 2); (2, 3); (3, 2); (3, 3) ].

Definition fetchQuad (srcData : list Z) (originalWidth srcX srcY : Z) : option (list Z) :=
  mapM (fun '(dy, dx) => srcAt srcData ((srcY + dy) * originalWidth + srcX + dx)) quadOffsets.

(** The samples read for the block at [(x, y)]. *)
Definition sourceBlock (srcData : list Z) (originalWidth cfaSize scale x y : Z)
  : option (list Z) :=
  let srcY := y * scale in
  let srcX := x * scale in
  if blockPath cfaSize scale
  then fetchBlock srcData originalWidth cfaSize scale srcX srcY
  else fetchQuad srcData originalWidth srcX srcY.

(** The positions [(x, y)] visited by the two loops, in order. *)
Definition blockPositions (newWidth newHeight step : Z) : list (Z * Z) :=
  y ← (fun j => Z.of_nat j * step) <$> seq 0 (loopCount newHeight step);
  x ← (fun i => Z.of_nat i * step) <$> seq 0 (loopCount newWidth step);
  [(x, y)].

(** The source samples of every block of the frame; [None] as soon as one
    read leaves the source buffer. *)
Definition sourceBlocks (srcData : list Z) (originalWidth newWidth newHeight cfaSize scale : Z)
  : option (list (list Z)) :=
  mapM (fun '(x, y) => sourceBlock srcData originalWidth cfaSize scale x y)
       (blockPositions newWidth newHeight (stride cfaSize scale)).

End Geometry.

(** ** Shading map: normalisation, inversion, lookup (Utils.cpp) *)

Module Shading.
Import ShadingMap.


(** [invertShadingMap]: left alone as soon as one gain is not positive;
    otherwise every gain becomes the [float] quotient [1 / value], which is
    [+inf] for a gain so small that the quotient overflows. *)
Definition invertShadingMap (shadingMap : list (list Q)) : list (list Renderer.fval) :=
  if isEmptyMap shadingMap then floats shadingMap
  else if existsb (existsb (fun value => Qle_bool value 0)) shadingMap
       then floats shadingMap
       else map (map (fun value => F32.div (Renderer.FFin 1) (Renderer.FFin value)))
                shadingMap.

(** [getShadingMapValue]: bilinear interpolation between the four grid
    points around [(x, y)], in [float] arithmetic; the coordinates are
    finite.  [lensShadingMapWidth - 1] is converted to [float] for the
    product, [x0] for the difference; [std::floor], [std::min] and
    [std::max] are exact.  The indices are [int]s; a read outside the plane
    is undefined. *)
Definition getShadingMapValue (x y : Q) (channel : Z) (lensShadingMap : list (list Q))
    (lensShadingMapWidth lensShadingMapHeight : Z) : option Renderer.fval :=
  let x := fmax 0 (fmin 1 x) in
  let y := fmax 0 (fmin 1 y) in
  lastX ← int_of (lensShadingMapWidth - 1);
  lastY ← int_of (lensShadingMapHeight - 1);
  let mapX := Float.binary32 (x * Float.binary32 (inject_Z lastX)) in
  let mapY := Float.binary32 (y * Float.binary32 (inject_Z lastY)) in
  x0 ← float_to_int (inject_Z (Qfloor mapX));
  y0 ← float_to_int (inject_Z (Qfloor mapY));
  nextX ← int_of (x0 + 1);
  nextY ← int_of (y0 + 1);
  let x1 := Z.min nextX lastX in
  let y1 := Z.min nextY lastY in
  let wx := Renderer.FFin (Float.binary32 (mapX - Float.binary32 (inject_Z x0))) in
  let wy := Renderer.FFin (Float.binary32 (mapY - Float.binary32 (inject_Z y0))) in
  if channel <? 0 then None
  else
    row0 ← int_of (y0 * lensShadingMapWidth);
    row1 ← int_of (y1 * lensShadingMapWidth);
    i00 ← int_of (row0 + x0);
    i01 ← int_of (row0 + x1);
    i10 ← int_of (row1 + x0);
    i11 ← int_of (row1 + x1);
    val00 ← cell lensShadingMap (Z.to_nat channel) i00;
    val01 ← cell lensShadingMap (Z.to_nat channel) i01;
    val10 ← cell lensShadingMap (Z.to_nat channel) i10;
    val11 ← cell lensShadingMap (Z.to_nat channel) i11;
    let one := Renderer.FFin 1 in
    let valTop := F32.add (F32.mul (Renderer.FFin val00) (F32.sub one wx))
                          (F32.mul (Renderer.FFin val01) wx) in
    let valBottom := F32.add (F32.mul (Renderer.FFin val10) (F32.sub one wx))
                             (F32.mul (Renderer.FFin val11) wx) in
    Some (F32.add (F32.mul valTop (F32.sub one wy)) (F32.mul valBottom wy)).

End Shading.

(** ** Lens shading gain map (Utils.cpp, createLensShadingOpcodeList) *)

Module GainMap.
Import Renderer.

(** Arithmetic on [unsigned int]. *)
Definition to_u32 (x : Z) : Z := x mod 2 ^ 32.

Record GainMapParams := {
  top : Z; left : Z; bottom : Z; right : Z;
  plane : Z; planes : Z;
  row_pitch : Z; col_pitch : Z;
  map_points_v : Z; map_points_h : Z;
  map_spacing_v : Q; map_spacing_h : Q;
  map_origin_v : Q; map_origin_h : Q;
  map_planes : Z;
  gain_data : list Q
}.

(** The gain written for a map entry: 1 for a value that is not finite or
    not positive, at most 16. *)
Definition sanitisedGain (gain : fval) : Q :=
  match gain with
  | FFin g => if Qle_bool g 0 then 1%Q else if Qltb 16 g then 16%Q else g
  | _ => 1%Q
  end.

(** The gain pushed for plane [p] at grid point [(v, h)]: the entry of the
    source plane when the plane has one at [v * mapPointsH + h], 1
    otherwise.  [srcPlane] is always a plane of the map. *)
Definition gainAtPoint (lensShadingMap : list (list fval)) (mapPointsH p v h : Z) : Q :=
  let srcPlane := if p <? Z.of_nat (length lensShadingMap) then p else 0 in
  let index := v * mapPointsH + h in
  let plane := default [] (lensShadingMap !! Z.to_nat srcPlane) in
  if index <? Z.of_nat (length plane)
  then sanitisedGain (default FNaN (plane !! Z.to_nat index))
  else 1%Q.

(** [createLensShadingOpcodeList]: the parameters of the gain map added to
    the opcode list, [None] when the list is returned empty.  [imageWidth]
    and [imageHeight] are [uint32_t], [left] and [top] are [int]. *)
Definition createLensShadingOpcodeList (lensShadingMap : list (list fval))
    (lensShadingMapWidth lensShadingMapHeight imageWidth imageHeight left top : Z)
  : option GainMapParams :=
  match lensShadingMap with
  | [] => None
  | firstPlane :: _ =>
      if (lensShadingMapWidth <=? 0) || (lensShadingMapHeight <=? 0) then None
      else
        let availablePlanes := to_u32 (Z.of_nat (length lensShadingMap)) in
        let availablePlanes := if availablePlanes =? 0 then 1 else availablePlanes in
        let planes := if 4 <=? availablePlanes then 4
                      else if 3 <=? availablePlanes then 3 else 1 in
        let mapPointsV := to_u32 lensShadingMapHeight in
        let mapPointsH := to_u32 lensShadingMapWidth in
        let imageRows := imageHeight in
        let imageCols := imageWidth in
        let rowPitch := if 1 <? mapPointsV
                        then Z.max 1 (to_u32 (imageRows - 1) / (mapPointsV - 1))
                        else imageRows in
        let colPitch := if 1 <? mapPointsH
                        then Z.max 1 (to_u32 (imageCols - 1) / (mapPointsH - 1))
                        else imageCols in
        match firstPlane with
        | [] => None
        | _ :: _ =>
            let expectedSize := mapPointsV * mapPointsH * planes in
            let gains :=
              p ← seqZ 0 planes; v ← seqZ 0 mapPointsV; h ← seqZ 0 mapPointsH;
              [gainAtPoint lensShadingMap mapPointsH p v h] in
            if Z.of_nat (length gains) =? expectedSize then
              Some {| top := to_u32 (Z.max 0 top);
                      left := to_u32 (Z.max 0 left);
                      bottom := to_u32 (Z.max 0 top + imageHeight);
                      right := to_u32 (Z.max 0 left + imageWidth);
                      plane := 0;
                      planes := planes;
                      row_pitch := rowPitch;
                      col_pitch := colPitch;
                      map_points_v := mapPointsV;
                      map_points_h := mapPointsH;
                      map_spacing_v := if 0 <? imageRows
                                       then (inject_Z rowPitch / inject_Z imageRows)%Q
                                       else 0%Q;
                      map_spacing_h := if 0 <? imageCols
                                       then (inject_Z colPitch / inject_Z imageCols)%Q
                                       else 0%Q;
                      map_origin_v := if 0 <? imageRows
                                      then (inject_Z (Z.max 0 top) / inject_Z imageRows)%Q
                                      else 0%Q;
                      map_origin_h := if 0 <? imageCols
                                      then (inject_Z (Z.max 0 left) / inject_Z imageCols)%Q
                                      else 0%Q;
                      map_planes := planes;
                      gain_data := gains |}
            else None
        end
  end.

End GainMap.

(** ** Settings: mode names and option bits (Types.h, mainwindow.cpp) *)

Module Settings.

Definition RENDER_OPT_NONE : Z := 0.
Definition RENDER_OPT_DRAFT : Z := Z.shiftl 1 0.
Definition RENDER_OPT_NORMALIZE_EXPOSURE : Z := Z.shiftl 1 5.
Definition RENDER_OPT_FRAMERATE_CONVERSION : Z := Z.shiftl 1 6.
Definition RENDER_OPT_CROPPING : Z := Z.shiftl 1 7.
Definition RENDER_OPT_CAMMODEL_OVERRIDE : Z := Z.shiftl 1 8.

Definition quadBayerModeToString (mode : QuadBayerMode) : string :=
  match mode with
  | Remosaic => "Remosaic"
  | WrongCFAMetadata => "Wrong CFA Metadata"
  | CorrectQBCFAMetadata => "Correct QBCFA Metadata"
  end.

Definition stringToQuadBayerMode (str : string) : QuadBayerMode :=
  if String.eqb str "Remosaic" then Remosaic
  else if String.eqb str "Wrong CFA Metadata" then WrongCFAMetadata
  else if String.eqb str "Correct QBCFA Metadata" then CorrectQBCFAMetadata
  else Remosaic.

Definition logTransformModeToString (mode : LogTransformMode) : string :=
  match mode with
  | Disabled => ""
  | KeepInput => "Keep Input"
  | ReduceBy2Bit => "Reduce by 2bit"
  | ReduceBy4Bit => "Reduce by 4bit"
  | ReduceBy6Bit => "Reduce by 6bit"
  | ReduceBy8Bit => "Reduce by 8bit"
  end.

Definition stringToLogTransformMode (str : string) : LogTransformMode :=
  if String.eqb str "" then Disabled
  else if String.eqb str "Keep Input" then KeepInput
  else if String.eqb str "Reduce by 2bit" then ReduceBy2Bit
  else if String.eqb str "Reduce by 4bit" then ReduceBy4Bit
  else if String.eqb str "Reduce by 6bit" then ReduceBy6Bit
  else if String.eqb str "Reduce by 8bit" then ReduceBy8Bit
  else KeepInput.

(** The check boxes of the main window that [getRenderOptions] reads;
    [true] is [Qt::CheckState::Checked]. *)
Record CheckBoxes := {
  draftModeCheckBox : bool;
  vignetteCorrectionCheckBox : bool;
  vignetteOnlyColorCheckBox : bool;
  scaleRawCheckBox : bool;
  debugVignetteCheckBox : bool;
  normalizeExposureCheckBox : bool;
  cfrConversionCheckBox : bool;
  cropEnableCheckBox : bool;
  camModelOverrideCheckBox : bool;
  logTransformCheckBox : bool;
  quadBayerCheckBox : bool
}.

(** [options |= FLAG] when the box is checked. *)
Definition orFlag (checked : bool) (flag options : Z) : Z :=
  if checked then Z.lor options flag else options.

(** [getRenderOptions] (mainwindow.cpp). *)
Definition getRenderOptions (ui : CheckBoxes) : Z :=
  let options := RENDER_OPT_NONE in
  let options := orFlag ui.(draftModeCheckBox) RENDER_OPT_DRAFT options in
  let options := orFlag ui.(vignetteCorrectionCheckBox)
                   RENDER_OPT_APPLY_VIGNETTE_CORRECTION options in
  let options := orFlag ui.(vignetteOnlyColorCheckBox) RENDER_OPT_VIGNETTE_ONLY_COLOR options in
  let options := orFlag ui.(scaleRawCheckBox) RENDER_OPT_NORMALIZE_SHADING_MAP options in
  let options := orFlag ui.(debugVignetteCheckBox) RENDER_OPT_DEBUG_SHADING_MAP options in
  let options := orFlag ui.(normalizeExposureCheckBox) RENDER_OPT_NORMALIZE_EXPOSURE options in
  let options := orFlag ui.(cfrConversionCheckBox) RENDER_OPT_FRAMERATE_CONVERSION options in
  let options := orFlag ui.(cropEnableCheckBox) RENDER_OPT_CROPPING options in
  let options := orFlag ui.(camModelOverrideCheckBox) RENDER_OPT_CAMMODEL_OVERRIDE options in
  let options := orFlag ui.(logTransformCheckBox) RENDER_OPT_LOG_TRANSFORM options in
  let options := orFlag ui.(quadBayerCheckBox) RENDER_OPT_INTERPRET_AS_QUAD_BAYER options in
  options.

End Settings.

(** ** Container JSON (mcraw-decoder.ts, findJsonMetadata) *)

Module Container.
Import Parser.

Definition MCRAW_MAGIC : list Z := [0x4d; 0x43; 0x52; 0x41; 0x57].

(** The header test: the bytes present among the first five agree with
    ["MCRAW"]. *)
Definition isMcrawHeader (bytes : list Z) : bool :=
  forallb (fun '(b, m) => b =? m) (zip bytes MCRAW_MAGIC).

(** The brace scan, [for (i = 0; i < scanLimit; i++)], on the state
    [(jsonStart, braceCount)]; the result is [(jsonStart, jsonEnd)], each -1
    when not found. *)
Fixpoint braceScan (fuel : nat) (bytes : list Z) (scanLimit i jsonStart braceCount : Z)
  : Z * Z :=
  match fuel with
  | O => (jsonStart, -1)
  | S fuel' =>
      if i <? scanLimit then
        if byteIs bytes i 0x7b && (jsonStart =? -1) then
          braceScan fuel' bytes scanLimit (i + 1) i 1
        else if negb (jsonStart =? -1) then
          if byteIs bytes i 0x7b then
            braceScan fuel' bytes scanLimit (i + 1) jsonStart (braceCount + 1)
          else if byteIs bytes i 0x7d then
            let braceCount := braceCount - 1 in
            if braceCount =? 0 then (jsonStart, i + 1)
            else braceScan fuel' bytes scanLimit (i + 1) jsonStart braceCount
          else braceScan fuel' bytes scanLimit (i + 1) jsonStart braceCount
        else braceScan fuel' bytes scanLimit (i + 1) jsonStart braceCount
      else (jsonStart, -1)
  end.

Section FindJson.

  (** [JSON.parse(new TextDecoder().decode(jsonBytes))]: [None] when it
      throws. *)
Context {Metadata : Type}.
Variable parseJson : list Z -> option Metadata.

  (** The header path: the JSON at the location the header gives, when the
      header is there, the location is inside the file and the text
      parses. *)
Definition headerMetadata (bytes : list Z) : option (Metadata * Z) :=
    if isMcrawHeader bytes && (15 <? len bytes) then
      let metadataOffset := getUint32LE bytes 7 in
      let metadataSize := getUint32LE bytes 11 in
      if (0 <? metadataOffset) && (0 <? metadataSize)
         && (metadataOffset + metadataSize <=? len bytes)
      then
        metadata ← parseJson (slice bytes metadataOffset (metadataOffset + metadataSize));
        Some (metadata, metadataOffset + metadataSize)
      else None
    else None.

  (** [findJsonMetadata]: the parsed metadata and [endOffset], [None] for
      [null]. *)
Definition findJsonMetadata (bytes : list Z) : option (Metadata * Z) :=
    match headerMetadata bytes with
    | Some found => Some found
    | None =>
        let scanLimit := Z.min (len bytes) (50 * 1024 * 1024) in
        let '(jsonStart, jsonEnd) := braceScan (length bytes) bytes scanLimit 0 (-1) 0 in
        if (jsonStart =? -1) || (jsonEnd =? -1) then None
        else
          metadata ← parseJson (slice bytes jsonStart jsonEnd);
          Some (metadata, jsonEnd)
    end.

End FindJson.

End Container.

(** ** Structure analysis (client-mcraw-processor.ts, mcraw-analyzer.ts) *)

Module Analyzer.
Import Parser.

(** The inner [while (j < fileBytes.length && depth > 0)] of the JSON end
    search in [processClientSideMcraw]; the result is [(j, depth)]. *)
Fixpoint depthScan (fuel : nat) (fileBytes : list Z) (j depth : Z) : Z * Z :=
  match fuel with
  | O => (j, depth)
  | S fuel' =>
      if (j <? len fileBytes) && (0 <? depth) then
        let depth := if byteIs fileBytes j 0x7b then depth + 1
                     else if byteIs fileBytes j 0x7d then depth - 1
                     else depth in
        depthScan fuel' fileBytes (j + 1) depth
      else (j, depth)
  end.

(** The outer loop, [for (i = 0; i < Math.min(fileBytes.length, 100000); i++)];
    the result is [jsonEndOffset], 0 when no brace closes. *)
Fixpoint jsonEndScan (fuel : nat) (fileBytes : list Z) (i : Z) : Z :=
  match fuel with
  | O => 0
  | S fuel' =>
      if i <? Z.min (len fileBytes) 100000 then
        if byteIs fileBytes i 0x7b then
          let '(j, depth) := depthScan (length fileBytes) fileBytes (i + 1) 1 in
          if depth =? 0 then j else jsonEndScan fuel' fileBytes (i + 1)
        else jsonEndScan fuel' fileBytes (i + 1)
      else 0
  end.

Definition jsonEndOffset (fileBytes : list Z) : Z :=
  jsonEndScan (length fileBytes) fileBytes 0.

(** A block of the analysis; [preview] holds the bytes the hexadecimal
    preview is printed from. *)
Record BlockInfo := {
  b_offset : Z;
  b_type : Z;
  b_size : Z;
  b_preview : list Z
}.

Record McrawAnalysis := {
  fileSize : Z;
  jsonMetadataEnd : Z;
  blocks : list BlockInfo;
  zstdSignatures : list Z;
  possibleFrameOffsets : list Z;
  rawHexDump : list Z
}.

(** The signature scan of [analyzeMcrawStructure]: it stops at the 200th
    signature. *)
Fixpoint scanSignatures (fuel : nat) (data : list Z) (i : Z) (found : list Z) : list Z :=
  match fuel with
  | O => found
  | S fuel' =>
      if i <? len data - 4 then
        if byteIs data i 0x28 && byteIs data (i + 1) 0xb5
           && byteIs data (i + 2) 0x2f && byteIs data (i + 3) 0xfd
        then
          let found := found ++ [i] in
          if 200 <=? len found then found
          else scanSignatures fuel' data (i + 1) found
        else scanSignatures fuel' data (i + 1) found
      else found
  end.

(** The block walk of [analyzeMcrawStructure] on the state
    [(offset, blocks, possibleFrameOffsets)]; [blockCount] is the number of
    blocks pushed. *)
Fixpoint walkBlocks (fuel : nat) (data : list Z) (offset : Z) (blocks : list BlockInfo)
         (frameOffsets : list Z) : list BlockInfo * list Z :=
  match fuel with
  | O => (blocks, frameOffsets)
  | S fuel' =>
      if (offset <? len data - 8) && (Z.of_nat (length blocks) <? 500) then
        let blockType := getUint32LE data offset in
        let blockSize := getUint32LE data (offset + 4) in
        if (blockType <=? 10) && (0 <? blockSize) && (blockSize <? 50 * 1024 * 1024)
           && (offset + 8 + blockSize <=? len data)
        then
          let dataStart := offset + 8 in
          let block := {| b_offset := offset; b_type := blockType; b_size := blockSize;
                          b_preview := slice data dataStart
                                         (dataStart + Z.min 16 blockSize) |} in
          walkBlocks fuel' data (offset + 8 + blockSize) (blocks ++ [block])
            (if blockType =? 2 then frameOffsets ++ [offset] else frameOffsets)
        else (blocks, frameOffsets)
      else (blocks, frameOffsets)
  end.

(** [analyzeMcrawStructure]; the search for repeating sizes that follows
    only writes to the log. *)
Definition analyzeMcrawStructure (data : list Z) (jsonEndOffset : Z) : McrawAnalysis :=
  let '(blocks, frameOffsets) := walkBlocks (length data) data jsonEndOffset [] [] in
  {| fileSize := len data;
     jsonMetadataEnd := jsonEndOffset;
     blocks := blocks;
     zstdSignatures := scanSignatures (length data) data jsonEndOffset [];
     possibleFrameOffsets := frameOffsets;
     rawHexDump := slice data jsonEndOffset (Z.min (jsonEndOffset + 512) (len data)) |}.

End Analyzer.

(** ** Frame decoding (mcraw-decoder.ts, decodeFrame) *)

Module Decoder.
Import Parser.

Inductive DecodeError :=
  | MustParseFirst
  | FrameIndexOutOfRange
  | DataExtendsBeyondFile
  | FailedToDecompress
  | NoFrameMetadata
  | ArrayRangeError.

(** A [Uint8Array]: the bytes of [buffer] from [byteOffset], [byteLength]
    of them. *)
Record View := {
  buffer : list Z;
  byteOffset : Z;
  byteLength : Z
}.

Definition viewBytes (v : View) : list Z :=
  slice v.(buffer) v.(byteOffset) (v.(byteOffset) + v.(byteLength)).

(** [new Uint8Array(buffer, byteOffset, length)]: a [RangeError] unless the
    range lies in the buffer. *)
Definition uint8View (data : list Z) (offset size : Z) : option View :=
  if (0 <=? offset) && (0 <=? size) && (offset + size <=? len data)
  then Some {| buffer := data; byteOffset := offset; byteLength := size |}
  else None.

(** [new Uint16Array(buffer, byteOffset, length)]: a [RangeError] unless
    [byteOffset] is a multiple of 2 and the [length] words lie in the
    buffer; the elements are the words in the byte order of the platform,
    which is little-endian wherever the code runs. *)
Definition uint16View (data : list Z) (offset count : Z) : option (list Z) :=
  if (0 <=? offset) && (0 <=? count) && (offset mod 2 =? 0)
     && (offset + 2 * count <=? len data)
  then Some ((fun i => byteAt data (offset + 2 * i)
                       + 256 * byteAt data (offset + 2 * i + 1)) <$> seqZ 0 count)
  else None.

(** [Math.ceil(pixels * 1.5)]. *)
Definition packed12Size (pixels : Z) : Z := (3 * pixels + 1) / 2.

Definition commonResolutions : list (Z * Z) :=
  [ (4032, 3024); (3024, 4032); (4000, 3000); (3000, 4000);
    (1920, 1080); (1080, 1920); (1280, 720); (720, 1280) ].

(** What [decodeFrame] hands back; [d_width] and [d_height] are also
    written to the metadata object of the frame. *)
Record DecodedFrame := {
  d_frameIndex : Z;
  d_width : Z;
  d_height : Z;
  d_bayerData : list Z;
  d_timestamp : Q
}.

(** The [for (const [w, h] of commonResolutions)] loop: the resolution
    found and its samples, [inr None] when the loop ends with [foundRes]
    unset. *)
Fixpoint findResolution (resolutions : list (Z * Z)) (rawData : View)
  : DecodeError + option (Z * Z * list Z) :=
  match resolutions with
  | [] => inr None
  | (w, h) :: resolutions' =>
      let pixels := w * h in
      let size12 := packed12Size pixels in
      let size16 := pixels * 2 in
      if Z.abs (rawData.(byteLength) - size12) <? 1000 then
        match BitPacker.unpackBits (viewBytes rawData) pixels 12 with
        | Some bayerData => inr (Some (w, h, bayerData))
        | None => inl ArrayRangeError
        end
      else if Z.abs (rawData.(byteLength) - size16) <? 1000 then
        match uint16View rawData.(buffer) rawData.(byteOffset) pixels with
        | Some bayerData => inr (Some (w, h, bayerData))
        | None => inl ArrayRangeError
        end
      else findResolution resolutions' rawData
  end.

(** The conversion of the raw bytes to Bayer samples: the dimensions of
    the frame after it and the samples. *)
Definition toBayer (rawData : View) (width height : Z)
  : DecodeError + (Z * Z * list Z) :=
  let pixelCount := width * height in
  let expectedSize16 := pixelCount * 2 in
  let expectedSize12 := packed12Size pixelCount in
  if rawData.(byteLength) =? expectedSize16 then
    match uint16View rawData.(buffer) rawData.(byteOffset) pixelCount with
    | Some bayerData => inr (width, height, bayerData)
    | None => inl ArrayRangeError
    end
  else if (expectedSize12 <=? rawData.(byteLength))
          && (rawData.(byteLength) <? expectedSize16) then
    match BitPacker.unpackBits (viewBytes rawData) pixelCount 12 with
    | Some bayerData => inr (width, height, bayerData)
    | None => inl ArrayRangeError
    end
  else if rawData.(byteLength) =? pixelCount then
    inr (width, height, (fun b => to_u16 (Z.shiftl b 8)) <$> viewBytes rawData)
  else
    match findResolution commonResolutions rawData with
    | inl e => inl e
    | inr (Some found) => inr found
    | inr None =>
        let actualPixels := rawData.(byteLength) / 2 in
        inr (width, height,
             (fun i => byteAt (viewBytes rawData) (i * 2)
                       + 256 * byteAt (viewBytes rawData) (i * 2 + 1))
               <$> seqZ 0 actualPixels)
    end.

Section DecodeFrame.

  (** [fzstd.decompress]: [None] when it throws. *)
Variable decompress : list Z -> option View.

  (** [decodeFrame]: [parsed] is [this.metadata !== null], [frames] holds
      the [width] and [height] of [this.metadata.frames]; the metadata of
      the frame is destructured after the data is decompressed. *)
Definition decodeFrame (data : list Z) (parsed : bool) (frameInfos : list FrameInfo)
    (frames : list (Z * Z)) (frameIndex : Z) : DecodeError + DecodedFrame :=
    if negb parsed then inl MustParseFirst
    else if (frameIndex <? 0) || (Z.of_nat (length frameInfos) <=? frameIndex)
    then inl FrameIndexOutOfRange
    else
      match frameInfos !! Z.to_nat frameIndex with
      | None => inl FrameIndexOutOfRange
      | Some frameInfo =>
          if len data <? frameInfo.(offset) + frameInfo.(size)
          then inl DataExtendsBeyondFile
          else
            match uint8View data frameInfo.(offset) frameInfo.(size) with
            | None => inl ArrayRangeError
            | Some frameData =>
                let decoded :=
                  if frameInfo.(isCompressed) then
                    match decompress (viewBytes frameData) with
                    | Some rawData => inr rawData
                    | None => inl FailedToDecompress
                    end
                  else inr frameData in
                match decoded with
                | inl e => inl e
                | inr rawData =>
                    match frames !! Z.to_nat frameIndex with
                    | None => inl NoFrameMetadata
                    | Some (width, height) =>
                        match toBayer rawData width height with
                        | inl e => inl e
                        | inr (width', height', bayerData) =>
                            inr {| d_frameIndex := frameIndex;
                                   d_width := width';
                                   d_height := height';
                                   d_bayerData := bayerData;
                                   d_timestamp := frameInfo.(timestamp) |}
                        end
                    end
                end
            end
      end.

End DecodeFrame.

End Decoder.

(** * Properties *)

(** ** Bit arithmetic *)

Lemma land_shiftl_small (a b k : Z) :
  0 <= k -> 0 <= b < 2 ^ k -> Z.land (Z.shiftl a k) b = 0.
Proof.
  intros Hk Hb. apply Z.bits_inj'; intros n Hn.
  rewrite Z.land_spec, Z.bits_0.
  destruct (Z.lt_ge_cases n k) as [Hlt|Hge].
  - rewrite Z.shiftl_spec_low by lia. reflexivity.
  - rewrite <- (Z.mod_small b (2 ^ k)) by lia.
    rewrite Z.mod_pow2_bits_high by lia. apply andb_false_r.
Qed.

(** An [|] whose operands occupy disjoint bit ranges is an addition. *)
Lemma lor_shiftl_small (a b k : Z) :
  0 <= k -> 0 <= b < 2 ^ k -> Z.lor (Z.shiftl a k) b = a * 2 ^ k + b.
Proof.
  intros Hk Hb.
  rewrite <- Z.lxor_lor by (apply land_shiftl_small; lia).
  rewrite <- Z.add_nocarry_lxor by (apply land_shiftl_small; lia).
  rewrite Z.shiftl_mul_pow2 by lia. reflexivity.
Qed.

Lemma land_low_bits (a k : Z) : 0 <= k -> Z.land a (2 ^ k - 1) = a mod 2 ^ k.
Proof.
  intros Hk. rewrite <- Z.land_ones by lia. f_equal.
  rewrite Z.ones_equiv. lia.
Qed.

(** Turns shifts and masks by constants into [/], [*] and [mod], so that
    [lia] can finish. *)
Ltac bits_to_arith :=
  unfold to_u8, to_u16;
  change 0x03 with (2 ^ 2 - 1); change 0x0F with (2 ^ 4 - 1);
  change 0x3F with (2 ^ 6 - 1); change 0xFF with (2 ^ 8 - 1);
  rewrite ?land_low_bits by lia;
  rewrite ?Z.shiftr_div_pow2 by lia.

Ltac pow_consts :=
  change (2 ^ 2) with 4 in *; change (2 ^ 4) with 16 in *;
  change (2 ^ 6) with 64 in *; change (2 ^ 8) with 256 in *;
  change (2 ^ 10) with 1024 in *; change (2 ^ 12) with 4096 in *;
  change (2 ^ 16) with 65536 in *.

Ltac div_mod_lia :=
  pow_consts; Z.to_euclidean_division_equations; lia.

(** ** Rational comparisons and truncation *)

Lemma Qltb_true (a b : Q) : Qltb a b = true <-> (a < b)%Q.
Proof.
  unfold Qltb. rewrite negb_true_iff. split.
  - intros E. apply Qnot_le_lt. intros Hle. apply Qle_bool_iff in Hle. congruence.
  - intros Hlt. destruct (Qle_bool b a) eqn:E; [|reflexivity].
    apply Qle_bool_iff in E. apply Qlt_not_le in Hlt. contradiction.
Qed.

Lemma Qltb_false (a b : Q) : Qltb a b = false <-> (b <= a)%Q.
Proof.
  unfold Qltb. rewrite negb_false_iff. apply Qle_bool_iff.
Qed.

Lemma Qtrunc_nonneg (x : Q) : (0 <= x)%Q -> Qtrunc x = Qfloor x.
Proof.
  intros H. unfold Qtrunc. apply Qle_bool_iff in H. rewrite H. reflexivity.
Qed.

Lemma float_to_u16_in_range (x : Q) :
  (0 <= x <= 65535)%Q ->
  float_to_u16 x = Some (Qfloor x) /\ 0 <= Qfloor x <= 65535.
Proof.
  intros [H0 H1]. unfold float_to_u16. rewrite Qtrunc_nonneg by assumption.
  assert (0 <= Qfloor x) by (change 0 with (Qfloor 0); apply Qfloor_resp_le; assumption).
  assert (Qfloor x <= 65535) by (change 65535 with (Qfloor 65535); apply Qfloor_resp_le; assumption).
  split; [|lia].
  destruct (0 <=? Qfloor x) eqn:E1; [|lia].
  destruct (Qfloor x <=? 65535) eqn:E2; [|lia]. reflexivity.
Qed.

(** ** Binary floating point: rounding *)

Section FloatFacts.
Import Float.

Lemma pow2_pos (e : Z) : (0 < pow2 e)%Q.
Proof. unfold pow2. apply Qpower_0_lt. reflexivity. Qed.

Lemma pow2_nonzero (e : Z) : ~ (pow2 e == 0)%Q.
Proof. intros E. pose proof (pow2_pos e) as H. rewrite E in H. discriminate H. Qed.

Lemma pow2_plus (a b : Z) : (pow2 (a + b) == pow2 a * pow2 b)%Q.
Proof. unfold pow2. apply Qpower_plus. discriminate. Qed.

Lemma pow2_minus (a b : Z) : (pow2 (a - b) == pow2 a / pow2 b)%Q.
Proof. unfold pow2. apply Qpower_minus. discriminate. Qed.

Lemma pow2_le (a b : Z) : a <= b -> (pow2 a <= pow2 b)%Q.
Proof. intros H. unfold pow2. apply Qpower_le_compat_l; [exact H|discriminate]. Qed.

Lemma pow2_lt (a b : Z) : a < b -> (pow2 a < pow2 b)%Q.
Proof. intros H. unfold pow2. apply Qpower_lt_compat_l; [exact H|reflexivity]. Qed.

Lemma pow2_lt_inv (a b : Z) : (pow2 a < pow2 b)%Q -> a < b.
Proof.
  intros H. destruct (Z.lt_ge_cases a b) as [|Hge]; [assumption|].
  apply pow2_le in Hge. lra.
Qed.

Lemma pow2_inject (e : Z) : 0 <= e -> (pow2 e == inject_Z (2 ^ e))%Q.
Proof. intros H. unfold pow2. rewrite (Zpower_Qpower 2 e H). reflexivity. Qed.

Lemma Qmake_lt_quotient (n : Z) (d : positive) (A B : Z) :
  0 < B -> n * B < A * Z.pos d -> (n # d < inject_Z A / inject_Z B)%Q.
Proof.
  intros HB H. apply Qlt_shift_div_l.
  - change 0%Q with (inject_Z 0). rewrite <- Zlt_Qlt. exact HB.
  - rewrite Qmult_inject_Z_r. unfold Qlt. cbn. lia.
Qed.

Lemma Qmake_ge_quotient (n : Z) (d : positive) (A B : Z) :
  0 < B -> A * Z.pos d <= n * B -> (inject_Z A / inject_Z B <= n # d)%Q.
Proof.
  intros HB H. apply Qle_shift_div_r.
  - change 0%Q with (inject_Z 0). rewrite <- Zlt_Qlt. exact HB.
  - rewrite Qmult_inject_Z_r. unfold Qle. cbn. lia.
Qed.

(** [ilog2 x] is the exponent of the binade of [x]. *)
Lemma ilog2_spec (x : Q) :
  ~ (x == 0)%Q -> (pow2 (ilog2 x) <= Qabs x)%Q /\ (Qabs x < pow2 (ilog2 x + 1))%Q.
Proof.
  intros Hx. destruct x as [n d].
  assert (Hn : 0 < Z.abs n).
  { destruct (Z.eq_dec n 0) as [->|]; [exfalso; apply Hx; reflexivity|lia]. }
  unfold ilog2. cbn [Qnum Qden Qabs].
  set (a := Z.log2 (Z.abs n)). set (b := Z.log2 (Z.pos d)).
  destruct (Z.log2_spec (Z.abs n) Hn) as [Ha1 Ha2]. fold a in Ha1, Ha2.
  destruct (Z.log2_spec (Z.pos d) eq_refl) as [Hb1 Hb2]. fold b in Hb1, Hb2.
  assert (Ha0 : 0 <= a) by apply Z.log2_nonneg.
  assert (Hb0 : 0 <= b) by apply Z.log2_nonneg.
  assert (HA : 0 < 2 ^ a) by (apply Z.pow_pos_nonneg; lia).
  assert (HB : 0 < 2 ^ b) by (apply Z.pow_pos_nonneg; lia).
  assert (Hsa : 2 ^ Z.succ a = 2 * 2 ^ a) by (apply Z.pow_succ_r; lia).
  assert (Hsb : 2 ^ Z.succ b = 2 * 2 ^ b) by (apply Z.pow_succ_r; lia).
  assert (Hupper : (Z.abs n # d < pow2 (a - b + 1))%Q).
  { replace (a - b + 1) with (Z.succ a - b) by lia.
    rewrite pow2_minus, (pow2_inject (Z.succ a)), (pow2_inject b) by lia.
    apply Qmake_lt_quotient; [exact HB|]. nia. }
  assert (Hlower : (pow2 (a - b - 1) <= Z.abs n # d)%Q).
  { replace (a - b - 1) with (a - Z.succ b) by lia.
    rewrite pow2_minus, (pow2_inject a), (pow2_inject (Z.succ b)) by lia.
    apply Qmake_ge_quotient; [lia|]. nia. }
  destruct (Qle_bool (pow2 (a - b)) (Z.abs n # d)) eqn:E.
  - apply Qle_bool_iff in E. split; assumption.
  - split; [exact Hlower|]. replace (a - b - 1 + 1) with (a - b) by lia.
    apply Qnot_le_lt. intros H. apply Qle_bool_iff in H. congruence.
Qed.

Lemma ilog2_unique (x : Q) (k : Z) :
  (pow2 k <= Qabs x)%Q -> (Qabs x < pow2 (k + 1))%Q -> ilog2 x = k.
Proof.
  intros Hlo Hhi.
  assert (Hx : ~ (x == 0)%Q).
  { intros E. rewrite E in Hlo. pose proof (pow2_pos k). change (Qabs 0) with 0%Q in Hlo. lra. }
  destruct (ilog2_spec x Hx) as [Hlo' Hhi'].
  assert (k < ilog2 x + 1) by (apply pow2_lt_inv; lra).
  assert (ilog2 x < k + 1) by (apply pow2_lt_inv; lra).
  lia.
Qed.

Lemma ilog2_compat (x y : Q) : (x == y)%Q -> ~ (x == 0)%Q -> ilog2 x = ilog2 y.
Proof.
  intros E Hx. destruct (ilog2_spec x Hx) as [Hlo Hhi].
  symmetry. apply ilog2_unique; rewrite <- E; assumption.
Qed.

Lemma ilog2_le (x y : Q) :
  ~ (x == 0)%Q -> (Qabs x <= Qabs y)%Q -> ilog2 x <= ilog2 y.
Proof.
  intros Hx Hle.
  assert (Hy : ~ (y == 0)%Q).
  { intros E. rewrite E in Hle. change (Qabs 0) with 0%Q in Hle.
    apply Hx. pose proof (Qabs_nonneg x) as H0.
    assert (E0 : (Qabs x == 0)%Q) by lra.
    revert E0. apply Qabs_case; intros; lra. }
  destruct (ilog2_spec x Hx) as [Hlo _]. destruct (ilog2_spec y Hy) as [_ Hhi].
  assert (ilog2 x < ilog2 y + 1) by (apply pow2_lt_inv; lra). lia.
Qed.

(** [rne x] is an integer nearest to [x]. *)
Lemma rne_spec (x : Q) :
  (x - (1 # 2) <= inject_Z (rne x))%Q /\ (inject_Z (rne x) <= x + (1 # 2))%Q.
Proof.
  unfold rne. pose proof (Qfloor_le x) as Hlo. pose proof (Qlt_floor x) as Hhi.
  rewrite inject_Z_plus in Hhi. change (inject_Z 1) with 1%Q in Hhi.
  destruct (Qcompare (x - inject_Z (Qfloor x)) (1 # 2)) eqn:E.
  - apply Qeq_alt in E. destruct (Z.even (Qfloor x)).
    + split; lra.
    + rewrite inject_Z_plus. change (inject_Z 1) with 1%Q. split; lra.
  - apply Qlt_alt in E. split; lra.
  - apply Qgt_alt in E. rewrite inject_Z_plus. change (inject_Z 1) with 1%Q. split; lra.
Qed.

Lemma rne_compat (x y : Q) : (x == y)%Q -> rne x = rne y.
Proof.
  intros E. unfold rne. rewrite (Qfloor_comp x y E).
  assert (E' : (x - inject_Z (Qfloor y) == y - inject_Z (Qfloor y))%Q) by (rewrite E; reflexivity).
  rewrite (Qcompare_comp _ _ E' (1 # 2) (1 # 2) (Qeq_refl _)). reflexivity.
Qed.

Lemma rne_inject (z : Z) : rne (inject_Z z) = z.
Proof.
  unfold rne. rewrite Qfloor_Z.
  assert (E : (inject_Z z - inject_Z z ?= 1 # 2)%Q = Lt).
  { apply Qlt_alt. unfold Qminus. rewrite Qplus_opp_r. reflexivity. }
  rewrite E. reflexivity.
Qed.

Lemma rne_mono (x y : Q) : (x <= y)%Q -> rne x <= rne y.
Proof.
  intros Hle. destruct (Z.le_gt_cases (rne x) (rne y)) as [|Hgt]; [assumption|exfalso].
  destruct (rne_spec x) as [_ Hx]. destruct (rne_spec y) as [Hy _].
  assert (H1 : (inject_Z (rne y) + 1 <= inject_Z (rne x))%Q).
  { change 1%Q with (inject_Z 1). rewrite <- inject_Z_plus. rewrite <- Zle_Qle. lia. }
  assert (E : (x == y)%Q) by lra.
  rewrite (rne_compat x y E) in Hgt. lia.
Qed.


Lemma Z_between (a b : Z) :
  (inject_Z a < inject_Z b + 1)%Q -> (inject_Z b < inject_Z a + 1)%Q -> a = b.
Proof.
  change 1%Q with (inject_Z 1). rewrite <- !inject_Z_plus, <- !Zlt_Qlt. lia.
Qed.

Lemma rne_char (x : Q) (n : Z) :
  (inject_Z n - (1 # 2) < x)%Q -> (x < inject_Z n + (1 # 2))%Q -> rne x = n.
Proof.
  intros Hlo Hhi. destruct (rne_spec x) as [H1 H2]. apply Z_between; lra.
Qed.

Lemma Qfloor_char (x : Q) (f : Z) :
  (inject_Z f <= x)%Q -> (x < inject_Z f + 1)%Q -> Qfloor x = f.
Proof.
  intros Hlo Hhi. pose proof (Qfloor_le x) as H1. pose proof (Qlt_floor x) as H2.
  rewrite inject_Z_plus in H2. change (inject_Z 1) with 1%Q in H2.
  apply Z_between; lra.
Qed.

Lemma rne_tie (x : Q) (f : Z) :
  (x == inject_Z f + (1 # 2))%Q -> rne x = if Z.even f then f else f + 1.
Proof.
  intros E. unfold rne. rewrite (Qfloor_char x f) by lra.
  assert (E' : (x - inject_Z f ?= 1 # 2)%Q = Eq) by (apply Qeq_alt; lra).
  rewrite E'. reflexivity.
Qed.

Lemma rne_opp (x : Q) : rne (- x) = - rne x.
Proof.
  pose proof (Qfloor_le x) as Hlo. pose proof (Qlt_floor x) as Hhi.
  rewrite inject_Z_plus in Hhi. change (inject_Z 1) with 1%Q in Hhi.
  destruct (Qcompare (x - inject_Z (Qfloor x)) (1 # 2)) eqn:E.
  - apply Qeq_alt in E.
    rewrite (rne_tie x (Qfloor x)) by lra.
    rewrite (rne_tie (- x) (- Qfloor x - 1)).
    + replace (- Qfloor x - 1) with (- (Qfloor x + 1)) by lia.
      rewrite Z.even_opp, Z.even_add. cbn [Z.even].
      destruct (Z.even (Qfloor x)); cbn; lia.
    + unfold Zminus. rewrite inject_Z_plus, !inject_Z_opp.
      change (inject_Z 1) with 1%Q. lra.
  - apply Qlt_alt in E.
    assert (Ex : rne x = Qfloor x) by (apply rne_char; lra).
    rewrite Ex. apply rne_char; rewrite inject_Z_opp; lra.
  - apply Qgt_alt in E.
    assert (Ex : rne x = Qfloor x + 1).
    { apply rne_char; rewrite inject_Z_plus; change (inject_Z 1) with 1%Q; lra. }
    rewrite Ex. apply rne_char; rewrite inject_Z_opp, inject_Z_plus;
      change (inject_Z 1) with 1%Q; lra.
Qed.

(** *** Rounding to a format *)

Section Format.
Variables prec emin : Z.
Hypothesis prec_positive : 1 <= prec.

Lemma round_zero (x : Q) : (x == 0)%Q -> round prec emin x = 0%Q.
Proof. intros E. unfold round. apply Qeq_bool_iff in E. rewrite E. reflexivity. Qed.

Lemma round_eq (x : Q) :
  ~ (x == 0)%Q ->
  (round prec emin x
   == inject_Z (rne (x / pow2 (exponent prec emin x))) * pow2 (exponent prec emin x))%Q.
Proof.
  intros Hx. unfold round. destruct (Qeq_bool x 0) eqn:E.
  - apply Qeq_bool_iff in E. contradiction.
  - cbv zeta. apply Qred_correct.
Qed.

Lemma exponent_compat (x y : Q) :
  (x == y)%Q -> ~ (x == 0)%Q -> exponent prec emin x = exponent prec emin y.
Proof. intros E Hx. unfold exponent. rewrite (ilog2_compat x y E Hx). reflexivity. Qed.

(** Equal rationals round to the same fraction. *)
Lemma round_compat (x y : Q) : (x == y)%Q -> round prec emin x = round prec emin y.
Proof.
  intros E. unfold round.
  destruct (Qeq_bool x 0) eqn:Ex, (Qeq_bool y 0) eqn:Ey; [reflexivity| | |].
  - apply Qeq_bool_iff in Ex.
    assert (H : Qeq_bool y 0 = true) by (apply Qeq_bool_iff; rewrite <- E; exact Ex).
    congruence.
  - apply Qeq_bool_iff in Ey.
    assert (H : Qeq_bool x 0 = true) by (apply Qeq_bool_iff; rewrite E; exact Ey).
    congruence.
  - cbv zeta. apply Qred_complete.
    assert (Hx : ~ (x == 0)%Q) by (intros H; apply Qeq_bool_iff in H; congruence).
    rewrite <- (exponent_compat x y E Hx).
    set (e := exponent prec emin x).
    rewrite (rne_compat (x / pow2 e) (y / pow2 e)).
    + reflexivity.
    + rewrite E. reflexivity.
Qed.

Lemma exponent_opp (x : Q) : ~ (x == 0)%Q -> exponent prec emin (- x) = exponent prec emin x.
Proof.
  intros Hx. unfold exponent.
  destruct (ilog2_spec x Hx) as [Hlo Hhi].
  rewrite (ilog2_unique (- x) (ilog2 x)); [reflexivity| |]; rewrite Qabs_opp; assumption.
Qed.

Lemma round_opp (x : Q) : (round prec emin (- x) == - round prec emin x)%Q.
Proof.
  destruct (Qeq_dec x 0) as [E|Hx].
  - rewrite (round_zero x E), (round_zero (- x)) by (rewrite E; reflexivity). reflexivity.
  - assert (Hnx : ~ (- x == 0)%Q) by (intros E; apply Hx; lra).
    rewrite (round_eq x Hx), (round_eq (- x) Hnx), (exponent_opp x Hx).
    set (e := exponent prec emin x).
    rewrite (rne_compat (- x / pow2 e) (- (x / pow2 e))).
    + rewrite rne_opp, inject_Z_opp. ring.
    + field. apply pow2_nonzero.
Qed.

Lemma round_nonneg (x : Q) : (0 <= x)%Q -> (0 <= round prec emin x)%Q.
Proof.
  intros Hx. destruct (Qeq_dec x 0) as [E|Hnz].
  - rewrite (round_zero x E). apply Qle_refl.
  - rewrite (round_eq x Hnz). set (e := exponent prec emin x).
    apply Qmult_le_0_compat; [|apply Qlt_le_weak, pow2_pos].
    change 0%Q with (inject_Z 0). rewrite <- Zle_Qle.
    rewrite <- (rne_inject 0). apply rne_mono.
    change (inject_Z 0) with 0%Q. apply Qle_shift_div_l; [apply pow2_pos|]. lra.
Qed.

Lemma round_nonpos (x : Q) : (x <= 0)%Q -> (round prec emin x <= 0)%Q.
Proof.
  intros Hx. assert (H : (0 <= round prec emin (- x))%Q) by (apply round_nonneg; lra).
  rewrite round_opp in H. lra.
Qed.

(** A quotient of powers of two is a whole number. *)
Lemma rne_pow2 (k e : Z) : e <= k -> rne (pow2 k / pow2 e) = 2 ^ (k - e).
Proof.
  intros H. rewrite <- (rne_inject (2 ^ (k - e))). apply rne_compat.
  rewrite <- pow2_inject by lia. rewrite pow2_minus. reflexivity.
Qed.

Lemma pow2_split (k e : Z) : (pow2 k == pow2 (k - e) * pow2 e)%Q.
Proof. rewrite <- pow2_plus. replace (k - e + e) with k by lia. reflexivity. Qed.

(** Rounding does not cross a power of two that the format holds. *)
Lemma round_le_pow2 (x : Q) (k : Z) :
  (0 < x)%Q -> (x <= pow2 k)%Q -> exponent prec emin x <= k ->
  (round prec emin x <= pow2 k)%Q.
Proof.
  intros Hpos Hle He.
  assert (Hx : ~ (x == 0)%Q) by (intros E; lra).
  rewrite (round_eq x Hx). set (e := exponent prec emin x) in *.
  rewrite (pow2_split k e).
  apply Qmult_le_compat_r; [|apply Qlt_le_weak, pow2_pos].
  rewrite (pow2_inject (k - e)) by lia. rewrite <- Zle_Qle.
  rewrite <- (rne_pow2 k e He). apply rne_mono.
  apply Qmult_le_compat_r; [exact Hle|]. apply Qlt_le_weak, Qinv_lt_0_compat, pow2_pos.
Qed.

Lemma round_ge_pow2 (x : Q) (k : Z) :
  (pow2 k <= x)%Q -> exponent prec emin x <= k ->
  (pow2 k <= round prec emin x)%Q.
Proof.
  intros Hle He. pose proof (pow2_pos k) as Hk.
  assert (Hx : ~ (x == 0)%Q) by (intros E; lra).
  rewrite (round_eq x Hx). set (e := exponent prec emin x) in *.
  rewrite (pow2_split k e) at 1.
  apply Qmult_le_compat_r; [|apply Qlt_le_weak, pow2_pos].
  rewrite (pow2_inject (k - e)) by lia. rewrite <- Zle_Qle.
  rewrite <- (rne_pow2 k e He). apply rne_mono.
  apply Qmult_le_compat_r; [exact Hle|]. apply Qlt_le_weak, Qinv_lt_0_compat, pow2_pos.
Qed.

Lemma round_mono_pos (x y : Q) :
  (0 < x)%Q -> (x <= y)%Q -> (round prec emin x <= round prec emin y)%Q.
Proof.
  intros Hpos Hle.
  assert (Hx : ~ (x == 0)%Q) by (intros E; lra).
  assert (Hy : ~ (y == 0)%Q) by (intros E; lra).
  assert (Hlog : ilog2 x <= ilog2 y).
  { apply ilog2_le; [exact Hx|]. rewrite !Qabs_pos by lra. exact Hle. }
  destruct (ilog2_spec x Hx) as [Hx1 Hx2]. destruct (ilog2_spec y Hy) as [Hy1 Hy2].
  rewrite Qabs_pos in Hx1, Hx2 by lra. rewrite Qabs_pos in Hy1, Hy2 by lra.
  destruct (Z.eq_dec (exponent prec emin x) (exponent prec emin y)) as [Ee|Hne].
  - rewrite (round_eq x Hx), (round_eq y Hy), Ee.
    apply Qmult_le_compat_r; [|apply Qlt_le_weak, pow2_pos].
    rewrite <- Zle_Qle. apply rne_mono.
    apply Qmult_le_compat_r; [exact Hle|]. apply Qlt_le_weak, Qinv_lt_0_compat, pow2_pos.
  - assert (Hlt : ilog2 x < ilog2 y) by (unfold exponent in Hne; lia).
    apply Qle_trans with (pow2 (ilog2 y)).
    + apply round_le_pow2; [exact Hpos| |unfold exponent in *; lia].
      apply Qle_trans with (pow2 (ilog2 x + 1)); [lra|apply pow2_le; lia].
    + apply round_ge_pow2; [exact Hy1|unfold exponent in *; lia].
Qed.

(** Rounding keeps the order. *)
Lemma round_mono (x y : Q) : (x <= y)%Q -> (round prec emin x <= round prec emin y)%Q.
Proof.
  intros Hle. destruct (Qlt_le_dec 0 x) as [Hx|Hx].
  - apply round_mono_pos; assumption.
  - destruct (Qlt_le_dec y 0) as [Hy|Hy].
    + assert (H : (round prec emin (- y) <= round prec emin (- x))%Q)
        by (apply round_mono_pos; lra).
      rewrite !round_opp in H. lra.
    + apply Qle_trans with 0%Q; [apply round_nonpos|apply round_nonneg]; assumption.
Qed.

Lemma round_abs (x : Q) : (round prec emin (Qabs x) == Qabs (round prec emin x))%Q.
Proof.
  destruct (Qlt_le_dec x 0) as [Hx|Hx].
  - rewrite (round_compat (Qabs x) (- x)) by (apply Qabs_neg; lra).
    rewrite round_opp. symmetry. apply Qabs_neg. apply round_nonpos. lra.
  - rewrite (round_compat (Qabs x) x) by (apply Qabs_pos; exact Hx).
    symmetry. apply Qabs_pos. apply round_nonneg. exact Hx.
Qed.

(** A number with a significand of fewer than [prec] bits and an exponent
    of at least [emin] is its own rounding. *)
Lemma round_exact (m e : Z) :
  Z.abs m < 2 ^ prec -> emin <= e ->
  (round prec emin (inject_Z m * pow2 e) == inject_Z m * pow2 e)%Q.
Proof.
  intros Hm He. set (x := (inject_Z m * pow2 e)%Q).
  destruct (Z.eq_dec m 0) as [->|Hm0].
  - rewrite round_zero; unfold x; ring.
  - assert (Hx : ~ (x == 0)%Q).
    { unfold x. intros E. apply Qmult_integral in E. destruct E as [E|E].
      - apply Hm0. apply inject_Z_injective. exact E.
      - exact (pow2_nonzero e E). }
    rewrite (round_eq x Hx).
    assert (Hexp : exponent prec emin x <= e).
    { unfold exponent. apply Z.max_lub; [|exact He].
      destruct (ilog2_spec x Hx) as [Hlo _].
      assert (Habs : (Qabs x == inject_Z (Z.abs m) * pow2 e)%Q).
      { unfold x. rewrite Qabs_Qmult. rewrite (Qabs_pos (pow2 e)) by apply Qlt_le_weak, pow2_pos.
        destruct m; reflexivity. }
      assert (Hlt : (pow2 (ilog2 x) < pow2 (prec + e))%Q).
      { eapply Qle_lt_trans; [exact Hlo|]. rewrite Habs, pow2_plus.
        apply Qmult_lt_compat_r; [apply pow2_pos|].
        rewrite pow2_inject by lia. rewrite <- Zlt_Qlt. exact Hm. }
      apply pow2_lt_inv in Hlt. lia. }
    set (e' := exponent prec emin x) in *.
    rewrite (rne_compat (x / pow2 e') (inject_Z (m * 2 ^ (e - e')))).
    + rewrite rne_inject, inject_Z_mult, <- pow2_inject by lia.
      unfold x. rewrite (pow2_split e e'). ring.
    + rewrite inject_Z_mult, <- pow2_inject by lia. unfold x.
      rewrite (pow2_split e e'). field. apply pow2_nonzero.
Qed.

(** The rounding error is at most half a unit in the last place. *)
Lemma round_error (x : Q) :
  ~ (x == 0)%Q ->
  (Qabs (round prec emin x - x) <= pow2 (exponent prec emin x) * (1 # 2))%Q.
Proof.
  intros Hx. rewrite (round_eq x Hx). set (e := exponent prec emin x).
  pose proof (pow2_pos e) as He.
  destruct (rne_spec (x / pow2 e)) as [H1 H2].
  assert (E : (x == x / pow2 e * pow2 e)%Q) by (field; apply pow2_nonzero).
  apply Qabs_Qle_condition. split.
  - apply (Qmult_le_compat_r _ _ (pow2 e)) in H1; [|lra]. lra.
  - apply (Qmult_le_compat_r _ _ (pow2 e)) in H2; [|lra]. lra.
Qed.

(** In the normal range the error is at most [2^-prec] of the number. *)
Lemma round_relative_error (x : Q) :
  (pow2 (emin + prec - 1) <= Qabs x)%Q ->
  (Qabs (round prec emin x - x) <= pow2 (- prec) * Qabs x)%Q.
Proof.
  intros Hnormal.
  assert (Hx : ~ (x == 0)%Q).
  { intros E. rewrite E in Hnormal. change (Qabs 0) with 0%Q in Hnormal.
    pose proof (pow2_pos (emin + prec - 1)). lra. }
  destruct (ilog2_spec x Hx) as [Hlo Hhi].
  assert (Hlog : emin + prec - 1 < ilog2 x + 1) by (apply pow2_lt_inv; lra).
  eapply Qle_trans; [apply round_error; exact Hx|].
  unfold exponent. rewrite Z.max_l by lia.
  replace (ilog2 x - prec + 1) with ((- prec + ilog2 x) + 1) by lia.
  rewrite pow2_plus, pow2_plus. change (pow2 1) with 2%Q.
  pose proof (pow2_pos (- prec)). 
  setoid_replace (pow2 (- prec) * pow2 (ilog2 x) * 2 * (1 # 2))%Q
    with (pow2 (- prec) * pow2 (ilog2 x))%Q using relation Qeq by ring.
  apply Qmult_le_l; assumption.
Qed.

End Format.

End FloatFacts.

(** ** Bit packer round trip *)

Section BitPackerFacts.
Import BitPacker.

Ltac lor_to_add :=
    bits_to_arith;
    rewrite ?lor_shiftl_small by (try lia; div_mod_lia);
    rewrite ?Z.shiftl_mul_pow2 by lia.

  (** What [unpackBits] computes on one 12-bit group of three bytes. *)
Lemma unpack12_group (b0 b1 b2 : Z) :
    unpackBits [b0; b1; b2] 2 12
    = Some [ to_u16 (Z.shiftl (Z.lor (Z.shiftl b0 4) (Z.shiftr b1 4)) 4);
             to_u16 (Z.shiftl (Z.lor (Z.shiftl (Z.land b1 0x0F) 8) b2) 4) ].
  Proof. reflexivity. Qed.

  (** What [unpackBits] computes on one 10-bit group of five bytes. *)
Lemma unpack10_group (b0 b1 b2 b3 b4 : Z) :
    unpackBits [b0; b1; b2; b3; b4] 4 10
    = Some [ to_u16 (Z.shiftl (Z.lor (Z.shiftl b0 2) (Z.shiftr b1 6)) 6);
             to_u16 (Z.shiftl (Z.lor (Z.shiftl (Z.land b1 0x3F) 4) (Z.shiftr b2 4)) 6);
             to_u16 (Z.shiftl (Z.lor (Z.shiftl (Z.land b2 0x0F) 6) (Z.shiftr b3 2)) 6);
             to_u16 (Z.shiftl (Z.lor (Z.shiftl (Z.land b3 0x03) 8) b4) 6) ].
  Proof. reflexivity. Qed.

Lemma unpack12_of_pack12 (p0 p1 : Z) :
    0 <= p0 < 2 ^ 12 -> 0 <= p1 < 2 ^ 12 ->
    exists packed,
      encodeTo12Bit [p0; p1] 2 1 = Some packed
      /\ unpackBits packed 2 12 = Some [p0 * 16; p1 * 16].
  Proof.
    intros H0 H1. eexists. split; [reflexivity|].
    cbn [app]. rewrite unpack12_group.
    f_equal. f_equal; [|f_equal].
    - lor_to_add. div_mod_lia.
    - lor_to_add. div_mod_lia.
  Qed.

Lemma unpack10_of_pack10 (p0 p1 p2 p3 : Z) :
    0 <= p0 < 2 ^ 10 -> 0 <= p1 < 2 ^ 10 -> 0 <= p2 < 2 ^ 10 -> 0 <= p3 < 2 ^ 10 ->
    exists packed,
      encodeTo10Bit [p0; p1; p2; p3] 4 1 = Some packed
      /\ unpackBits packed 4 10 = Some [p0 * 64; p1 * 64; p2 * 64; p3 * 64].
  Proof.
    intros H0 H1 H2 H3. eexists. split; [reflexivity|].
    cbn [app]. rewrite unpack10_group.
    f_equal. f_equal; [|f_equal; [|f_equal; [|f_equal]]].
    - lor_to_add. div_mod_lia.
    - lor_to_add. div_mod_lia.
    - lor_to_add. div_mod_lia.
    - lor_to_add. div_mod_lia.
  Qed.

Lemma unpack16_of_le16 (v : Z) :
    0 <= v < 2 ^ 16 -> unpackBits (le16_bytes [v]) 1 16 = Some [v].
  Proof.
    intros H.
    change (unpackBits (le16_bytes [v]) 1 16)
      with (Some [to_u16 (v mod 256 + 256 * (v / 256 mod 256))]).
    f_equal. f_equal. unfold to_u16. div_mod_lia.
  Qed.

End BitPackerFacts.

(** C1, as stated, fails.  With one sample ([pixelCount = 1]) the 10- and
    12-bit loops of [unpackBits] never run and the result stays [[0]]; the
    8- and 14-bit streams go through the 16-bit fallback, which throws on
    the single byte of an 8-bit sample and reads two packed bytes as one
    little-endian word on a 14-bit group.  The sample is 1, completed with
    zero samples to the group the encoder reads. *)
Lemma unpack_pack_single_sample_counterexample :
  BitPacker.encodeTo12Bit [1] 1 1 = None
  /\ ~ (exists packed, BitPacker.encodeTo12Bit [1; 0] 2 1 = Some packed
                       /\ BitPacker.unpackBits packed 1 12 = Some [1])
  /\ ~ (exists packed, BitPacker.encodeTo10Bit [1; 0; 0; 0] 4 1 = Some packed
                       /\ BitPacker.unpackBits packed 1 10 = Some [1])
  /\ ~ (exists packed, BitPacker.encodeTo14Bit [1; 0; 0; 0] 4 1 = Some packed
                       /\ BitPacker.unpackBits packed 1 14 = Some [1])
  /\ ~ (exists packed, BitPacker.encodeTo8Bit [1] 1 1 = Some packed
                       /\ BitPacker.unpackBits packed 1 8 = Some [1]).
Proof.
  split; [reflexivity|].
  repeat split; intros [packed [He Hu]]; vm_compute in He;
    injection He as <-; vm_compute in Hu; discriminate.
Qed.

(** C1, amended.  For the widths [unpackBits] has a path for (10, 12 and the
    16-bit fallback) and a whole group of samples below [2^bits], unpacking
    the packed group gives every sample scaled to 16 bits, [v * 2^(16 - bits)];
    for 16 bits this is the sample itself. *)
Theorem unpack_pack_whole_group (bits : Z) (group : list Z) :
  bits = 10 \/ bits = 12 \/ bits = 16 ->
  length group = BitPacker.samplesPerGroup bits ->
  Forall (fun v => 0 <= v < 2 ^ bits) group ->
  exists packed,
    BitPacker.encodeForBits bits group (len group) 1 = Some (bits, packed)
    /\ BitPacker.unpackBits packed (len group) bits
       = Some (map (fun v => v * 2 ^ (16 - bits)) group).
Proof.
  intros Hbits Hlen Hall.
  destruct Hbits as [-> | [-> | ->]].
  - destruct group as [|p0 [|p1 [|p2 [|p3 [|? ?]]]]]; try discriminate Hlen.
    apply Forall_cons in Hall as [H0 Hall]. apply Forall_cons in Hall as [H1 Hall].
    apply Forall_cons in Hall as [H2 Hall]. apply Forall_cons in Hall as [H3 _].
    destruct (unpack10_of_pack10 p0 p1 p2 p3 H0 H1 H2 H3) as [packed [He Hu]].
    exists packed. split.
    + change (BitPacker.encodeForBits 10 [p0; p1; p2; p3] (len [p0; p1; p2; p3]) 1)
        with (b ← BitPacker.encodeTo10Bit [p0; p1; p2; p3] 4 1; Some (10, b)).
      rewrite He. reflexivity.
    + exact Hu.
  - destruct group as [|p0 [|p1 [|? ?]]]; try discriminate Hlen.
    apply Forall_cons in Hall as [H0 Hall]. apply Forall_cons in Hall as [H1 _].
    destruct (unpack12_of_pack12 p0 p1 H0 H1) as [packed [He Hu]].
    exists packed. split.
    + change (BitPacker.encodeForBits 12 [p0; p1] (len [p0; p1]) 1)
        with (b ← BitPacker.encodeTo12Bit [p0; p1] 2 1; Some (12, b)).
      rewrite He. reflexivity.
    + exact Hu.
  - destruct group as [|v [|? ?]]; try discriminate Hlen.
    apply Forall_cons in Hall as [H0 _].
    exists (BitPacker.le16_bytes [v]). split; [reflexivity|].
    change (len [v]) with 1. rewrite (unpack16_of_le16 v H0). cbn [map].
    change (2 ^ (16 - 16)) with 1. rewrite Z.mul_1_r. reflexivity.
Qed.

Lemma unpack_pack_whole_group_witness :
  exists packed,
    BitPacker.encodeForBits 12 [4095; 1] 2 1 = Some (12, packed)
    /\ BitPacker.unpackBits packed 2 12 = Some [65520; 16].
Proof.
  apply (unpack_pack_whole_group 12 [4095; 1]).
  - right; left; reflexivity.
  - reflexivity.
  - repeat constructor; lia.
Defined.

(** ** Frame renderer: binning, levels and the pixel store *)

Section RendererFacts.
Import Renderer.

Lemma srcAt_in_range (srcData : list Z) (idx : Z) :
  0 <= idx < len srcData ->
  srcAt srcData idx = Some (default 0 (srcData !! Z.to_nat idx)).
Proof.
  intros H. unfold srcAt. destruct (idx <? 0) eqn:E; [lia|].
  destruct (srcData !! Z.to_nat idx) eqn:L; [reflexivity|].
  apply lookup_ge_None in L. unfold len in H. lia.
Qed.

Lemma cell_index_in_range (W n srcX srcY r c : Z) :
  0 <= srcX -> 0 <= srcY -> 0 <= r -> 0 <= c -> srcX + c < W ->
  (srcY + r + 1) * W <= n ->
  0 <= (srcY + r) * W + srcX + c < n.
Proof. intros. nia. Qed.

Lemma binnedSample_in_range (srcData : list Z) (W srcX srcY dy dx : Z) :
  0 <= srcX -> 0 <= srcY -> 0 <= dx -> 0 <= dy -> srcX + dx + 1 < W ->
  (srcY + dy + 2) * W <= len srcData ->
  let px r c := default 0 (srcData !! Z.to_nat ((srcY + r) * W + srcX + c)) in
  binnedSample srcData W srcX srcY dy dx
  = Some ((px dy dx + px dy (dx + 1) + px (dy + 1) dx + px (dy + 1) (dx + 1)) mod 65536).
Proof.
  intros HX HY Hdx Hdy HW Hlen px. unfold binnedSample.
  rewrite (srcAt_in_range srcData ((srcY + dy) * W + srcX + dx))
    by (apply cell_index_in_range; lia).
  rewrite (srcAt_in_range srcData ((srcY + dy) * W + srcX + dx + 1))
    by (rewrite <- Z.add_assoc; apply cell_index_in_range; lia).
  rewrite (srcAt_in_range srcData ((srcY + dy + 1) * W + srcX + dx))
    by (apply cell_index_in_range; lia).
  rewrite (srcAt_in_range srcData ((srcY + dy + 1) * W + srcX + dx + 1))
    by (rewrite <- Z.add_assoc; apply cell_index_in_range; lia).
  cbn. unfold px, to_u16. rewrite <- !Z.add_assoc. reflexivity.
Qed.

End RendererFacts.

(** C10.  In quad-Bayer 2x2 binning ([interpretAsQuadBayer] with scale 2) the
    source levels are multiplied by 4, and each of the four samples of a
    block is the sum of its four sub-samples reduced modulo [2^16] by the
    store into [uint16_t]; the reduced value is what the linearisation
    receives.  The sum is not saturated. *)
Theorem binned_sample_wraps_modulo_2_16 (srcData : list Z) (originalWidth srcX srcY : Z)
    (b0 b1 b2 b3 h0 h1 h2 h3 srcWhiteLevel : Q) :
  0 <= srcX -> 0 <= srcY -> srcX + 4 <= originalWidth ->
  (srcY + 4) * originalWidth <= len srcData ->
  let px r c := default 0 (srcData !! Z.to_nat ((srcY + r) * originalWidth + srcX + c)) in
  let s0 := (px 0 0 + px 0 1 + px 1 0 + px 1 1) mod 65536 in
  let s1 := (px 0 2 + px 0 3 + px 1 2 + px 1 3) mod 65536 in
  let s2 := (px 2 0 + px 2 1 + px 3 0 + px 3 1) mod 65536 in
  let s3 := (px 2 2 + px 2 3 + px 3 2 + px 3 3) mod 65536 in
  Renderer.binnedLevels (Renderer.cfaSizeOf true) (Renderer.evenScale 2)
    [b0; b1; b2; b3] srcWhiteLevel
  = ([b0 * 4; b1 * 4; b2 * 4; b3 * 4]%Q, (srcWhiteLevel * 4)%Q)
  /\ Renderer.fetchBlock srcData originalWidth (Renderer.cfaSizeOf true)
       (Renderer.evenScale 2) srcX srcY = Some [s0; s1; s2; s3]
  /\ Renderer.linearisedBlock srcData originalWidth (Renderer.cfaSizeOf true)
       (Renderer.evenScale 2) srcX srcY [b0; b1; b2; b3] srcWhiteLevel [h0; h1; h2; h3]
     = Some [ Renderer.linearised s0 b0 srcWhiteLevel h0;
              Renderer.linearised s1 b1 srcWhiteLevel h1;
              Renderer.linearised s2 b2 srcWhiteLevel h2;
              Renderer.linearised s3 b3 srcWhiteLevel h3 ].
Proof.
  intros HX HY HW Hlen px s0 s1 s2 s3.
  assert (Hfetch : Renderer.fetchBlock srcData originalWidth (Renderer.cfaSizeOf true)
                     (Renderer.evenScale 2) srcX srcY = Some [s0; s1; s2; s3]).
  { change (Renderer.fetchBlock srcData originalWidth (Renderer.cfaSizeOf true)
              (Renderer.evenScale 2) srcX srcY)
      with (s0 ← Renderer.binnedSample srcData originalWidth srcX srcY 0 0;
            s1 ← Renderer.binnedSample srcData originalWidth srcX srcY 0 2;
            s2 ← Renderer.binnedSample srcData originalWidth srcX srcY 2 0;
            s3 ← Renderer.binnedSample srcData originalWidth srcX srcY 2 2;
            Some [s0; s1; s2; s3]).
    rewrite !binnedSample_in_range by lia. reflexivity. }
  split; [reflexivity|]. split; [exact Hfetch|].
  unfold Renderer.linearisedBlock. rewrite Hfetch. reflexivity.
Qed.

Lemma binned_sample_wraps_modulo_2_16_witness :
  Renderer.fetchBlock (replicate 16 20000) 4 (Renderer.cfaSizeOf true)
    (Renderer.evenScale 2) 0 0 = Some [14464; 14464; 14464; 14464]
  /\ 20000 + 20000 + 20000 + 20000 > 65535.
Proof.
  split; [|lia].
  apply (binned_sample_wraps_modulo_2_16 (replicate 16 20000) 4 0 0
           0 0 0 0 1 1 1 1 1023%Q); [lia | lia | lia | vm_compute; discriminate].
Defined.

(** ** Destination levels and the rendered buffer *)

Section LevelFacts.
Import Renderer.

Lemma bitsNeeded_loop_log2 (fuel : nat) (value bits : Z) :
  0 < value < 2 ^ Z.of_nat fuel ->
  bitsNeeded_loop fuel value bits = bits + Z.log2 value + 1.
Proof.
  revert value bits. induction fuel as [|fuel IH]; intros value bits H.
  - change (2 ^ Z.of_nat 0) with 1 in H. lia.
  - cbn [bitsNeeded_loop]. destruct (0 <? value) eqn:E; [|lia].
    destruct (Z.eq_dec value 1) as [->|Hne].
    + change (Z.shiftr 1 1) with 0. change (Z.log2 1) with 0.
      destruct fuel; cbn [bitsNeeded_loop Z.ltb Z.compare]; lia.
    + assert (Hhalf : Z.shiftr value 1 = value / 2)
        by (rewrite Z.shiftr_div_pow2 by lia; reflexivity).
      assert (Hlog : Z.log2 (Z.shiftr value 1) = Z.log2 value - 1).
      { rewrite Z.log2_shiftr by lia.
        assert (1 <= Z.log2 value) by (apply Z.log2_le_pow2; lia). lia. }
      rewrite IH.
      * rewrite Hlog. lia.
      * rewrite Hhalf. rewrite Nat2Z.inj_succ, Z.pow_succ_r in H by lia.
        split; [apply Z.div_str_pos; lia | apply Z.div_lt_upper_bound; lia].
Qed.

Lemma bitsNeeded_bounds (value : Z) :
  255 <= value <= 65535 -> 8 <= bitsNeeded value <= 16.
Proof.
  intros H. unfold bitsNeeded. destruct (value =? 0) eqn:E; [lia|].
  rewrite bitsNeeded_loop_log2 by (change (2 ^ Z.of_nat 16) with 65536; lia).
  assert (7 <= Z.log2 value) by (apply Z.log2_le_pow2; [lia|change (2 ^ 7) with 128; lia]).
  assert (Z.log2 value < 16) by (apply Z.log2_lt_pow2; [lia|change (2 ^ 16) with 65536; lia]).
  lia.
Qed.

Lemma whiteForBits_bounds (useBits : Z) :
  0 <= useBits <= 16 -> (0 <= whiteForBits useBits <= 65535)%Q.
Proof.
  intros H.
  assert (useBits = 0 \/ useBits = 1 \/ useBits = 2 \/ useBits = 3 \/ useBits = 4
          \/ useBits = 5 \/ useBits = 6 \/ useBits = 7 \/ useBits = 8 \/ useBits = 9
          \/ useBits = 10 \/ useBits = 11 \/ useBits = 12 \/ useBits = 13
          \/ useBits = 14 \/ useBits = 15 \/ useBits = 16) as Hc by lia.
  repeat (destruct Hc as [-> | Hc]); try subst useBits;
    (split; vm_compute; discriminate).
Qed.

Lemma storeSample_bounded (v : fval) (dstWhiteLevel : Q) :
  v <> FNaN -> (0 <= dstWhiteLevel <= 65535)%Q ->
  exists s, storeSample v dstWhiteLevel = Some s /\ 0 <= s <= Qfloor dstWhiteLevel.
Proof.
  intros Hnan [H0 H1]. unfold storeSample, fclamp.
  assert (Qltb dstWhiteLevel 0 = false) as -> by (apply Qltb_false; assumption).
  assert (Hw : float_to_u16 dstWhiteLevel = Some (Qfloor dstWhiteLevel)
               /\ 0 <= Qfloor dstWhiteLevel <= 65535)
    by (apply float_to_u16_in_range; split; assumption).
  assert (Hz : float_to_u16 0 = Some 0) by reflexivity.
  destruct v as [| | |q]; [contradiction| | |]; cbn.
  - exists 0. split; [exact Hz|lia].
  - exists (Qfloor dstWhiteLevel). split; [apply Hw|lia].
  - destruct (Qltb q 0) eqn:Elo; cbn.
    + exists 0. split; [exact Hz|lia].
    + apply Qltb_false in Elo.
      destruct (Qltb dstWhiteLevel q) eqn:Ehi; cbn.
      * exists (Qfloor dstWhiteLevel). split; [apply Hw|lia].
      * apply Qltb_false in Ehi.
        destruct (float_to_u16_in_range q) as [Hq Hq'].
        { split; [assumption|]. eapply Qle_trans; eassumption. }
        exists (Qfloor q). split; [exact Hq|].
        split; [lia|]. apply Qfloor_resp_le. assumption.
Qed.

Section PixelLoopFacts.

Variable rounded : Z -> Z -> Z -> fval.
Variables (W cfaSize scale : Z) (dstWhiteLevel : Q).
Hypothesis rounded_not_nan : forall x y i, rounded x y i <> FNaN.
Hypothesis white_in_range : (0 <= dstWhiteLevel <= 65535)%Q.

Local Abbreviation bounded := (Forall (fun s => 0 <= s <= Qfloor dstWhiteLevel)).

Lemma writeBlock_bounded (stores : list (Z * Z)) (x y off : Z) (dst : list Z) :
    Forall (fun di => 0 <= off + di.1 < len dst) stores ->
    bounded dst ->
    exists dst', writeBlock rounded dstWhiteLevel x y off stores dst = Some dst'
                 /\ length dst' = length dst /\ bounded dst'.
  Proof using rounded_not_nan white_in_range.
    revert dst. induction stores as [|[d i] stores IH]; intros dst Hin Hb.
    - exists dst. auto.
    - apply Forall_cons in Hin as [Hd Hin]. cbn [writeBlock fst] in *.
      destruct (storeSample_bounded (rounded x y i) dstWhiteLevel
                  (rounded_not_nan x y i) white_in_range) as [s [-> Hs]].
      cbn. unfold writeU16. unfold len in Hd.
      destruct (0 <=? off + d) eqn:E1; [|lia].
      destruct (off + d <? Z.of_nat (length dst)) eqn:E2; [|lia]. cbn.
      destruct (IH (<[Z.to_nat (off + d) := s]> dst)) as [dst' [Hw [Hl Hb']]].
      + unfold len. rewrite length_insert. exact Hin.
      + apply Forall_insert; assumption.
      + exists dst'. rewrite length_insert in Hl. auto.
  Qed.

  (** The stores of the active path and the advance of [dstOffset] per
      block. *)
Local Abbreviation activeStores :=
    (if blockPath cfaSize scale then bayerStores W else quadStores W).
Local Abbreviation advance := (if blockPath cfaSize scale then 2 else 2 * cfaSize).

Lemma blockStep_bounded (x y off : Z) (dst : list Z) :
    Forall (fun di => 0 <= off + di.1 < len dst) activeStores ->
    bounded dst ->
    exists dst', blockStep rounded W cfaSize scale dstWhiteLevel x y (off, dst)
                 = Some (off + advance, dst')
                 /\ length dst' = length dst /\ bounded dst'.
  Proof using rounded_not_nan white_in_range.
    intros Hin Hb. unfold blockStep. cbn [fst snd].
    destruct (blockPath cfaSize scale);
      destruct (writeBlock_bounded _ x y off dst Hin Hb) as [dst' [-> [Hl Hb']]];
      exists dst'; auto.
  Qed.

Lemma rowLoop_bounded (n : nat) (x y off : Z) (dst : list Z) :
    (forall c, 0 <= c < Z.of_nat n ->
       Forall (fun di => 0 <= off + advance * c + di.1 < len dst) activeStores) ->
    bounded dst ->
    exists dst', rowLoop rounded W cfaSize scale dstWhiteLevel n x y (off, dst)
                 = Some (off + advance * Z.of_nat n, dst')
                 /\ length dst' = length dst /\ bounded dst'.
  Proof using rounded_not_nan white_in_range.
    revert x off dst. induction n as [|n IH]; intros x off dst Hin Hb.
    - exists dst. cbn [rowLoop]. rewrite Z.mul_0_r, Z.add_0_r. auto.
    - cbn [rowLoop].
      destruct (blockStep_bounded x y off dst) as [dst1 [-> [Hl1 Hb1]]].
      { specialize (Hin 0 ltac:(lia)). rewrite Z.mul_0_r, Z.add_0_r in Hin. exact Hin. }
      { exact Hb. }
      cbn.
      destruct (IH (x + stride cfaSize scale) (off + advance) dst1) as [dst' [Hr [Hl Hb']]].
      + intros c Hc. specialize (Hin (c + 1) ltac:(lia)).
        unfold len in *. rewrite Hl1.
        eapply Forall_impl; [exact Hin|]. cbn. intros di Hdi. lia.
      + exact Hb1.
      + exists dst'. rewrite Hr. split; [|split; [congruence|assumption]].
        f_equal. f_equal. lia.
  Qed.

Local Abbreviation rowAdvance nrow :=
    (advance * Z.of_nat nrow
     + W * (if (cfaSize =? 2) && (scale =? 1) then 3 else 1)).

Lemma frameLoop_bounded (nrow : nat) (m : nat) (y off : Z) (dst : list Z) :
    nrow = loopCount W (stride cfaSize scale) ->
    (forall r c, 0 <= r < Z.of_nat m -> 0 <= c < Z.of_nat nrow ->
       Forall (fun di => 0 <= off + rowAdvance nrow * r + advance * c + di.1 < len dst)
              activeStores) ->
    bounded dst ->
    exists st', frameLoop rounded W cfaSize scale dstWhiteLevel m y (off, dst) = Some st'
                /\ length st'.2 = length dst /\ bounded st'.2.
  Proof using rounded_not_nan white_in_range.
    intros Hnrow. revert y off dst. induction m as [|m IH]; intros y off dst Hin Hb.
    - exists (off, dst). auto.
    - cbn [frameLoop]. rewrite <- Hnrow.
      destruct (rowLoop_bounded nrow 0 y off dst) as [dst1 [-> [Hl1 Hb1]]].
      { intros c Hc. specialize (Hin 0 c ltac:(lia) Hc).
        rewrite Z.mul_0_r, Z.add_0_r in Hin. exact Hin. }
      { exact Hb. }
      cbn [mbind option_bind fst snd].
      destruct (IH (y + stride cfaSize scale)
                  (off + advance * Z.of_nat nrow
                   + W * (if (cfaSize =? 2) && (scale =? 1) then 3 else 1)) dst1)
        as [st' [Hf [Hl Hb']]].
      + intros r c Hr Hc. specialize (Hin (r + 1) c ltac:(lia) Hc).
        unfold len in *. rewrite Hl1.
        eapply Forall_impl; [exact Hin|]. cbn. intros di Hdi. lia.
      + exact Hb1.
      + exists st'. split; [exact Hf|]. split; [congruence|assumption].
  Qed.

End PixelLoopFacts.

Lemma useBitsFor_in_range (white : Q) (delta : Z) :
  (255 <= white <= 65535)%Q -> -8 <= delta ->
  exists useBits, useBitsFor white delta = Some useBits /\ 0 <= useBits <= 16.
Proof.
  intros [Hlo Hhi] Hd. unfold useBitsFor.
  destruct (float_to_u16_in_range white) as [-> Hw].
  { split; [|assumption]. eapply Qle_trans; [|exact Hlo]. discriminate. }
  assert (255 <= Qfloor white)
    by (change 255 with (Qfloor 255); apply Qfloor_resp_le; assumption).
  pose proof (bitsNeeded_bounds (Qfloor white) ltac:(lia)).
  cbn. eexists. split; [reflexivity|]. lia.
Qed.

Lemma destinationLevels_in_range (applyShadingMap normaliseShadingMap debugShadingMap : bool)
    (mode : LogTransformMode) (srcBlackLevel : list Q) (srcWhiteLevel : Q) :
  (255 <= srcWhiteLevel <= 65535)%Q ->
  exists dstBlackLevel dstWhiteLevel,
    destinationLevels applyShadingMap normaliseShadingMap debugShadingMap mode
      srcBlackLevel srcWhiteLevel = Some (dstBlackLevel, dstWhiteLevel)
    /\ (0 <= dstWhiteLevel <= 65535)%Q.
Proof.
  intros Hw.
  assert (Hsrc : (0 <= srcWhiteLevel <= 65535)%Q).
  { destruct Hw as [Hlo Hhi]. split; [|assumption].
    eapply Qle_trans; [|exact Hlo]. discriminate. }
  assert (Hbits : forall delta, -8 <= delta ->
            exists useBits, useBitsFor srcWhiteLevel delta = Some useBits
                            /\ (0 <= whiteForBits useBits <= 65535)%Q).
  { intros delta Hd. destruct (useBitsFor_in_range _ delta Hw Hd) as [u [Hu Hr]].
    exists u. split; [assumption|]. apply whiteForBits_bounds. assumption. }
  unfold destinationLevels.
  destruct applyShadingMap.
  - destruct normaliseShadingMap; [|destruct debugShadingMap].
    + destruct (Hbits 4 ltac:(lia)) as [u [-> _]]. cbn. eauto.
    + cbn. eauto.
    + destruct (Hbits (shadingBitDelta mode)) as [u [-> Hu]];
        [destruct mode; cbn; lia|]. cbn. eauto.
  - destruct mode; cbn; eauto.
    + destruct (Hbits (-2) ltac:(lia)) as [u [-> Hu]]. cbn. eauto.
    + destruct (Hbits (-4) ltac:(lia)) as [u [-> Hu]]. cbn. eauto.
    + destruct (Hbits (-6) ltac:(lia)) as [u [-> Hu]]. cbn. eauto.
    + destruct (Hbits (-8) ltac:(lia)) as [u [-> Hu]]. cbn. eauto.
Qed.

Lemma evenScale_cases (draftScale : Z) :
  evenScale draftScale = 1 \/ 2 <= evenScale draftScale.
Proof.
  unfold evenScale. destruct (1 <? draftScale) eqn:E; [right|left; reflexivity].
  apply Z.ltb_lt in E. Z.to_euclidean_division_equations. lia.
Qed.

Lemma renderPixels_bounded (rounded : Z -> Z -> Z -> fval) (a b draftScale : Z)
    (interpretAsQuadBayer : bool) (dstWhiteLevel : Q) :
  0 <= a -> 0 <= b ->
  (forall x y i, rounded x y i <> FNaN) ->
  (0 <= dstWhiteLevel <= 65535)%Q ->
  exists dst,
    renderPixels rounded (4 * a) (4 * b) (cfaSizeOf interpretAsQuadBayer)
      (evenScale draftScale) dstWhiteLevel = Some dst
    /\ Z.of_nat (length dst) = (4 * a) * (4 * b)
    /\ Forall (fun s => 0 <= s <= Qfloor dstWhiteLevel) dst.
Proof.
  intros Ha Hb Hnan Hwhite. unfold renderPixels.
  set (cfaSize := cfaSizeOf interpretAsQuadBayer).
  set (scale := evenScale draftScale).
  set (dst0 := replicate (Z.to_nat (4 * a * (4 * b))) 0).
  assert (Hlen0 : len dst0 = 4 * a * (4 * b)).
  { unfold len, dst0. rewrite length_replicate. nia. }
  assert (Hb0 : Forall (fun s => 0 <= s <= Qfloor dstWhiteLevel) dst0).
  { apply Forall_replicate. split; [lia|].
    change 0 with (Qfloor 0). apply Qfloor_resp_le. apply Hwhite. }
  destruct (frameLoop_bounded rounded (4 * a) cfaSize scale dstWhiteLevel Hnan Hwhite
              (loopCount (4 * a) (stride cfaSize scale))
              (loopCount (4 * b) (stride cfaSize scale)) 0 0 dst0 eq_refl)
    as [st' [-> [Hl Hb']]].
  - intros r c Hr Hc. rewrite Hlen0. subst cfaSize scale.
    assert (Hq : forall n, 0 <= n -> Z.of_nat (loopCount (4 * n) 4) = n)
      by (intros n Hn; unfold loopCount; Z.to_euclidean_division_equations; lia).
    assert (Hh : forall n, 0 <= n -> Z.of_nat (loopCount (4 * n) 2) = 2 * n)
      by (intros n Hn; unfold loopCount; Z.to_euclidean_division_equations; lia).
    destruct interpretAsQuadBayer; destruct (evenScale_cases draftScale) as [E|E].
    + rewrite E in *.
      change (blockPath (cfaSizeOf true) 1) with false in *.
      change (stride (cfaSizeOf true) 1) with 4 in *.
      rewrite Hq in * by assumption.
      repeat (constructor; [cbn; nia|]). constructor.
    + assert (E1 : (1 <? evenScale draftScale) = true) by lia.
      assert (E2 : (evenScale draftScale <? 2) = false) by lia.
      assert (E3 : (evenScale draftScale =? 1) = false) by lia.
      unfold blockPath, stride in *. rewrite E1, E2, ?E3 in *.
      cbn [cfaSizeOf Z.ltb Z.compare Pos.compare Pos.compare_cont orb andb Z.eqb] in *.
      change (2 * 1) with 2 in *.
      rewrite Hh in * by assumption.
      repeat (constructor; [cbn; nia|]). constructor.
    + rewrite E in *.
      change (blockPath (cfaSizeOf false) 1) with true in *.
      change (stride (cfaSizeOf false) 1) with 2 in *.
      rewrite Hh in * by assumption.
      repeat (constructor; [cbn; nia|]). constructor.
    + assert (E1 : (1 <? evenScale draftScale) = true) by lia.
      assert (E2 : (evenScale draftScale <? 2) = false) by lia.
      unfold blockPath, stride in *. rewrite E1, E2 in *.
      cbn [cfaSizeOf Z.ltb Z.compare Pos.compare Pos.compare_cont orb andb Z.eqb] in *.
      change (2 * 1) with 2 in *.
      rewrite Hh in * by assumption.
      repeat (constructor; [cbn; nia|]). constructor.
  - exact Hb0.
  - exists st'.2. split; [reflexivity|]. split; [|assumption].
    rewrite Hl. exact Hlen0.
Qed.


End LevelFacts.

(** C3, as stated, fails: with a source white level of 65535 and quad-Bayer
    2x2 binning (no shading, no log curve) the level is multiplied by 4 and
    passed through, so the white level the samples are clamped to is 262140
    and its conversion to [unsigned short] is not defined. *)
Lemma dst_white_level_above_u16_counterexample :
  exists dstBlackLevel dstWhiteLevel,
    Renderer.destinationLevels false false false Disabled
      (Renderer.binnedLevels (Renderer.cfaSizeOf true) (Renderer.evenScale 2)
         [0; 0; 0; 0]%Q 65535%Q).1
      (Renderer.binnedLevels (Renderer.cfaSizeOf true) (Renderer.evenScale 2)
         [0; 0; 0; 0]%Q 65535%Q).2
    = Some (dstBlackLevel, dstWhiteLevel)
    /\ (65535 < dstWhiteLevel)%Q
    /\ Renderer.returnedWhiteLevel dstWhiteLevel = None.
Proof.
  eexists. eexists. split; [reflexivity|]. split; reflexivity.
Qed.

(** C3, amended.  Whenever the source white level, after the multiplication
    by 4 of the quad-Bayer bin mode, lies between 255 and 65535 and no value
    reaching the clamp is NaN, then for every settings snapshot the
    destination levels are defined, [dst_white_level] is at most [2^16 - 1],
    the rendered buffer is defined and each of its samples [s] satisfies
    [0 <= s <= dst_white_level]. *)
Theorem rendered_samples_within_white_level
    (rounded : Z -> Z -> Z -> Renderer.fval) (a b draftScale : Z)
    (interpretAsQuadBayer applyShadingMap normaliseShadingMap debugShadingMap : bool)
    (mode : LogTransformMode) (srcBlackLevel : list Q) (srcWhiteLevel : Q) :
  let cfaSize := Renderer.cfaSizeOf interpretAsQuadBayer in
  let scale := Renderer.evenScale draftScale in
  let levels := Renderer.binnedLevels cfaSize scale srcBlackLevel srcWhiteLevel in
  0 <= a -> 0 <= b ->
  (forall x y i, rounded x y i <> Renderer.FNaN) ->
  (255 <= levels.2 <= 65535)%Q ->
  exists dstBlackLevel dstWhiteLevel white dst,
    Renderer.destinationLevels applyShadingMap normaliseShadingMap debugShadingMap mode
      levels.1 levels.2 = Some (dstBlackLevel, dstWhiteLevel)
    /\ Renderer.returnedWhiteLevel dstWhiteLevel = Some white
    /\ white <= 65535
    /\ Renderer.renderPixels rounded (4 * a) (4 * b) cfaSize scale dstWhiteLevel = Some dst
    /\ Forall (fun s => 0 <= s <= white) dst.
Proof.
  intros cfaSize scale levels Ha Hb Hnan Hlevels.
  destruct (destinationLevels_in_range applyShadingMap normaliseShadingMap
              debugShadingMap mode levels.1 levels.2 Hlevels)
    as [dstBlackLevel [dstWhiteLevel [Hdst Hrange]]].
  destruct (float_to_u16_in_range dstWhiteLevel Hrange) as [Hret Hwhite].
  destruct (renderPixels_bounded rounded a b draftScale interpretAsQuadBayer
              dstWhiteLevel Ha Hb Hnan Hrange) as [dst [Hrender [_ Hbounded]]].
  exists dstBlackLevel, dstWhiteLevel, (Qfloor dstWhiteLevel), dst.
  repeat split; try assumption; lia.
Qed.

Lemma rendered_samples_within_white_level_witness :
  exists dstBlackLevel dstWhiteLevel white dst,
    Renderer.destinationLevels true false false ReduceBy2Bit
      [64; 64; 64; 64]%Q 1023%Q = Some (dstBlackLevel, dstWhiteLevel)
    /\ Renderer.returnedWhiteLevel dstWhiteLevel = Some white
    /\ white <= 65535
    /\ Renderer.renderPixels
         (fun x y i => Renderer.FFin (inject_Z (100 * (x + y) + 90 * i - 50)))
         4 4 1 1 dstWhiteLevel = Some dst
    /\ Forall (fun s => 0 <= s <= white) dst.
Proof.
  apply (rendered_samples_within_white_level
           (fun x y i => Renderer.FFin (inject_Z (100 * (x + y) + 90 * i - 50)))
           1 1 1 false true false false ReduceBy2Bit [64; 64; 64; 64]%Q 1023%Q).
  - lia.
  - lia.
  - intros x y i. discriminate.
  - split; vm_compute; discriminate.
Defined.

(** ** DNG tags: linearization table and CFA pattern *)

(** With [Keep Input] and no baked shading map the pixels go through the
    log curve (unless the 2x2-block path shows the shading map), and the
    guard of [generateDng] writes no table. *)
Lemma keep_input_without_shading (needRemosaic : bool) (settings : RenderSettings) :
  settings.(logTransform) = KeepInput ->
  Dng.applyShadingMapOf settings = false ->
  Dng.debugShadingMapOf settings = false ->
  Dng.renderedCurve needRemosaic settings = Renderer.CurveLog
  /\ Dng.writesLinearizationTable settings = false.
Proof.
  intros Hmode Hshading Hdebug. split.
  - unfold Dng.renderedCurve, Renderer.pixelCurve. rewrite Hdebug, Hmode.
    destruct (Renderer.blockPath _ _); reflexivity.
  - unfold Dng.writesLinearizationTable. rewrite Hmode, Hshading. reflexivity.
Qed.

(** A table is written only in a log mode; without the debug option the
    pixels under a table are log-encoded. *)
Lemma table_only_in_log_mode (needRemosaic : bool) (settings : RenderSettings) :
  Dng.writesLinearizationTable settings = true ->
  settings.(logTransform) <> Disabled
  /\ (Dng.debugShadingMapOf settings = false ->
      Dng.renderedCurve needRemosaic settings = Renderer.CurveLog).
Proof.
  intros Hwrites. unfold Dng.writesLinearizationTable in Hwrites.
  apply andb_true_iff in Hwrites as [Hd _]. apply bool_decide_eq_true in Hd.
  split; [exact Hd|]. intros Hdebug.
  unfold Dng.renderedCurve, Renderer.pixelCurve. rewrite Hdebug.
  rewrite bool_decide_eq_false_2 by exact Hd.
  destruct (Renderer.blockPath _ _); reflexivity.
Qed.

(** C2.  The guard of the table and the pixel loop disagree in both
    directions.  With default-constructed settings, [Keep Input] and no
    shading map, the pixels are log-encoded and the DNG carries no
    LinearizationTable, and the renderer's levels instead of
    [BlackLevel = [0,0,0,0]], [WhiteLevel = 65534].  With [Reduce by 2bit],
    the shading map applied and the debug option on, the table of
    [dstWhiteLevel + 1] entries is written with these levels over pixels
    that hold the shading visualisation, not the log curve. *)
Theorem linearization_table_guard_disagrees_with_pixels :
  (let settings := {| options := 0; draftScale := 1; logTransform := KeepInput;
                      quadBayerOption := Remosaic |} in
   Dng.renderedCurve false settings = Renderer.CurveLog
   /\ Dng.writesLinearizationTable settings = false
   /\ Dng.levelTags settings [0; 0; 0; 0] 1023
      = {| Dng.LinearizationTableSize := None;
           Dng.BlackLevel := [0; 0; 0; 0];
           Dng.WhiteLevel := 1023 |})
  /\ (let settings :=
         {| options := Z.lor RENDER_OPT_APPLY_VIGNETTE_CORRECTION RENDER_OPT_DEBUG_SHADING_MAP;
            draftScale := 1; logTransform := ReduceBy2Bit; quadBayerOption := Remosaic |} in
      Dng.renderedCurve false settings = Renderer.CurveShadingDebug
      /\ Renderer.CurveShadingDebug <> Renderer.CurveLog
      /\ Dng.writesLinearizationTable settings = true
      /\ Dng.levelTags settings [0; 0; 0; 0] 255
         = {| Dng.LinearizationTableSize := Some 256;
              Dng.BlackLevel := [0; 0; 0; 0];
              Dng.WhiteLevel := 65534 |}).
Proof.
  split.
  - cbv zeta. split; [reflexivity|]. split; reflexivity.
  - cbv zeta. split; [reflexivity|]. split; [discriminate|]. split; reflexivity.
Qed.

Lemma sensorCfa_patterns (sensorArrangement : string) (cfa : list Z) :
  Dng.sensorCfa sensorArrangement = Some cfa ->
  cfa = [0; 1; 1; 2] \/ cfa = [2; 1; 1; 0] \/ cfa = [1; 0; 2; 1] \/ cfa = [1; 2; 0; 1].
Proof.
  unfold Dng.sensorCfa. intros H.
  repeat (match type of H with
          | (if ?b then _ else _) = _ => destruct b
          end; [injection H as <-; tauto|]).
  discriminate.
Qed.

(** Each entry of the 2x2 pattern is repeated over a 2x2 cluster. *)
Lemma quadCfa_clusters (cfa : list Z) (r c : Z) :
  cfa = [0; 1; 1; 2] \/ cfa = [2; 1; 1; 0] \/ cfa = [1; 0; 2; 1] \/ cfa = [1; 2; 0; 1] ->
  0 <= r < 4 -> 0 <= c < 4 ->
  Dng.quadCfa cfa !! Z.to_nat (4 * r + c) = cfa !! Z.to_nat (2 * (r / 2) + c / 2).
Proof.
  intros Hcfa Hr Hc.
  assert (r = 0 \/ r = 1 \/ r = 2 \/ r = 3) as Hr' by lia.
  assert (c = 0 \/ c = 1 \/ c = 2 \/ c = 3) as Hc' by lia.
  destruct Hcfa as [-> | [-> | [-> | ->]]];
    destruct Hr' as [-> | [-> | [-> | ->]]];
    destruct Hc' as [-> | [-> | [-> | ->]]]; reflexivity.
Qed.

(** C7, as stated, fails: a container recorded with remosaic needed gets the
    4x4 pattern although the INTERPRET_AS_QUAD_BAYER option is not set. *)
Lemma quad_cfa_without_option_counterexample :
  hasOption 0 RENDER_OPT_INTERPRET_AS_QUAD_BAYER = false
  /\ Dng.generateDngCfa "rggb" true
       {| options := 0; draftScale := 1; logTransform := Disabled;
          quadBayerOption := CorrectQBCFAMetadata |}
     = Some {| Dng.CFARepeatPatternDim := (4, 4);
               Dng.CFAPattern := [0;0;1;1; 0;0;1;1; 1;1;2;2; 1;1;2;2] |}.
Proof. split; reflexivity. Qed.

(** C7, amended.  For a valid sensor arrangement the DNG carries
    CFARepeatPatternDim 4x4 exactly when the frame is interpreted as
    quad-Bayer (the container needs remosaic, or the
    INTERPRET_AS_QUAD_BAYER option is set) and [draft_scale = 1] and
    [quad_bayer_option = CorrectQBCFAMetadata]; the pattern then has 16
    entries, entry (r, c) being entry (r / 2, c / 2) of the container's 2x2
    pattern.  Otherwise the dimension is 2x2 and the pattern is the
    container's 4-entry pattern. *)
Theorem cfa_pattern_tags (sensorArrangement : string) (needRemosaic : bool)
    (settings : RenderSettings) (cfa : list Z) :
  Dng.sensorCfa sensorArrangement = Some cfa ->
  exists tags,
    Dng.generateDngCfa sensorArrangement needRemosaic settings = Some tags
    /\ (tags.(Dng.CFARepeatPatternDim) = (4, 4)
        <-> (needRemosaic = true
             \/ hasOption settings.(options) RENDER_OPT_INTERPRET_AS_QUAD_BAYER = true)
            /\ settings.(draftScale) = 1
            /\ settings.(quadBayerOption) = CorrectQBCFAMetadata)
    /\ (tags.(Dng.CFARepeatPatternDim) = (4, 4) ->
        length tags.(Dng.CFAPattern) = 16%nat
        /\ forall r c, 0 <= r < 4 -> 0 <= c < 4 ->
             tags.(Dng.CFAPattern) !! Z.to_nat (4 * r + c)
             = cfa !! Z.to_nat (2 * (r / 2) + c / 2))
    /\ (tags.(Dng.CFARepeatPatternDim) <> (4, 4) ->
        tags.(Dng.CFARepeatPatternDim) = (2, 2)
        /\ tags.(Dng.CFAPattern) = cfa /\ length cfa = 4%nat).
Proof.
  intros Hcfa. pose proof (sensorCfa_patterns _ _ Hcfa) as Hpat.
  unfold Dng.generateDngCfa. rewrite Hcfa. cbn [mbind option_bind].
  eexists. split; [reflexivity|].
  unfold Dng.cfaTags, Dng.interpretAsQuadBayer.
  destruct (needRemosaic || hasOption (options settings) RENDER_OPT_INTERPRET_AS_QUAD_BAYER)
    eqn:Ei; cbn [andb].
  - destruct (draftScale settings =? 1) eqn:Es; cbn [andb].
    + apply Z.eqb_eq in Es.
      destruct (bool_decide (quadBayerOption settings = CorrectQBCFAMetadata)) eqn:Eq.
      * apply bool_decide_eq_true in Eq. cbn.
        split; [|split].
        -- split; [intros _|reflexivity]. apply orb_true_iff in Ei. tauto.
        -- intros _. split.
           ++ destruct Hpat as [-> | [-> | [-> | ->]]]; reflexivity.
           ++ intros r c Hr Hc. apply quadCfa_clusters; assumption.
        -- intros Hne. contradiction.
      * apply bool_decide_eq_false in Eq. cbn.
        split; [|split].
        -- split; [discriminate|]. intros [_ [_ Hq]]. contradiction.
        -- discriminate.
        -- intros _. split; [reflexivity|]. split; [reflexivity|].
           destruct Hpat as [-> | [-> | [-> | ->]]]; reflexivity.
    + apply Z.eqb_neq in Es. cbn.
      split; [|split].
      * split; [discriminate|]. intros [_ [Hs _]]. contradiction.
      * discriminate.
      * intros _. split; [reflexivity|]. split; [reflexivity|].
        destruct Hpat as [-> | [-> | [-> | ->]]]; reflexivity.
  - apply orb_false_iff in Ei as [En Eo]. cbn.
    split; [|split].
    + split; [discriminate|]. intros [[Hn | Ho] _]; congruence.
    + discriminate.
    + intros _. split; [reflexivity|]. split; [reflexivity|].
      destruct Hpat as [-> | [-> | [-> | ->]]]; reflexivity.
Qed.

Lemma cfa_pattern_tags_witness :
  exists tags,
    Dng.generateDngCfa "grbg" false
      {| options := RENDER_OPT_INTERPRET_AS_QUAD_BAYER; draftScale := 1;
         logTransform := Disabled; quadBayerOption := CorrectQBCFAMetadata |} = Some tags
    /\ tags.(Dng.CFARepeatPatternDim) = (4, 4)
    /\ tags.(Dng.CFAPattern) = [1;1;0;0; 1;1;0;0; 2;2;1;1; 2;2;1;1].
Proof.
  destruct (cfa_pattern_tags "grbg" false
              {| options := RENDER_OPT_INTERPRET_AS_QUAD_BAYER; draftScale := 1;
                 logTransform := Disabled; quadBayerOption := CorrectQBCFAMetadata |}
              [1; 0; 2; 1] eq_refl) as [tags [Hgen _]].
  exists tags. split; [exact Hgen|].
  vm_compute in Hgen. injection Hgen as <-. split; reflexivity.
Defined.

(** ** Colour-only shading reduction *)

Section ShadingMapFacts.
Import ShadingMap Renderer.

Lemma forLoop_defined {State : Type} (P : State -> Prop)
    (body : Z -> State -> option State) (n : nat) (start : Z) (s : State) :
  (forall i s, start <= i < start + Z.of_nat n -> P s ->
     exists s', body i s = Some s' /\ P s') ->
  P s -> exists s', forLoop n start body s = Some s' /\ P s'.
Proof.
  revert start s. induction n as [|n IH]; intros start s Hbody Hs.
  - exists s. auto.
  - cbn [forLoop]. destruct (Hbody start s ltac:(lia) Hs) as [s1 [-> Hs1]]. cbn.
    apply IH; [|exact Hs1]. intros i s2 Hi. apply Hbody. lia.
Qed.

(** The two nested loops over [j] and [i] visit the positions
    [k = j * width + i] in increasing order. *)
Lemma grid_row {State : Type} (body : Z -> State -> option State)
    (Inv : nat -> State -> Prop) (width : Z) (cells : nat) (j : Z) :
  (forall k s, (k < cells)%nat -> Inv k s ->
     exists s', body (Z.of_nat k) s = Some s' /\ Inv (S k) s') ->
  forall (n : nat) (i : Z) (k : nat) (s : State),
    Z.of_nat k = j * width + i -> (k + n <= cells)%nat -> Inv k s ->
    exists s', forLoop n i (fun i s => body (j * width + i) s) s = Some s'
               /\ Inv (k + n)%nat s'.
Proof.
  intros Hbody. induction n as [|n IH]; intros i k s Hk Hn Hs.
  - exists s. rewrite Nat.add_0_r. auto.
  - cbn [forLoop]. rewrite <- Hk.
    destruct (Hbody k s ltac:(lia) Hs) as [s1 [-> Hs1]]. cbn [mbind option_bind].
    destruct (IH (i + 1) (S k) s1 ltac:(lia) ltac:(lia) Hs1) as [s2 [E Hs2]].
    exists s2. split; [exact E|]. replace (k + S n)%nat with (S k + n)%nat by lia. exact Hs2.
Qed.

Lemma grid_loop {State : Type} (body : Z -> State -> option State)
    (Inv : nat -> State -> Prop) (width height : Z) (s : State) :
  0 < width -> 0 <= height ->
  (forall k s, Z.of_nat k < width * height -> Inv k s ->
     exists s', body (Z.of_nat k) s = Some s' /\ Inv (S k) s') ->
  Inv 0%nat s ->
  exists s',
    forLoop (Z.to_nat height) 0
      (fun j s => forLoop (Z.to_nat width) 0 (fun i s => body (j * width + i) s) s) s
    = Some s'
    /\ Inv (Z.to_nat (width * height)) s'.
Proof.
  intros Hw Hh Hbody Hs.
  set (cells := Z.to_nat (width * height)).
  assert (Hbody' : forall k s, (k < cells)%nat -> Inv k s ->
            exists s', body (Z.of_nat k) s = Some s' /\ Inv (S k) s').
  { intros k s0 Hk. apply Hbody. unfold cells in Hk. nia. }
  assert (Hrows : forall (n : nat) (j : Z) (k : nat) (s : State),
            Z.of_nat k = j * width -> Z.of_nat k + Z.of_nat n * width <= Z.of_nat cells ->
            Inv k s ->
            exists s',
              forLoop n j
                (fun j s => forLoop (Z.to_nat width) 0 (fun i s => body (j * width + i) s) s) s
              = Some s'
              /\ Inv (k + n * Z.to_nat width)%nat s').
  { induction n as [|n IH]; intros j k s0 Hk Hn Hs0.
    - exists s0. rewrite Nat.mul_0_l, Nat.add_0_r. auto.
    - cbn [forLoop].
      destruct (grid_row body Inv width cells j Hbody' (Z.to_nat width) 0 k s0
                  ltac:(lia) ltac:(nia) Hs0) as [s1 [-> Hs1]].
      cbn [mbind option_bind].
      destruct (IH (j + 1) (k + Z.to_nat width)%nat s1 ltac:(nia) ltac:(nia) Hs1)
        as [s2 [E Hs2]].
      exists s2. split; [exact E|].
      replace (k + S n * Z.to_nat width)%nat with (k + Z.to_nat width + n * Z.to_nat width)%nat
        by lia.
      exact Hs2. }
  destruct (Hrows (Z.to_nat height) 0 0%nat s ltac:(lia) ltac:(unfold cells; nia) Hs)
    as [s' [E Hs']].
  exists s'. split; [exact E|].
  replace cells with (0 + Z.to_nat height * Z.to_nat width)%nat by (unfold cells; nia).
  exact Hs'.
Qed.

Lemma fmin_cases (a b : Q) :
  (fmin a b = a /\ (a <= b)%Q) \/ (fmin a b = b /\ (b < a)%Q).
Proof.
  unfold fmin. destruct (Qltb b a) eqn:E.
  - right. apply Qltb_true in E. auto.
  - left. apply Qltb_false in E. auto.
Qed.

Lemma fmax_ge_l (a b : Q) : (a <= fmax a b)%Q.
Proof.
  unfold fmax. destruct (Qltb a b) eqn:E.
  - apply Qltb_true in E. apply Qlt_le_weak. exact E.
  - apply Qle_refl.
Qed.

Lemma foldl_fmax_ge (row : list Q) (acc : Q) : (acc <= foldl fmax acc row)%Q.
Proof.
  revert acc. induction row as [|x row IH]; intros acc; cbn [foldl].
  - apply Qle_refl.
  - eapply Qle_trans; [apply fmax_ge_l|apply IH].
Qed.

Lemma foldl_planes_ge (planes : list (list Q)) (acc : Q) :
  (acc <= foldl (fun acc row => foldl fmax acc row) acc planes)%Q.
Proof.
  revert acc. induction planes as [|p planes IH]; intros acc; cbn [foldl].
  - apply Qle_refl.
  - eapply Qle_trans; [apply (foldl_fmax_ge p)|apply IH].
Qed.

Lemma maxValueOf_positive (p0 : list Q) (planes : list (list Q)) (v : Q) :
  p0 !! 0%nat = Some v -> (0 < v)%Q ->
  isEmptyMap (p0 :: planes) = false
  /\ Qeq_bool (maxValueOf (p0 :: planes)) 0 = false.
Proof.
  intros Hlook Hv. destruct p0 as [|v' rest]; [discriminate|].
  injection Hlook as ->. split; [reflexivity|].
  apply not_true_iff_false. intros E. apply Qeq_bool_iff in E.
  assert (Hge : (v <= maxValueOf ((v :: rest) :: planes))%Q).
  { unfold maxValueOf. cbn [foldl].
    assert (Hv' : fmax 0 v = v).
    { unfold fmax. apply Qltb_true in Hv. rewrite Hv. reflexivity. }
    rewrite Hv'.
    eapply Qle_trans; [apply (foldl_fmax_ge rest)|]. apply foldl_planes_ge. }
  rewrite E in Hge. apply Qle_not_lt in Hge. contradiction.
Qed.

Lemma lookup_map {A B : Type} (f : A -> B) (l : list A) (i : nat) :
  map f l !! i = f <$> l !! i.
Proof.
  revert i. induction l as [|x l IH]; intros [|i]; cbn; try reflexivity. apply IH.
Qed.

Lemma int_of_nat (k : nat) : Z.of_nat k < 2 ^ 31 -> int_of (Z.of_nat k) = Some (Z.of_nat k).
Proof.
  intros H. unfold int_of.
  destruct (Z.leb_spec (- 2 ^ 31) (Z.of_nat k)), (Z.ltb_spec (Z.of_nat k) (2 ^ 31));
    try reflexivity; exfalso; change (2 ^ 31) with 2147483648 in *; lia.
Qed.

Lemma cell_lookup {A : Type} (shadingMap : list (list A)) (channel k : nat)
    (row : list A) (v : A) :
  shadingMap !! channel = Some row -> row !! k = Some v ->
  cell shadingMap channel (Z.of_nat k) = Some v.
Proof.
  intros Hrow Hv. unfold cell.
  destruct (Z.ltb_spec (Z.of_nat k) 0) as [E|E]; [lia|].
  rewrite Hrow. cbn [mbind option_bind]. rewrite Nat2Z.id. exact Hv.
Qed.

Lemma setCell_lookup {A : Type} (shadingMap : list (list A)) (channel k : nat)
    (row : list A) (v : A) :
  shadingMap !! channel = Some row -> (k < length row)%nat ->
  setCell shadingMap channel (Z.of_nat k) v
  = Some (<[channel := <[k := v]> row]> shadingMap).
Proof.
  intros Hrow Hk. unfold setCell.
  destruct (Z.ltb_spec (Z.of_nat k) 0) as [E|E]; [lia|].
  rewrite Hrow. cbn [mbind option_bind]. rewrite Nat2Z.id.
  destruct (k <? length row)%nat eqn:E2; [reflexivity|].
  apply Nat.ltb_ge in E2. lia.
Qed.

(** *** Float quotients *)

Lemma binary32_mono (x y : Q) : (x <= y)%Q -> (Float.binary32 x <= Float.binary32 y)%Q.
Proof. apply round_mono. lia. Qed.

Lemma binary32_compat (x y : Q) : (x == y)%Q -> Float.binary32 x = Float.binary32 y.
Proof. apply round_compat. Qed.

(** A quotient that is exactly 1 is the float 1. *)
Lemma ofQ_one (x : Q) : (x == 1)%Q -> F32.ofQ x = FFin 1.
Proof.
  intros E. unfold F32.ofQ. rewrite (binary32_compat x 1 E). reflexivity.
Qed.

(** A quotient of at least 1 is a float of at least 1, or [+inf]. *)
Lemma ofQ_ge_one (x : Q) : (1 <= x)%Q -> flt (F32.ofQ x) (FFin 1) = false.
Proof.
  intros H. unfold F32.ofQ.
  assert (Hr : (1 <= Float.binary32 x)%Q) by (apply (binary32_mono 1 x); exact H).
  cbv zeta. destruct (Qle_bool (Float.pow2 128) (Qabs (Float.binary32 x))).
  - assert (E : Qle_bool 0 (Float.binary32 x) = true) by (apply Qle_bool_iff; lra).
    rewrite E. reflexivity.
  - cbn [flt]. apply Qltb_false. exact Hr.
Qed.

Lemma div_finite (v d : Q) :
  (0 < d)%Q -> F32.div (FFin v) (FFin d) = F32.ofQ (v / d).
Proof.
  intros Hd. cbn [F32.div].
  destruct (Qeq_bool d 0) eqn:E; [|reflexivity].
  apply Qeq_bool_iff in E. rewrite E in Hd. discriminate.
Qed.

Lemma min_finite (a b : Q) : F32.min (FFin a) (FFin b) = FFin (fmin a b).
Proof. unfold F32.min, fmin. cbn [flt]. destruct (Qltb b a); reflexivity. Qed.

Lemma divideCell_lookup (shadingMap : list (list fval)) (channel k : nat)
    (row : list fval) (v d : Q) :
  shadingMap !! channel = Some row -> row !! k = Some (FFin v) -> (0 < d)%Q ->
  divideCell (FFin d) (Z.of_nat k) channel shadingMap
  = Some (<[channel := <[k := F32.ofQ (v / d)]> row]> shadingMap).
Proof.
  intros Hrow Hv Hd. unfold divideCell.
  rewrite (cell_lookup _ _ _ _ _ Hrow Hv). cbn [mbind option_bind].
  rewrite (div_finite _ _ Hd).
  apply setCell_lookup; [exact Hrow|]. apply lookup_lt_is_Some. eauto.
Qed.

(** The float written at position [i] once the positions below [n] are
    reduced. *)
Local Abbreviation reducedGain shadingMap n :=
  (fun (i : nat) (v : Q) =>
     if (i <? n)%nat then F32.ofQ (v / leastGainAt shadingMap i) else FFin v).

Lemma insert_reducedGain (shadingMap : list (list Q)) (p : list Q) (k : nat) (v : Q) :
  p !! k = Some v ->
  <[k := F32.ofQ (v / leastGainAt shadingMap k)]> (imap (reducedGain shadingMap k) p)
  = imap (reducedGain shadingMap (S k)) p.
Proof.
  intros Hv. apply list_eq. intros i.
  destruct (decide (i = k)) as [->|Hne].
  - rewrite list_lookup_insert_eq
      by (rewrite length_imap; apply lookup_lt_is_Some; eauto).
    rewrite list_lookup_imap, Hv. cbn [fmap option_fmap option_map].
    assert ((k <? S k)%nat = true) as -> by (apply Nat.ltb_lt; lia). reflexivity.
  - rewrite list_lookup_insert_ne by congruence.
    rewrite !list_lookup_imap. destruct (p !! i); [cbn [fmap option_fmap option_map]|reflexivity].
    destruct (Nat.ltb_spec i k), (Nat.ltb_spec i (S k)); try reflexivity; lia.
Qed.

Lemma lookup_reducedGain_at (shadingMap : list (list Q)) (p : list Q) (k : nat) (v : Q) :
  p !! k = Some v -> imap (reducedGain shadingMap k) p !! k = Some (FFin v).
Proof.
  intros Hv. rewrite list_lookup_imap, Hv. cbn [fmap option_fmap option_map].
  rewrite Nat.ltb_irrefl. reflexivity.
Qed.

Lemma fmin4_positive (v0 v1 v2 v3 : Q) :
  (0 < v0)%Q -> (0 < v1)%Q -> (0 < v2)%Q -> (0 < v3)%Q ->
  (0 < fmin v0 (fmin v1 (fmin v2 v3)))%Q.
Proof.
  intros H0 H1 H2 H3.
  destruct (fmin_cases v2 v3) as [[-> _]|[-> _]];
    destruct (fmin_cases v1 v2) as [[E1 _]|[E1 _]];
    destruct (fmin_cases v1 v3) as [[E1' _]|[E1' _]];
    rewrite ?E1, ?E1';
    match goal with
    | |- (0 < fmin ?a ?b)%Q => destruct (fmin_cases a b) as [[-> _]|[-> _]]
    end; assumption.
Qed.

Lemma fmin4_least (v0 v1 v2 v3 : Q) :
  let d := fmin v0 (fmin v1 (fmin v2 v3)) in
  ((d <= v0)%Q /\ (d <= v1)%Q /\ (d <= v2)%Q /\ (d <= v3)%Q)
  /\ (d = v0 \/ d = v1 \/ d = v2 \/ d = v3).
Proof.
  cbv zeta.
  destruct (fmin_cases v2 v3) as [[E23 H23]|[E23 H23]]; rewrite E23;
    match goal with
    | |- context [fmin v1 ?x] =>
        destruct (fmin_cases v1 x) as [[E1 H1]|[E1 H1]]; rewrite E1
    end;
    match goal with
    | |- context [fmin v0 ?x] =>
        destruct (fmin_cases v0 x) as [[E0 H0]|[E0 H0]]; rewrite E0
    end;
    (split; [repeat split; lra | tauto]).
Qed.

Lemma quotient_ge_one (v d : Q) : (0 < d)%Q -> (d <= v)%Q -> (1 <= v / d)%Q.
Proof.
  intros Hd Hv. apply Qle_shift_div_l; [exact Hd|]. rewrite Qmult_1_l. exact Hv.
Qed.

Lemma quotient_self (d : Q) : (0 < d)%Q -> (d / d == 1)%Q.
Proof.
  intros Hd. apply Qmult_inv_r. intros E. rewrite E in Hd. discriminate.
Qed.

(** *** The minimum of a plane *)

Lemma leastWith10_step (m v : Q) (gains : list Q) :
  leastWith10 m gains -> leastWith10 (if Qltb v m then v else m) (gains ++ [v]).
Proof.
  intros [H10 [Hall Hin]]. destruct (Qltb v m) eqn:E.
  - apply Qltb_true in E. split; [lra|]. split.
    + apply Forall_app. split.
      * eapply Forall_impl; [exact Hall|]. cbv beta. intros x Hx. lra.
      * constructor; [apply Qle_refl|constructor].
    + right. apply in_or_app. right. left. reflexivity.
  - apply Qltb_false in E. split; [exact H10|]. split.
    + apply Forall_app. split; [exact Hall|]. constructor; [exact E|constructor].
    + destruct Hin as [->|Hin]; [left; reflexivity|right; apply in_or_app; left; exact Hin].
Qed.

Section Planes.

Variables p0 p1 p2 p3 : list Q.
Variable others : list (list Q).
Variable cells : nat.
Hypothesis length0 : (cells <= length p0)%nat.
Hypothesis length1 : (cells <= length p1)%nat.
Hypothesis length2 : (cells <= length p2)%nat.
Hypothesis length3 : (cells <= length p3)%nat.

Local Abbreviation shadingMap := (p0 :: p1 :: p2 :: p3 :: others).

Lemma plane_defined (p : list Q) (k : nat) :
  (cells <= length p)%nat -> (k < cells)%nat -> exists v, p !! k = Some v.
Proof. intros Hl Hk. apply lookup_lt_is_Some_2. lia. Qed.

Hypothesis cells_int : Z.of_nat cells <= 2 ^ 31.

Lemma planeMinima_least (width height : Z) :
  0 < width -> 0 < height -> Z.of_nat cells = width * height ->
  exists m0 m1 m2 m3,
    planeMinima shadingMap width height = Some (m0, m1, m2, m3)
    /\ leastWith10 m0 (take cells p0) /\ leastWith10 m1 (take cells p1)
    /\ leastWith10 m2 (take cells p2) /\ leastWith10 m3 (take cells p3).
Proof using length0 length1 length2 length3 cells_int.
  intros Hw Hh Hcells. unfold planeMinima.
  destruct (grid_loop (minimaStep shadingMap)
              (fun k '(m00, m01, m10, m11) =>
                 leastWith10 m00 (take k p0) /\ leastWith10 m01 (take k p1)
                 /\ leastWith10 m10 (take k p2) /\ leastWith10 m11 (take k p3))
              width height (10%Q, 10%Q, 10%Q, 10%Q) Hw ltac:(lia))
    as [[[[m0 m1] m2] m3] [E Hinv]].
  - intros k [[[m00 m01] m10] m11] Hk [H0 [H1 [H2 H3]]].
    assert (Hk' : (k < cells)%nat) by lia.
    destruct (plane_defined p0 k length0 Hk') as [v0 L0].
    destruct (plane_defined p1 k length1 Hk') as [v1 L1].
    destruct (plane_defined p2 k length2 Hk') as [v2 L2].
    destruct (plane_defined p3 k length3 Hk') as [v3 L3].
    unfold minimaStep. rewrite int_of_nat by lia. cbn [mbind option_bind].
    rewrite (cell_lookup shadingMap 0 k p0 v0 eq_refl L0).
    rewrite (cell_lookup shadingMap 1 k p1 v1 eq_refl L1).
    rewrite (cell_lookup shadingMap 2 k p2 v2 eq_refl L2).
    rewrite (cell_lookup shadingMap 3 k p3 v3 eq_refl L3).
    cbn [mbind option_bind]. eexists. split; [reflexivity|].
    rewrite (take_S_r p0 k v0 L0), (take_S_r p1 k v1 L1),
            (take_S_r p2 k v2 L2), (take_S_r p3 k v3 L3).
    split; [|split; [|split]]; apply leastWith10_step; assumption.
  - assert (Hstart : forall p, leastWith10 10 (take 0 p)).
    { intros p. rewrite take_0. split; [apply Qle_refl|]. split; [constructor|left; reflexivity]. }
    split; [|split; [|split]]; apply Hstart.
  - exists m0, m1, m2, m3. split; [exact E|].
    replace (Z.to_nat (width * height)) with cells in Hinv by lia. exact Hinv.
Qed.

Hypothesis positive0 : Forall (fun v => (0 < v)%Q) (take cells p0).
Hypothesis positive1 : Forall (fun v => (0 < v)%Q) (take cells p1).
Hypothesis positive2 : Forall (fun v => (0 < v)%Q) (take cells p2).
Hypothesis positive3 : Forall (fun v => (0 < v)%Q) (take cells p3).

Lemma plane_lookup (p : list Q) (k : nat) :
  (cells <= length p)%nat -> Forall (fun v => (0 < v)%Q) (take cells p) -> (k < cells)%nat ->
  exists v, p !! k = Some v /\ (0 < v)%Q.
Proof.
  intros Hl Hp Hk. destruct (lookup_lt_is_Some_2 p k) as [v Hv]; [lia|].
  exists v. split; [exact Hv|].
  apply (Forall_lookup_1 _ _ k v Hp). rewrite lookup_take_lt by exact Hk. exact Hv.
Qed.

Lemma reducedBelow_planes (n : nat) :
  reducedBelow n shadingMap
  = imap (reducedGain shadingMap n) p0 :: imap (reducedGain shadingMap n) p1
    :: imap (reducedGain shadingMap n) p2 :: imap (reducedGain shadingMap n) p3
    :: floats others.
Proof. reflexivity. Qed.

Lemma reduceCell_step (mins : Minima) (k : nat) :
  (k < cells)%nat ->
  reduceCell mins (Z.of_nat k) (reducedBelow k shadingMap)
  = Some (reducedBelow (S k) shadingMap).
Proof using All.
  intros Hk.
  destruct (plane_lookup p0 k length0 positive0 Hk) as [v0 [L0 P0]].
  destruct (plane_lookup p1 k length1 positive1 Hk) as [v1 [L1 P1]].
  destruct (plane_lookup p2 k length2 positive2 Hk) as [v2 [L2 P2]].
  destruct (plane_lookup p3 k length3 positive3 Hk) as [v3 [L3 P3]].
  assert (Hleast : leastGainAt shadingMap k = fmin v0 (fmin v1 (fmin v2 v3))).
  { unfold leastGainAt, gainAt. cbn [lookup list_lookup mbind option_bind].
    rewrite L0, L1, L2, L3. reflexivity. }
  pose proof (fmin4_positive v0 v1 v2 v3 P0 P1 P2 P3) as Hpos.
  destruct mins as [[[m00 m01] m10] m11].
  rewrite !reducedBelow_planes.
  unfold reduceCell. rewrite int_of_nat by lia. cbn [aggressive mbind option_bind].
  set (g := reducedGain shadingMap k).
  set (q0 := imap g p0). set (q1 := imap g p1).
  set (q2 := imap g p2). set (q3 := imap g p3). set (rest := floats others).
  assert (Q0 : q0 !! k = Some (FFin v0)) by (apply lookup_reducedGain_at; exact L0).
  assert (Q1 : q1 !! k = Some (FFin v1)) by (apply lookup_reducedGain_at; exact L1).
  assert (Q2 : q2 !! k = Some (FFin v2)) by (apply lookup_reducedGain_at; exact L2).
  assert (Q3 : q3 !! k = Some (FFin v3)) by (apply lookup_reducedGain_at; exact L3).
  rewrite (cell_lookup (q0 :: q1 :: q2 :: q3 :: rest) 0 k q0 _ eq_refl Q0).
  rewrite (cell_lookup (q0 :: q1 :: q2 :: q3 :: rest) 1 k q1 _ eq_refl Q1).
  rewrite (cell_lookup (q0 :: q1 :: q2 :: q3 :: rest) 2 k q2 _ eq_refl Q2).
  rewrite (cell_lookup (q0 :: q1 :: q2 :: q3 :: rest) 3 k q3 _ eq_refl Q3).
  cbn [mbind option_bind]. rewrite !min_finite.
  set (d := fmin v0 (fmin v1 (fmin v2 v3))) in *.
  change (forLoop 4 0 (fun channel m => divideCell (FFin d) (Z.of_nat k)
                                          (Z.to_nat channel) m)
            (q0 :: q1 :: q2 :: q3 :: rest))
    with (m1 ← divideCell (FFin d) (Z.of_nat k) 0 (q0 :: q1 :: q2 :: q3 :: rest);
          m2 ← divideCell (FFin d) (Z.of_nat k) 1 m1;
          m3 ← divideCell (FFin d) (Z.of_nat k) 2 m2;
          m4 ← divideCell (FFin d) (Z.of_nat k) 3 m3; Some m4).
  rewrite (divideCell_lookup (q0 :: q1 :: q2 :: q3 :: rest) 0 k q0 v0 d eq_refl Q0 Hpos).
  cbn [mbind option_bind insert list_insert].
  rewrite (divideCell_lookup (_ :: q1 :: q2 :: q3 :: rest) 1 k q1 v1 d eq_refl Q1 Hpos).
  cbn [mbind option_bind insert list_insert].
  rewrite (divideCell_lookup (_ :: _ :: q2 :: q3 :: rest) 2 k q2 v2 d eq_refl Q2 Hpos).
  cbn [mbind option_bind insert list_insert].
  rewrite (divideCell_lookup (_ :: _ :: _ :: q3 :: rest) 3 k q3 v3 d eq_refl Q3 Hpos).
  cbn [mbind option_bind insert list_insert].
  subst q0 q1 q2 q3 g d. rewrite <- Hleast.
  rewrite !insert_reducedGain by assumption. reflexivity.
Qed.

Lemma gainAt_positive (channel k : nat) :
  (channel < 4)%nat -> (k < cells)%nat -> (0 < gainAt shadingMap channel k)%Q.
Proof using All.
  intros Hc Hk. unfold gainAt.
  destruct channel as [|[|[|[|?]]]]; [| | | |lia];
    cbn [lookup list_lookup mbind option_bind].
  - destruct (plane_lookup p0 k length0 positive0 Hk) as [v [-> Hv]]. exact Hv.
  - destruct (plane_lookup p1 k length1 positive1 Hk) as [v [-> Hv]]. exact Hv.
  - destruct (plane_lookup p2 k length2 positive2 Hk) as [v [-> Hv]]. exact Hv.
  - destruct (plane_lookup p3 k length3 positive3 Hk) as [v [-> Hv]]. exact Hv.
Qed.

Lemma leastGainAt_least (k : nat) :
  (k < cells)%nat ->
  (0 < leastGainAt shadingMap k)%Q
  /\ (forall channel, (channel < 4)%nat ->
        (leastGainAt shadingMap k <= gainAt shadingMap channel k)%Q)
  /\ (exists channel, (channel < 4)%nat
        /\ leastGainAt shadingMap k = gainAt shadingMap channel k).
Proof using All.
  intros Hk. unfold leastGainAt.
  destruct (fmin4_least (gainAt shadingMap 0 k) (gainAt shadingMap 1 k)
              (gainAt shadingMap 2 k) (gainAt shadingMap 3 k)) as [[M0 [M1 [M2 M3]]] Mone].
  cbv zeta in *. split; [|split].
  - apply fmin4_positive; apply gainAt_positive; (lia || assumption).
  - intros channel Hc. destruct channel as [|[|[|[|?]]]]; [| | | |lia]; assumption.
  - destruct Mone as [E|[E|[E|E]]];
      [exists 0%nat|exists 1%nat|exists 2%nat|exists 3%nat]; (split; [lia|exact E]).
Qed.

(** What the reduced map holds. *)
Lemma valueAt_reduced (channel k : nat) :
  (channel < 4)%nat -> (k < cells)%nat ->
  valueAt (reducedBelow cells shadingMap) channel k
  = Some (F32.ofQ (gainAt shadingMap channel k / leastGainAt shadingMap k)).
Proof using All.
  intros Hc Hk.
  assert (Hlt : (k <? cells)%nat = true) by (apply Nat.ltb_lt; exact Hk).
  rewrite reducedBelow_planes. unfold valueAt, gainAt.
  destruct channel as [|[|[|[|?]]]]; [| | | |lia];
    cbn [lookup list_lookup mbind option_bind]; rewrite list_lookup_imap.
  - destruct (plane_lookup p0 k length0 positive0 Hk) as [v [-> _]].
    cbn [fmap option_fmap option_map default]. rewrite Hlt. reflexivity.
  - destruct (plane_lookup p1 k length1 positive1 Hk) as [v [-> _]].
    cbn [fmap option_fmap option_map default]. rewrite Hlt. reflexivity.
  - destruct (plane_lookup p2 k length2 positive2 Hk) as [v [-> _]].
    cbn [fmap option_fmap option_map default]. rewrite Hlt. reflexivity.
  - destruct (plane_lookup p3 k length3 positive3 Hk) as [v [-> _]].
    cbn [fmap option_fmap option_map default]. rewrite Hlt. reflexivity.
Qed.

Lemma valueAt_untouched (channel k : nat) (v : Q) :
  (row ← shadingMap !! channel; row !! k) = Some v ->
  (4 <= channel)%nat \/ (cells <= k)%nat ->
  valueAt (reducedBelow cells shadingMap) channel k = Some (FFin v).
Proof using Type.
  clear length0 length1 length2 length3 positive0 positive1 positive2 positive3 cells_int.
  intros Hv Hout. rewrite reducedBelow_planes. unfold valueAt.
  assert (Hplane : forall p : list Q, (cells <= k)%nat -> p !! k = Some v ->
            imap (reducedGain shadingMap cells) p !! k = Some (FFin v)).
  { intros p Hk Hp. rewrite list_lookup_imap, Hp. cbn [fmap option_fmap option_map].
    assert ((k <? cells)%nat = false) as -> by (apply Nat.ltb_ge; exact Hk). reflexivity. }
  destruct channel as [|[|[|[|channel]]]]; cbn [lookup list_lookup mbind option_bind] in *.
  - apply Hplane; [lia|exact Hv].
  - apply Hplane; [lia|exact Hv].
  - apply Hplane; [lia|exact Hv].
  - apply Hplane; [lia|exact Hv].
  - unfold floats.
    change (map (map FFin) others !! channel ≫= (fun row => row !! k) = Some (FFin v)).
    rewrite (lookup_map (map FFin) others channel).
    change (others !! channel ≫= (fun row => row !! k) = Some v) in Hv.
    destruct (others !! channel) as [row|]; [|discriminate].
    cbn [fmap option_fmap option_map mbind option_bind] in *.
    rewrite (lookup_map FFin row k), Hv. reflexivity.
Qed.

Lemma colorOnlyShadingMap_reduces (width height : Z) (cfa : list Z) :
  0 < width -> 0 < height -> Z.of_nat cells = width * height ->
  colorOnlyShadingMap shadingMap width height cfa
  = Some (reducedBelow cells shadingMap).
Proof using All.
  intros Hw Hh Hgrid. unfold colorOnlyShadingMap.
  assert (Hcells : (0 < cells)%nat) by nia.
  destruct (plane_lookup p0 0 length0 positive0 Hcells) as [v [Hv Hpos]].
  destruct (maxValueOf_positive p0 (p1 :: p2 :: p3 :: others) v Hv Hpos) as [-> ->].
  unfold greenMinima.
  destruct (planeMinima_least width height Hw Hh Hgrid) as [m0 [m1 [m2 [m3 [-> _]]]]].
  cbn [mbind option_bind].
  assert (Hstart : floats shadingMap = reducedBelow 0 shadingMap).
  { rewrite reducedBelow_planes. unfold floats. cbn [map].
    assert (Hplane : forall p : list Q, map FFin p = imap (reducedGain shadingMap 0) p).
    { intros p. apply list_eq. intros i.
      rewrite list_lookup_imap, (lookup_map FFin p i).
      destruct (p !! i); reflexivity. }
    rewrite !Hplane. reflexivity. }
  rewrite Hstart.
  destruct (grid_loop (fun k m => reduceCell (equaliseGreens cfa (m0, m1, m2, m3)) k m)
              (fun k m => m = reducedBelow k shadingMap)
              width height (reducedBelow 0 shadingMap) Hw ltac:(lia)) as [result [E Hresult]].
  - intros k m Hk ->. eexists. split; [|reflexivity]. apply reduceCell_step. lia.
  - reflexivity.
  - rewrite E, Hresult. do 2 f_equal. lia.
Qed.

End Planes.

Lemma equaliseGreens_cases (cfa : list Z) (m0 m1 m2 m3 : Q) :
  equaliseGreens cfa (m0, m1, m2, m3)
  = if bool_decide (cfa = [0; 1; 1; 2]) || bool_decide (cfa = [2; 1; 1; 0])
    then (m0, m2, m2, m3)
    else if bool_decide (cfa = [1; 0; 2; 1]) || bool_decide (cfa = [1; 2; 0; 1])
         then (m3, m1, m2, m3)
         else (m0, m1, m2, m3).
Proof. reflexivity. Qed.

End ShadingMapFacts.

(** C6, against the claim.  A cell with the gains (-1, 3, 3, 3) becomes
    (1, -3, -3, -3), whose least gain is -3; a cell with a zero gain
    becomes NaN and infinities; and a map without a positive gain is left
    as it is, so that its flat cells do not become (1, 1, 1, 1). *)
Theorem color_only_reduction_counterexample :
  ShadingMap.colorOnlyShadingMap [[-1]; [3]; [3]; [3]]%Q 1 1 [0; 1; 1; 2]
  = Some [[Renderer.FFin 1]; [Renderer.FFin (-3)]; [Renderer.FFin (-3)]; [Renderer.FFin (-3)]]
  /\ Renderer.flt (Renderer.FFin (-3)) (Renderer.FFin 1) = true
  /\ ShadingMap.colorOnlyShadingMap [[0]; [2]; [2]; [2]]%Q 1 1 [0; 1; 1; 2]
     = Some [[Renderer.FNaN]; [Renderer.FPosInf]; [Renderer.FPosInf]; [Renderer.FPosInf]]
  /\ ShadingMap.colorOnlyShadingMap [[-2]; [-2]; [-2]; [-2]]%Q 1 1 [0; 1; 1; 2]
     = Some [[Renderer.FFin (-2)]; [Renderer.FFin (-2)]; [Renderer.FFin (-2)];
             [Renderer.FFin (-2)]].
Proof. repeat split; vm_compute; reflexivity. Qed.

(** C6, amended.  On a shading map whose first four planes hold at least
    [width * height] gains, those of the grid strictly positive
    ([width, height >= 1], at most [2^31] cells):

    - the first loop leaves in [minValue00 .. minValue11] the least of 10
      and the grid gains of its plane; then for RGGB and BGGR [minValue01]
      is overwritten with [minValue10], for GRBG and GBRG [minValue00] with
      [minValue11] (the two green minima are made equal, to the second of
      them, not to the smaller);
    - the reduction replaces each of the four gains of every grid cell by
      the float quotient of the gain by the least of the four gains of the
      cell; afterwards none of the four is below 1 and one of them is 1,
      and a cell of four equal gains is (1, 1, 1, 1);
    - every other float of the map is left as it is. *)
Theorem color_only_reduction (p0 p1 p2 p3 : list Q) (others : list (list Q))
    (width height : Z) (cfa : list Z) :
  0 < width -> 0 < height -> width * height <= 2 ^ 31 ->
  Forall (fun p => width * height <= Z.of_nat (length p)
                   /\ Forall (fun v => (0 < v)%Q) (take (Z.to_nat (width * height)) p))
         [p0; p1; p2; p3] ->
  exists m0 m1 m2 m3 result,
    Forall2 (fun m p => ShadingMap.leastWith10 m (take (Z.to_nat (width * height)) p))
            [m0; m1; m2; m3] [p0; p1; p2; p3]
    /\ ShadingMap.greenMinima (p0 :: p1 :: p2 :: p3 :: others) width height cfa
       = Some (if bool_decide (cfa = [0; 1; 1; 2]) || bool_decide (cfa = [2; 1; 1; 0])
               then (m0, m2, m2, m3)
               else if bool_decide (cfa = [1; 0; 2; 1]) || bool_decide (cfa = [1; 2; 0; 1])
                    then (m3, m1, m2, m3)
                    else (m0, m1, m2, m3))
    /\ ShadingMap.colorOnlyShadingMap (p0 :: p1 :: p2 :: p3 :: others) width height cfa
       = Some result
    /\ (forall k : nat, Z.of_nat k < width * height ->
         (forall channel, (channel < 4)%nat ->
            ShadingMap.valueAt result channel k
            = Some (F32.ofQ (ShadingMap.gainAt (p0 :: p1 :: p2 :: p3 :: others) channel k
                             / ShadingMap.leastGainAt (p0 :: p1 :: p2 :: p3 :: others) k)))
         /\ (forall channel, (channel < 4)%nat ->
               (ShadingMap.leastGainAt (p0 :: p1 :: p2 :: p3 :: others) k
                <= ShadingMap.gainAt (p0 :: p1 :: p2 :: p3 :: others) channel k)%Q)
         /\ (exists channel, (channel < 4)%nat
               /\ ShadingMap.leastGainAt (p0 :: p1 :: p2 :: p3 :: others) k
                  = ShadingMap.gainAt (p0 :: p1 :: p2 :: p3 :: others) channel k)
         /\ (forall channel, (channel < 4)%nat ->
               exists r, ShadingMap.valueAt result channel k = Some r
                         /\ Renderer.flt r (Renderer.FFin 1) = false)
         /\ (exists channel, (channel < 4)%nat
               /\ ShadingMap.valueAt result channel k = Some (Renderer.FFin 1))
         /\ ((forall channel, (channel < 4)%nat ->
                (ShadingMap.gainAt (p0 :: p1 :: p2 :: p3 :: others) channel k
                 == ShadingMap.gainAt (p0 :: p1 :: p2 :: p3 :: others) 0 k)%Q) ->
             forall channel, (channel < 4)%nat ->
               ShadingMap.valueAt result channel k = Some (Renderer.FFin 1)))
    /\ (forall (channel k : nat) (v : Q),
          (row ← (p0 :: p1 :: p2 :: p3 :: others) !! channel; row !! k) = Some v ->
          (4 <= channel)%nat \/ width * height <= Z.of_nat k ->
          ShadingMap.valueAt result channel k = Some (Renderer.FFin v)).
Proof.
  intros Hw Hh Hint Hplanes.
  apply Forall_cons in Hplanes as [[L0 P0] Hplanes].
  apply Forall_cons in Hplanes as [[L1 P1] Hplanes].
  apply Forall_cons in Hplanes as [[L2 P2] Hplanes].
  apply Forall_cons in Hplanes as [[L3 P3] _].
  set (cells := Z.to_nat (width * height)) in *.
  assert (Hcells : Z.of_nat cells = width * height) by (unfold cells; nia).
  assert (L0' : (cells <= length p0)%nat) by lia.
  assert (L1' : (cells <= length p1)%nat) by lia.
  assert (L2' : (cells <= length p2)%nat) by lia.
  assert (L3' : (cells <= length p3)%nat) by lia.
  assert (Hcells_int : Z.of_nat cells <= 2 ^ 31) by lia.
  set (shadingMap := p0 :: p1 :: p2 :: p3 :: others).
  destruct (planeMinima_least p0 p1 p2 p3 others cells L0' L1' L2' L3' Hcells_int
              width height Hw Hh Hcells) as [m0 [m1 [m2 [m3 [Hmins [M0 [M1 [M2 M3]]]]]]]].
  exists m0, m1, m2, m3, (ShadingMap.reducedBelow cells shadingMap).
  split; [repeat (constructor; [assumption|]); constructor|].
  split.
  { unfold ShadingMap.greenMinima. fold shadingMap in Hmins. rewrite Hmins.
    cbn [mbind option_bind]. rewrite equaliseGreens_cases. reflexivity. }
  split.
  { apply (colorOnlyShadingMap_reduces p0 p1 p2 p3 others cells); assumption. }
  split.
  - intros k Hk. assert (Hk' : (k < cells)%nat) by lia.
    destruct (leastGainAt_least p0 p1 p2 p3 others cells L0' L1' L2' L3' Hcells_int
                P0 P1 P2 P3 k Hk')
      as [Hpos [Hleast [c [Hc Hattained]]]].
    fold shadingMap in Hpos, Hleast, Hattained.
    assert (Hvalue : forall channel, (channel < 4)%nat ->
              ShadingMap.valueAt (ShadingMap.reducedBelow cells shadingMap) channel k
              = Some (F32.ofQ (ShadingMap.gainAt shadingMap channel k
                               / ShadingMap.leastGainAt shadingMap k))).
    { intros channel Hchannel.
      apply (valueAt_reduced p0 p1 p2 p3 others cells); assumption. }
    split; [exact Hvalue|]. split; [exact Hleast|].
    split; [exists c; split; [exact Hc|exact Hattained]|].
    split; [|split].
    + intros channel Hchannel. eexists. split; [apply Hvalue; exact Hchannel|].
      apply ofQ_ge_one. apply quotient_ge_one; [exact Hpos|]. apply Hleast. exact Hchannel.
    + exists c. split; [exact Hc|]. rewrite (Hvalue c Hc). f_equal.
      apply ofQ_one. rewrite <- Hattained. apply quotient_self. exact Hpos.
    + intros Hflat channel Hchannel. rewrite (Hvalue channel Hchannel). f_equal.
      apply ofQ_one.
      assert (E : (ShadingMap.gainAt shadingMap channel k
                   == ShadingMap.leastGainAt shadingMap k)%Q).
      { rewrite Hattained, (Hflat channel Hchannel), (Hflat c Hc). reflexivity. }
      rewrite E. apply quotient_self. exact Hpos.
  - intros channel k v Hv Hout.
    apply (valueAt_untouched p0 p1 p2 p3 others cells); [exact Hv|].
    destruct Hout as [Hout|Hout]; [left; exact Hout|right; lia].
Qed.

Lemma color_only_reduction_witness :
  exists result,
    ShadingMap.colorOnlyShadingMap [[2; 3; 7]; [4; 3]; [4; 3]; [8; 3]; [5]]%Q 2 1 [0; 1; 1; 2]
    = Some result
    /\ ShadingMap.greenMinima [[2; 3; 7]; [4; 3]; [4; 3]; [8; 3]; [5]]%Q 2 1 [0; 1; 1; 2]
       = Some (2, 3, 3, 3)%Q
    /\ ShadingMap.valueAt result 3 0 = Some (Renderer.FFin 4)
    /\ ShadingMap.valueAt result 0 0 = Some (Renderer.FFin 1)
    /\ ShadingMap.valueAt result 2 1 = Some (Renderer.FFin 1)
    /\ ShadingMap.valueAt result 0 2 = Some (Renderer.FFin 7)
    /\ ShadingMap.valueAt result 4 0 = Some (Renderer.FFin 5).
Proof.
  destruct (color_only_reduction [2; 3; 7]%Q [4; 3]%Q [4; 3]%Q [8; 3]%Q [[5]]%Q 2 1
              [0; 1; 1; 2])
    as [m0 [m1 [m2 [m3 [result [_ [Hmins [Hresult [Hcells Hrest]]]]]]]]].
  - lia.
  - lia.
  - change (2 ^ 31) with 2147483648. lia.
  - repeat (constructor;
            [split; [cbn; lia|cbn; repeat (constructor; [reflexivity|]); constructor]|]).
    constructor.
  - exists result. split; [exact Hresult|].
    split; [vm_compute; reflexivity|].
    split; [rewrite (proj1 (Hcells 0%nat ltac:(lia)) 3%nat ltac:(lia)); vm_compute; reflexivity|].
    split; [rewrite (proj1 (Hcells 0%nat ltac:(lia)) 0%nat ltac:(lia)); vm_compute; reflexivity|].
    split; [apply (Hcells 1%nat ltac:(lia));
            [intros [|[|[|[|?]]]] ?; try reflexivity; lia|lia]|].
    split; [apply (Hrest 0%nat 2%nat 7%Q); [reflexivity|right; lia]|].
    apply (Hrest 4%nat 0%nat 5%Q); [reflexivity|left; lia].
Defined.

(** ** Frame rate inference *)

Section FpsFacts.
Import Float Fps.

Lemma binary64_mono (x y : Q) : (x <= y)%Q -> (binary64 x <= binary64 y)%Q.
Proof. apply round_mono. lia. Qed.

Lemma binary64_abs (x : Q) : (binary64 (Qabs x) == Qabs (binary64 x))%Q.
Proof. apply round_abs. Qed.

(** The sort gives the deltas in ascending order. *)
Lemma insertSorted_perm (x : Q) (l : list Q) : Permutation (insertSorted x l) (x :: l).
Proof.
  induction l as [|y l IH]; cbn [insertSorted]; [reflexivity|].
  destruct (Qle_bool x y); [reflexivity|].
  rewrite IH. apply perm_swap.
Qed.

Lemma sortAscending_perm (l : list Q) : Permutation (sortAscending l) l.
Proof.
  induction l as [|x l IH]; [reflexivity|].
  cbn. rewrite insertSorted_perm. apply perm_skip. exact IH.
Qed.

Lemma insertSorted_sorted (x : Q) (l : list Q) :
  StronglySorted Qle l -> StronglySorted Qle (insertSorted x l).
Proof.
  induction l as [|y l IH]; intros Hs; cbn [insertSorted].
  - constructor; constructor.
  - apply StronglySorted_inv in Hs. destruct Hs as [Hs Hy].
    destruct (Qle_bool x y) eqn:E.
    + apply Qle_bool_iff in E. constructor.
      * constructor; assumption.
      * constructor; [exact E|].
        eapply Forall_impl; [exact Hy|]. cbv beta. intros z Hz. eapply Qle_trans; eassumption.
    + assert (Hyx : (y <= x)%Q).
      { apply Qlt_le_weak, Qnot_le_lt. intros H. apply Qle_bool_iff in H. congruence. }
      constructor; [apply IH; exact Hs|].
      rewrite (insertSorted_perm x l). constructor; assumption.
Qed.

Lemma sortAscending_sorted (l : list Q) : StronglySorted Qle (sortAscending l).
Proof.
  induction l as [|x l IH]; [constructor|]. cbn. apply insertSorted_sorted. exact IH.
Qed.

(** The deltas are the rounded differences of neighbours that are
    positive. *)
Lemma deltasFrom_spec (previous : Q) (rest : list Q) :
  deltasFrom previous rest
  = List.filter (fun delta => Qltb 0 delta)
      (zip_with (fun a b => binary64 (b - a)) (previous :: rest) rest).
Proof.
  revert previous. induction rest as [|t rest IH]; intros previous; [reflexivity|].
  cbn [deltasFrom zip_with List.filter]. rewrite IH.
  destruct (Qltb 0 (binary64 (t - previous))); reflexivity.
Qed.

(** The test of a rate passes well inside 5% and fails well outside. *)
Lemma closeTo_inside (rawFps rate c : Q) :
  (0 < rate)%Q -> (Qabs (rawFps - rate) <= c * rate)%Q ->
  Qltb (binary64 (binary64 (c * rate) / rate)) fivePercent = true ->
  closeTo rawFps rate = true.
Proof.
  intros Hrate Hin Hc. unfold closeTo. apply Qltb_true. apply Qltb_true in Hc.
  eapply Qle_lt_trans; [|exact Hc]. apply binary64_mono.
  apply Qmult_le_compat_r; [|apply Qlt_le_weak, Qinv_lt_0_compat, Hrate].
  rewrite <- binary64_abs. apply binary64_mono. exact Hin.
Qed.

Lemma closeTo_outside (rawFps rate c : Q) :
  (0 < rate)%Q -> (c * rate <= Qabs (rawFps - rate))%Q ->
  Qltb (binary64 (binary64 (c * rate) / rate)) fivePercent = false ->
  closeTo rawFps rate = false.
Proof.
  intros Hrate Hout Hc. unfold closeTo. apply Qltb_false. apply Qltb_false in Hc.
  eapply Qle_trans; [exact Hc|]. apply binary64_mono.
  apply Qmult_le_compat_r; [|apply Qlt_le_weak, Qinv_lt_0_compat, Hrate].
  rewrite <- binary64_abs. apply binary64_mono. exact Hout.
Qed.

(** The two margins around 5%. *)
Local Abbreviation inside := (49999999 # 1000000000)%Q.
Local Abbreviation outside := (50000001 # 1000000000)%Q.

Lemma commonRates_windows :
  Forall (fun rate =>
            (0 < rate)%Q
            /\ Qltb (binary64 (binary64 (inside * rate) / rate)) fivePercent = true
            /\ Qltb (binary64 (binary64 (outside * rate) / rate)) fivePercent = false)
         commonRates.
Proof.
  unfold commonRates.
  repeat (constructor; [split; [reflexivity|split; vm_compute; reflexivity]|]).
  constructor.
Qed.

Lemma closeTo_common_inside (rawFps rate : Q) :
  In rate commonRates -> (Qabs (rawFps - rate) <= inside * rate)%Q ->
  closeTo rawFps rate = true.
Proof.
  intros Hin Hclose.
  pose proof (proj1 (List.Forall_forall _ _) commonRates_windows rate Hin) as [Hpos [Hc _]].
  exact (closeTo_inside rawFps rate inside Hpos Hclose Hc).
Qed.

Lemma closeTo_common_outside (rawFps rate : Q) :
  In rate commonRates -> (outside * rate <= Qabs (rawFps - rate))%Q ->
  closeTo rawFps rate = false.
Proof.
  intros Hin Hfar.
  pose proof (proj1 (List.Forall_forall _ _) commonRates_windows rate Hin) as [Hpos [_ Hc]].
  exact (closeTo_outside rawFps rate outside Hpos Hfar Hc).
Qed.

Lemma snapToCommon_first (rawFps rate : Q) (earlier later : list Q) :
  Forall (fun r => closeTo rawFps r = false) earlier -> closeTo rawFps rate = true ->
  snapToCommon (earlier ++ rate :: later) rawFps = Some rate.
Proof.
  intros Hearlier Hclose. induction Hearlier as [|r earlier Hr _ IH]; cbn [app snapToCommon].
  - rewrite Hclose. reflexivity.
  - rewrite Hr. exact IH.
Qed.

Lemma snapToCommon_none (rawFps : Q) (rates : list Q) :
  Forall (fun r => closeTo rawFps r = false) rates -> snapToCommon rates rawFps = None.
Proof.
  intros H. induction H as [|r rates Hr _ IH]; cbn [snapToCommon]; [reflexivity|].
  rewrite Hr. exact IH.
Qed.

Lemma snapToCommon_common (rawFps rate : Q) (earlier later : list Q) :
  commonRates = earlier ++ rate :: later ->
  Forall (fun r => (outside * r <= Qabs (rawFps - r))%Q) earlier ->
  (Qabs (rawFps - rate) <= inside * rate)%Q ->
  snapToCommon commonRates rawFps = Some rate.
Proof.
  intros Hsplit Hearlier Hclose. rewrite Hsplit. apply snapToCommon_first.
  - apply List.Forall_forall. intros r Hr. apply closeTo_common_outside.
    + rewrite Hsplit. apply in_or_app. left. exact Hr.
    + exact (proj1 (List.Forall_forall _ _) Hearlier r Hr).
  - apply closeTo_common_inside; [|exact Hclose].
    rewrite Hsplit. apply in_or_app. right. left. reflexivity.
Qed.

Lemma Qabs_ge (x : Q) : (x <= Qabs x)%Q.
Proof. apply Qabs_case; intros; lra. Qed.

Lemma snapToCommon_2997 (rawFps : Q) :
  (Qabs (rawFps - (2997 # 100)) <= (4999999 # 100000000) * (2997 # 100))%Q ->
  snapToCommon commonRates rawFps = Some rate2997.
Proof.
  intros H. apply Qabs_Qle_condition in H. destruct H as [Hlo Hhi].
  apply (snapToCommon_common rawFps rate2997 [18; 24; 25]%Q [30; 48; 50; rate5994; 60; 120]%Q).
  - reflexivity.
  - repeat (constructor; [eapply Qle_trans; [|apply Qabs_ge]; lra|]). constructor.
  - unfold rate2997. apply Qabs_Qle_condition. split; lra.
Qed.

End FpsFacts.

(** C8, against the claim.  Timestamps 40000 us apart have the raw rate 25,
    a member of the list of common rates, at distance 0 from it; the
    inferred rate is 24, the earlier member whose test the raw rate also
    passes.  In the same way timestamps 33333333 ns apart, a raw rate
    within a millionth of 30, are reported as 29.97. *)
Theorem fps_snap_earlier_rate_counterexample :
  Fps.rawFpsOfTimestamps [0; 40000; 80000]%Q = Some 25%Q
  /\ In 25%Q Fps.commonRates
  /\ (Qabs (25 - 25) / 25 < 5 # 100)%Q
  /\ Fps.calculateFpsFromTimestamps [0; 40000; 80000]%Q = 24%Q
  /\ ~ (24 == 25)%Q
  /\ exists rawFps,
       Fps.rawFpsOfTimestamps [0; 33333333; 66666666]%Q = Some rawFps
       /\ In 30%Q Fps.commonRates
       /\ (Qabs (rawFps - 30) / 30 < 1 # 1000000)%Q
       /\ Fps.calculateFpsFromTimestamps [0; 33333333; 66666666]%Q = Fps.rate2997
       /\ ~ (Fps.rate2997 == 30)%Q.
Proof.
  split; [vm_compute; reflexivity|]. split; [cbn; tauto|]. split; [reflexivity|].
  split; [vm_compute; reflexivity|]. split; [discriminate|].
  exists (Float.binary64 (1000000000 / 33333333)).
  split; [vm_compute; reflexivity|]. split; [cbn; tauto|].
  split; [vm_compute; reflexivity|]. split; [vm_compute; reflexivity|discriminate].
Qed.

(** C8, amended.  For a timestamp vector with a positive delta: the deltas
    are the positive rounded differences of neighbours; the median is the
    element of index [floor(n / 2)] of the deltas in ascending order; the
    raw rate is the double quotient of 10^9, 10^6, 10^3 or 1 (as the median
    is above 10^7, 10^4, 10 or not) by the median.  The members of the list
    18, 24, 25, 29.97, 30, 48, 50, 59.94, 60, 120 are tried in this order:
    a member at a relative distance of at most 4.9999999% from the raw rate
    is the inferred rate when every earlier member is at a relative
    distance of at least 5.0000001%.  So a raw rate within 4.999999% of
    29.97 gives 29.97 (the double next to it) and not 30.  When every
    member is at least 5.0000001% away, the inferred rate is the raw rate
    rounded half up if that is from 1 to 999, and 24 otherwise. *)
Theorem fps_snaps_to_first_close_rate (timestamps : list Q) (rawFps : Q) :
  Fps.rawFpsOfTimestamps timestamps = Some rawFps ->
  (exists deltas medianDelta,
     Fps.deltasOf timestamps
       = List.filter (fun delta => Qltb 0 delta)
           (zip_with (fun a b => Float.binary64 (b - a)) timestamps (tail timestamps))
     /\ Permutation deltas (Fps.deltasOf timestamps)
     /\ StronglySorted Qle deltas
     /\ deltas !! (length deltas / 2)%nat = Some medianDelta
     /\ rawFps = Float.binary64
                   ((if Qltb 10000000 medianDelta then 1000000000
                     else if Qltb 10000 medianDelta then 1000000
                     else if Qltb 10 medianDelta then 1000 else 1) / medianDelta))
  /\ (forall earlier rate later,
        Fps.commonRates = earlier ++ rate :: later ->
        Forall (fun r => ((50000001 # 1000000000) * r <= Qabs (rawFps - r))%Q) earlier ->
        (Qabs (rawFps - rate) <= (49999999 # 1000000000) * rate)%Q ->
        Fps.calculateFpsFromTimestamps timestamps = rate)
  /\ ((Qabs (rawFps - (2997 # 100)) <= (4999999 # 100000000) * (2997 # 100))%Q ->
      Fps.calculateFpsFromTimestamps timestamps = Fps.rate2997
      /\ (Fps.rate2997 == Float.binary64 (2997 # 100))%Q
      /\ ~ (Fps.calculateFpsFromTimestamps timestamps == 30)%Q)
  /\ (Forall (fun r => ((50000001 # 1000000000) * r <= Qabs (rawFps - r))%Q)
             Fps.commonRates ->
      Fps.calculateFpsFromTimestamps timestamps
      = let result := Qfloor (rawFps + (1 # 2)) in
        if (0 <? result) && (result <? 1000) then inject_Z result else 24%Q).
Proof.
  intros Hraw. split; [|split; [|split]].
  - unfold Fps.rawFpsOfTimestamps in Hraw.
    destruct (length timestamps <? 2)%nat; [discriminate|].
    destruct (Fps.sortAscending (Fps.deltasOf timestamps) !! _) as [medianDelta|] eqn:E;
      [|discriminate].
    cbn [mbind option_bind] in Hraw. injection Hraw as <-.
    exists (Fps.sortAscending (Fps.deltasOf timestamps)), medianDelta.
    split.
    { destruct timestamps as [|t rest]; [reflexivity|]. apply deltasFrom_spec. }
    split; [apply sortAscending_perm|]. split; [apply sortAscending_sorted|].
    split; [exact E|]. unfold Fps.rawFpsOf.
    destruct (Qltb 10000000 medianDelta); [reflexivity|].
    destruct (Qltb 10000 medianDelta); [reflexivity|].
    destruct (Qltb 10 medianDelta); reflexivity.
  - intros earlier rate later Hsplit Hearlier Hclose.
    unfold Fps.calculateFpsFromTimestamps. rewrite Hraw.
    rewrite (snapToCommon_common rawFps rate earlier later Hsplit Hearlier Hclose).
    reflexivity.
  - intros Hclose.
    assert (E : Fps.calculateFpsFromTimestamps timestamps = Fps.rate2997).
    { unfold Fps.calculateFpsFromTimestamps. rewrite Hraw.
      rewrite (snapToCommon_2997 rawFps Hclose). reflexivity. }
    split; [exact E|]. split; [vm_compute; reflexivity|]. rewrite E. discriminate.
  - intros Hfar. unfold Fps.calculateFpsFromTimestamps. rewrite Hraw.
    rewrite snapToCommon_none; [reflexivity|].
    apply List.Forall_forall. intros r Hr. apply closeTo_common_outside; [exact Hr|].
    exact (proj1 (List.Forall_forall _ _) Hfar r Hr).
Qed.

Lemma fps_snaps_to_first_close_rate_witness :
  Fps.calculateFpsFromTimestamps [0; 33333; 66666; 99999]%Q = Fps.rate2997.
Proof.
  apply (fps_snaps_to_first_close_rate [0; 33333; 66666; 99999]%Q
           (Float.binary64 (1000000 / 33333))).
  - vm_compute. reflexivity.
  - vm_compute. discriminate.
Defined.

(** ** Batch processing *)

(** C9.  Six frames of which the first five come back from [decodeFrame]
    without data and the sixth is processed: five failures exceed 80% of six,
    yet the job returns normally, because the no-data branch counts the
    failure and continues without the threshold test.  The same five
    failures raised as exceptions do abort the job in the [catch] branch. *)
Theorem no_data_failures_skip_threshold :
  Processor.overThreshold 5 6 = true
  /\ Processor.processClientSideMcraw 6 None None
       (fun i => if i <? 5 then Processor.FrameNoData else Processor.FrameProcessed)
     = Processor.JobReturns {| Processor.successfulFrames := 1;
                               Processor.failedFrames := 5;
                               Processor.totalFrames := 6 |}
  /\ Processor.processClientSideMcraw 6 None None
       (fun i => if i <? 5 then Processor.FrameThrows else Processor.FrameProcessed)
     = Processor.JobThrows (Processor.TooManyFrameFailures 5 6).
Proof. split; [reflexivity|]. split; reflexivity. Qed.

(** ** Frame indexer: compressed flag and timestamps *)

Section ParserFacts.
Import Parser.

(** A property of the frame list that every push preserves holds of the
    result of a counting loop whose steps only push. *)
Lemma forLoop_preserves {State : Type} (P : Z -> State -> Prop)
    (body : Z -> State -> option State) (n : nat) (start : Z) (s s' : State) :
  (forall i t t', start <= i < start + Z.of_nat n -> body i t = Some t' ->
     P i t -> P (i + 1) t') ->
  P start s -> forLoop n start body s = Some s' -> P (start + Z.of_nat n) s'.
Proof.
  revert start s. induction n as [|n IH]; intros start s Hbody Hs Hrun.
  - cbn in Hrun. injection Hrun as <-. rewrite Z.add_0_r. exact Hs.
  - cbn [forLoop] in Hrun. destruct (body start s) as [s1|] eqn:E; [|discriminate].
    cbn [mbind option_bind] in Hrun.
    replace (start + Z.of_nat (S n)) with (start + 1 + Z.of_nat n) by lia.
    apply (IH (start + 1) s1); [|eapply Hbody; [lia|exact E|exact Hs]|exact Hrun].
    intros i t t' Hi. apply Hbody. lia.
Qed.

(** *** Strategy 1 *)

Section TypedFacts.
Variable parseJson : list Z -> option PerFrameMetadata.
Variables (bytes : list Z) (expected : Z).

(** What strategy 1 establishes for its [i]-th frame. *)
Local Abbreviation typedFrame i f :=
  (f.(isCompressed) = belowNineTenths f.(size) expected
   /\ exists meta, f.(perFrameMetadata) = Some meta
        /\ f.(timestamp)
           = orQ meta.(pf_timestamp) (inject_Z (Z.of_nat i) * (1000000 / 24))%Q).

Local Abbreviation typedInvariant st :=
  (st.(st_frameCount) = Z.of_nat (length st.(st_frames))
   /\ forall i f, st.(st_frames) !! i = Some f -> typedFrame i f).

Lemma scanTypedLoop_invariant (fuel : nat) (st : ScanState) :
  typedInvariant st -> typedInvariant (scanTypedLoop parseJson fuel bytes expected st).
Proof.
  revert st. induction fuel as [|fuel IH]; intros st Hinv; [exact Hinv|].
  cbn [scanTypedLoop].
  destruct ((st_offset st <? len bytes - 8) && (st_invalid st <? 5)); [|exact Hinv].
  destruct (len bytes <? st_offset st + 8); [exact Hinv|].
  cbv zeta.
  destruct (negb _ && negb _); [apply IH; exact Hinv|].
  destruct ((getUint32LE bytes (st_offset st) =? BLOCK_TYPE_FRAME) && _ && _).
  - apply IH. cbn [st_frames st_frameCount]. destruct Hinv as [Hcount Hframes]. split.
    + rewrite length_app. cbn [length]. lia.
    + intros i f Hlook. apply lookup_app_Some in Hlook as [Hlook|[Hlen Hlook]].
      * apply Hframes. exact Hlook.
      * destruct (i - length (st_frames st))%nat as [|?] eqn:Ei; [|discriminate].
        cbn in Hlook. injection Hlook as <-. cbn [isCompressed size perFrameMetadata timestamp].
        split; [reflexivity|]. eexists. split; [reflexivity|].
        rewrite Hcount. replace i with (length (st_frames st)) by lia. reflexivity.
  - apply IH. exact Hinv.
Qed.

End TypedFacts.

(** *** Strategies 2 to 5 *)

Section UntypedFacts.
Variable bytes : list Z.

Lemma lookup_push (frames : list FrameInfo) (info f : FrameInfo) (i : nat) :
  (frames ++ [info]) !! i = Some f ->
  frames !! i = Some f \/ (i = length frames /\ f = info).
Proof.
  intros Hlook. apply lookup_app_Some in Hlook as [Hlook|[Hlen Hlook]]; [left; exact Hlook|].
  right. destruct (i - length frames)%nat as [|?] eqn:Ei; [|discriminate].
  cbn in Hlook. injection Hlook as <-. split; [lia|reflexivity].
Qed.

(** What strategy 2 establishes for its [i]-th frame. *)
Local Abbreviation sizePrefixedFrame i f :=
  (f.(isCompressed) = true /\ isZstdCompressed bytes f.(offset) = true
   /\ f.(timestamp) = (inject_Z (Z.of_nat i) * (1000 / 24))%Q).

Lemma scanSizePrefixedLoop_invariant (fuel : nat) (offset0 : Z) (frames : list FrameInfo) :
  (forall i f, frames !! i = Some f -> sizePrefixedFrame i f) ->
  forall i f, scanSizePrefixedLoop fuel bytes offset0 frames !! i = Some f ->
              sizePrefixedFrame i f.
Proof.
  revert offset0 frames. induction fuel as [|fuel IH]; intros offset0 frames Hinv;
    [exact Hinv|].
  cbn [scanSizePrefixedLoop].
  destruct (offset0 <? len bytes - 8); [|exact Hinv]. cbv zeta.
  destruct (_ && isZstdCompressed bytes (offset0 + 4)) eqn:E; [|exact Hinv].
  apply andb_true_iff in E as [_ Emagic].
  apply IH. intros i f Hlook. apply lookup_push in Hlook as [Hlook|[-> ->]].
  - apply Hinv. exact Hlook.
  - cbn [isCompressed offset timestamp]. auto.
Qed.

Lemma findZstdMagic_invariant (fuel : nat) (i : Z) (frameOffsets : list Z) :
  Forall (fun o => isZstdCompressed bytes o = true) frameOffsets ->
  Forall (fun o => isZstdCompressed bytes o = true)
         (findZstdMagic fuel bytes i frameOffsets).
Proof.
  revert i frameOffsets. induction fuel as [|fuel IH]; intros i frameOffsets Hinv;
    [exact Hinv|].
  cbn [findZstdMagic].
  destruct (Z.ltb_spec i (len bytes - 4)) as [Hi|Hi]; [|exact Hinv].
  destruct (byteIs bytes i 40 && _ && _ && _) eqn:E; [|apply IH; exact Hinv].
  apply IH. apply Forall_app. split; [exact Hinv|].
  constructor; [|constructor]. unfold isZstdCompressed.
  destruct (Z.ltb_spec (len bytes) (i + 4)) as [Hlen|Hlen]; [lia|]. exact E.
Qed.

(** What strategy 3 establishes for its [i]-th frame: the index that scales
    the timestamp is the index of the signature, which is not below [i]. *)
Local Abbreviation magicFrameSpec i f :=
  (f.(isCompressed) = true /\ isZstdCompressed bytes f.(offset) = true
   /\ exists j, Z.of_nat i <= j /\ f.(timestamp) = (inject_Z j * (1000 / 24))%Q).

Lemma scanZstdMagic_frames (startOffset : Z) (i : nat) (f : FrameInfo) :
  scanZstdMagic bytes startOffset !! i = Some f -> magicFrameSpec i f.
Proof.
  unfold scanZstdMagic. set (frameOffsets := findZstdMagic _ _ _ _).
  assert (Hoffsets : Forall (fun o => isZstdCompressed bytes o = true) frameOffsets)
    by (apply findZstdMagic_invariant; constructor).
  destruct (forLoop (length frameOffsets) 0 (magicFrame bytes frameOffsets) [])
    as [frames|] eqn:Hrun; [|discriminate].
  cbn [default]. revert i f.
  apply (forLoop_preserves
           (fun n frames => Z.of_nat (length frames) <= n
              /\ forall i f, frames !! i = Some f ->
                   f.(isCompressed) = true /\ isZstdCompressed bytes f.(offset) = true
                   /\ exists j, Z.of_nat i <= j /\ f.(timestamp) = (inject_Z j * (1000 / 24))%Q)
           _ _ _ _ _) in Hrun.
  - apply Hrun.
  - intros n t t' Hn Hstep [Hlen Hinv]. unfold magicFrame in Hstep.
    destruct (frameOffsets !! Z.to_nat n) as [o|] eqn:Eo; [|cbn in Hstep; discriminate].
    cbn [mbind option_bind] in Hstep.
    destruct (_ && _) in Hstep; injection Hstep as <-; [|split; [lia|exact Hinv]].
    split; [rewrite length_app; cbn [length]; lia|].
    intros i f Hlook. apply lookup_push in Hlook as [Hlook|[-> ->]].
    + apply Hinv. exact Hlook.
    + cbn [isCompressed offset timestamp]. split; [reflexivity|]. split.
      * exact (Forall_lookup_1 _ _ _ _ Hoffsets Eo).
      * exists n. split; [lia|reflexivity].
  - split; [cbn; lia|]. intros i f Hlook. discriminate.
Qed.

(** What strategies 4 and 5 establish for their [i]-th frame. *)
Lemma applyFixedFrameSize_frames (raw : RawMetadata) (startOffset : Z) (i : nat)
    (f : FrameInfo) :
  applyFixedFrameSize bytes raw startOffset !! i = Some f ->
  f.(isCompressed) = isZstdCompressed bytes f.(offset)
  /\ f.(timestamp) = (inject_Z (Z.of_nat i) * (1000 / 24))%Q.
Proof.
  unfold applyFixedFrameSize.
  destruct (negb (truthyZ (numSegments raw)) || _) eqn:Eseg; [discriminate|].
  apply orb_false_iff in Eseg as [_ Eseg]. apply Z.leb_gt in Eseg.
  cbv zeta. set (segments := default 0 (numSegments raw)) in *.
  set (frameSize := (len bytes - startOffset) / segments).
  destruct (Z.ltb_spec frameSize 1024) as [Hsmall|Hsize]; [discriminate|].
  destruct (forLoop (Z.to_nat segments) 0 (fixedFrame bytes startOffset frameSize) [])
    as [frames|] eqn:Hrun; [|discriminate].
  cbn [default]. revert i f.
  apply (forLoop_preserves
           (fun n frames => Z.of_nat (length frames) = n
              /\ forall i f, frames !! i = Some f ->
                   f.(isCompressed) = isZstdCompressed bytes f.(offset)
                   /\ f.(timestamp) = (inject_Z (Z.of_nat i) * (1000 / 24))%Q)
           _ _ _ _ _) in Hrun.
  - apply Hrun.
  - intros n t t' Hn Hstep [Hlen Hinv]. unfold fixedFrame in Hstep.
    assert (Hfits : startOffset + n * frameSize + frameSize <= len bytes).
    { assert (segments * frameSize <= len bytes - startOffset)
        by (unfold frameSize; apply Z.mul_div_le; lia).
      nia. }
    destruct (Z.leb_spec (startOffset + n * frameSize + frameSize) (len bytes)); [|lia].
    injection Hstep as <-.
    split; [rewrite length_app; cbn [length]; lia|].
    intros i f Hlook. apply lookup_push in Hlook as [Hlook|[-> ->]].
    + apply Hinv. exact Hlook.
    + cbn [isCompressed offset timestamp]. split; [reflexivity|].
      rewrite Hlen. reflexivity.
  - split; [reflexivity|]. intros i f Hlook. discriminate.
Qed.

Lemma scanRawBayerBlocks_frames (raw : RawMetadata) (startOffset : Z) (i : nat)
    (f : FrameInfo) :
  scanRawBayerBlocks bytes raw startOffset !! i = Some f ->
  f.(isCompressed) = false
  /\ f.(timestamp) = (inject_Z (Z.of_nat i) * (1000 / 24))%Q.
Proof.
  unfold scanRawBayerBlocks. cbv zeta.
  destruct (_ || _) eqn:Eres in |- *; [discriminate|].
  destruct (_ =? 0) eqn:Eframes in |- *; [discriminate|].
  match goal with
  | |- context [forLoop ?n 0 ?body []] =>
      destruct (forLoop n 0 body []) as [frames|] eqn:Hrun; [|discriminate]
  end.
  cbn [default]. revert i f.
  apply (forLoop_preserves
           (fun n frames => Z.of_nat (length frames) = n
              /\ forall i f, frames !! i = Some f ->
                   f.(isCompressed) = false
                   /\ f.(timestamp) = (inject_Z (Z.of_nat i) * (1000 / 24))%Q)
           _ _ _ _ _) in Hrun.
  - apply Hrun.
  - intros n t t' Hn Hstep [Hlen Hinv]. unfold rawFrame in Hstep.
    injection Hstep as <-.
    split; [rewrite length_app; cbn [length]; lia|].
    intros i f Hlook. apply lookup_push in Hlook as [Hlook|[-> ->]].
    + apply Hinv. exact Hlook.
    + cbn [isCompressed timestamp]. split; [reflexivity|].
      rewrite Hlen. reflexivity.
  - split; [reflexivity|]. intros i f Hlook. discriminate.
Qed.

End UntypedFacts.

End ParserFacts.

Lemma belowNineTenths_spec (blockSize expected : Z) :
  Parser.belowNineTenths blockSize expected = true <-> 10 * blockSize < 9 * expected.
Proof.
  unfold Parser.belowNineTenths. rewrite Qltb_true.
  unfold Qlt, Qmult, inject_Z. cbn [Qnum Qden]. lia.
Qed.

(** What each strategy establishes for the [i]-th record of the index it
    builds. *)
Lemma scanFrameBlocks_frames (parseJson : list Z -> option Parser.PerFrameMetadata)
    (bytes : list Z) (raw : Parser.RawMetadata) (startOffset strategy : Z)
    (frames : list Parser.FrameInfo) (i : nat) (f : Parser.FrameInfo) :
  Parser.scanFrameBlocks parseJson bytes raw startOffset = (strategy, frames) ->
  frames !! i = Some f ->
  (strategy = 1
   /\ f.(Parser.isCompressed)
      = Parser.belowNineTenths f.(Parser.size) (Parser.expected12BitSize raw)
   /\ exists meta, f.(Parser.perFrameMetadata) = Some meta
        /\ f.(Parser.timestamp)
           = Parser.orQ meta.(Parser.pf_timestamp)
               (inject_Z (Z.of_nat i) * (1000000 / 24))%Q)
  \/ (strategy = 2
      /\ f.(Parser.isCompressed) = true
      /\ Parser.isZstdCompressed bytes f.(Parser.offset) = true
      /\ f.(Parser.timestamp) = (inject_Z (Z.of_nat i) * (1000 / 24))%Q)
  \/ (strategy = 3
      /\ f.(Parser.isCompressed) = true
      /\ Parser.isZstdCompressed bytes f.(Parser.offset) = true
      /\ exists j, Z.of_nat i <= j
           /\ f.(Parser.timestamp) = (inject_Z j * (1000 / 24))%Q)
  \/ (strategy = 4
      /\ f.(Parser.isCompressed) = Parser.isZstdCompressed bytes f.(Parser.offset)
      /\ f.(Parser.timestamp) = (inject_Z (Z.of_nat i) * (1000 / 24))%Q)
  \/ (strategy = 5
      /\ f.(Parser.isCompressed) = false
      /\ f.(Parser.timestamp) = (inject_Z (Z.of_nat i) * (1000 / 24))%Q).
Proof.
  unfold Parser.scanFrameBlocks, Parser.scanTypePrefixedBlocks. cbv zeta.
  match goal with
  | |- context [Parser.scanTypedLoop ?p ?n ?b ?e ?st] =>
      pose proof (scanTypedLoop_invariant p b e n st) as Htyped;
      set (final := Parser.scanTypedLoop p n b e st) in *
  end.
  destruct (0 <? Parser.st_frameCount final).
  { intros Hres Hlook. injection Hres as <- <-. left. split; [reflexivity|].
    destruct Htyped as [_ Hframes].
    - split; [reflexivity|]. intros k g Hk. discriminate.
    - destruct (Hframes i f Hlook) as [Hc Hts]. split; assumption. }
  destruct (0 <? length (Parser.scanSizePrefixedZstd bytes startOffset))%nat.
  { intros Hres Hlook. injection Hres as <- <-. right; left. split; [reflexivity|].
    apply (scanSizePrefixedLoop_invariant bytes (length bytes) startOffset []);
      [|exact Hlook].
    intros k g Hk. discriminate. }
  destruct (0 <? length (Parser.scanZstdMagic bytes startOffset))%nat.
  { intros Hres Hlook. injection Hres as <- <-. right; right; left.
    split; [reflexivity|]. eapply scanZstdMagic_frames. exact Hlook. }
  destruct (0 <? length (Parser.applyFixedFrameSize bytes raw startOffset))%nat.
  { intros Hres Hlook. injection Hres as <- <-. right; right; right; left.
    split; [reflexivity|]. eapply applyFixedFrameSize_frames. exact Hlook. }
  destruct (0 <? length (Parser.scanRawBayerBlocks bytes raw startOffset))%nat.
  { intros Hres Hlook. injection Hres as <- <-. right; right; right; right.
    split; [reflexivity|]. eapply scanRawBayerBlocks_frames. exact Hlook. }
  intros Hres Hlook. injection Hres as <- <-. discriminate.
Qed.

Lemma orQ_spec (a : option Q) (b : Q) :
  (forall v, a = Some v -> ~ (v == 0)%Q -> Parser.orQ a b = v)
  /\ ((a = None \/ exists v, a = Some v /\ (v == 0)%Q) -> Parser.orQ a b = b).
Proof.
  split.
  - intros v -> Hv. unfold Parser.orQ. destruct (Qeq_bool v 0) eqn:E; [|reflexivity].
    apply Qeq_bool_iff in E. contradiction.
  - intros [-> | [v [-> Hv]]]; [reflexivity|]. unfold Parser.orQ.
    apply Qeq_bool_iff in Hv. rewrite Hv. reflexivity.
Qed.

(** C4, as stated, fails.  In the typed-block strategy the flag comes from
    the size test alone: a frame of 1400 bytes that opens with the zstd magic,
    in a container whose 12-bit packed frame has 1536 bytes (90% of it is
    1382.4), is recorded as not compressed.  In the fixed-size strategy the
    flag comes from the magic test alone: two segments of 1024 zero bytes,
    far below 90% of the default 4032 x 3024 frame, are recorded as not
    compressed. *)
Lemma compressed_flag_counterexample :
  (exists f,
     Parser.scanFrameBlocks Examples.noJson Examples.magicFrameContainer
       Examples.smallSensor 0 = (1, [f])
     /\ f.(Parser.size) = 1400
     /\ Parser.isZstdCompressed Examples.magicFrameContainer f.(Parser.offset) = true
     /\ f.(Parser.isCompressed) = false)
  /\ (exists f0 f1,
        Parser.scanFrameBlocks Examples.noJson Examples.zeroPayload
          Examples.twoSegments 0 = (4, [f0; f1])
        /\ f0.(Parser.size) = 1024
        /\ 10 * f0.(Parser.size) < 9 * Parser.expected12BitSize Examples.twoSegments
        /\ f0.(Parser.isCompressed) = false).
Proof.
  split.
  - eexists. split; [vm_compute; reflexivity|]. repeat split.
  - eexists. eexists. split; [vm_compute; reflexivity|]. repeat split.
Qed.

(** C4, amended.  The compressed flag of a frame record depends on the
    strategy that indexed it: in the typed-block strategy it is true exactly
    when the size is below 90% of the 12-bit packed frame
    [floor(W * H * 12 / 8)] of the sensor size (the magic is not looked at);
    in the size-prefixed and the magic-scan strategies it is always true (and
    the payload does open with the zstd magic); in the fixed-size strategy it
    is true exactly when the payload opens with the zstd magic (the size is
    not looked at); in the raw-Bayer strategy it is always false. *)
Theorem compressed_flag_by_strategy
    (parseJson : list Z -> option Parser.PerFrameMetadata) (bytes : list Z)
    (raw : Parser.RawMetadata) (startOffset strategy : Z)
    (frames : list Parser.FrameInfo) (i : nat) (f : Parser.FrameInfo) :
  Parser.scanFrameBlocks parseJson bytes raw startOffset = (strategy, frames) ->
  frames !! i = Some f ->
  (strategy = 1
   /\ (f.(Parser.isCompressed) = true
       <-> 10 * f.(Parser.size) < 9 * Parser.expected12BitSize raw))
  \/ ((strategy = 2 \/ strategy = 3)
      /\ f.(Parser.isCompressed) = true
      /\ Parser.isZstdCompressed bytes f.(Parser.offset) = true)
  \/ (strategy = 4
      /\ f.(Parser.isCompressed) = Parser.isZstdCompressed bytes f.(Parser.offset))
  \/ (strategy = 5 /\ f.(Parser.isCompressed) = false).
Proof.
  intros Hscan Hlook.
  destruct (scanFrameBlocks_frames _ _ _ _ _ _ _ _ Hscan Hlook)
    as [[-> [Hc _]] | [[-> [Hc [Hm _]]] | [[-> [Hc [Hm _]]] | [[-> [Hc _]] | [-> [Hc _]]]]]].
  - left. split; [reflexivity|]. rewrite Hc. apply belowNineTenths_spec.
  - right; left. auto.
  - right; left. auto.
  - right; right; left. auto.
  - right; right; right. auto.
Qed.

Lemma compressed_flag_by_strategy_witness :
  exists f,
    Parser.scanFrameBlocks Examples.noJson Examples.magicFrameContainer
      Examples.smallSensor 0 = (1, [f])
    /\ ((1 = 1
         /\ (f.(Parser.isCompressed) = true
             <-> 10 * f.(Parser.size) < 9 * Parser.expected12BitSize Examples.smallSensor))
        \/ ((1 = 2 \/ 1 = 3)
            /\ f.(Parser.isCompressed) = true
            /\ Parser.isZstdCompressed Examples.magicFrameContainer f.(Parser.offset) = true)
        \/ (1 = 4
            /\ f.(Parser.isCompressed)
               = Parser.isZstdCompressed Examples.magicFrameContainer f.(Parser.offset))
        \/ (1 = 5 /\ f.(Parser.isCompressed) = false)).
Proof.
  eexists. split; [vm_compute; reflexivity|].
  eapply (compressed_flag_by_strategy Examples.noJson Examples.magicFrameContainer
            Examples.smallSensor 0 1 _ 0%nat); [vm_compute; reflexivity|reflexivity].
Defined.

(** C5, as stated, fails: the second frame of a typed-block container
    without per-frame JSON gets the timestamp 1000000 / 24 (microseconds),
    not 1 / 24. *)
Lemma synthetic_timestamp_counterexample :
  exists f0 f1,
    Parser.scanFrameBlocks Examples.noJson Examples.twoPlainFrames
      Examples.smallSensor 0 = (1, [f0; f1])
    /\ f1.(Parser.perFrameMetadata) = Some Parser.emptyMetadata
    /\ (f1.(Parser.timestamp) == 1000000 / 24)%Q
    /\ ~ (f1.(Parser.timestamp) == 1 / 24)%Q.
Proof.
  eexists. eexists. split; [vm_compute; reflexivity|].
  split; [reflexivity|]. split; [reflexivity|]. discriminate.
Qed.

(** C5, amended.  The timestamp of the [i]-th frame record depends on the
    strategy that indexed it.  In the typed-block strategy it is the
    timestamp of the record's per-frame JSON when that is present and not
    zero, and otherwise [i * (1000000 / 24)], that is [i / 24] seconds
    counted in microseconds.  In the size-prefixed, fixed-size and raw-Bayer
    strategies, which read no per-frame JSON, it is [i * (1000 / 24)], that
    is [i / 24] seconds counted in milliseconds; in the magic-scan strategy
    it is [j * (1000 / 24)] for the index [j >= i] of the frame's
    signature.  The assumed rate is 24 throughout. *)
Theorem frame_timestamp_by_strategy
    (parseJson : list Z -> option Parser.PerFrameMetadata) (bytes : list Z)
    (raw : Parser.RawMetadata) (startOffset strategy : Z)
    (frames : list Parser.FrameInfo) (i : nat) (f : Parser.FrameInfo) :
  Parser.scanFrameBlocks parseJson bytes raw startOffset = (strategy, frames) ->
  frames !! i = Some f ->
  (strategy = 1
   /\ exists meta,
        f.(Parser.perFrameMetadata) = Some meta
        /\ (forall ts, meta.(Parser.pf_timestamp) = Some ts -> ~ (ts == 0)%Q ->
              f.(Parser.timestamp) = ts)
        /\ ((meta.(Parser.pf_timestamp) = None
             \/ exists ts, meta.(Parser.pf_timestamp) = Some ts /\ (ts == 0)%Q) ->
            f.(Parser.timestamp) = (inject_Z (Z.of_nat i) * (1000000 / 24))%Q))
  \/ ((strategy = 2 \/ strategy = 4 \/ strategy = 5)
      /\ f.(Parser.timestamp) = (inject_Z (Z.of_nat i) * (1000 / 24))%Q)
  \/ (strategy = 3
      /\ exists j, Z.of_nat i <= j
           /\ f.(Parser.timestamp) = (inject_Z j * (1000 / 24))%Q).
Proof.
  intros Hscan Hlook.
  destruct (scanFrameBlocks_frames _ _ _ _ _ _ _ _ Hscan Hlook)
    as [[-> [_ [meta [Hm Ht]]]] | [[-> [_ [_ Ht]]] | [[-> [_ [_ Ht]]]
        | [[-> [_ Ht]] | [-> [_ Ht]]]]]].
  - left. split; [reflexivity|]. exists meta. split; [exact Hm|].
    rewrite Ht. apply orQ_spec.
  - right; left. auto.
  - right; right. auto.
  - right; left. auto.
  - right; left. auto.
Qed.

Lemma frame_timestamp_by_strategy_witness :
  exists f,
    Parser.scanFrameBlocks Examples.stampedJson Examples.annotatedFrame
      Examples.smallSensor 0 = (1, [f])
    /\ f.(Parser.timestamp) = 777%Q.
Proof.
  eexists. split; [vm_compute; reflexivity|].
  destruct (frame_timestamp_by_strategy Examples.stampedJson Examples.annotatedFrame
              Examples.smallSensor 0 1 _ 0%nat _ ltac:(vm_compute; reflexivity) eq_refl)
    as [[_ [meta [Hm [Hts _]]]] | [[[H | [H | H]] _] | [H _]]]; try discriminate H.
  injection Hm as <-. apply (Hts 777%Q); [reflexivity|discriminate].
Defined.

(** * Further properties of the code *)

(** ** Time code and frame rate *)

Lemma Qfloor_div_Z (a b : Z) : 0 < b -> Qfloor (inject_Z a / inject_Z b) = a / b.
Proof.
  intros Hb. destruct b as [|p|p]; try lia.
  unfold Qdiv, Qinv, inject_Z, Qmult, Qfloor. cbn.
  rewrite Z.mul_1_r. reflexivity.
Qed.

Lemma cRound_inject_Z (z : Z) : cRound (inject_Z z) = z.
Proof.
  unfold cRound. destruct (Qle_bool 0 (inject_Z z)) eqn:E.
  - unfold Qfloor, Qplus, inject_Z. cbn. Z.to_euclidean_division_equations; lia.
  - unfold Qceiling, Qfloor, Qminus, Qplus, Qopp, inject_Z. cbn.
    Z.to_euclidean_division_equations; lia.
Qed.

Lemma float_to_int_inject_Z (z : Z) :
  - 2 ^ 31 <= z < 2 ^ 31 -> float_to_int (inject_Z z) = Some z.
Proof.
  intros Hz. unfold float_to_int.
  assert (Ht : Qtrunc (inject_Z z) = z).
  { unfold Qtrunc. destruct (Qle_bool 0 (inject_Z z)).
    - apply Qfloor_Z.
    - apply Qceiling_Z. }
  rewrite Ht.
  destruct (- 2 ^ 31 <=? z) eqn:E1; [|lia].
  destruct (z <? 2 ^ 31) eqn:E2; [|lia]. reflexivity.
Qed.

(** Below 100, [ToTimecodeByte] is the packed BCD byte: tens in the high
    nibble, units in the low nibble. *)
Lemma ToTimecodeByte_bcd (v : Z) :
  0 <= v < 100 -> Timecode.ToTimecodeByte v = 16 * (v / 10) + v mod 10.
Proof.
  intros Hv. unfold Timecode.ToTimecodeByte.
  rewrite Z.quot_div_nonneg, Z.rem_mod_nonneg by lia.
  rewrite (lor_shiftl_small (v / 10) (v mod 10) 4) by (pow_consts; Z.to_euclidean_division_equations; lia).
  unfold to_u8. pow_consts. Z.to_euclidean_division_equations; lia.
Qed.

Lemma land_small (x k : Z) : 0 <= k -> 0 <= x < 2 ^ k -> Z.land x (2 ^ k - 1) = x.
Proof. intros Hk Hx. rewrite land_low_bits by lia. apply Z.mod_small. lia. Qed.

Lemma Qfloor_div_div (a b c : Z) :
  0 < b -> 0 < c -> Qfloor (inject_Z a / inject_Z b / inject_Z c) = a / b / c.
Proof.
  intros Hb Hc.
  assert (E : (inject_Z a / inject_Z b / inject_Z c == inject_Z a / inject_Z (b * c))%Q).
  { rewrite inject_Z_mult. field. split; intros H.
    - unfold Qeq, inject_Z in H. cbn in H. lia.
    - unfold Qeq, inject_Z in H. cbn in H. lia. }
  rewrite E, Qfloor_div_Z by lia. rewrite Z.div_div by lia. reflexivity.
Qed.

Lemma timecode_field (v k : Z) :
  0 <= v < 100 -> 0 <= k <= 8 -> 16 * (v / 10) + v mod 10 < 2 ^ k ->
  to_u8 (Z.land (Timecode.ToTimecodeByte v) (2 ^ k - 1)) = 16 * (v / 10) + v mod 10.
Proof.
  intros Hv Hk Hlt. rewrite ToTimecodeByte_bcd by lia.
  assert (0 <= 16 * (v / 10) + v mod 10) by (Z.to_euclidean_division_equations; lia).
  rewrite land_small by lia. unfold to_u8. apply Z.mod_small.
  assert (2 ^ k <= 2 ^ 8) by (apply Z.pow_le_mono_r; lia).
  change (2 ^ 8) with 256 in *. lia.
Qed.

(** X1.  The time code written by [generateDng] identifies the frame: for
    an integer frame rate [N] between 2 and 40 and a frame number below 40
    hours of footage, the first four bytes are the packed BCD digits of
    frames, seconds, minutes and hours (no bit is lost to the masks), and
    [frameNumber = ((hours * 60 + minutes) * 60 + seconds) * N + frames];
    the last four bytes are 0. *)
Theorem timecode_identifies_frame (frameNumber N : Z) :
  2 <= N <= 40 ->
  0 <= frameNumber < 40 * 3600 * N ->
  exists frames seconds minutes hours,
    Timecode.timeCode frameNumber (inject_Z N)
    = Some [ 16 * (frames / 10) + frames mod 10;
             16 * (seconds / 10) + seconds mod 10;
             16 * (minutes / 10) + minutes mod 10;
             16 * (hours / 10) + hours mod 10;
             0; 0; 0; 0 ]
    /\ 0 <= frames < N /\ 0 <= seconds < 60 /\ 0 <= minutes < 60 /\ 0 <= hours < 40
    /\ frameNumber = ((hours * 60 + minutes) * 60 + seconds) * N + frames.
Proof.
  intros HN Hn.
  set (q := frameNumber / N).
  assert (Hq : 0 <= q < 40 * 3600).
  { unfold q. split; [apply Z.div_pos; lia|]. apply Z.div_lt_upper_bound; lia. }
  exists (frameNumber mod N), (q mod 60), (q / 60 mod 60), (q / 60 / 60).
  assert (Hf : 0 <= frameNumber mod N < N) by (apply Z.mod_pos_bound; lia).
  assert (Hs : 0 <= q mod 60 < 60) by (apply Z.mod_pos_bound; lia).
  assert (Hm : 0 <= q / 60 mod 60 < 60) by (apply Z.mod_pos_bound; lia).
  assert (Hh : 0 <= q / 60 / 60 < 40) by (Z.to_euclidean_division_equations; lia).
  split; [|repeat split; try lia].
  - unfold Timecode.timeCode.
    assert (E0 : Qeq_bool (inject_Z N) 0 = false).
    { destruct (Qeq_bool (inject_Z N) 0) eqn:E; [|reflexivity].
      apply Qeq_bool_iff in E. unfold Qeq, inject_Z in E. cbn in E. lia. }
    rewrite E0.
    change 3600%Q with (inject_Z 3600). change 60%Q with (inject_Z 60).
    rewrite !Qfloor_div_div, Qfloor_div_Z by lia. fold q.
    assert (E3600 : q / 3600 = q / 60 / 60) by (rewrite Z.div_div by lia; reflexivity).
    rewrite E3600, cRound_inject_Z.
    rewrite !float_to_int_inject_Z
      by (change (2 ^ 31) with 2147483648; Z.to_euclidean_division_equations; lia).
    cbn [mbind option_bind].
    assert (E1 : Qltb 1 (inject_Z N) = true).
    { apply Qltb_true. change 1%Q with (inject_Z 1). rewrite <- Zlt_Qlt. lia. }
    rewrite E1.
    cbn [mbind option_bind].
    rewrite (Z.rem_mod_nonneg frameNumber N), (Z.rem_mod_nonneg q 60),
      (Z.rem_mod_nonneg (q / 60) 60) by (Z.to_euclidean_division_equations; lia).
    change 0x3F with (2 ^ 6 - 1). change 0x7F with (2 ^ 7 - 1).
    rewrite (timecode_field (frameNumber mod N) 6), (timecode_field (q mod 60) 7),
      (timecode_field (q / 60 mod 60) 7), (timecode_field (q / 60 / 60) 6)
      by (try change (2 ^ 6) with 64; try change (2 ^ 7) with 128;
          Z.to_euclidean_division_equations; lia).
    reflexivity.
  - unfold q in *. Z.to_euclidean_division_equations; nia.
Qed.

Lemma timecode_identifies_frame_witness :
  exists frames seconds minutes hours,
    Timecode.timeCode 100000 (inject_Z 24)
    = Some [ 16 * (frames / 10) + frames mod 10;
             16 * (seconds / 10) + seconds mod 10;
             16 * (minutes / 10) + minutes mod 10;
             16 * (hours / 10) + hours mod 10;
             0; 0; 0; 0 ]
    /\ 0 <= frames < 24 /\ 0 <= seconds < 60 /\ 0 <= minutes < 60 /\ 0 <= hours < 40
    /\ 100000 = ((hours * 60 + minutes) * 60 + seconds) * 24 + frames.
Proof. apply (timecode_identifies_frame 100000 24); lia. Defined.

Section GcdFacts.
Import FrameRate.

(** The number of bits of [x], and a bound on the iterations that the
    loop of [gcd] still makes in the state [(a, b)]. *)
Local Abbreviation bits x := (if x =? 0 then 0 else Z.log2 (Z.abs x) + 1).
Local Abbreviation steps a b :=
  (if b =? 0 then 1 else bits a + bits b + (if Z.abs a <? Z.abs b then 2 else 1)).
Local Abbreviation undefinedPair a b :=
  ((a = - 2 ^ 31 /\ b = -1) \/ (a = -1 /\ b = - 2 ^ 31)).

Lemma bits_nonneg (x : Z) : 0 <= bits x.
Proof. destruct (x =? 0); [lia|]. pose proof (Z.log2_nonneg (Z.abs x)). lia. Qed.

Lemma bits_half (r a : Z) : r <> 0 -> 2 * Z.abs r <= Z.abs a -> bits r + 1 <= bits a.
Proof.
  intros Hr Hle.
  destruct (Z.eqb_spec r 0) as [|_]; [contradiction|].
  destruct (Z.eqb_spec a 0) as [->|_]; [cbn in Hle; lia|].
  pose proof (Z.log2_le_mono _ _ Hle) as H.
  rewrite Z.log2_double in H by lia. lia.
Qed.

Lemma rem_half (a b : Z) : b <> 0 -> Z.abs b <= Z.abs a -> 2 * Z.abs (Z.rem a b) <= Z.abs a.
Proof.
  intros Hb Hle. rewrite <- Z.rem_abs by exact Hb.
  rewrite Z.rem_mod_nonneg by lia.
  pose proof (Z.mod_pos_bound (Z.abs a) (Z.abs b) ltac:(lia)) as Hm.
  pose proof (Z.div_mod (Z.abs a) (Z.abs b) ltac:(lia)) as Hd.
  assert (1 <= Z.abs a / Z.abs b) by (apply Z.div_le_lower_bound; lia).
  nia.
Qed.

Lemma steps_decrease (a b : Z) : b <> 0 -> steps b (Z.rem a b) + 1 <= steps a b.
Proof.
  intros Hb. pose proof (Z.rem_bound_abs a b Hb) as Hr.
  pose proof (Z.log2_nonneg (Z.abs a)) as Ha0. pose proof (Z.log2_nonneg (Z.abs b)) as Hb0.
  destruct (Z.eqb_spec b 0) as [|_]; [contradiction|].
  destruct (Z.ltb_spec (Z.abs a) (Z.abs b)) as [Hlt|Hge].
  - assert (E : Z.rem a b = a) by (apply Z.rem_small_iff; assumption).
    rewrite E. destruct (Z.eqb_spec a 0) as [->|Ha]; [lia|].
    destruct (Z.ltb_spec (Z.abs b) (Z.abs a)); lia.
  - destruct (Z.eqb_spec (Z.rem a b) 0) as [E|Hr0].
    + destruct (Z.eqb_spec a 0); lia.
    + pose proof (bits_half (Z.rem a b) a Hr0 (rem_half a b Hb Hge)) as Hhalf.
      destruct (Z.eqb_spec (Z.rem a b) 0) as [|_]; [contradiction|].
      destruct (Z.ltb_spec (Z.abs b) (Z.abs (Z.rem a b))); lia.
Qed.

Lemma int_rem_defined (a b : Z) :
  b <> 0 -> ~ (a = - 2 ^ 31 /\ b = -1) -> int_rem a b = Some (Z.rem a b).
Proof.
  intros Hb Hsafe. unfold int_rem.
  destruct (Z.eqb_spec b 0) as [|_]; [contradiction|].
  destruct (Z.eqb_spec a (- 2 ^ 31)) as [Ea|_]; [|reflexivity].
  destruct (Z.eqb_spec b (-1)) as [Eb|_]; [|reflexivity].
  exfalso. apply Hsafe. split; assumption.
Qed.

Lemma int_quot_defined (a b : Z) :
  b <> 0 -> ~ (a = - 2 ^ 31 /\ b = -1) -> int_quot a b = Some (Z.quot a b).
Proof.
  intros Hb Hsafe. unfold int_quot.
  destruct (Z.eqb_spec b 0) as [|_]; [contradiction|].
  destruct (Z.eqb_spec a (- 2 ^ 31)) as [Ea|_]; [|reflexivity].
  destruct (Z.eqb_spec b (-1)) as [Eb|_]; [|reflexivity].
  exfalso. apply Hsafe. split; assumption.
Qed.

(** From a state that is not one of the two undefined pairs, with enough
    fuel, the loop ends with the greatest common divisor up to sign. *)
Lemma gcd_loop_defined (fuel : nat) (a b : Z) :
  - 2 ^ 31 <= a < 2 ^ 31 -> - 2 ^ 31 <= b < 2 ^ 31 -> ~ undefinedPair a b ->
  steps a b <= Z.of_nat fuel ->
  exists g, gcd_loop fuel a b = Some g
            /\ Z.abs g = Z.gcd a b /\ - 2 ^ 31 <= g < 2 ^ 31
            /\ (0 <= a -> 0 <= b -> 0 <= g).
Proof.
  change (2 ^ 31) with 2147483648.
  revert a b. induction fuel as [|fuel IH]; intros a b Ha Hb Hsafe Hfuel.
  - exfalso. pose proof (bits_nonneg a). pose proof (bits_nonneg b).
    destruct (b =? 0); [lia|]. destruct (Z.abs a <? Z.abs b); lia.
  - cbn [gcd_loop]. pose proof (steps_decrease a b) as Hdec.
    destruct (Z.eqb_spec b 0) as [->|Hb0].
    + exists a. split; [reflexivity|]. rewrite Z.gcd_0_r. split; [reflexivity|].
      split; [exact Ha|]. intros; assumption.
    + rewrite int_rem_defined; [|exact Hb0|change (2 ^ 31) with 2147483648; tauto].
      cbn [mbind option_bind].
      pose proof (Z.rem_bound_abs a b Hb0) as Hr.
      specialize (Hdec Hb0).
      destruct (IH b (Z.rem a b) Hb ltac:(lia)) as [g [Hg [Habs [Hint Hpos]]]].
      * intros [[Eb Er]|[Eb Er]]; [|lia].
        apply Hsafe. right. split; [|exact Eb].
        assert (Hsmall : Z.abs a < Z.abs b \/ Z.abs b <= Z.abs a) by lia.
        destruct Hsmall as [Hsmall|Hlarge].
        -- apply Z.rem_small_iff in Hsmall; [|exact Hb0]. lia.
        -- assert (a = -2147483648) by lia. subst a b. discriminate Er.
      * destruct (Z.eqb_spec b 0) as [|_]; [contradiction|]. lia.
      * exists g. split; [exact Hg|]. split; [|split; [exact Hint|]].
        -- rewrite Habs. rewrite (Z.gcd_comm b), Z.gcd_rem by exact Hb0. apply Z.gcd_comm.
        -- intros Ha0 Hb1. apply Hpos; [exact Hb1|]. apply Z.rem_nonneg; [exact Hb0|exact Ha0].
Qed.

Lemma gcd_fuel (a b : Z) :
  steps a b <= Z.of_nat (Z.to_nat (Z.log2 (Z.abs a) + Z.log2 (Z.abs b) + 4)).
Proof.
  pose proof (Z.log2_nonneg (Z.abs a)). pose proof (Z.log2_nonneg (Z.abs b)).
  destruct (b =? 0); [lia|]. destruct (a =? 0), (Z.abs a <? Z.abs b); lia.
Qed.

Lemma gcd_defined (a b : Z) :
  - 2 ^ 31 <= a < 2 ^ 31 -> - 2 ^ 31 <= b < 2 ^ 31 -> ~ undefinedPair a b ->
  exists g, gcd a b = Some g
            /\ Z.abs g = Z.gcd a b /\ - 2 ^ 31 <= g < 2 ^ 31
            /\ (0 <= a -> 0 <= b -> 0 <= g).
Proof.
  intros Ha Hb Hsafe. unfold gcd.
  apply gcd_loop_defined; [exact Ha|exact Hb|exact Hsafe|apply gcd_fuel].
Qed.

Lemma gcd_of_nonneg (a b : Z) :
  0 <= a < 2 ^ 31 -> 0 <= b < 2 ^ 31 -> gcd a b = Some (Z.gcd a b).
Proof.
  intros Ha Hb.
  destruct (gcd_defined a b) as [g [Hg [Habs [_ Hpos]]]].
  - change (2 ^ 31) with 2147483648 in *. lia.
  - change (2 ^ 31) with 2147483648 in *. lia.
  - change (2 ^ 31) with 2147483648 in *. lia.
  - rewrite Hg. f_equal. rewrite <- Habs. symmetry. apply Z.abs_eq. apply Hpos; lia.
Qed.

End GcdFacts.

(** X2.  [gcd] on [int]s.  For [INT_MIN] and [-1], in either order, the
    loop reaches [INT_MIN % -1], which is undefined.  For every other pair
    of [int]s the loop ends and returns an [int] that is the greatest
    common divisor up to sign; for non-negative arguments it is the
    greatest common divisor itself, in particular [gcd(a, 0) = a]. *)
Theorem gcd_is_greatest_common_divisor (a b : Z) :
  - 2 ^ 31 <= a < 2 ^ 31 -> - 2 ^ 31 <= b < 2 ^ 31 ->
  (FrameRate.gcd a b = None <-> (a = - 2 ^ 31 /\ b = -1) \/ (a = -1 /\ b = - 2 ^ 31))
  /\ (forall g, FrameRate.gcd a b = Some g ->
        Z.abs g = Z.gcd a b /\ - 2 ^ 31 <= g < 2 ^ 31)
  /\ (0 <= a -> 0 <= b -> FrameRate.gcd a b = Some (Z.gcd a b))
  /\ (b = 0 -> FrameRate.gcd a b = Some a).
Proof.
  intros Ha Hb.
  assert (Hundefined : (a = - 2 ^ 31 /\ b = -1) \/ (a = -1 /\ b = - 2 ^ 31) ->
                       FrameRate.gcd a b = None).
  { intros [[-> ->]|[-> ->]]; vm_compute; reflexivity. }
  split; [|split; [|split]].
  - split; [|exact Hundefined].
    intros Hnone.
    destruct (Z.eq_dec a (- 2 ^ 31)) as [Ea|Na], (Z.eq_dec b (-1)) as [Eb|Nb];
      try (left; split; assumption);
      destruct (Z.eq_dec a (-1)) as [Ea'|Na'], (Z.eq_dec b (- 2 ^ 31)) as [Eb'|Nb'];
      try (right; split; assumption);
      (destruct (gcd_defined a b Ha Hb) as [g [Hg _]]; [tauto|congruence]).
  - intros g Hg.
    destruct (Z.eq_dec a (- 2 ^ 31)) as [Ea|Na], (Z.eq_dec b (-1)) as [Eb|Nb];
      try (rewrite Hundefined in Hg by tauto; discriminate Hg);
      destruct (Z.eq_dec a (-1)) as [Ea'|Na'], (Z.eq_dec b (- 2 ^ 31)) as [Eb'|Nb'];
      try (rewrite Hundefined in Hg by tauto; discriminate Hg);
      (destruct (gcd_defined a b Ha Hb) as [g' [Hg' [Habs [Hint _]]]]; [tauto|];
       rewrite Hg' in Hg; injection Hg as <-; split; assumption).
  - intros Ha0 Hb0. apply gcd_of_nonneg; split; (assumption || apply Ha || apply Hb).
  - intros ->. unfold FrameRate.gcd.
    destruct (Z.to_nat _) as [|fuel] eqn:E; [|reflexivity].
    pose proof (Z.log2_nonneg (Z.abs a)). change (Z.log2 (Z.abs 0)) with 0 in E. lia.
Qed.

Lemma gcd_is_greatest_common_divisor_witness :
  FrameRate.gcd 30000 1001 = Some (Z.gcd 30000 1001).
Proof. apply (gcd_is_greatest_common_divisor 30000 1001); lia. Defined.

Lemma cRound_nonneg (x : Q) : (0 <= x)%Q -> 0 <= cRound x.
Proof.
  intros Hx. unfold cRound. apply Qle_bool_iff in Hx as Hb. rewrite Hb.
  change 0 with (Qfloor 0). apply Qfloor_resp_le. lra.
Qed.

(** X3.  [toFraction] of a positive rate over a positive base is the
    fraction [n / base] in lowest terms, where [n] is the [float] product
    of the rate and the base, rounded to a whole number and fitting an
    [int]: the denominator is positive, numerator and denominator are
    coprime and the value is unchanged.  The product is rounded to a
    [float] before [std::round] sees it: 24.0005f over 1000 gives
    24001/1000, although the product of the two numbers is below
    24000.5. *)
Theorem toFraction_lowest_terms (frameRate : Q) (base : Z) :
  (0 < frameRate)%Q -> 0 < base < 2 ^ 31 ->
  cRound (Float.binary32 (frameRate * Float.binary32 (inject_Z base))) < 2 ^ 31 ->
  (exists numerator denominator,
     FrameRate.toFraction frameRate base = Some (numerator, denominator)
     /\ 0 <= numerator /\ 0 < denominator
     /\ Z.gcd numerator denominator = 1
     /\ numerator * base
        = cRound (Float.binary32 (frameRate * Float.binary32 (inject_Z base))) * denominator)
  /\ FrameRate.toFraction (Float.binary32 (240005 # 10000)) 1000 = Some (24001, 1000)
  /\ (Float.binary32 (240005 # 10000) * 1000 < 24000 + (1 # 2))%Q.
Proof.
  intros Hrate Hbase Hfit. split; [|split; vm_compute; reflexivity].
  set (n := cRound (Float.binary32 (frameRate * Float.binary32 (inject_Z base)))) in *.
  assert (Hn : 0 <= n).
  { unfold n. apply cRound_nonneg. apply round_nonneg. apply Qmult_le_0_compat; [lra|].
    apply round_nonneg. change 0%Q with (inject_Z 0). rewrite <- Zle_Qle. lia. }
  pose proof (gcd_of_nonneg n base ltac:(lia) ltac:(lia)) as Hg.
  assert (Hpos : 0 < Z.gcd n base).
  { pose proof (Z.gcd_nonneg n base).
    destruct (Z.eq_dec (Z.gcd n base) 0) as [E|E]; [|lia].
    apply Z.gcd_eq_0_r in E. lia. }
  destruct (Z.gcd_divide_l n base) as [k Hk].
  destruct (Z.gcd_divide_r n base) as [l Hl].
  exists (n / Z.gcd n base), (base / Z.gcd n base).
  split; [|split; [|split; [|split]]].
  - unfold FrameRate.toFraction.
    assert (E0 : Qle_bool frameRate 0 = false).
    { destruct (Qle_bool frameRate 0) eqn:E; [|reflexivity].
      apply Qle_bool_iff in E. lra. }
    rewrite E0. fold n.
    rewrite float_to_int_inject_Z by (change (2 ^ 31) with 2147483648 in *; lia).
    cbn [mbind option_bind]. rewrite Hg. cbn [mbind option_bind].
    rewrite !int_quot_defined by lia. cbn [mbind option_bind].
    rewrite !Z.quot_div_nonneg by lia. reflexivity.
  - apply Z.div_pos; lia.
  - apply Z.div_str_pos. split; [lia|]. apply Z.divide_pos_le; [lia|].
    apply Z.gcd_divide_r.
  - apply Z.gcd_div_gcd; [lia|reflexivity].
  - assert (E1 : n / Z.gcd n base = k) by (symmetry; apply Z.div_unique_exact; lia).
    assert (E2 : base / Z.gcd n base = l) by (symmetry; apply Z.div_unique_exact; lia).
    rewrite E1, E2. nia.
Qed.

Lemma toFraction_lowest_terms_witness :
  exists numerator denominator,
    FrameRate.toFraction (2997 # 100) 1000 = Some (numerator, denominator)
    /\ 0 <= numerator /\ 0 < denominator
    /\ Z.gcd numerator denominator = 1
    /\ numerator * 1000
       = cRound (Float.binary32 ((2997 # 100) * Float.binary32 (inject_Z 1000)))
         * denominator.
Proof.
  apply (toFraction_lowest_terms (2997 # 100) 1000).
  - reflexivity.
  - lia.
  - vm_compute. reflexivity.
Defined.

(** A rate that is not positive gives the fraction 0/1. *)
Remark toFraction_of_non_positive (frameRate : Q) (base : Z) :
  (frameRate <= 0)%Q -> FrameRate.toFraction frameRate base = Some (0, 1).
Proof.
  intros H. unfold FrameRate.toFraction. apply Qle_bool_iff in H. rewrite H. reflexivity.
Qed.

(** ** Output size, source reads and packed size *)

Lemma newDimensions_facts (inOutWidth inOutHeight cropWidth cropHeight scale : Z) :
  0 <= inOutWidth -> 0 <= inOutHeight -> 1 <= scale ->
  let size := Geometry.newDimensions inOutWidth inOutHeight cropWidth cropHeight scale in
  0 <= size.1 /\ 0 <= size.2
  /\ size.1 mod 4 = 0 /\ size.2 mod 4 = 0
  /\ size.1 * scale <= inOutWidth /\ size.2 * scale <= inOutHeight.
Proof.
  intros HW HH Hs. unfold Geometry.newDimensions.
  destruct ((0 <? cropWidth) && (0 <? cropHeight) && (cropWidth <=? inOutWidth)
            && (cropHeight <=? inOutHeight)) eqn:E; cbn [fst snd].
  - repeat (apply andb_true_iff in E as [E ?]).
    repeat split.
    + Z.to_euclidean_division_equations; nia.
    + Z.to_euclidean_division_equations; nia.
    + apply Z_mod_mult.
    + apply Z_mod_mult.
    + assert (cropWidth / scale * scale <= cropWidth)
        by (rewrite Z.mul_comm; apply Z.mul_div_le; lia).
      assert (cropWidth / scale / 4 * 4 <= cropWidth / scale)
        by (rewrite Z.mul_comm; apply Z.mul_div_le; lia).
      nia.
    + assert (cropHeight / scale * scale <= cropHeight)
        by (rewrite Z.mul_comm; apply Z.mul_div_le; lia).
      assert (cropHeight / scale / 4 * 4 <= cropHeight / scale)
        by (rewrite Z.mul_comm; apply Z.mul_div_le; lia).
      nia.
  - repeat split.
    + Z.to_euclidean_division_equations; nia.
    + Z.to_euclidean_division_equations; nia.
    + apply Z_mod_mult.
    + apply Z_mod_mult.
    + assert (inOutWidth / scale * scale <= inOutWidth)
        by (rewrite Z.mul_comm; apply Z.mul_div_le; lia).
      assert (inOutWidth / scale / 4 * 4 <= inOutWidth / scale)
        by (rewrite Z.mul_comm; apply Z.mul_div_le; lia).
      nia.
    + assert (inOutHeight / scale * scale <= inOutHeight)
        by (rewrite Z.mul_comm; apply Z.mul_div_le; lia).
      assert (inOutHeight / scale / 4 * 4 <= inOutHeight / scale)
        by (rewrite Z.mul_comm; apply Z.mul_div_le; lia).
      nia.
Qed.

Section SourceReads.
Import Renderer Geometry.

Variables (srcData : list Z) (W H : Z).
Hypothesis Hlen : len srcData = W * H.
Hypothesis HW : 0 <= W.

(** A read at row [srcY + r], column [srcX + c] of a [W x H] frame. *)
Lemma srcAt_cell (srcX srcY r c : Z) :
  0 <= srcX -> 0 <= srcY -> 0 <= r -> 0 <= c -> srcX + c < W -> srcY + r < H ->
  is_Some (srcAt srcData ((srcY + r) * W + srcX + c)).
Proof using Hlen HW.
  intros. rewrite srcAt_in_range; [eauto|].
  rewrite Hlen. apply cell_index_in_range; try lia. nia.
Qed.

Lemma fetchQuad_defined (srcX srcY : Z) :
  0 <= srcX -> 0 <= srcY -> srcX + 4 <= W -> srcY + 4 <= H ->
  is_Some (fetchQuad srcData W srcX srcY).
Proof using Hlen HW.
  intros HX HY HXW HYH. unfold fetchQuad. apply mapM_is_Some.
  unfold quadOffsets.
  repeat (apply Forall_cons; split; [cbn; apply srcAt_cell; lia|]).
  apply Forall_nil. exact I.
Qed.

Lemma fetchBlock_defined (cfaSize scale srcX srcY : Z) :
  cfaSize = 1 \/ cfaSize = 2 ->
  0 <= srcX -> 0 <= srcY ->
  srcX + (if (cfaSize =? 2) && (scale =? 2) then 4 else cfaSize + 1) <= W ->
  srcY + (if (cfaSize =? 2) && (scale =? 2) then 4 else cfaSize + 1) <= H ->
  is_Some (fetchBlock srcData W cfaSize scale srcX srcY).
Proof using Hlen HW.
  intros Hcfa HX HY HXW HYH. unfold fetchBlock.
  destruct ((cfaSize =? 2) && (scale =? 2)) eqn:E.
  - assert (Hrows : (srcY + 4) * W <= len srcData) by (rewrite Hlen; nia).
    rewrite (binnedSample_in_range srcData W srcX srcY 0 0) by nia.
    rewrite (binnedSample_in_range srcData W srcX srcY 0 2) by nia.
    rewrite (binnedSample_in_range srcData W srcX srcY 2 0) by nia.
    rewrite (binnedSample_in_range srcData W srcX srcY 2 2) by nia.
    cbn. eauto.
  - assert (Hc : 0 <= cfaSize) by lia.
    destruct (srcAt_cell srcX srcY 0 0) as [s0 E0]; try lia.
    destruct (srcAt_cell srcX srcY 0 cfaSize) as [s1 E1]; try lia.
    destruct (srcAt_cell srcX srcY cfaSize 0) as [s2 E2]; try lia.
    destruct (srcAt_cell srcX srcY cfaSize cfaSize) as [s3 E3]; try lia.
    rewrite Z.add_0_r in E0, E1. rewrite Z.add_0_r in E0, E2.
    rewrite E0, E1, E2, E3. cbn. eauto.
Qed.

Lemma sourceBlock_defined (cfaSize scale x y newWidth newHeight : Z) :
  cfaSize = 1 \/ cfaSize = 2 ->
  scale = 1 \/ 2 <= scale ->
  0 <= x -> 0 <= y ->
  x + stride cfaSize scale <= newWidth -> y + stride cfaSize scale <= newHeight ->
  newWidth * scale <= W -> newHeight * scale <= H ->
  is_Some (sourceBlock srcData W cfaSize scale x y).
Proof using Hlen HW.
  intros Hcfa Hscale Hx Hy Hxw Hyh HnW HnH. unfold sourceBlock, blockPath.
  unfold stride in *.
  assert (Hsx : 0 <= x * scale) by nia.
  assert (Hsy : 0 <= y * scale) by nia.
  destruct Hcfa as [-> | ->].
  - change (1 <? 2) with true. cbn [orb].
    assert (E : (if scale <? 2 then 1 else 1) = 1) by (destruct (scale <? 2); reflexivity).
    rewrite E in *.
    assert ((x + 2) * scale <= newWidth * scale) by (apply Z.mul_le_mono_nonneg_r; lia).
    assert ((y + 2) * scale <= newHeight * scale) by (apply Z.mul_le_mono_nonneg_r; lia).
    apply fetchBlock_defined; [left; reflexivity|lia|lia| |]; cbn; lia.
  - change (2 <? 2) with false. cbn [orb].
    destruct (Z.ltb_spec 1 scale) as [Hs|Hs].
    + assert (E : (scale <? 2) = false) by (apply Z.ltb_ge; lia).
      rewrite E in *.
      assert ((x + 2) * scale <= newWidth * scale) by (apply Z.mul_le_mono_nonneg_r; lia).
      assert ((y + 2) * scale <= newHeight * scale) by (apply Z.mul_le_mono_nonneg_r; lia).
      apply fetchBlock_defined; [right; reflexivity|lia|lia| |];
        change (2 =? 2) with true; cbn [andb]; destruct (Z.eqb_spec scale 2); lia.
    + assert (scale = 1) by lia. subst scale.
      change (if 1 <? 2 then 2 else 1) with 2 in *.
      apply fetchQuad_defined; lia.
Qed.

End SourceReads.

Lemma loopCount_exact (k step : Z) : 0 < step -> 0 <= k -> loopCount (k * step) step = Z.to_nat k.
Proof.
  intros Hs Hk. unfold loopCount. f_equal.
  Z.to_euclidean_division_equations; nia.
Qed.

Lemma length_bind_const {A B : Type} (f : A -> list B) (l : list A) (n : nat) :
  (forall a, length (f a) = n) -> length (l ≫= f) = (length l * n)%nat.
Proof.
  intros Hf. induction l as [|a l IH]; [reflexivity|].
  cbn. rewrite length_app, Hf, IH. lia.
Qed.

Lemma blockPositions_spec (kw kh step x y : Z) :
  0 < step -> 0 <= kw -> 0 <= kh ->
  (x, y) ∈ Geometry.blockPositions (kw * step) (kh * step) step ->
  0 <= x /\ 0 <= y /\ x + step <= kw * step /\ y + step <= kh * step.
Proof.
  intros Hs Hkw Hkh Hin. unfold Geometry.blockPositions in Hin.
  rewrite !loopCount_exact in Hin by lia.
  apply list_elem_of_bind in Hin as [y' [Hin Hy]].
  apply list_elem_of_bind in Hin as [x' [Hin Hx]].
  apply list_elem_of_singleton in Hin. injection Hin as -> ->.
  apply list_elem_of_fmap in Hx as [i [-> Hi]]. apply elem_of_seq in Hi.
  apply list_elem_of_fmap in Hy as [j [-> Hj]]. apply elem_of_seq in Hj.
  nia.
Qed.

Lemma blockPositions_length (kw kh step : Z) :
  0 < step -> 0 <= kw -> 0 <= kh ->
  Z.of_nat (length (Geometry.blockPositions (kw * step) (kh * step) step)) = kw * kh.
Proof.
  intros Hs Hkw Hkh. unfold Geometry.blockPositions.
  rewrite !loopCount_exact by lia.
  rewrite (length_bind_const _ _ (Z.to_nat kw)).
  - rewrite length_fmap, length_seq. nia.
  - intros a. rewrite (length_bind_const _ _ 1%nat) by reflexivity.
    rewrite length_fmap, length_seq. lia.
Qed.

Lemma sourceBlock_length (srcData : list Z) (W cfaSize scale x y : Z) (block : list Z) :
  Geometry.sourceBlock srcData W cfaSize scale x y = Some block ->
  length block = if Renderer.blockPath cfaSize scale then 4%nat else 16%nat.
Proof.
  unfold Geometry.sourceBlock. destruct (Renderer.blockPath cfaSize scale).
  - unfold Renderer.fetchBlock. intros Hb.
    destruct ((cfaSize =? 2) && (scale =? 2));
      repeat (match type of Hb with
              | (?m ≫= _) = Some _ => destruct m; [cbn [mbind option_bind] in Hb|discriminate]
              end);
      injection Hb as <-; reflexivity.
  - unfold Geometry.fetchQuad. intros Hb. apply length_mapM in Hb. rewrite <- Hb. reflexivity.
Qed.

(** X4.  [preprocessData] never reads outside the source frame: for a
    source buffer of [inOutWidth * inOutHeight] samples, whatever the crop
    target, the draft scale and the quad-Bayer interpretation, every sample
    the pixel loop reads for the blocks of the [newWidth x newHeight] output
    lies inside the buffer.  There is one block per [stride x stride]
    output position, of 4 samples on the 2x2 path and 16 on the 4x4 path. *)
Theorem source_reads_stay_in_frame (srcData : list Z)
    (inOutWidth inOutHeight cropWidth cropHeight draftScale : Z)
    (interpretAsQuadBayer : bool) :
  0 <= inOutWidth -> 0 <= inOutHeight ->
  len srcData = inOutWidth * inOutHeight ->
  let cfaSize := Renderer.cfaSizeOf interpretAsQuadBayer in
  let scale := Renderer.evenScale draftScale in
  let size := Geometry.newDimensions inOutWidth inOutHeight cropWidth cropHeight scale in
  exists blocks,
    Geometry.sourceBlocks srcData inOutWidth size.1 size.2 cfaSize scale = Some blocks
    /\ Z.of_nat (length blocks)
       = (size.1 / Renderer.stride cfaSize scale) * (size.2 / Renderer.stride cfaSize scale)
    /\ Forall (fun block =>
                 length block = if Renderer.blockPath cfaSize scale then 4%nat else 16%nat)
              blocks.
Proof.
  intros HW HH Hlen cfaSize scale size.
  assert (Hscale : scale = 1 \/ 2 <= scale) by apply evenScale_cases.
  assert (Hcfa : cfaSize = 1 \/ cfaSize = 2)
    by (unfold cfaSize, Renderer.cfaSizeOf; destruct interpretAsQuadBayer; auto).
  destruct (newDimensions_facts inOutWidth inOutHeight cropWidth cropHeight scale HW HH
              ltac:(lia)) as [Hw0 [Hh0 [Hw4 [Hh4 [HwW HhH]]]]].
  fold size in Hw0, Hh0, Hw4, Hh4, HwW, HhH.
  set (step := Renderer.stride cfaSize scale).
  assert (Hstep : step = 2 \/ step = 4).
  { unfold step, Renderer.stride. destruct (scale <? 2); destruct Hcfa as [-> | ->]; lia. }
  assert (Hkw : size.1 = size.1 / step * step).
  { destruct Hstep as [-> | ->]; Z.to_euclidean_division_equations; lia. }
  assert (Hkh : size.2 = size.2 / step * step).
  { destruct Hstep as [-> | ->]; Z.to_euclidean_division_equations; lia. }
  assert (Hkw0 : 0 <= size.1 / step) by (apply Z.div_pos; lia).
  assert (Hkh0 : 0 <= size.2 / step) by (apply Z.div_pos; lia).
  assert (Hdef : is_Some (Geometry.sourceBlocks srcData inOutWidth size.1 size.2 cfaSize scale)).
  { unfold Geometry.sourceBlocks. apply mapM_is_Some. apply Forall_forall.
    intros [x y] Hin. fold step in Hin. rewrite Hkw, Hkh in Hin.
    apply blockPositions_spec in Hin as [Hx [Hy [Hxw Hyh]]]; try lia.
    rewrite <- Hkw in Hxw. rewrite <- Hkh in Hyh. cbn.
    apply (sourceBlock_defined srcData inOutWidth inOutHeight Hlen HW cfaSize scale x y
             size.1 size.2); assumption. }
  destruct Hdef as [blocks Hblocks]. exists blocks.
  split; [exact Hblocks|]. split.
  - unfold Geometry.sourceBlocks in Hblocks. apply length_mapM in Hblocks.
    rewrite <- Hblocks. fold step.
    rewrite Hkw at 1. rewrite Hkh at 1.
    rewrite blockPositions_length by lia. reflexivity.
  - unfold Geometry.sourceBlocks in Hblocks. apply mapM_Some_1 in Hblocks.
    apply Forall_forall. intros block Hin.
    apply list_elem_of_lookup in Hin as [i Hi].
    destruct (Forall2_lookup_r _ _ _ _ _ Hblocks Hi) as [[x y] [_ Hxy]].
    apply sourceBlock_length in Hxy. exact Hxy.
Qed.

Lemma source_reads_stay_in_frame_witness :
  exists blocks,
    Geometry.sourceBlocks (seqZ 0 128) 16 8 4 2 2 = Some blocks
    /\ Z.of_nat (length blocks) = (8 / 2) * (4 / 2)
    /\ Forall (fun block => length block = 4%nat) blocks.
Proof.
  exact (source_reads_stay_in_frame (seqZ 0 128) 16 8 0 0 2 true
           ltac:(lia) ltac:(lia) eq_refl).
Defined.

(** ** Bit packer: packed size and losslessness *)

Lemma bitsNeeded_log2 (value : Z) :
  0 < value <= 65535 -> Renderer.bitsNeeded value = Z.log2 value + 1.
Proof.
  intros Hv. unfold Renderer.bitsNeeded.
  destruct (Z.eqb_spec value 0) as [->|Hne]; [lia|].
  rewrite bitsNeeded_loop_log2 by (change (2 ^ Z.of_nat 16) with 65536; lia). lia.
Qed.

Lemma bitsNeeded_covers (value : Z) :
  0 <= value <= 65535 ->
  1 <= Renderer.bitsNeeded value <= 16 /\ value < 2 ^ Renderer.bitsNeeded value.
Proof.
  intros Hv. destruct (Z.eq_dec value 0) as [->|Hne]; [split; [cbn; lia|reflexivity]|].
  rewrite bitsNeeded_log2 by lia.
  destruct (Z.log2_spec value ltac:(lia)) as [_ Hhi].
  assert (0 <= Z.log2 value) by apply Z.log2_nonneg.
  assert (Z.log2 value < 16)
    by (apply Z.log2_lt_pow2; [lia|change (2 ^ 16) with 65536; lia]).
  split; [lia|]. replace (Z.log2 value + 1) with (Z.succ (Z.log2 value)) by lia. exact Hhi.
Qed.



Section PackerLoops.
Import BitPacker.

Variables (step k : nat) (body : list Z -> option (list Z)).
Hypothesis Hstep : (0 < step)%nat.
Hypothesis Hbody : forall g, length g = step ->
  exists bytes, body g = Some bytes /\ length bytes = k.

Lemma encodeRow_total (iters : nat) (src : list Z) :
  (iters * step <= length src)%nat ->
  exists out, encodeRow step body iters src = Some (out, drop (iters * step) src)
              /\ length out = (iters * k)%nat.
Proof using Hstep Hbody.
  revert src. induction iters as [|iters IH]; intros src Hlen.
  - exists []. split; reflexivity.
  - cbn [encodeRow].
    assert (E : (step <=? length src)%nat = true) by (apply Nat.leb_le; lia).
    rewrite E.
    destruct (Hbody (take step src)) as [bytes [Hb Hk]]; [rewrite length_take; lia|].
    rewrite Hb. cbn [mbind option_bind].
    destruct (IH (drop step src)) as [out [Ho Hl]]; [rewrite length_drop; lia|].
    rewrite Ho. cbn [mbind option_bind].
    exists (bytes ++ out). split.
    + rewrite drop_drop. reflexivity.
    + rewrite length_app. lia.
Qed.

Lemma encodeRows_total (width : Z) (rows : nat) (src : list Z) :
  (rows * (loopCount width (Z.of_nat step) * step) <= length src)%nat ->
  exists out, encodeRows step body width rows src = Some out
              /\ length out = (rows * (loopCount width (Z.of_nat step) * k))%nat.
Proof using Hstep Hbody.
  revert src. induction rows as [|rows IH]; intros src Hlen.
  - exists []. split; reflexivity.
  - cbn [encodeRows].
    destruct (encodeRow_total (loopCount width (Z.of_nat step)) src) as [out [Ho Hl]]; [lia|].
    rewrite Ho. cbn [mbind option_bind].
    destruct (IH (drop (loopCount width (Z.of_nat step) * step) src)) as [tl [Ht Hlt]];
      [rewrite length_drop; lia|].
    rewrite Ht. cbn [mbind option_bind].
    exists (out ++ tl). split; [reflexivity|]. rewrite length_app. lia.
Qed.

(** Losslessness of the loops, from the losslessness of the body on
    samples below a bound. *)
Variable bound : Z.
Hypothesis Hinj : forall g1 g2 bytes,
  length g1 = step -> length g2 = step ->
  Forall (fun v => 0 <= v < bound) g1 -> Forall (fun v => 0 <= v < bound) g2 ->
  body g1 = Some bytes -> body g2 = Some bytes -> g1 = g2.

Lemma encodeRow_injective (iters : nat) (src1 src2 out rest1 rest2 : list Z) :
  Forall (fun v => 0 <= v < bound) src1 -> Forall (fun v => 0 <= v < bound) src2 ->
  encodeRow step body iters src1 = Some (out, rest1) ->
  encodeRow step body iters src2 = Some (out, rest2) ->
  take (iters * step) src1 = take (iters * step) src2
  /\ rest1 = drop (iters * step) src1 /\ rest2 = drop (iters * step) src2.
Proof using All.
  revert src1 src2 out. induction iters as [|iters IH]; intros src1 src2 out H1 H2 E1 E2.
  - cbn in E1, E2. injection E1 as <- <-. injection E2 as <-. auto.
  - cbn [encodeRow] in E1, E2.
    destruct (Nat.leb_spec step (length src1)) as [L1|]; [|discriminate].
    destruct (Nat.leb_spec step (length src2)) as [L2|]; [|discriminate].
    destruct (Hbody (take step src1)) as [b1 [Hb1 Hk1]]; [rewrite length_take; lia|].
    destruct (Hbody (take step src2)) as [b2 [Hb2 Hk2]]; [rewrite length_take; lia|].
    rewrite Hb1 in E1. rewrite Hb2 in E2. cbn [mbind option_bind] in E1, E2.
    destruct (encodeRow step body iters (drop step src1)) as [[o1 r1]|] eqn:R1;
      [|discriminate].
    destruct (encodeRow step body iters (drop step src2)) as [[o2 r2]|] eqn:R2;
      [|discriminate].
    cbn [mbind option_bind] in E1, E2.
    injection E1 as <- <-. injection E2 as E2 <-.
    apply app_inj_1 in E2 as [-> ->]; [|lia].
    assert (Ht : take step src1 = take step src2).
    { apply (Hinj _ _ b1); try assumption.
      - rewrite length_take; lia.
      - rewrite length_take; lia.
      - apply Forall_take; assumption.
      - apply Forall_take; assumption. }
    destruct (IH (drop step src1) (drop step src2) o1) as [Hd [Hr1 Hr2]];
      try assumption; try (apply Forall_drop; assumption).
    split; [|split].
    + replace (S iters * step)%nat with (step + iters * step)%nat by lia.
      rewrite <- !take_take_drop.
      rewrite Ht, Hd. reflexivity.
    + rewrite Hr1, drop_drop. reflexivity.
    + rewrite Hr2, drop_drop. reflexivity.
Qed.

Lemma encodeRows_injective (width : Z) (rows : nat) (src1 src2 out : list Z) :
  Forall (fun v => 0 <= v < bound) src1 -> Forall (fun v => 0 <= v < bound) src2 ->
  (rows * (loopCount width (Z.of_nat step) * step) <= length src1)%nat ->
  (rows * (loopCount width (Z.of_nat step) * step) <= length src2)%nat ->
  encodeRows step body width rows src1 = Some out ->
  encodeRows step body width rows src2 = Some out ->
  take (rows * (loopCount width (Z.of_nat step) * step)) src1
  = take (rows * (loopCount width (Z.of_nat step) * step)) src2.
Proof using All.
  set (n := loopCount width (Z.of_nat step)).
  revert src1 src2 out. induction rows as [|rows IH]; intros src1 src2 out H1 H2 L1 L2 E1 E2.
  - reflexivity.
  - cbn [encodeRows] in E1, E2. fold n in E1, E2.
    destruct (encodeRow_total n src1) as [o1 [Ho1 Hl1]]; [lia|].
    destruct (encodeRow_total n src2) as [o2 [Ho2 Hl2]]; [lia|].
    rewrite Ho1 in E1. rewrite Ho2 in E2. cbn [mbind option_bind] in E1, E2.
    destruct (encodeRows step body width rows (drop (n * step) src1)) as [t1|] eqn:R1;
      [|discriminate].
    destruct (encodeRows step body width rows (drop (n * step) src2)) as [t2|] eqn:R2;
      [|discriminate].
    cbn [mbind option_bind] in E1, E2. injection E1 as <-. injection E2 as E2.
    apply app_inj_1 in E2 as [-> ->]; [|lia].
    destruct (encodeRow_injective n src1 src2 o1 _ _ H1 H2 Ho1 Ho2) as [Ht _].
    assert (Hd := IH (drop (n * step) src1) (drop (n * step) src2) t1
                    (Forall_drop _ _ _ H1) (Forall_drop _ _ _ H2)
                    ltac:(rewrite length_drop; lia) ltac:(rewrite length_drop; lia) R1 R2).
    replace (S rows * (n * step))%nat with (n * step + rows * (n * step))%nat by lia.
    rewrite <- !take_take_drop.
    rewrite Ht, Hd. reflexivity.
Qed.

End PackerLoops.

Section PackerGroups.
Import BitPacker.

Ltac pack_arith :=
  bits_to_arith;
  rewrite ?lor_shiftl_small by (try lia; div_mod_lia);
  rewrite ?Z.shiftl_mul_pow2 by lia.

Ltac small_cases p :=
  let H := fresh in
  assert (H : p = 0 \/ p = 1 \/ p = 2 \/ p = 3) by lia;
  destruct H as [-> | [-> | [-> | ->]]].

(** The samples of a group, recovered from its packed bytes. *)
Lemma encodeTo14Bit_recover (p0 p1 p2 p3 b0 b1 b2 b3 b4 b5 b6 : Z) :
  0 <= p0 < 2 ^ 14 -> 0 <= p1 < 2 ^ 14 -> 0 <= p2 < 2 ^ 14 -> 0 <= p3 < 2 ^ 14 ->
  encodeTo14Bit_group [p0; p1; p2; p3] = Some [b0; b1; b2; b3; b4; b5; b6] ->
  p0 = b0 * 64 + b1 / 4
  /\ p1 = b1 mod 4 * 4096 + b2 * 16 + b3 / 16
  /\ p2 = b3 mod 16 * 1024 + b4 * 4 + b5 / 64
  /\ p3 = b5 mod 64 * 256 + b6.
Proof.
  intros H0 H1 H2 H3 E. change (2 ^ 14) with 16384 in *.
  cbn in E. injection E as <- <- <- <- <- <- <-.
  repeat split; pack_arith; div_mod_lia.
Qed.

Lemma encodeTo12Bit_recover (p0 p1 b0 b1 b2 : Z) :
  0 <= p0 < 2 ^ 12 -> 0 <= p1 < 2 ^ 12 ->
  encodeTo12Bit_group [p0; p1] = Some [b0; b1; b2] ->
  p0 = b0 * 16 + b1 / 16 /\ p1 = b1 mod 16 * 256 + b2.
Proof.
  intros H0 H1 E. cbn in E. injection E as <- <- <-.
  repeat split; pack_arith; div_mod_lia.
Qed.

Lemma encodeTo10Bit_recover (p0 p1 p2 p3 b0 b1 b2 b3 b4 : Z) :
  0 <= p0 < 2 ^ 10 -> 0 <= p1 < 2 ^ 10 -> 0 <= p2 < 2 ^ 10 -> 0 <= p3 < 2 ^ 10 ->
  encodeTo10Bit_group [p0; p1; p2; p3] = Some [b0; b1; b2; b3; b4] ->
  p0 = b0 * 4 + b1 / 64
  /\ p1 = b1 mod 64 * 16 + b2 / 16
  /\ p2 = b2 mod 16 * 64 + b3 / 4
  /\ p3 = b3 mod 4 * 256 + b4.
Proof.
  intros H0 H1 H2 H3 E. cbn in E. injection E as <- <- <- <- <-.
  repeat split; pack_arith; div_mod_lia.
Qed.

Lemma encodeTo8Bit_recover (p0 b0 : Z) :
  0 <= p0 < 2 ^ 8 -> encodeTo8Bit_group [p0] = Some [b0] -> p0 = b0.
Proof.
  intros H0 E. cbn in E. injection E as <-. pack_arith. div_mod_lia.
Qed.

Lemma encodeTo6Bit_recover (p0 p1 p2 p3 b0 b1 b2 : Z) :
  0 <= p0 < 2 ^ 6 -> 0 <= p1 < 2 ^ 6 -> 0 <= p2 < 2 ^ 6 -> 0 <= p3 < 2 ^ 6 ->
  encodeTo6Bit_group [p0; p1; p2; p3] = Some [b0; b1; b2] ->
  p0 = b0 / 4
  /\ p1 = b0 mod 4 * 16 + b1 / 16
  /\ p2 = b1 mod 16 * 4 + b2 / 64
  /\ p3 = b2 mod 64.
Proof.
  intros H0 H1 H2 H3 E. cbn in E. injection E as <- <- <-.
  repeat split; pack_arith; div_mod_lia.
Qed.

Lemma encodeTo4Bit_recover (p0 p1 b0 : Z) :
  0 <= p0 < 2 ^ 4 -> 0 <= p1 < 2 ^ 4 ->
  encodeTo4Bit_group [p0; p1] = Some [b0] ->
  p0 = b0 / 16 /\ p1 = b0 mod 16.
Proof.
  intros H0 H1 E. cbn in E. injection E as <-.
  repeat split; pack_arith; div_mod_lia.
Qed.

Lemma encodeTo2Bit_recover (p0 p1 p2 p3 b0 : Z) :
  0 <= p0 < 2 ^ 2 -> 0 <= p1 < 2 ^ 2 -> 0 <= p2 < 2 ^ 2 -> 0 <= p3 < 2 ^ 2 ->
  encodeTo2Bit_group [p0; p1; p2; p3] = Some [b0] ->
  p0 = b0 / 64 /\ p1 = b0 / 16 mod 4 /\ p2 = b0 / 4 mod 4 /\ p3 = b0 mod 4.
Proof.
  intros H0 H1 H2 H3 E. change (2 ^ 2) with 4 in *.
  cbn [encodeTo2Bit_group] in E. injection E as <-.
  small_cases p0; small_cases p1; small_cases p2; small_cases p3;
    repeat split; reflexivity.
Qed.

End PackerGroups.

Section PackedFrame.
Import BitPacker.

Ltac group_total :=
  let g := fresh "g" in
  let H := fresh "H" in
  intros g H;
  repeat (destruct g as [|? g]; try discriminate H);
  eexists; split; reflexivity.

Lemma encodeTo14Bit_group_total (g : list Z) :
  length g = 4%nat -> exists bytes, encodeTo14Bit_group g = Some bytes /\ length bytes = 7%nat.
Proof. revert g. group_total. Qed.
Lemma encodeTo12Bit_group_total (g : list Z) :
  length g = 2%nat -> exists bytes, encodeTo12Bit_group g = Some bytes /\ length bytes = 3%nat.
Proof. revert g. group_total. Qed.
Lemma encodeTo10Bit_group_total (g : list Z) :
  length g = 4%nat -> exists bytes, encodeTo10Bit_group g = Some bytes /\ length bytes = 5%nat.
Proof. revert g. group_total. Qed.
Lemma encodeTo8Bit_group_total (g : list Z) :
  length g = 1%nat -> exists bytes, encodeTo8Bit_group g = Some bytes /\ length bytes = 1%nat.
Proof. revert g. group_total. Qed.
Lemma encodeTo6Bit_group_total (g : list Z) :
  length g = 4%nat -> exists bytes, encodeTo6Bit_group g = Some bytes /\ length bytes = 3%nat.
Proof. revert g. group_total. Qed.
Lemma encodeTo4Bit_group_total (g : list Z) :
  length g = 2%nat -> exists bytes, encodeTo4Bit_group g = Some bytes /\ length bytes = 1%nat.
Proof. revert g. group_total. Qed.
Lemma encodeTo2Bit_group_total (g : list Z) :
  length g = 4%nat -> exists bytes, encodeTo2Bit_group g = Some bytes /\ length bytes = 1%nat.
Proof. revert g. group_total. Qed.

Lemma loopCount_divides (width step : Z) :
  0 < step -> 0 <= width -> width mod step = 0 ->
  Z.of_nat (loopCount width step) * step = width.
Proof.
  intros Hs Hw Hm.
  assert (E : width = width / step * step).
  { rewrite Z.mul_comm. apply Z.div_exact; lia. }
  assert (0 <= width / step) by (apply Z.div_pos; lia).
  rewrite E at 1. rewrite loopCount_exact by lia. rewrite Z2Nat.id by lia. lia.
Qed.

Lemma encodeFrame_size (step k : nat) (body : list Z -> option (list Z))
    (data : list Z) (width height : Z) :
  (0 < step)%nat ->
  (forall g, length g = step -> exists bytes, body g = Some bytes /\ length bytes = k) ->
  0 <= width -> 0 <= height -> width mod Z.of_nat step = 0 ->
  len data = width * height ->
  exists bytes, encodeRows step body width (Z.to_nat height) data = Some bytes
                /\ len bytes * Z.of_nat step = width * height * Z.of_nat k.
Proof.
  intros Hstep Hbody Hw Hh Hm Hlen.
  pose proof (loopCount_divides width (Z.of_nat step) ltac:(lia) Hw Hm) as Hn.
  destruct (encodeRows_total step k body Hstep Hbody width (Z.to_nat height) data)
    as [bytes [He Hl]].
  - unfold len in Hlen. nia.
  - exists bytes. split; [exact He|]. unfold len. rewrite Hl. nia.
Qed.

Lemma le16_bytes_length (data : list Z) : len (le16_bytes data) = 2 * len data.
Proof.
  unfold len, le16_bytes. induction data as [|v data IH]; [reflexivity|].
  cbn [flat_map]. rewrite length_app. cbn [length] in *. lia.
Qed.

End PackedFrame.

(** X6.  The encoder that [generateDng] selects from
    [encodeBits] packs a frame whose width is a multiple of 4 (which
    [preprocessData] guarantees) without reading past the buffer, into
    exactly [bits * width * height / 8] bytes, where [bits], the
    BitsPerSample written, is the least even number that is at least
    [encodeBits], between 2 and 16. *)
Theorem packed_frame_size (encodeBits : Z) (data : list Z) (width height : Z) :
  0 <= width -> 0 <= height -> width mod 4 = 0 ->
  len data = width * height ->
  exists bits bytes,
    BitPacker.encodeForBits encodeBits data width height = Some (bits, bytes)
    /\ 8 * len bytes = bits * width * height
    /\ bits mod 2 = 0 /\ 2 <= bits <= 16
    /\ (encodeBits <= 16 -> encodeBits <= bits)
    /\ (2 <= encodeBits -> bits <= encodeBits + 1).
Proof.
  intros Hw Hh Hm Hlen.
  assert (Hm2 : width mod 2 = 0) by (Z.to_euclidean_division_equations; lia).
  assert (Hm1 : width mod 1 = 0) by apply Z.mod_1_r.
  unfold BitPacker.encodeForBits.
  destruct (Z.leb_spec encodeBits 2);
    [destruct (encodeFrame_size 4 1 _ data width height ltac:(lia)
                 encodeTo2Bit_group_total Hw Hh Hm Hlen) as [bytes [E L]];
     unfold BitPacker.encodeTo2Bit; rewrite E; exists 2, bytes;
     split; [reflexivity|]; repeat split; lia|].
  destruct (Z.leb_spec encodeBits 4);
    [destruct (encodeFrame_size 2 1 _ data width height ltac:(lia)
                 encodeTo4Bit_group_total Hw Hh Hm2 Hlen) as [bytes [E L]];
     unfold BitPacker.encodeTo4Bit; rewrite E; exists 4, bytes;
     split; [reflexivity|]; repeat split; lia|].
  destruct (Z.leb_spec encodeBits 6);
    [destruct (encodeFrame_size 4 3 _ data width height ltac:(lia)
                 encodeTo6Bit_group_total Hw Hh Hm Hlen) as [bytes [E L]];
     unfold BitPacker.encodeTo6Bit; rewrite E; exists 6, bytes;
     split; [reflexivity|]; repeat split; lia|].
  destruct (Z.leb_spec encodeBits 8);
    [destruct (encodeFrame_size 1 1 _ data width height ltac:(lia)
                 encodeTo8Bit_group_total Hw Hh Hm1 Hlen) as [bytes [E L]];
     unfold BitPacker.encodeTo8Bit; rewrite E; exists 8, bytes;
     split; [reflexivity|]; repeat split; lia|].
  destruct (Z.leb_spec encodeBits 10);
    [destruct (encodeFrame_size 4 5 _ data width height ltac:(lia)
                 encodeTo10Bit_group_total Hw Hh Hm Hlen) as [bytes [E L]];
     unfold BitPacker.encodeTo10Bit; rewrite E; exists 10, bytes;
     split; [reflexivity|]; repeat split; lia|].
  destruct (Z.leb_spec encodeBits 12);
    [destruct (encodeFrame_size 2 3 _ data width height ltac:(lia)
                 encodeTo12Bit_group_total Hw Hh Hm2 Hlen) as [bytes [E L]];
     unfold BitPacker.encodeTo12Bit; rewrite E; exists 12, bytes;
     split; [reflexivity|]; repeat split; lia|].
  destruct (Z.leb_spec encodeBits 14);
    [destruct (encodeFrame_size 4 7 _ data width height ltac:(lia)
                 encodeTo14Bit_group_total Hw Hh Hm Hlen) as [bytes [E L]];
     unfold BitPacker.encodeTo14Bit; rewrite E; exists 14, bytes;
     split; [reflexivity|]; repeat split; lia|].
  exists 16, (BitPacker.le16_bytes data). split; [reflexivity|].
  rewrite le16_bytes_length. repeat split; lia.
Qed.

Lemma packed_frame_size_witness :
  exists bits bytes,
    BitPacker.encodeForBits 10 (replicate 16 1023) 4 4 = Some (bits, bytes)
    /\ 8 * len bytes = bits * 4 * 4
    /\ bits mod 2 = 0 /\ 2 <= bits <= 16
    /\ (10 <= 16 -> 10 <= bits)
    /\ (2 <= 10 -> bits <= 10 + 1).
Proof.
  apply (packed_frame_size 10 (replicate 16 1023) 4 4); [lia|lia|reflexivity|reflexivity].
Defined.

Section Lossless.
Import BitPacker.

Lemma encodeTo14Bit_group_injective (g1 g2 bytes : list Z) :
  length g1 = 4%nat -> length g2 = 4%nat ->
  Forall (fun v => 0 <= v < 2 ^ 14) g1 -> Forall (fun v => 0 <= v < 2 ^ 14) g2 ->
  encodeTo14Bit_group g1 = Some bytes -> encodeTo14Bit_group g2 = Some bytes -> g1 = g2.
Proof.
  intros L1 L2 F1 F2 E1 E2.
  destruct g1 as [|p0 [|p1 [|p2 [|p3 [|? ?]]]]]; try discriminate L1.
  destruct g2 as [|q0 [|q1 [|q2 [|q3 [|? ?]]]]]; try discriminate L2.
  apply Forall_cons in F1 as [? F1]. apply Forall_cons in F1 as [? F1].
  apply Forall_cons in F1 as [? F1]. apply Forall_cons in F1 as [? _].
  apply Forall_cons in F2 as [? F2]. apply Forall_cons in F2 as [? F2].
  apply Forall_cons in F2 as [? F2]. apply Forall_cons in F2 as [? _].
  destruct bytes as [|b0 [|b1 [|b2 [|b3 [|b4 [|b5 [|b6 [|? ?]]]]]]]]; try discriminate E1.
  destruct (encodeTo14Bit_recover p0 p1 p2 p3 _ _ _ _ _ _ _
              ltac:(assumption) ltac:(assumption) ltac:(assumption) ltac:(assumption) E1)
    as [-> [-> [-> ->]]].
  destruct (encodeTo14Bit_recover q0 q1 q2 q3 _ _ _ _ _ _ _
              ltac:(assumption) ltac:(assumption) ltac:(assumption) ltac:(assumption) E2)
    as [-> [-> [-> ->]]].
  reflexivity.
Qed.

Lemma encodeTo12Bit_group_injective (g1 g2 bytes : list Z) :
  length g1 = 2%nat -> length g2 = 2%nat ->
  Forall (fun v => 0 <= v < 2 ^ 12) g1 -> Forall (fun v => 0 <= v < 2 ^ 12) g2 ->
  encodeTo12Bit_group g1 = Some bytes -> encodeTo12Bit_group g2 = Some bytes -> g1 = g2.
Proof.
  intros L1 L2 F1 F2 E1 E2.
  destruct g1 as [|p0 [|p1 [|? ?]]]; try discriminate L1.
  destruct g2 as [|q0 [|q1 [|? ?]]]; try discriminate L2.
  apply Forall_cons in F1 as [? F1]. apply Forall_cons in F1 as [? _].
  apply Forall_cons in F2 as [? F2]. apply Forall_cons in F2 as [? _].
  destruct bytes as [|b0 [|b1 [|b2 [|? ?]]]]; try discriminate E1.
  destruct (encodeTo12Bit_recover p0 p1 _ _ _ ltac:(assumption) ltac:(assumption) E1)
    as [-> ->].
  destruct (encodeTo12Bit_recover q0 q1 _ _ _ ltac:(assumption) ltac:(assumption) E2)
    as [-> ->].
  reflexivity.
Qed.

Lemma encodeTo10Bit_group_injective (g1 g2 bytes : list Z) :
  length g1 = 4%nat -> length g2 = 4%nat ->
  Forall (fun v => 0 <= v < 2 ^ 10) g1 -> Forall (fun v => 0 <= v < 2 ^ 10) g2 ->
  encodeTo10Bit_group g1 = Some bytes -> encodeTo10Bit_group g2 = Some bytes -> g1 = g2.
Proof.
  intros L1 L2 F1 F2 E1 E2.
  destruct g1 as [|p0 [|p1 [|p2 [|p3 [|? ?]]]]]; try discriminate L1.
  destruct g2 as [|q0 [|q1 [|q2 [|q3 [|? ?]]]]]; try discriminate L2.
  apply Forall_cons in F1 as [? F1]. apply Forall_cons in F1 as [? F1].
  apply Forall_cons in F1 as [? F1]. apply Forall_cons in F1 as [? _].
  apply Forall_cons in F2 as [? F2]. apply Forall_cons in F2 as [? F2].
  apply Forall_cons in F2 as [? F2]. apply Forall_cons in F2 as [? _].
  destruct bytes as [|b0 [|b1 [|b2 [|b3 [|b4 [|? ?]]]]]]; try discriminate E1.
  destruct (encodeTo10Bit_recover p0 p1 p2 p3 _ _ _ _ _
              ltac:(assumption) ltac:(assumption) ltac:(assumption) ltac:(assumption) E1)
    as [-> [-> [-> ->]]].
  destruct (encodeTo10Bit_recover q0 q1 q2 q3 _ _ _ _ _
              ltac:(assumption) ltac:(assumption) ltac:(assumption) ltac:(assumption) E2)
    as [-> [-> [-> ->]]].
  reflexivity.
Qed.

Lemma encodeTo8Bit_group_injective (g1 g2 bytes : list Z) :
  length g1 = 1%nat -> length g2 = 1%nat ->
  Forall (fun v => 0 <= v < 2 ^ 8) g1 -> Forall (fun v => 0 <= v < 2 ^ 8) g2 ->
  encodeTo8Bit_group g1 = Some bytes -> encodeTo8Bit_group g2 = Some bytes -> g1 = g2.
Proof.
  intros L1 L2 F1 F2 E1 E2.
  destruct g1 as [|p0 [|? ?]]; try discriminate L1.
  destruct g2 as [|q0 [|? ?]]; try discriminate L2.
  apply Forall_cons in F1 as [? _]. apply Forall_cons in F2 as [? _].
  destruct bytes as [|b0 [|? ?]]; try discriminate E1.
  rewrite (encodeTo8Bit_recover p0 b0 ltac:(assumption) E1).
  rewrite (encodeTo8Bit_recover q0 b0 ltac:(assumption) E2).
  reflexivity.
Qed.

Lemma encodeTo6Bit_group_injective (g1 g2 bytes : list Z) :
  length g1 = 4%nat -> length g2 = 4%nat ->
  Forall (fun v => 0 <= v < 2 ^ 6) g1 -> Forall (fun v => 0 <= v < 2 ^ 6) g2 ->
  encodeTo6Bit_group g1 = Some bytes -> encodeTo6Bit_group g2 = Some bytes -> g1 = g2.
Proof.
  intros L1 L2 F1 F2 E1 E2.
  destruct g1 as [|p0 [|p1 [|p2 [|p3 [|? ?]]]]]; try discriminate L1.
  destruct g2 as [|q0 [|q1 [|q2 [|q3 [|? ?]]]]]; try discriminate L2.
  apply Forall_cons in F1 as [? F1]. apply Forall_cons in F1 as [? F1].
  apply Forall_cons in F1 as [? F1]. apply Forall_cons in F1 as [? _].
  apply Forall_cons in F2 as [? F2]. apply Forall_cons in F2 as [? F2].
  apply Forall_cons in F2 as [? F2]. apply Forall_cons in F2 as [? _].
  destruct bytes as [|b0 [|b1 [|b2 [|? ?]]]]; try discriminate E1.
  destruct (encodeTo6Bit_recover p0 p1 p2 p3 _ _ _
              ltac:(assumption) ltac:(assumption) ltac:(assumption) ltac:(assumption) E1)
    as [-> [-> [-> ->]]].
  destruct (encodeTo6Bit_recover q0 q1 q2 q3 _ _ _
              ltac:(assumption) ltac:(assumption) ltac:(assumption) ltac:(assumption) E2)
    as [-> [-> [-> ->]]].
  reflexivity.
Qed.

Lemma encodeTo4Bit_group_injective (g1 g2 bytes : list Z) :
  length g1 = 2%nat -> length g2 = 2%nat ->
  Forall (fun v => 0 <= v < 2 ^ 4) g1 -> Forall (fun v => 0 <= v < 2 ^ 4) g2 ->
  encodeTo4Bit_group g1 = Some bytes -> encodeTo4Bit_group g2 = Some bytes -> g1 = g2.
Proof.
  intros L1 L2 F1 F2 E1 E2.
  destruct g1 as [|p0 [|p1 [|? ?]]]; try discriminate L1.
  destruct g2 as [|q0 [|q1 [|? ?]]]; try discriminate L2.
  apply Forall_cons in F1 as [? F1]. apply Forall_cons in F1 as [? _].
  apply Forall_cons in F2 as [? F2]. apply Forall_cons in F2 as [? _].
  destruct bytes as [|b0 [|? ?]]; try discriminate E1.
  destruct (encodeTo4Bit_recover p0 p1 _ ltac:(assumption) ltac:(assumption) E1) as [-> ->].
  destruct (encodeTo4Bit_recover q0 q1 _ ltac:(assumption) ltac:(assumption) E2) as [-> ->].
  reflexivity.
Qed.

Lemma encodeTo2Bit_group_injective (g1 g2 bytes : list Z) :
  length g1 = 4%nat -> length g2 = 4%nat ->
  Forall (fun v => 0 <= v < 2 ^ 2) g1 -> Forall (fun v => 0 <= v < 2 ^ 2) g2 ->
  encodeTo2Bit_group g1 = Some bytes -> encodeTo2Bit_group g2 = Some bytes -> g1 = g2.
Proof.
  intros L1 L2 F1 F2 E1 E2.
  destruct g1 as [|p0 [|p1 [|p2 [|p3 [|? ?]]]]]; try discriminate L1.
  destruct g2 as [|q0 [|q1 [|q2 [|q3 [|? ?]]]]]; try discriminate L2.
  apply Forall_cons in F1 as [? F1]. apply Forall_cons in F1 as [? F1].
  apply Forall_cons in F1 as [? F1]. apply Forall_cons in F1 as [? _].
  apply Forall_cons in F2 as [? F2]. apply Forall_cons in F2 as [? F2].
  apply Forall_cons in F2 as [? F2]. apply Forall_cons in F2 as [? _].
  destruct bytes as [|b0 [|? ?]]; try discriminate E1.
  destruct (encodeTo2Bit_recover p0 p1 p2 p3 _
              ltac:(assumption) ltac:(assumption) ltac:(assumption) ltac:(assumption) E1)
    as [-> [-> [-> ->]]].
  destruct (encodeTo2Bit_recover q0 q1 q2 q3 _
              ltac:(assumption) ltac:(assumption) ltac:(assumption) ltac:(assumption) E2)
    as [-> [-> [-> ->]]].
  reflexivity.
Qed.

Lemma le16_bytes_injective (data1 data2 : list Z) :
  Forall (fun v => 0 <= v < 2 ^ 16) data1 -> Forall (fun v => 0 <= v < 2 ^ 16) data2 ->
  length data1 = length data2 ->
  le16_bytes data1 = le16_bytes data2 -> data1 = data2.
Proof.
  revert data2. induction data1 as [|v data1 IH]; intros [|w data2] F1 F2 L E;
    try discriminate L; [reflexivity|].
  apply Forall_cons in F1 as [Hv F1]. apply Forall_cons in F2 as [Hw F2].
  cbn [le16_bytes flat_map app] in E. injection E as E0 E1 E.
  f_equal.
  - change (2 ^ 16) with 65536 in *. Z.to_euclidean_division_equations; lia.
  - apply IH; try assumption. cbn in L. lia.
Qed.

Lemma encodeFrame_injective (step k : nat) (body : list Z -> option (list Z)) (bound : Z)
    (data1 data2 : list Z) (width height : Z) (N : Z) :
  (0 < step)%nat ->
  (forall g, length g = step -> exists bytes, body g = Some bytes /\ length bytes = k) ->
  (forall g1 g2 bytes, length g1 = step -> length g2 = step ->
     Forall (fun v => 0 <= v < bound) g1 -> Forall (fun v => 0 <= v < bound) g2 ->
     body g1 = Some bytes -> body g2 = Some bytes -> g1 = g2) ->
  0 <= width -> 0 <= height -> width mod Z.of_nat step = 0 ->
  len data1 = width * height -> len data2 = width * height ->
  Forall (fun v => 0 <= v < bound) data1 -> Forall (fun v => 0 <= v < bound) data2 ->
  (b ← encodeRows step body width (Z.to_nat height) data1; Some (N, b))
  = (b ← encodeRows step body width (Z.to_nat height) data2; Some (N, b)) ->
  data1 = data2.
Proof.
  intros Hstep Hbody Hinj Hw Hh Hm L1 L2 F1 F2 E.
  destruct (encodeFrame_size step k body data1 width height Hstep Hbody Hw Hh Hm L1)
    as [b1 [E1 _]].
  destruct (encodeFrame_size step k body data2 width height Hstep Hbody Hw Hh Hm L2)
    as [b2 [E2 _]].
  rewrite E1, E2 in E. cbn in E. injection E as <-.
  pose proof (loopCount_divides width (Z.of_nat step) ltac:(lia) Hw Hm) as Hn.
  assert (Hlen1 : length data1
                  = (Z.to_nat height * (loopCount width (Z.of_nat step) * step))%nat)
    by (unfold len in L1; nia).
  assert (Hlen2 : length data2
                  = (Z.to_nat height * (loopCount width (Z.of_nat step) * step))%nat)
    by (unfold len in L2; nia).
  pose proof (encodeRows_injective step k body Hstep Hbody bound Hinj width
                (Z.to_nat height) data1 data2 b1 F1 F2 ltac:(lia) ltac:(lia) E1 E2) as Ht.
  rewrite <- Hlen1 in Ht at 1. rewrite <- Hlen2 in Ht.
  rewrite !firstn_all in Ht. exact Ht.
Qed.

End Lossless.

(** X7.  Packing loses nothing: on frames whose width is a multiple
    of 4 and whose samples do not exceed [dstWhiteLevel], the encoder that
    [generateDng] selects from [bitsNeeded(dstWhiteLevel)] is injective, so
    two different rendered frames never give the same packed bytes. *)
Theorem packing_is_lossless (dstWhiteLevel : Z) (data1 data2 : list Z) (width height : Z) :
  0 <= dstWhiteLevel <= 65535 ->
  0 <= width -> 0 <= height -> width mod 4 = 0 ->
  len data1 = width * height -> len data2 = width * height ->
  Forall (fun v => 0 <= v <= dstWhiteLevel) data1 ->
  Forall (fun v => 0 <= v <= dstWhiteLevel) data2 ->
  BitPacker.encodeForBits (Renderer.bitsNeeded dstWhiteLevel) data1 width height
  = BitPacker.encodeForBits (Renderer.bitsNeeded dstWhiteLevel) data2 width height ->
  data1 = data2.
Proof.
  intros Hwhite Hw Hh Hm L1 L2 F1 F2 E.
  destruct (bitsNeeded_covers dstWhiteLevel Hwhite) as [Hbits Hlt].
  set (e := Renderer.bitsNeeded dstWhiteLevel) in *.
  assert (Hm2 : width mod 2 = 0) by (Z.to_euclidean_division_equations; lia).
  assert (Hm1 : width mod 1 = 0) by apply Z.mod_1_r.
  assert (Hbound : forall N data, e <= N ->
            Forall (fun v => 0 <= v <= dstWhiteLevel) data ->
            Forall (fun v => 0 <= v < 2 ^ N) data).
  { intros N data HN F. eapply Forall_impl; [exact F|]. cbv beta. intros v Hv.
    assert (2 ^ e <= 2 ^ N) by (apply Z.pow_le_mono_r; lia). lia. }
  unfold BitPacker.encodeForBits in E.
  destruct (Z.leb_spec e 2);
    [apply (encodeFrame_injective 4 1 _ (2 ^ 2) data1 data2 width height 2
              ltac:(lia) encodeTo2Bit_group_total encodeTo2Bit_group_injective
              Hw Hh Hm L1 L2 (Hbound 2 data1 ltac:(lia) F1) (Hbound 2 data2 ltac:(lia) F2) E)|].
  destruct (Z.leb_spec e 4);
    [apply (encodeFrame_injective 2 1 _ (2 ^ 4) data1 data2 width height 4
              ltac:(lia) encodeTo4Bit_group_total encodeTo4Bit_group_injective
              Hw Hh Hm2 L1 L2 (Hbound 4 data1 ltac:(lia) F1) (Hbound 4 data2 ltac:(lia) F2) E)|].
  destruct (Z.leb_spec e 6);
    [apply (encodeFrame_injective 4 3 _ (2 ^ 6) data1 data2 width height 6
              ltac:(lia) encodeTo6Bit_group_total encodeTo6Bit_group_injective
              Hw Hh Hm L1 L2 (Hbound 6 data1 ltac:(lia) F1) (Hbound 6 data2 ltac:(lia) F2) E)|].
  destruct (Z.leb_spec e 8);
    [apply (encodeFrame_injective 1 1 _ (2 ^ 8) data1 data2 width height 8
              ltac:(lia) encodeTo8Bit_group_total encodeTo8Bit_group_injective
              Hw Hh Hm1 L1 L2 (Hbound 8 data1 ltac:(lia) F1) (Hbound 8 data2 ltac:(lia) F2) E)|].
  destruct (Z.leb_spec e 10);
    [apply (encodeFrame_injective 4 5 _ (2 ^ 10) data1 data2 width height 10
              ltac:(lia) encodeTo10Bit_group_total encodeTo10Bit_group_injective
              Hw Hh Hm L1 L2 (Hbound 10 data1 ltac:(lia) F1) (Hbound 10 data2 ltac:(lia) F2) E)|].
  destruct (Z.leb_spec e 12);
    [apply (encodeFrame_injective 2 3 _ (2 ^ 12) data1 data2 width height 12
              ltac:(lia) encodeTo12Bit_group_total encodeTo12Bit_group_injective
              Hw Hh Hm2 L1 L2 (Hbound 12 data1 ltac:(lia) F1) (Hbound 12 data2 ltac:(lia) F2) E)|].
  destruct (Z.leb_spec e 14);
    [apply (encodeFrame_injective 4 7 _ (2 ^ 14) data1 data2 width height 14
              ltac:(lia) encodeTo14Bit_group_total encodeTo14Bit_group_injective
              Hw Hh Hm L1 L2 (Hbound 14 data1 ltac:(lia) F1) (Hbound 14 data2 ltac:(lia) F2) E)|].
  injection E as E.
  apply le16_bytes_injective; [apply (Hbound 16); [lia|assumption]..| |exact E].
  unfold len in *. lia.
Qed.

Lemma packing_is_lossless_witness :
  BitPacker.encodeForBits (Renderer.bitsNeeded 1023) (replicate 16 1023) 4 4
  = BitPacker.encodeForBits (Renderer.bitsNeeded 1023) (replicate 16 1023) 4 4
  /\ replicate 16 1023 = replicate 16 1023.
Proof.
  split; [reflexivity|].
  apply (packing_is_lossless 1023 (replicate 16 1023) (replicate 16 1023) 4 4);
    try lia; try reflexivity.
  - apply Forall_replicate. lia.
  - apply Forall_replicate. lia.
Defined.

(** ** Unpacking a whole packed frame *)

Section UnpackFrame.
Import BitPacker.

Lemma byteAt_app_at (pre l : list Z) (n : nat) (t : Z) :
  length pre = n -> 0 <= t -> byteAt (pre ++ l) (Z.of_nat n + t) = byteAt l t.
Proof.
  intros Hn Ht. unfold byteAt.
  destruct (Z.ltb_spec (Z.of_nat n + t) 0); [lia|]. destruct (Z.ltb_spec t 0); [lia|].
  rewrite lookup_app_r by lia.
  replace (Z.to_nat (Z.of_nat n + t) - length pre)%nat with (Z.to_nat t) by lia.
  reflexivity.
Qed.

Lemma byteAt_app_0 (pre l : list Z) (n : nat) (x : Z) :
  length pre = n -> byteAt (pre ++ x :: l) (Z.of_nat n) = x.
Proof.
  intros Hn. replace (Z.of_nat n) with (Z.of_nat n + 0) by lia.
  rewrite (byteAt_app_at pre _ n 0 Hn) by lia. reflexivity.
Qed.

Lemma byteAt_app_1 (pre l : list Z) (n : nat) (x0 x : Z) :
  length pre = n -> byteAt (pre ++ x0 :: x :: l) (Z.of_nat n + 1) = x.
Proof. intros Hn. rewrite (byteAt_app_at pre _ n 1 Hn) by lia. reflexivity. Qed.

Lemma byteAt_app_2 (pre l : list Z) (n : nat) (x0 x1 x : Z) :
  length pre = n -> byteAt (pre ++ x0 :: x1 :: x :: l) (Z.of_nat n + 2) = x.
Proof. intros Hn. rewrite (byteAt_app_at pre _ n 2 Hn) by lia. reflexivity. Qed.

Lemma byteAt_app_3 (pre l : list Z) (n : nat) (x0 x1 x2 x : Z) :
  length pre = n -> byteAt (pre ++ x0 :: x1 :: x2 :: x :: l) (Z.of_nat n + 3) = x.
Proof. intros Hn. rewrite (byteAt_app_at pre _ n 3 Hn) by lia. reflexivity. Qed.

Lemma byteAt_app_4 (pre l : list Z) (n : nat) (x0 x1 x2 x3 x : Z) :
  length pre = n -> byteAt (pre ++ x0 :: x1 :: x2 :: x3 :: x :: l) (Z.of_nat n + 4) = x.
Proof. intros Hn. rewrite (byteAt_app_at pre _ n 4 Hn) by lia. reflexivity. Qed.

Lemma storeU16_at (done tl : list Z) (n : nat) (i x v : Z) :
  length done = n -> i = Z.of_nat n ->
  storeU16 (done ++ x :: tl) i v = done ++ to_u16 v :: tl.
Proof.
  intros Hn ->. unfold storeU16. destruct (Z.ltb_spec (Z.of_nat n) 0); [lia|].
  rewrite Nat2Z.id.
  replace n with (length done + 0)%nat by lia. rewrite insert_app_r. reflexivity.
Qed.

Lemma encodeRow_app (step : nat) (body : list Z -> option (list Z)) (a b : nat)
    (src out1 rest1 out2 rest2 : list Z) :
  encodeRow step body a src = Some (out1, rest1) ->
  encodeRow step body b rest1 = Some (out2, rest2) ->
  encodeRow step body (a + b) src = Some (out1 ++ out2, rest2).
Proof.
  revert src out1. induction a as [|a IH]; intros src out1 Ha Hb.
  - cbn in Ha. injection Ha as <- <-. exact Hb.
  - cbn [encodeRow Nat.add] in *.
    destruct (step <=? length src)%nat; [|discriminate].
    destruct (body (take step src)) as [bytes|]; [|discriminate].
    cbn [mbind option_bind] in *.
    destruct (encodeRow step body a (drop step src)) as [[o r]|] eqn:E; [|discriminate].
    cbn [mbind option_bind] in Ha. injection Ha as <- <-.
    rewrite (IH _ _ E Hb). cbn [mbind option_bind]. rewrite app_assoc. reflexivity.
Qed.

(** The rows of a frame are encoded as one run of groups. *)
Lemma encodeRows_flat (step : nat) (body : list Z -> option (list Z)) (width : Z)
    (rows : nat) (src out : list Z) :
  encodeRows step body width rows src = Some out ->
  exists rest,
    encodeRow step body (rows * loopCount width (Z.of_nat step)) src = Some (out, rest).
Proof.
  revert src out. induction rows as [|rows IH]; intros src out H.
  - cbn in H. injection H as <-. exists src. reflexivity.
  - cbn [encodeRows] in H.
    destruct (encodeRow step body (loopCount width (Z.of_nat step)) src) as [[o r]|] eqn:E;
      [|discriminate].
    cbn [mbind option_bind] in H.
    destruct (encodeRows step body width rows r) as [tl|] eqn:Et; [|discriminate].
    cbn [mbind option_bind] in H. injection H as <-.
    destruct (IH _ _ Et) as [rest Hr]. exists rest.
    cbn [Nat.mul]. exact (encodeRow_app _ _ _ _ _ _ _ _ _ E Hr).
Qed.

(** What the decoder reads back from one encoded group. *)
Lemma group12_values (p0 p1 : Z) :
  0 <= p0 < 2 ^ 12 -> 0 <= p1 < 2 ^ 12 ->
  let b0 := to_u8 (Z.shiftr p0 4) in
  let b1 := to_u8 (Z.lor (Z.shiftl (Z.land p0 0x0F) 4) (Z.shiftr p1 8)) in
  let b2 := to_u8 (Z.land p1 0xFF) in
  to_u16 (Z.shiftl (Z.lor (Z.shiftl b0 4) (Z.shiftr b1 4)) 4) = p0 * 16
  /\ to_u16 (Z.shiftl (Z.lor (Z.shiftl (Z.land b1 0x0f) 8) b2) 4) = p1 * 16.
Proof.
  intros H0 H1 b0 b1 b2.
  destruct (unpack12_of_pack12 p0 p1 H0 H1) as [packed [He Hu]].
  cbn in He. injection He as <-. rewrite unpack12_group in Hu.
  injection Hu as E0 E1. split; assumption.
Qed.

Lemma group10_values (p0 p1 p2 p3 : Z) :
  0 <= p0 < 2 ^ 10 -> 0 <= p1 < 2 ^ 10 -> 0 <= p2 < 2 ^ 10 -> 0 <= p3 < 2 ^ 10 ->
  let b0 := to_u8 (Z.shiftr p0 2) in
  let b1 := to_u8 (Z.lor (Z.shiftl (Z.land p0 0x03) 6) (Z.shiftr p1 4)) in
  let b2 := to_u8 (Z.lor (Z.shiftl (Z.land p1 0x0F) 4) (Z.shiftr p2 6)) in
  let b3 := to_u8 (Z.lor (Z.shiftl (Z.land p2 0x3F) 2) (Z.shiftr p3 8)) in
  let b4 := to_u8 (Z.land p3 0xFF) in
  to_u16 (Z.shiftl (Z.lor (Z.shiftl b0 2) (Z.shiftr b1 6)) 6) = p0 * 64
  /\ to_u16 (Z.shiftl (Z.lor (Z.shiftl (Z.land b1 0x3f) 4) (Z.shiftr b2 4)) 6) = p1 * 64
  /\ to_u16 (Z.shiftl (Z.lor (Z.shiftl (Z.land b2 0x0f) 6) (Z.shiftr b3 2)) 6) = p2 * 64
  /\ to_u16 (Z.shiftl (Z.lor (Z.shiftl (Z.land b3 0x03) 8) b4) 6) = p3 * 64.
Proof.
  intros H0 H1 H2 H3 b0 b1 b2 b3 b4.
  destruct (unpack10_of_pack10 p0 p1 p2 p3 H0 H1 H2 H3) as [packed [He Hu]].
  cbn in He. injection He as <-. rewrite unpack10_group in Hu.
  injection Hu as E0 E1 E2 E3. auto.
Qed.

Ltac loop_continues :=
  match goal with
  | |- context [(?x <? ?y) && (?u <? ?v)] =>
      replace (x <? y) with true by (symmetry; apply Z.ltb_lt; lia);
      replace (u <? v) with true
        by (symmetry; apply Z.ltb_lt; unfold len; rewrite !length_app; cbn [length]; lia)
  end.

Lemma unpack12_frame (m : nat) (samples out rest pre done : list Z) (fuel a : nat) :
  encodeRow 2 encodeTo12Bit_group m samples = Some (out, rest) ->
  Forall (fun v => 0 <= v < 2 ^ 12) (take (2 * m) samples) ->
  length pre = (3 * a)%nat -> length done = (2 * a)%nat -> (m < fuel)%nat ->
  unpack12 fuel (pre ++ out) (Z.of_nat (2 * a + 2 * m)) 4 (Z.of_nat (2 * a))
    (Z.of_nat (3 * a)) (done ++ replicate (2 * m) 0)
  = done ++ map (fun v => v * 16) (take (2 * m) samples).
Proof.
  revert samples out rest pre done fuel a.
  induction m as [|m IH]; intros samples out rest pre done fuel a Henc Hall Hpre Hdone Hfuel.
  - destruct fuel as [|fuel]; [lia|]. cbn [unpack12].
    destruct (Z.ltb_spec (Z.of_nat (2 * a)) (Z.of_nat (2 * a + 2 * 0) - 1)) as [|_]; [lia|].
    reflexivity.
  - cbn [encodeRow] in Henc.
    destruct samples as [|p0 [|p1 samples]]; try discriminate Henc.
    cbn [length Nat.leb firstn skipn encodeTo12Bit_group mbind option_bind] in Henc.
    rewrite take_0, drop_0 in Henc.
    destruct (encodeRow 2 encodeTo12Bit_group m samples) as [[out' rest']|] eqn:E;
      simpl in Henc; [|discriminate Henc].
    injection Henc as <- <-.
    replace (2 * S m)%nat with (S (S (2 * m))) in * by lia.
    cbn [firstn] in Hall. apply Forall_cons in Hall as [H0 Hall].
    apply Forall_cons in Hall as [H1 Hall].
    destruct (group12_values p0 p1 H0 H1) as [V0 V1]. cbv zeta in V0, V1.
    destruct fuel as [|fuel]; [lia|]. cbn [unpack12 firstn map replicate].
    loop_continues. cbn [andb app]. cbv zeta.
    rewrite !(byteAt_app_0 pre _ _ _ Hpre), !(byteAt_app_1 pre _ _ _ _ Hpre),
      !(byteAt_app_2 pre _ _ _ _ _ Hpre).
    rewrite (storeU16_at done _ (2 * a) _ _ _ Hdone eq_refl), V0.
    replace (done ++ p0 * 16 :: 0 :: replicate (2 * m) 0)
      with ((done ++ [p0 * 16]) ++ 0 :: replicate (2 * m) 0) by (rewrite <- app_assoc; reflexivity).
    rewrite (storeU16_at (done ++ [p0 * 16]) _ (S (2 * a)))
      by (rewrite ?length_app; cbn [length]; lia).
    rewrite V1.
    replace ((done ++ [p0 * 16]) ++ p1 * 16 :: replicate (2 * m) 0)
      with ((done ++ [p0 * 16; p1 * 16]) ++ replicate (2 * m) 0)
      by (rewrite <- !app_assoc; reflexivity).
    replace (pre ++ _ :: _ :: _ :: out')
      with ((pre ++ [to_u8 (Z.shiftr p0 4);
                     to_u8 (Z.lor (Z.shiftl (Z.land p0 15) 4) (Z.shiftr p1 8));
                     to_u8 (Z.land p1 255)]) ++ out')
      by (rewrite <- app_assoc; reflexivity).
    replace (Z.of_nat (2 * a + S (S (2 * m)))) with (Z.of_nat (2 * S a + 2 * m)) by lia.
    replace (Z.of_nat (2 * a) + 2) with (Z.of_nat (2 * S a)) by lia.
    replace (Z.of_nat (3 * a) + 3) with (Z.of_nat (3 * S a)) by lia.
    rewrite (IH samples out' rest' _ _ fuel (S a) E Hall);
      [rewrite <- app_assoc; reflexivity| | |lia];
      rewrite length_app; cbn [length]; lia.
Qed.

Lemma unpack10_frame (m : nat) (samples out rest pre done : list Z) (fuel a : nat) :
  encodeRow 4 encodeTo10Bit_group m samples = Some (out, rest) ->
  Forall (fun v => 0 <= v < 2 ^ 10) (take (4 * m) samples) ->
  length pre = (5 * a)%nat -> length done = (4 * a)%nat -> (m < fuel)%nat ->
  unpack10 fuel (pre ++ out) (Z.of_nat (4 * a + 4 * m)) 6 (Z.of_nat (4 * a))
    (Z.of_nat (5 * a)) (done ++ replicate (4 * m) 0)
  = done ++ map (fun v => v * 64) (take (4 * m) samples).
Proof.
  revert samples out rest pre done fuel a.
  induction m as [|m IH]; intros samples out rest pre done fuel a Henc Hall Hpre Hdone Hfuel.
  - destruct fuel as [|fuel]; [lia|]. cbn [unpack10].
    destruct (Z.ltb_spec (Z.of_nat (4 * a)) (Z.of_nat (4 * a + 4 * 0) - 3)) as [|_]; [lia|].
    reflexivity.
  - cbn [encodeRow] in Henc.
    destruct samples as [|p0 [|p1 [|p2 [|p3 samples]]]]; try discriminate Henc.
    cbn [length Nat.leb firstn skipn encodeTo10Bit_group mbind option_bind] in Henc.
    rewrite take_0, drop_0 in Henc.
    destruct (encodeRow 4 encodeTo10Bit_group m samples) as [[out' rest']|] eqn:E;
      simpl in Henc; [|discriminate Henc].
    injection Henc as <- <-.
    replace (4 * S m)%nat with (S (S (S (S (4 * m))))) in * by lia.
    cbn [firstn] in Hall. apply Forall_cons in Hall as [H0 Hall].
    apply Forall_cons in Hall as [H1 Hall]. apply Forall_cons in Hall as [H2 Hall].
    apply Forall_cons in Hall as [H3 Hall].
    destruct (group10_values p0 p1 p2 p3 H0 H1 H2 H3) as [V0 [V1 [V2 V3]]].
    cbv zeta in V0, V1, V2, V3.
    destruct fuel as [|fuel]; [lia|]. cbn [unpack10 firstn map replicate].
    loop_continues. cbn [andb app]. cbv zeta.
    rewrite !(byteAt_app_0 pre _ _ _ Hpre), !(byteAt_app_1 pre _ _ _ _ Hpre),
      !(byteAt_app_2 pre _ _ _ _ _ Hpre), !(byteAt_app_3 pre _ _ _ _ _ _ Hpre),
      !(byteAt_app_4 pre _ _ _ _ _ _ _ Hpre).
    rewrite (storeU16_at done _ (4 * a) _ _ _ Hdone eq_refl), V0.
    replace (done ++ p0 * 64 :: 0 :: 0 :: 0 :: replicate (4 * m) 0)
      with ((done ++ [p0 * 64]) ++ 0 :: 0 :: 0 :: replicate (4 * m) 0)
      by (rewrite <- app_assoc; reflexivity).
    rewrite (storeU16_at (done ++ [p0 * 64]) _ (S (4 * a)))
      by (rewrite ?length_app; cbn [length]; lia).
    rewrite V1.
    replace ((done ++ [p0 * 64]) ++ p1 * 64 :: 0 :: 0 :: replicate (4 * m) 0)
      with ((done ++ [p0 * 64; p1 * 64]) ++ 0 :: 0 :: replicate (4 * m) 0)
      by (rewrite <- !app_assoc; reflexivity).
    rewrite (storeU16_at (done ++ [p0 * 64; p1 * 64]) _ (S (S (4 * a))))
      by (rewrite ?length_app; cbn [length]; lia).
    rewrite V2.
    replace ((done ++ [p0 * 64; p1 * 64]) ++ p2 * 64 :: 0 :: replicate (4 * m) 0)
      with ((done ++ [p0 * 64; p1 * 64; p2 * 64]) ++ 0 :: replicate (4 * m) 0)
      by (rewrite <- !app_assoc; reflexivity).
    rewrite (storeU16_at (done ++ [p0 * 64; p1 * 64; p2 * 64]) _ (S (S (S (4 * a)))))
      by (rewrite ?length_app; cbn [length]; lia).
    rewrite V3.
    replace ((done ++ [p0 * 64; p1 * 64; p2 * 64]) ++ p3 * 64 :: replicate (4 * m) 0)
      with ((done ++ [p0 * 64; p1 * 64; p2 * 64; p3 * 64]) ++ replicate (4 * m) 0)
      by (rewrite <- !app_assoc; reflexivity).
    match goal with
    | |- context [pre ++ ?b0 :: ?b1 :: ?b2 :: ?b3 :: ?b4 :: out'] =>
        replace (pre ++ b0 :: b1 :: b2 :: b3 :: b4 :: out')
          with ((pre ++ [b0; b1; b2; b3; b4]) ++ out')
          by (rewrite <- app_assoc; reflexivity)
    end.
    replace (Z.of_nat (4 * a + S (S (S (S (4 * m)))))) with (Z.of_nat (4 * S a + 4 * m))
      by lia.
    replace (Z.of_nat (4 * a) + 4) with (Z.of_nat (4 * S a)) by lia.
    replace (Z.of_nat (5 * a) + 5) with (Z.of_nat (5 * S a)) by lia.
    rewrite (IH samples out' rest' _ _ fuel (S a) E Hall);
      [rewrite <- app_assoc; reflexivity| | |lia];
      rewrite length_app; cbn [length]; lia.
Qed.

(** The 16-bit fallback reads a little-endian frame back. *)
Lemma unpack16_frame (samples done : list Z) (fuel a : nat) (pre : list Z) :
  Forall (fun v => 0 <= v < 2 ^ 16) samples ->
  length pre = (2 * a)%nat -> length done = a -> (length samples < fuel)%nat ->
  unpack16 fuel (pre ++ le16_bytes samples) (Z.of_nat (a + length samples)) (Z.of_nat a)
    (done ++ replicate (length samples) 0)
  = Some (done ++ samples).
Proof.
  revert done fuel a pre.
  induction samples as [|v samples IH]; intros done fuel a pre Hall Hpre Hdone Hfuel.
  - destruct fuel as [|fuel]; [cbn in Hfuel; lia|]. cbn [unpack16 length].
    destruct (Z.ltb_spec (Z.of_nat a) (Z.of_nat (a + 0))) as [|_]; [lia|]. reflexivity.
  - apply Forall_cons in Hall as [Hv Hall].
    destruct fuel as [|fuel]; [cbn in Hfuel; lia|]. cbn [length] in *.
    cbn [unpack16 le16_bytes flat_map app replicate].
    fold (le16_bytes samples).
    loop_continues. cbn [andb]. unfold getUint16LE.
    replace ((0 <=? Z.of_nat a * 2) && _) with true.
    2:{ symmetry. apply andb_true_iff. split; [apply Z.leb_le; lia|].
        apply Z.leb_le. unfold len. rewrite !length_app. cbn [length]. lia. }
    cbn [mbind option_bind].
    replace (Z.of_nat a * 2) with (Z.of_nat (2 * a)) by lia.
    rewrite (byteAt_app_0 pre _ _ _ Hpre), (byteAt_app_1 pre _ _ _ _ Hpre).
    rewrite (storeU16_at done _ a _ _ _ Hdone eq_refl).
    replace (to_u16 (v mod 256 + 256 * (v / 256 mod 256))) with v
      by (unfold to_u16; change (2 ^ 16) with 65536 in Hv; div_mod_lia).
    replace (done ++ v :: replicate (length samples) 0)
      with ((done ++ [v]) ++ replicate (length samples) 0)
      by (rewrite <- app_assoc; reflexivity).
    replace (pre ++ v mod 256 :: v / 256 mod 256 :: le16_bytes samples)
      with ((pre ++ [v mod 256; v / 256 mod 256]) ++ le16_bytes samples)
      by (rewrite <- app_assoc; reflexivity).
    replace (Z.of_nat (a + S (length samples))) with (Z.of_nat (S a + length samples)) by lia.
    replace (Z.of_nat a + 1) with (Z.of_nat (S a)) by lia.
    rewrite (IH (done ++ [v]) fuel (S a) _ Hall);
      [rewrite <- app_assoc; reflexivity| | |lia];
      rewrite length_app; cbn [length]; lia.
Qed.

End UnpackFrame.

(** X8.  For the widths [unpackBits] has a path for (10, 12 and
    the 16-bit fallback), unpacking undoes the packing of a whole frame:
    if the frame width is a multiple of the samples the encoder reads per
    step (4, 2 or 1) and every sample is below [2^bits], the encoder that
    [generateDng] selects succeeds, and [unpackBits] on its bytes returns
    every sample of the frame, in order, scaled to 16 bits
    ([v * 2^(16 - bits)]). *)
Theorem unpack_inverts_packed_frame (bits : Z) (data : list Z) (width height : Z) :
  bits = 10 \/ bits = 12 \/ bits = 16 ->
  0 <= width -> 0 <= height ->
  width mod Z.of_nat (BitPacker.samplesPerGroup bits) = 0 ->
  len data = width * height ->
  Forall (fun v => 0 <= v < 2 ^ bits) data ->
  exists packed,
    BitPacker.encodeForBits bits data width height = Some (bits, packed)
    /\ BitPacker.unpackBits packed (width * height) bits
       = Some (map (fun v => v * 2 ^ (16 - bits)) data).
Proof.
  intros Hbits Hw Hh Hmod Hlen Hall.
  destruct Hbits as [-> | [-> | ->]].
  - change (Z.of_nat (BitPacker.samplesPerGroup 10)) with 4 in Hmod.
    destruct (encodeFrame_size 4 5 BitPacker.encodeTo10Bit_group data width height
                ltac:(lia) encodeTo10Bit_group_total Hw Hh Hmod Hlen) as [packed [He Hsize]].
    exists packed. split.
    + change (BitPacker.encodeForBits 10 data width height)
        with (b ← BitPacker.encodeTo10Bit data width height; Some (10, b)).
      unfold BitPacker.encodeTo10Bit. rewrite He. reflexivity.
    + destruct (encodeRows_flat _ _ _ _ _ _ He) as [rest Hrow].
      pose proof (loopCount_divides width 4 ltac:(lia) Hw Hmod) as Hcount.
      set (m := (Z.to_nat height * loopCount width (Z.of_nat 4))%nat) in *.
      assert (Hm : Z.of_nat (4 * m) = width * height).
      { unfold m. change (Z.of_nat 4) with 4. nia. }
      change (BitPacker.unpackBits packed (width * height) 10)
        with (Some (BitPacker.unpack10 (S (length packed)) packed (width * height) 6 0 0
                      (replicate (Z.to_nat (width * height)) 0))).
      f_equal. rewrite <- Hm, Nat2Z.id.
      assert (Htake : take (4 * m) data = data)
        by (apply take_ge; unfold len in Hlen; lia).
      rewrite <- Htake.
      apply (unpack10_frame m data packed rest [] [] (S (length packed)) 0 Hrow).
      * rewrite Htake. exact Hall.
      * reflexivity.
      * reflexivity.
      * unfold len in Hsize. change (Z.of_nat 4) with 4 in Hsize.
        change (Z.of_nat 5) with 5 in Hsize. lia.
  - change (Z.of_nat (BitPacker.samplesPerGroup 12)) with 2 in Hmod.
    destruct (encodeFrame_size 2 3 BitPacker.encodeTo12Bit_group data width height
                ltac:(lia) encodeTo12Bit_group_total Hw Hh Hmod Hlen) as [packed [He Hsize]].
    exists packed. split.
    + change (BitPacker.encodeForBits 12 data width height)
        with (b ← BitPacker.encodeTo12Bit data width height; Some (12, b)).
      unfold BitPacker.encodeTo12Bit. rewrite He. reflexivity.
    + destruct (encodeRows_flat _ _ _ _ _ _ He) as [rest Hrow].
      pose proof (loopCount_divides width 2 ltac:(lia) Hw Hmod) as Hcount.
      set (m := (Z.to_nat height * loopCount width (Z.of_nat 2))%nat) in *.
      assert (Hm : Z.of_nat (2 * m) = width * height).
      { unfold m. change (Z.of_nat 2) with 2. nia. }
      change (BitPacker.unpackBits packed (width * height) 12)
        with (Some (BitPacker.unpack12 (S (length packed)) packed (width * height) 4 0 0
                      (replicate (Z.to_nat (width * height)) 0))).
      f_equal. rewrite <- Hm, Nat2Z.id.
      assert (Htake : take (2 * m) data = data)
        by (apply take_ge; unfold len in Hlen; lia).
      rewrite <- Htake.
      apply (unpack12_frame m data packed rest [] [] (S (length packed)) 0 Hrow).
      * rewrite Htake. exact Hall.
      * reflexivity.
      * reflexivity.
      * unfold len in Hsize. change (Z.of_nat 2) with 2 in Hsize.
        change (Z.of_nat 3) with 3 in Hsize. lia.
  - exists (BitPacker.le16_bytes data). split; [reflexivity|].
    change (BitPacker.unpackBits (BitPacker.le16_bytes data) (width * height) 16)
      with (BitPacker.unpack16 (S (length (BitPacker.le16_bytes data)))
              (BitPacker.le16_bytes data) (width * height) 0
              (replicate (Z.to_nat (width * height)) 0)).
    rewrite <- Hlen. unfold len at 1 2. rewrite Nat2Z.id.
    rewrite (unpack16_frame data [] _ 0 [] Hall eq_refl eq_refl).
    + f_equal. cbn [app]. change (2 ^ (16 - 16)) with 1. clear.
      induction data as [|v data IH]; [reflexivity|].
      cbn [map]. rewrite Z.mul_1_r. f_equal. exact IH.
    + pose proof (le16_bytes_length data) as Hl. unfold len in Hl. lia.
Qed.

Lemma unpack_inverts_packed_frame_witness :
  exists packed,
    BitPacker.encodeForBits 12 [4095; 1; 2; 3; 4; 5; 6; 7] 4 2 = Some (12, packed)
    /\ BitPacker.unpackBits packed (4 * 2) 12
       = Some (map (fun v => v * 2 ^ (16 - 12)) [4095; 1; 2; 3; 4; 5; 6; 7]).
Proof.
  apply (unpack_inverts_packed_frame 12 [4095; 1; 2; 3; 4; 5; 6; 7] 4 2).
  - right; left; reflexivity.
  - lia.
  - lia.
  - reflexivity.
  - reflexivity.
  - repeat constructor; lia.
Defined.

(** ** Shading map: normalisation, inversion and lookup *)

Section ShadingFacts.
Import ShadingMap Shading.






End ShadingFacts.



Lemma existsb_planes_false (shadingMap : list (list Q)) :
  Forall (fun v => (0 < v)%Q) (concat shadingMap) ->
  existsb (existsb (fun value => Qle_bool value 0)) shadingMap = false.
Proof.
  intros Hall. apply Forall_concat in Hall.
  induction Hall as [|plane m Hplane _ IH]; [reflexivity|].
  cbn [existsb]. rewrite IH, orb_false_r.
  induction Hplane as [|v plane Hv _ IHp]; [reflexivity|].
  cbn [existsb]. rewrite IHp, orb_false_r.
  destruct (Qle_bool v 0) eqn:E; [|reflexivity]. apply Qle_bool_iff in E. lra.
Qed.

Lemma existsb_planes_true (shadingMap : list (list Q)) :
  Exists (fun v => (v <= 0)%Q) (concat shadingMap) ->
  existsb (existsb (fun value => Qle_bool value 0)) shadingMap = true.
Proof.
  intros Hex. apply Exists_exists in Hex as [v [Hin Hv]].
  apply list_elem_of_In, in_concat in Hin as [plane [Hplane Hin]].
  apply existsb_exists. exists plane. split; [exact Hplane|].
  apply existsb_exists. exists v. split; [exact Hin|]. apply Qle_bool_iff. exact Hv.
Qed.

(** The float reciprocal of a positive gain: what [1 / value] delivers. *)
Lemma reciprocal_of_positive (v : Q) :
  (0 < v)%Q -> F32.div (Renderer.FFin 1) (Renderer.FFin v) = F32.ofQ (1 / v).
Proof. apply div_finite. Qed.

(** A quotient of at least [2^-128] is a positive float or [+inf]. *)
Lemma ofQ_positive (x : Q) :
  (Float.pow2 (-128) <= x)%Q -> Renderer.flt (Renderer.FFin 0) (F32.ofQ x) = true.
Proof.
  intros H. unfold F32.ofQ.
  assert (Hr : (Float.pow2 (-128) <= Float.binary32 x)%Q).
  { assert (E : Float.binary32 (Float.pow2 (-128)) = Float.pow2 (-128))
      by (vm_compute; reflexivity).
    rewrite <- E. apply binary32_mono. exact H. }
  pose proof (pow2_pos (-128)) as Hpos.
  cbv zeta. destruct (Qle_bool (Float.pow2 128) (Qabs (Float.binary32 x))).
  - assert (E : Qle_bool 0 (Float.binary32 x) = true) by (apply Qle_bool_iff; lra).
    rewrite E. reflexivity.
  - cbn [Renderer.flt]. apply Qltb_true. lra.
Qed.

(** X10.  [invertShadingMap] is all or nothing: an empty map, or a
    map with a gain that is not positive, is left as it is; in a non-empty
    map of positive gains every gain [v] becomes the [float] quotient
    [1 / v], which is positive (or [+inf]) for a gain of at most [2^128].
    Inverting twice does not always give the gain back: [1 / (1 / 7)] is
    6.9999995. *)
Theorem invertShadingMap_reciprocals (shadingMap : list (list Q)) :
  (ShadingMap.isEmptyMap shadingMap = false ->
   Forall (fun v => (0 < v)%Q) (concat shadingMap) ->
   Shading.invertShadingMap shadingMap = map (map (fun v => F32.ofQ (1 / v))) shadingMap
   /\ (Forall (fun v => (v <= Float.pow2 128)%Q) (concat shadingMap) ->
       Forall (fun r => Renderer.flt (Renderer.FFin 0) r = true)
              (concat (Shading.invertShadingMap shadingMap))))
  /\ (ShadingMap.isEmptyMap shadingMap = true
      \/ Exists (fun v => (v <= 0)%Q) (concat shadingMap) ->
      Shading.invertShadingMap shadingMap = ShadingMap.floats shadingMap)
  /\ Shading.invertShadingMap [[7]]%Q = [[Renderer.FFin (Float.binary32 (1 # 7))]]
  /\ Shading.invertShadingMap [[Float.binary32 (1 # 7)]]
     = [[Renderer.FFin (14680063 # 2097152)]]
  /\ (14680063 # 2097152 < 7)%Q.
Proof.
  split; [|split; [|split; [|split]]];
    [| |vm_compute; reflexivity|vm_compute; reflexivity|reflexivity].
  - intros Hne Hall.
    assert (E : Shading.invertShadingMap shadingMap
                = map (map (fun v => F32.ofQ (1 / v))) shadingMap).
    { unfold Shading.invertShadingMap.
      rewrite Hne, (existsb_planes_false shadingMap Hall).
      apply Forall_concat in Hall. clear Hne.
      induction Hall as [|plane m Hplane _ IH]; [reflexivity|].
      cbn [map]. f_equal; [|exact IH].
      induction Hplane as [|v plane Hv _ IHp]; [reflexivity|].
      cbn [map]. f_equal; [|exact IHp]. apply reciprocal_of_positive. exact Hv. }
    split; [exact E|]. intros Hfloat. rewrite E, <- concat_map.
    apply Forall_forall. intros r Hr.
    apply list_elem_of_In, in_map_iff in Hr as [v [<- Hv]].
    apply list_elem_of_In in Hv.
    pose proof (proj1 (Forall_forall _ _) Hall _ Hv) as Hv0.
    pose proof (proj1 (Forall_forall _ _) Hfloat _ Hv) as Hv1. cbv beta in Hv0, Hv1.
    apply ofQ_positive.
    apply Qle_shift_div_l; [exact Hv0|].
    assert (Eone : (Float.pow2 (-128) * Float.pow2 128 == 1)%Q) by reflexivity.
    rewrite <- Eone. apply Qmult_le_l; [apply pow2_pos|exact Hv1].
  - intros [He|Hex]; unfold Shading.invertShadingMap.
    + rewrite He. reflexivity.
    + rewrite (existsb_planes_true shadingMap Hex).
      destruct (ShadingMap.isEmptyMap shadingMap); reflexivity.
Qed.

Lemma invertShadingMap_reciprocals_witness :
  Shading.invertShadingMap [[2; 4]; [1; 8]]%Q
  = map (map (fun v => F32.ofQ (1 / v))) [[2; 4]; [1; 8]]%Q.
Proof.
  apply (invertShadingMap_reciprocals [[2; 4]; [1; 8]]%Q).
  - reflexivity.
  - repeat constructor.
Defined.

Lemma clamp_unit_interval (x : Q) : (0 <= fmax 0 (fmin 1 x) <= 1)%Q.
Proof.
  unfold fmax, fmin.
  destruct (Qltb x 1) eqn:E1.
  - apply Qltb_true in E1. destruct (Qltb 0 x) eqn:E0.
    + apply Qltb_true in E0. lra.
    + lra.
  - destruct (Qltb 0 1) eqn:E0; [lra|]. apply Qltb_false in E0. lra.
Qed.

Lemma int_of_in_range (z : Z) : - 2 ^ 31 <= z < 2 ^ 31 -> int_of z = Some z.
Proof.
  intros H. unfold int_of.
  destruct (Z.leb_spec (- 2 ^ 31) z), (Z.ltb_spec z (2 ^ 31));
    try reflexivity; exfalso; lia.
Qed.

(** A whole number below [2^24] is a float. *)
Lemma binary32_whole (n : Z) :
  0 <= n < 2 ^ 24 -> (Float.binary32 (inject_Z n) == inject_Z n)%Q.
Proof.
  intros Hn.
  assert (E : (inject_Z n == inject_Z n * Float.pow2 0)%Q)
    by (change (Float.pow2 0) with 1%Q; ring).
  rewrite (binary32_compat _ _ E).
  unfold Float.binary32. rewrite (round_exact 24 (-149) ltac:(lia) n 0) by lia.
  symmetry. exact E.
Qed.

(** The grid point next below a clamped coordinate, and the weight. *)
Lemma grid_coordinate (t : Q) (n : Z) :
  (0 <= t <= 1)%Q -> 1 <= n <= 2 ^ 24 ->
  let m := Float.binary32 (t * Float.binary32 (inject_Z (n - 1))) in
  0 <= Qfloor m <= n - 1
  /\ (0 <= Float.binary32 (m - Float.binary32 (inject_Z (Qfloor m))) <= 1)%Q.
Proof.
  intros [Ht0 Ht1] Hn m.
  pose proof (binary32_whole (n - 1) ltac:(lia)) as Elast.
  assert (Hn0 : (0 <= inject_Z (n - 1))%Q)
    by (change 0%Q with (inject_Z 0); rewrite <- Zle_Qle; lia).
  assert (Hm0 : (0 <= m)%Q).
  { unfold m. apply round_nonneg. apply Qmult_le_0_compat; [exact Ht0|]. rewrite Elast.
    exact Hn0. }
  assert (Hm1 : (m <= inject_Z (n - 1))%Q).
  { rewrite <- Elast. unfold m. apply binary32_mono. rewrite Elast.
    rewrite <- (Qmult_1_l (inject_Z (n - 1))) at 2.
    apply Qmult_le_compat_r; assumption. }
  pose proof (Qfloor_le m) as Hfl. pose proof (Qlt_floor m) as Hfu.
  assert (Hfloor : 0 <= Qfloor m <= n - 1).
  { split.
    - change 0 with (Qfloor 0). apply Qfloor_resp_le. exact Hm0.
    - rewrite <- (Qfloor_Z (n - 1)). apply Qfloor_resp_le. exact Hm1. }
  split; [exact Hfloor|].
  pose proof (binary32_whole (Qfloor m) ltac:(lia)) as Efloor.
  rewrite inject_Z_plus in Hfu. change (inject_Z 1) with 1%Q in Hfu.
  assert (E0 : Float.binary32 0 = 0%Q) by reflexivity.
  assert (E1 : Float.binary32 1 = 1%Q) by (vm_compute; reflexivity).
  split.
  - apply Qle_trans with (Float.binary32 0); [rewrite E0; apply Qle_refl|].
    apply binary32_mono. rewrite Efloor. lra.
  - apply Qle_trans with (Float.binary32 1); [|rewrite E1; apply Qle_refl].
    apply binary32_mono. rewrite Efloor. lra.
Qed.

(** X11.  [getShadingMapValue] never reads outside the plane: for a
    grid of [width x height] points, both from 1 to [2^24] and with fewer
    than [2^31] points in all, stored in a plane of at least
    [width * height] gains, the lookup is defined for every position
    [(x, y)], also outside the unit square.  It reads the grid point
    [(x0, y0)] next below the clamped position and its neighbours to the
    right and below, clamped to the last column and row, and combines them
    with two weights from 0 to 1. *)
Theorem getShadingMapValue_reads_in_plane (x y : Q) (channel : Z)
    (lensShadingMap : list (list Q)) (width height : Z) (plane : list Q) :
  1 <= width <= 2 ^ 24 -> 1 <= height <= 2 ^ 24 -> width * height < 2 ^ 31 ->
  0 <= channel -> lensShadingMap !! Z.to_nat channel = Some plane ->
  width * height <= Z.of_nat (length plane) ->
  exists x0 y0 wx wy val00 val01 val10 val11,
    x0 = Qfloor (Float.binary32 (fmax 0 (fmin 1 x) * Float.binary32 (inject_Z (width - 1))))
    /\ y0 = Qfloor (Float.binary32 (fmax 0 (fmin 1 y)
                                    * Float.binary32 (inject_Z (height - 1))))
    /\ 0 <= x0 <= width - 1 /\ 0 <= y0 <= height - 1
    /\ (0 <= wx <= 1)%Q /\ (0 <= wy <= 1)%Q
    /\ plane !! Z.to_nat (y0 * width + x0) = Some val00
    /\ plane !! Z.to_nat (y0 * width + Z.min (x0 + 1) (width - 1)) = Some val01
    /\ plane !! Z.to_nat (Z.min (y0 + 1) (height - 1) * width + x0) = Some val10
    /\ plane !! Z.to_nat (Z.min (y0 + 1) (height - 1) * width + Z.min (x0 + 1) (width - 1))
       = Some val11
    /\ Shading.getShadingMapValue x y channel lensShadingMap width height
       = Some (F32.add
                 (F32.mul
                    (F32.add
                       (F32.mul (Renderer.FFin val00)
                                (F32.sub (Renderer.FFin 1) (Renderer.FFin wx)))
                       (F32.mul (Renderer.FFin val01) (Renderer.FFin wx)))
                    (F32.sub (Renderer.FFin 1) (Renderer.FFin wy)))
                 (F32.mul
                    (F32.add
                       (F32.mul (Renderer.FFin val10)
                                (F32.sub (Renderer.FFin 1) (Renderer.FFin wx)))
                       (F32.mul (Renderer.FFin val11) (Renderer.FFin wx)))
                    (Renderer.FFin wy))).
Proof.
  change (2 ^ 24) with 16777216. change (2 ^ 31) with 2147483648.
  intros Hw Hh Hgrid Hc Hplane Hsize.
  unfold Shading.getShadingMapValue.
  destruct (grid_coordinate (fmax 0 (fmin 1 x)) width (clamp_unit_interval x)
              ltac:(change (2 ^ 24) with 16777216; lia)) as [Hx0 Hwx].
  destruct (grid_coordinate (fmax 0 (fmin 1 y)) height (clamp_unit_interval y)
              ltac:(change (2 ^ 24) with 16777216; lia)) as [Hy0 Hwy].
  assert (Hint : forall z, -2147483648 <= z < 2147483648 -> int_of z = Some z).
  { intros z Hz. apply int_of_in_range. change (2 ^ 31) with 2147483648. lia. }
  rewrite (Hint (width - 1)), (Hint (height - 1)) by lia.
  cbn [mbind option_bind].
  set (mapX := Float.binary32 (fmax 0 (fmin 1 x) * Float.binary32 (inject_Z (width - 1)))) in *.
  set (mapY := Float.binary32 (fmax 0 (fmin 1 y) * Float.binary32 (inject_Z (height - 1)))) in *.
  set (x0 := Qfloor mapX) in *. set (y0 := Qfloor mapY) in *.
  rewrite !float_to_int_inject_Z by lia. cbn [mbind option_bind].
  rewrite (Hint (x0 + 1)), (Hint (y0 + 1)) by lia.
  cbn [mbind option_bind].
  destruct (Z.ltb_spec channel 0) as [|_]; [lia|].
  set (x1 := Z.min (x0 + 1) (width - 1)). set (y1 := Z.min (y0 + 1) (height - 1)).
  assert (Hx1 : 0 <= x1 <= width - 1) by (unfold x1; lia).
  assert (Hy1 : 0 <= y1 <= height - 1) by (unfold y1; lia).
  rewrite (Hint (y0 * width)), (Hint (y1 * width)) by nia.
  cbn [mbind option_bind].
  rewrite (Hint (y0 * width + x0)), (Hint (y0 * width + x1)),
          (Hint (y1 * width + x0)), (Hint (y1 * width + x1)) by nia.
  cbn [mbind option_bind].
  assert (Hcell : forall r c, 0 <= r <= height - 1 -> 0 <= c <= width - 1 ->
            exists v, plane !! Z.to_nat (r * width + c) = Some v
                      /\ ShadingMap.cell lensShadingMap (Z.to_nat channel) (r * width + c)
                         = Some v).
  { intros r c Hr Hcol. unfold ShadingMap.cell.
    assert (Hidx : 0 <= r * width + c < width * height) by nia.
    destruct (Z.ltb_spec (r * width + c) 0) as [|_]; [lia|].
    rewrite Hplane. cbn [mbind option_bind].
    destruct (plane !! Z.to_nat (r * width + c)) as [v|] eqn:E.
    - exists v. split; reflexivity.
    - apply lookup_ge_None in E. lia. }
  destruct (Hcell y0 x0 Hy0 Hx0) as [val00 [L00 ->]].
  destruct (Hcell y0 x1 Hy0 Hx1) as [val01 [L01 ->]].
  destruct (Hcell y1 x0 Hy1 Hx0) as [val10 [L10 ->]].
  destruct (Hcell y1 x1 Hy1 Hx1) as [val11 [L11 ->]].
  cbn [mbind option_bind].
  exists x0, y0, (Float.binary32 (mapX - Float.binary32 (inject_Z x0))),
    (Float.binary32 (mapY - Float.binary32 (inject_Z y0))), val00, val01, val10, val11.
  split; [reflexivity|]. split; [reflexivity|]. split; [exact Hx0|]. split; [exact Hy0|].
  split; [exact Hwx|]. split; [exact Hwy|].
  split; [exact L00|]. split; [exact L01|]. split; [exact L10|]. split; [exact L11|].
  reflexivity.
Qed.

Lemma getShadingMapValue_reads_in_plane_witness :
  exists value,
    Shading.getShadingMapValue (1 # 3) (5 # 2) 1 [[1; 1; 1; 1]; [1; 2; 3; 4]]%Q 2 2
    = Some value.
Proof.
  destruct (getShadingMapValue_reads_in_plane (1 # 3) (5 # 2) 1
              [[1; 1; 1; 1]; [1; 2; 3; 4]]%Q 2 2 [1; 2; 3; 4]%Q)
    as [x0 [y0 [wx [wy [v00 [v01 [v10 [v11 H]]]]]]]].
  - change (2 ^ 24) with 16777216. lia.
  - change (2 ^ 24) with 16777216. lia.
  - change (2 ^ 31) with 2147483648. lia.
  - lia.
  - reflexivity.
  - cbn. lia.
  - eexists. apply H.
Defined.

(** ** Lens shading gain map *)

Lemma lookup_bind_const {A B : Type} (f : A -> list B) (l : list A) (n i j : nat) (a : A) :
  (forall a, length (f a) = n) -> l !! i = Some a -> (j < n)%nat ->
  (l ≫= f) !! (i * n + j)%nat = f a !! j.
Proof.
  intros Hf. revert i. induction l as [|b l IH]; intros i Hi Hj; [discriminate|].
  cbn [mbind list_bind]. destruct i as [|i].
  - injection Hi as ->. cbn. rewrite lookup_app_l by (rewrite Hf; lia). reflexivity.
  - cbn in Hi. rewrite lookup_app_r by (rewrite Hf; lia).
    rewrite Hf. replace (S i * n + j - n)%nat with (i * n + j)%nat by lia.
    apply IH; assumption.
Qed.

Lemma sanitisedGain_range (gain : Renderer.fval) :
  (0 < GainMap.sanitisedGain gain <= 16)%Q.
Proof.
  destruct gain as [| | |g]; cbn; try lra.
  destruct (Qle_bool g 0) eqn:E0; [lra|].
  destruct (Qltb 16 g) eqn:E1; [lra|].
  apply Qltb_false in E1.
  assert (~ (g <= 0)%Q) by (intros H; apply Qle_bool_iff in H; congruence).
  lra.
Qed.

Lemma gainAtPoint_range (lensShadingMap : list (list Renderer.fval)) (mapPointsH p v h : Z) :
  (0 < GainMap.gainAtPoint lensShadingMap mapPointsH p v h <= 16)%Q.
Proof.
  unfold GainMap.gainAtPoint.
  destruct (_ <? Z.of_nat (length _)); [apply sanitisedGain_range|lra].
Qed.

(** X12.  For a shading map whose first plane is not empty and a grid
    of [width x height] points, [createLensShadingOpcodeList] adds one gain
    map of 1, 3 or 4 planes (4 when the map has at least four planes, 3 when
    it has three), whose payload has exactly [planes * height * width]
    gains in plane-major, row-major order, every one of them in (0, 16]: a
    gain that is not finite or not positive, or that the source plane is too
    short to contain, is written as 1, and a gain above 16 as 16. *)
Theorem gain_map_payload (lensShadingMap : list (list Renderer.fval))
    (gain : Renderer.fval) (firstPlane : list Renderer.fval)
    (otherPlanes : list (list Renderer.fval))
    (width height imageWidth imageHeight left top : Z) :
  lensShadingMap = (gain :: firstPlane) :: otherPlanes ->
  Z.of_nat (length lensShadingMap) < 2 ^ 32 ->
  0 < width < 2 ^ 31 -> 0 < height < 2 ^ 31 ->
  exists params,
    GainMap.createLensShadingOpcodeList lensShadingMap width height
      imageWidth imageHeight left top = Some params
    /\ params.(GainMap.map_points_h) = width
    /\ params.(GainMap.map_points_v) = height
    /\ params.(GainMap.map_planes) = params.(GainMap.planes)
    /\ params.(GainMap.planes)
       = (if 4 <=? Z.of_nat (length lensShadingMap) then 4
          else if 3 <=? Z.of_nat (length lensShadingMap) then 3 else 1)
    /\ Z.of_nat (length params.(GainMap.gain_data))
       = params.(GainMap.planes) * height * width
    /\ Forall (fun gain => (0 < gain <= 16)%Q) params.(GainMap.gain_data)
    /\ forall p v h,
         0 <= p < params.(GainMap.planes) -> 0 <= v < height -> 0 <= h < width ->
         params.(GainMap.gain_data) !! Z.to_nat ((p * height + v) * width + h)
         = Some (GainMap.gainAtPoint lensShadingMap width p v h).
Proof.
  intros Hshape Hplanes Hw Hh.
  change (2 ^ 31) with 2147483648 in *. change (2 ^ 32) with 4294967296 in *.
  assert (Hlen : 1 <= Z.of_nat (length lensShadingMap)) by (rewrite Hshape; cbn; lia).
  unfold GainMap.createLensShadingOpcodeList.
  subst lensShadingMap. cbv beta iota.
  set (lensShadingMap := (gain :: firstPlane) :: otherPlanes) in *.
  destruct (Z.leb_spec width 0) as [|_]; [lia|].
  destruct (Z.leb_spec height 0) as [|_]; [lia|]. cbn [orb].
  assert (Eu : GainMap.to_u32 (Z.of_nat (length lensShadingMap))
               = Z.of_nat (length lensShadingMap))
    by (unfold GainMap.to_u32; apply Z.mod_small; change (2 ^ 32) with 4294967296; lia).
  assert (Ew : GainMap.to_u32 width = width)
    by (unfold GainMap.to_u32; apply Z.mod_small; change (2 ^ 32) with 4294967296; lia).
  assert (Eh : GainMap.to_u32 height = height)
    by (unfold GainMap.to_u32; apply Z.mod_small; change (2 ^ 32) with 4294967296; lia).
  rewrite Eu, Ew, Eh.
  destruct (Z.eqb_spec (Z.of_nat (length lensShadingMap)) 0) as [|_]; [lia|].
  set (planes := if 4 <=? Z.of_nat (length lensShadingMap) then 4
                 else if 3 <=? Z.of_nat (length lensShadingMap) then 3 else 1).
  assert (Hp : planes = 1 \/ planes = 3 \/ planes = 4).
  { unfold planes. destruct (4 <=? _); [auto|]. destruct (3 <=? _); auto. }
  set (gains := p ← seqZ 0 planes; v ← seqZ 0 height; h ← seqZ 0 width;
                [GainMap.gainAtPoint lensShadingMap width p v h]).
  assert (Hrow : forall p v, length (h ← seqZ 0 width;
                   [GainMap.gainAtPoint lensShadingMap width p v h]) = Z.to_nat width).
  { intros p v. rewrite (length_bind_const _ _ 1%nat) by reflexivity.
    rewrite length_seqZ. lia. }
  assert (Hplane : forall p, length (v ← seqZ 0 height; h ← seqZ 0 width;
                     [GainMap.gainAtPoint lensShadingMap width p v h])
                   = (Z.to_nat height * Z.to_nat width)%nat).
  { intros p. rewrite (length_bind_const _ _ (Z.to_nat width)) by (intros; apply Hrow).
    rewrite length_seqZ. reflexivity. }
  assert (Hgains : length gains = (Z.to_nat planes * (Z.to_nat height * Z.to_nat width))%nat).
  { unfold gains. rewrite (length_bind_const _ _ (Z.to_nat height * Z.to_nat width)%nat)
      by (intros; apply Hplane).
    rewrite length_seqZ. reflexivity. }
  destruct (Z.eqb_spec (Z.of_nat (length gains)) (height * width * planes)) as [_|Hne];
    [|rewrite Hgains in Hne; nia].
  eexists. split; [reflexivity|]. cbn [GainMap.map_points_h GainMap.map_points_v
    GainMap.map_planes GainMap.planes GainMap.gain_data].
  split; [reflexivity|]. split; [reflexivity|]. split; [reflexivity|].
  split; [reflexivity|]. split; [rewrite Hgains; nia|]. split.
  - apply Forall_forall. intros g Hg. unfold gains in Hg.
    apply list_elem_of_bind in Hg as [p [Hg _]].
    apply list_elem_of_bind in Hg as [v [Hg _]].
    apply list_elem_of_bind in Hg as [h [Hg _]].
    apply list_elem_of_singleton in Hg as ->. apply gainAtPoint_range.
  - intros p v h Hp' Hv Hh'.
    replace (Z.to_nat ((p * height + v) * width + h))
      with (Z.to_nat p * (Z.to_nat height * Z.to_nat width)
            + (Z.to_nat v * Z.to_nat width + Z.to_nat h))%nat by nia.
    unfold gains.
    rewrite (lookup_bind_const _ _ (Z.to_nat height * Z.to_nat width)%nat _ _ p);
      [|intros; apply Hplane|apply lookup_seqZ; lia|nia].
    rewrite (lookup_bind_const _ _ (Z.to_nat width) _ _ v);
      [|intros; apply Hrow|apply lookup_seqZ; lia|lia].
    replace (Z.to_nat h) with (Z.to_nat h * 1 + 0)%nat by lia.
    rewrite (lookup_bind_const _ _ 1%nat _ _ h);
      [reflexivity|reflexivity|apply lookup_seqZ; lia|lia].
Qed.

Lemma gain_map_payload_witness :
  exists params,
    GainMap.createLensShadingOpcodeList
      [[Renderer.FFin 2; Renderer.FNaN; Renderer.FFin 40; Renderer.FFin (-1)]]
      2 2 64 48 0 0 = Some params
    /\ params.(GainMap.gain_data) = [2; 1; 16; 1]%Q.
Proof.
  destruct (gain_map_payload
              [[Renderer.FFin 2; Renderer.FNaN; Renderer.FFin 40; Renderer.FFin (-1)]]
              (Renderer.FFin 2) [Renderer.FNaN; Renderer.FFin 40; Renderer.FFin (-1)] []
              2 2 64 48 0 0 eq_refl)
    as [params [E _]].
  - reflexivity.
  - split; [lia|reflexivity].
  - split; [lia|reflexivity].
  - exists params. split; [exact E|].
    vm_compute in E. injection E as <-. reflexivity.
Defined.

(** No gain map is added for a map without planes, for a map whose first
    plane is empty, or for a grid without points. *)
Remark gain_map_absent (lensShadingMap : list (list Renderer.fval))
    (width height imageWidth imageHeight left top : Z) :
  lensShadingMap = [] \/ (exists planes, lensShadingMap = [] :: planes)
  \/ width <= 0 \/ height <= 0 ->
  GainMap.createLensShadingOpcodeList lensShadingMap width height
    imageWidth imageHeight left top = None.
Proof.
  unfold GainMap.createLensShadingOpcodeList.
  intros [-> | [[planes ->] | [H | H]]]; [reflexivity| | |].
  - destruct ((width <=? 0) || (height <=? 0)); reflexivity.
  - destruct lensShadingMap; [reflexivity|].
    destruct (Z.leb_spec width 0); [reflexivity|lia].
  - destruct lensShadingMap; [reflexivity|].
    destruct (Z.leb_spec height 0); [rewrite orb_true_r; reflexivity|lia].
Qed.

(** ** Settings: mode names and option bits *)

(** X13.  The names of the log-transform and quad-Bayer modes read
    back as the mode they were written from, so a mode survives being saved
    as text; the empty string is the only text that disables the log
    transform. *)
Theorem mode_names_round_trip :
  (forall mode, Settings.stringToLogTransformMode (Settings.logTransformModeToString mode)
                = mode)
  /\ (forall mode, Settings.stringToQuadBayerMode (Settings.quadBayerModeToString mode)
                   = mode)
  /\ (forall str, Settings.stringToLogTransformMode str = Disabled <-> str = ""%string).
Proof.
  split; [intros []; reflexivity|]. split; [intros []; reflexivity|].
  intros str. unfold Settings.stringToLogTransformMode. split.
  - destruct (String.eqb_spec str "") as [->|_]; [reflexivity|].
    repeat (match goal with |- context [String.eqb ?a ?b] => destruct (String.eqb a b) end);
      discriminate.
  - intros ->. reflexivity.
Qed.

(** X14.  [getRenderOptions] sets exactly the option bits of the
    checked boxes: each option test the renderer makes on the result gives
    the state of the box it belongs to. *)
Theorem render_options_match_check_boxes (ui : Settings.CheckBoxes) :
  let options := Settings.getRenderOptions ui in
  hasOption options Settings.RENDER_OPT_DRAFT = ui.(Settings.draftModeCheckBox)
  /\ hasOption options RENDER_OPT_APPLY_VIGNETTE_CORRECTION
     = ui.(Settings.vignetteCorrectionCheckBox)
  /\ hasOption options RENDER_OPT_VIGNETTE_ONLY_COLOR = ui.(Settings.vignetteOnlyColorCheckBox)
  /\ hasOption options RENDER_OPT_NORMALIZE_SHADING_MAP = ui.(Settings.scaleRawCheckBox)
  /\ hasOption options RENDER_OPT_DEBUG_SHADING_MAP = ui.(Settings.debugVignetteCheckBox)
  /\ hasOption options Settings.RENDER_OPT_NORMALIZE_EXPOSURE
     = ui.(Settings.normalizeExposureCheckBox)
  /\ hasOption options Settings.RENDER_OPT_FRAMERATE_CONVERSION
     = ui.(Settings.cfrConversionCheckBox)
  /\ hasOption options Settings.RENDER_OPT_CROPPING = ui.(Settings.cropEnableCheckBox)
  /\ hasOption options Settings.RENDER_OPT_CAMMODEL_OVERRIDE
     = ui.(Settings.camModelOverrideCheckBox)
  /\ hasOption options RENDER_OPT_LOG_TRANSFORM = ui.(Settings.logTransformCheckBox)
  /\ hasOption options RENDER_OPT_INTERPRET_AS_QUAD_BAYER = ui.(Settings.quadBayerCheckBox)
  /\ (options = Settings.RENDER_OPT_NONE <->
      ui = Settings.Build_CheckBoxes false false false false false false false false
             false false false).
Proof.
  destruct ui as [[] [] [] [] [] [] [] [] [] [] []];
    vm_compute; (repeat split; try reflexivity; discriminate).
Qed.

(** ** Container JSON *)

Section JsonFacts.
Import Parser Container.

Lemma byteIs_lookup (bytes : list Z) (i v : Z) :
  byteIs bytes i v = true <-> 0 <= i /\ bytes !! Z.to_nat i = Some v.
Proof.
  unfold byteIs. destruct (Z.ltb_spec i 0) as [Hi|Hi].
  - split; [discriminate|lia].
  - destruct (bytes !! Z.to_nat i) as [b|] eqn:E.
    + destruct (Z.eqb_spec b v) as [->|Hne]; split; auto; try discriminate.
      intros [_ H]. congruence.
    + split; [discriminate|]. intros [_ H]. discriminate.
Qed.

Lemma byteIs_in_file (bytes : list Z) (i v : Z) :
  byteIs bytes i v = true -> 0 <= i < len bytes.
Proof.
  intros H. apply byteIs_lookup in H as [Hi Hl].
  apply lookup_lt_Some in Hl. unfold len. lia.
Qed.

(** Number of bytes [v] at the positions [from <= i < to]. *)
Local Abbreviation occurrences bytes v from to :=
  (length (filter (fun b => b = v) (slice bytes from to))).

Lemma slice_snoc (bytes : list Z) (from to : Z) (b : Z) :
  0 <= from <= to -> bytes !! Z.to_nat to = Some b ->
  slice bytes from (to + 1) = slice bytes from to ++ [b].
Proof.
  intros Hft Hb. unfold slice.
  replace (Z.to_nat (to + 1 - from)) with (S (Z.to_nat (to - from))) by lia.
  rewrite (take_S_r _ _ b); [reflexivity|].
  rewrite lookup_drop. rewrite <- Hb. f_equal. lia.
Qed.

Lemma occurrences_step (bytes : list Z) (v from to : Z) :
  0 <= from <= to -> to < len bytes ->
  occurrences bytes v from (to + 1)
  = (occurrences bytes v from to + if byteIs bytes to v then 1 else 0)%nat.
Proof.
  intros Hft Hto.
  destruct (bytes !! Z.to_nat to) as [b|] eqn:E;
    [|apply lookup_ge_None in E; unfold len in Hto; lia].
  rewrite (slice_snoc bytes from to b) by (auto; lia).
  rewrite filter_app, length_app. f_equal.
  unfold byteIs. destruct (Z.ltb_spec to 0); [lia|]. rewrite E.
  rewrite filter_cons. destruct (decide (b = v)) as [->|Hne].
  - rewrite Z.eqb_refl. reflexivity.
  - destruct (Z.eqb_spec b v); [contradiction|reflexivity].
Qed.

Lemma occurrences_empty (bytes : list Z) (v from : Z) : occurrences bytes v from from = 0%nat.
Proof. unfold slice. rewrite Z.sub_diag. reflexivity. Qed.

(** The scan once the opening brace is found: the count is the number of
    opening braces minus the number of closing braces since [jsonStart]. *)
Lemma braceScan_open (fuel : nat) (bytes : list Z) (scanLimit i jsonStart braceCount
    jsonStart' jsonEnd : Z) :
  0 <= jsonStart < i -> i <= scanLimit <= len bytes ->
  0 < braceCount ->
  Z.of_nat (occurrences bytes 0x7b jsonStart i)
  = Z.of_nat (occurrences bytes 0x7d jsonStart i) + braceCount ->
  braceScan fuel bytes scanLimit i jsonStart braceCount = (jsonStart', jsonEnd) ->
  jsonEnd <> -1 ->
  jsonStart' = jsonStart /\ i < jsonEnd <= scanLimit
  /\ byteIs bytes (jsonEnd - 1) 0x7d = true
  /\ occurrences bytes 0x7b jsonStart jsonEnd = occurrences bytes 0x7d jsonStart jsonEnd.
Proof.
  revert i braceCount. induction fuel as [|fuel IH]; intros i braceCount Hs Hi Hc Hbal E Hend.
  - cbn in E. injection E as <- <-. contradiction.
  - cbn [braceScan] in E. destruct (Z.ltb_spec i scanLimit) as [Hlt|Hge];
      [|injection E as <- <-; contradiction].
    assert (Hstart : (jsonStart =? -1) = false) by (apply Z.eqb_neq; lia).
    rewrite Hstart, andb_false_r in E. cbn [negb] in E.
    pose proof (occurrences_step bytes 0x7b jsonStart i ltac:(lia) ltac:(lia)) as Ho.
    pose proof (occurrences_step bytes 0x7d jsonStart i ltac:(lia) ltac:(lia)) as Hcl.
    destruct (byteIs bytes i 0x7b) eqn:Eo.
    + assert (Ec : byteIs bytes i 0x7d = false).
      { apply byteIs_lookup in Eo as [_ Eo].
        destruct (byteIs bytes i 0x7d) eqn:Ec; [|reflexivity].
        apply byteIs_lookup in Ec as [_ Ec]. congruence. }
      rewrite Ec in Hcl.
      destruct (IH (i + 1) (braceCount + 1) ltac:(lia) ltac:(lia) ltac:(lia) ltac:(lia) E Hend)
        as [? [? [? ?]]].
      repeat split; try assumption; lia.
    + destruct (byteIs bytes i 0x7d) eqn:Ec.
      * destruct (Z.eqb_spec (braceCount - 1) 0) as [Hz|Hnz].
        -- injection E as <- <-. replace (i + 1 - 1) with i by lia.
           repeat split; try assumption; try lia.
        -- destruct (IH (i + 1) (braceCount - 1) ltac:(lia) ltac:(lia) ltac:(lia)
                       ltac:(lia) E Hend) as [? [? [? ?]]].
           repeat split; try assumption; lia.
      * destruct (IH (i + 1) braceCount ltac:(lia) ltac:(lia) ltac:(lia) ltac:(lia) E Hend)
          as [? [? [? ?]]].
        repeat split; try assumption; lia.
Qed.

(** The scan before the opening brace. *)
Lemma braceScan_search (fuel : nat) (bytes : list Z) (scanLimit i jsonStart jsonEnd : Z) :
  0 <= i -> scanLimit <= len bytes ->
  braceScan fuel bytes scanLimit i (-1) 0 = (jsonStart, jsonEnd) ->
  jsonEnd <> -1 ->
  i <= jsonStart < jsonEnd /\ jsonEnd <= scanLimit
  /\ byteIs bytes jsonStart 0x7b = true
  /\ (forall k, i <= k < jsonStart -> byteIs bytes k 0x7b = false)
  /\ byteIs bytes (jsonEnd - 1) 0x7d = true
  /\ occurrences bytes 0x7b jsonStart jsonEnd = occurrences bytes 0x7d jsonStart jsonEnd.
Proof.
  revert i. induction fuel as [|fuel IH]; intros i Hi Hlim E Hend.
  - cbn in E. injection E as <- <-. contradiction.
  - cbn [braceScan] in E. destruct (Z.ltb_spec i scanLimit) as [Hlt|Hge];
      [|injection E as <- <-; contradiction].
    change (-1 =? -1) with true in E. rewrite andb_true_r in E. cbn [negb] in E.
    destruct (byteIs bytes i 0x7b) eqn:Eo.
    + destruct (braceScan_open fuel bytes scanLimit (i + 1) i 1 jsonStart jsonEnd)
        as [-> [? [? ?]]]; try lia; try assumption.
      * rewrite (occurrences_step bytes 0x7b i i), (occurrences_step bytes 0x7d i i) by lia.
        rewrite !occurrences_empty, Eo.
        assert (Ec : byteIs bytes i 0x7d = false).
        { apply byteIs_lookup in Eo as [_ Eo'].
          destruct (byteIs bytes i 0x7d) eqn:Ec; [|reflexivity].
          apply byteIs_lookup in Ec as [_ Ec]. congruence. }
        rewrite Ec. reflexivity.
      * repeat split; try assumption; try lia.
    + destruct (IH (i + 1) ltac:(lia) Hlim E Hend) as [? [? [? [Hfirst [? ?]]]]].
      repeat split; try assumption; try lia.
      intros k Hk. destruct (Z.eq_dec k i) as [->|Hne]; [exact Eo|]. apply Hfirst. lia.
Qed.

End JsonFacts.

(** X15.  When [findJsonMetadata] finds the container JSON, the text it
    parsed is a non-empty range of the file that ends at the returned
    [endOffset], so the frame scan starts inside the file.  The range is
    either the one the MCRAW header names, or it starts at the first opening
    brace of the file and ends at the brace that closes it: the range has as
    many opening as closing braces (braces inside JSON strings are counted
    like any other). *)
Theorem findJsonMetadata_range {Metadata : Type} (parseJson : list Z -> option Metadata)
    (bytes : list Z) (metadata : Metadata) (endOffset : Z) :
  Container.findJsonMetadata parseJson bytes = Some (metadata, endOffset) ->
  exists jsonStart,
    0 <= jsonStart < endOffset /\ endOffset <= len bytes
    /\ parseJson (Parser.slice bytes jsonStart endOffset) = Some metadata
    /\ ((Container.isMcrawHeader bytes = true
         /\ jsonStart = Parser.getUint32LE bytes 7
         /\ endOffset = jsonStart + Parser.getUint32LE bytes 11)
        \/ (Parser.byteIs bytes jsonStart 0x7b = true
            /\ (forall k, 0 <= k < jsonStart -> Parser.byteIs bytes k 0x7b = false)
            /\ Parser.byteIs bytes (endOffset - 1) 0x7d = true
            /\ length (filter (fun b => b = 0x7b) (Parser.slice bytes jsonStart endOffset))
               = length (filter (fun b => b = 0x7d) (Parser.slice bytes jsonStart endOffset)))).
Proof.
  unfold Container.findJsonMetadata. intros E.
  destruct (Container.headerMetadata parseJson bytes) as [[m e]|] eqn:Eh.
  - injection E as -> ->. unfold Container.headerMetadata in Eh.
    destruct (Container.isMcrawHeader bytes) eqn:Em; [|discriminate]. cbn [andb] in Eh.
    destruct (15 <? len bytes); [|discriminate].
    destruct (Z.ltb_spec 0 (Parser.getUint32LE bytes 7)) as [Ho|]; [|discriminate].
    destruct (Z.ltb_spec 0 (Parser.getUint32LE bytes 11)) as [Hs|]; [|discriminate].
    cbn [andb] in Eh.
    destruct (Z.leb_spec (Parser.getUint32LE bytes 7 + Parser.getUint32LE bytes 11)
                (len bytes)) as [Hl|]; [|discriminate].
    destruct (parseJson _) as [m|] eqn:Ep; [|discriminate].
    cbn in Eh. injection Eh as <- <-.
    exists (Parser.getUint32LE bytes 7). split; [lia|]. split; [exact Hl|].
    split; [exact Ep|]. left. auto.
  - destruct (Container.braceScan _ _ _ _ _ _) as [jsonStart jsonEnd] eqn:Es.
    destruct (Z.eqb_spec jsonStart (-1)) as [|Hs]; [discriminate|].
    destruct (Z.eqb_spec jsonEnd (-1)) as [|He]; [discriminate|]. cbn [orb] in E.
    destruct (parseJson _) as [m|] eqn:Ep; [|discriminate].
    cbn in E. injection E as <- <-.
    destruct (braceScan_search _ bytes (Z.min (len bytes) (50 * 1024 * 1024)) 0 _ _
                ltac:(lia) ltac:(lia) Es He) as [H1 [H2 [H3 [H4 [H5 H6]]]]].
    exists jsonStart. split; [lia|]. split; [lia|]. split; [exact Ep|].
    right. auto.
Qed.

Lemma findJsonMetadata_range_witness :
  exists jsonStart,
    0 <= jsonStart < 9 /\ 9 <= len [0x20; 0x7b; 0x22; 0x61; 0x22; 0x3a; 0x7b; 0x7d; 0x7d; 0x02]
    /\ (fun text => if (len text =? 8) then Some tt else None)
         (Parser.slice [0x20; 0x7b; 0x22; 0x61; 0x22; 0x3a; 0x7b; 0x7d; 0x7d; 0x02]
            jsonStart 9) = Some tt
    /\ Parser.byteIs [0x20; 0x7b; 0x22; 0x61; 0x22; 0x3a; 0x7b; 0x7d; 0x7d; 0x02]
         jsonStart 0x7b = true.
Proof.
  destruct (findJsonMetadata_range (fun text => if (len text =? 8) then Some tt else None)
              [0x20; 0x7b; 0x22; 0x61; 0x22; 0x3a; 0x7b; 0x7d; 0x7d; 0x02] tt 9 eq_refl)
    as [jsonStart [H1 [H2 [H3 [[H4 _] | [H4 _]]]]]].
  - discriminate H4.
  - exists jsonStart. auto.
Defined.

(** ** JSON end offset of the processor *)

Section JsonEndFacts.
Import Parser Container Analyzer.

(** The processor's depth scan follows the decoder's brace count. *)
Lemma depthScan_follows (fuel fuel2 : nat) (bytes : list Z) (scanLimit i jsonStart braceCount
    jsonStart' jsonEnd : Z) :
  0 <= i -> scanLimit <= len bytes -> jsonStart <> -1 -> 0 < braceCount ->
  braceScan fuel bytes scanLimit i jsonStart braceCount = (jsonStart', jsonEnd) ->
  jsonEnd <> -1 ->
  (Z.to_nat (len bytes - i) <= fuel2)%nat ->
  depthScan fuel2 bytes i braceCount = (jsonEnd, 0).
Proof.
  revert fuel2 i braceCount.
  induction fuel as [|fuel IH]; intros fuel2 i braceCount Hi Hlim Hs Hc E Hend Hfuel.
  - cbn in E. injection E as <- <-. contradiction.
  - cbn [braceScan] in E. destruct (Z.ltb_spec i scanLimit) as [Hlt|Hge];
      [|injection E as <- <-; contradiction].
    assert (Hstart : (jsonStart =? -1) = false) by (apply Z.eqb_neq; lia).
    rewrite Hstart, andb_false_r in E. cbn [negb] in E.
    destruct fuel2 as [|fuel2]; [lia|]. cbn [depthScan].
    destruct (Z.ltb_spec i (len bytes)) as [_|]; [|lia].
    destruct (Z.ltb_spec 0 braceCount) as [_|]; [|lia]. cbn [andb].
    destruct (byteIs bytes i 0x7b) eqn:Eo.
    + apply (IH fuel2 (i + 1) (braceCount + 1)); try assumption; lia.
    + destruct (byteIs bytes i 0x7d) eqn:Ec.
      * destruct (Z.eqb_spec (braceCount - 1) 0) as [Hz|Hnz].
        -- injection E as <- <-. rewrite Hz.
           destruct fuel2; cbn [depthScan]; [reflexivity|].
           rewrite andb_false_r. reflexivity.
        -- apply (IH fuel2 (i + 1) (braceCount - 1)); try assumption; lia.
      * apply (IH fuel2 (i + 1) braceCount); try assumption; lia.
Qed.

Lemma jsonEndScan_skips (fuel : nat) (bytes : list Z) (i jsonStart : Z) :
  0 <= i <= jsonStart -> jsonStart < Z.min (len bytes) 100000 ->
  (forall k, i <= k < jsonStart -> byteIs bytes k 0x7b = false) ->
  byteIs bytes jsonStart 0x7b = true ->
  (Z.to_nat (jsonStart - i) < fuel)%nat ->
  jsonEndScan fuel bytes i
  = let '(j, depth) := depthScan (length bytes) bytes (jsonStart + 1) 1 in
    if depth =? 0 then j else jsonEndScan (fuel - S (Z.to_nat (jsonStart - i))) bytes
                                (jsonStart + 1).
Proof.
  revert i. induction fuel as [|fuel IH]; intros i Hi Hs Hfirst Hopen Hfuel; [lia|].
  cbn [jsonEndScan]. destruct (Z.ltb_spec i (Z.min (len bytes) 100000)) as [_|]; [|lia].
  destruct (Z.eq_dec i jsonStart) as [->|Hne].
  - rewrite Hopen. replace (jsonStart - jsonStart) with 0 by lia.
    change (Z.to_nat 0) with 0%nat. replace (S fuel - 1)%nat with fuel by lia. reflexivity.
  - rewrite (Hfirst i) by lia.
    rewrite (IH (i + 1)); try lia; try assumption.
    + replace (S fuel - S (Z.to_nat (jsonStart - i)))%nat
        with (fuel - S (Z.to_nat (jsonStart - (i + 1))))%nat by lia.
      reflexivity.
    + intros k Hk. apply Hfirst. lia.
Qed.

End JsonEndFacts.

(** X16.  The structure analysis starts where the decoder's frame
    scan starts: whenever the brace scan of [findJsonMetadata] finds the
    JSON block and its opening brace lies within the first 100000 bytes,
    the end offset that [processClientSideMcraw] computes for the analysis
    is the decoder's [jsonEnd]. *)
Theorem json_end_offsets_agree (bytes : list Z) (jsonStart jsonEnd : Z) :
  Container.braceScan (length bytes) bytes (Z.min (len bytes) (50 * 1024 * 1024)) 0 (-1) 0
  = (jsonStart, jsonEnd) ->
  jsonEnd <> -1 -> jsonStart < 100000 ->
  Analyzer.jsonEndOffset bytes = jsonEnd.
Proof.
  intros Es Hend Hnear.
  destruct (braceScan_search _ bytes (Z.min (len bytes) (50 * 1024 * 1024)) 0 _ _
              ltac:(lia) ltac:(lia) Es Hend) as [H1 [H2 [H3 [H4 [H5 H6]]]]].
  pose proof (byteIs_in_file _ _ _ H3) as Hin.
  unfold Analyzer.jsonEndOffset.
  rewrite (jsonEndScan_skips (length bytes) bytes 0 jsonStart);
    [|lia|lia|exact H4|exact H3|unfold len in Hin; lia].
  assert (Hd : Analyzer.depthScan (length bytes) bytes (jsonStart + 1) 1 = (jsonEnd, 0)).
  { revert Es. generalize (length bytes) at 1. intros fuel Es.
    assert (Hgen : forall fuel i, 0 <= i <= jsonStart ->
              (forall k, i <= k < jsonStart -> Parser.byteIs bytes k 0x7b = false) ->
              Container.braceScan fuel bytes (Z.min (len bytes) (50 * 1024 * 1024)) i (-1) 0
              = (jsonStart, jsonEnd) ->
              exists fuel', Container.braceScan fuel' bytes
                              (Z.min (len bytes) (50 * 1024 * 1024)) (jsonStart + 1)
                              jsonStart 1 = (jsonStart, jsonEnd)).
    { clear Es fuel. intros fuel. induction fuel as [|fuel IH]; intros i Hi Hfirst E.
      - cbn in E. injection E as _ <-. contradiction.
      - cbn [Container.braceScan] in E.
        destruct (Z.ltb_spec i (Z.min (len bytes) (50 * 1024 * 1024))) as [_|];
          [|injection E as _ <-; contradiction].
        change (-1 =? -1) with true in E. rewrite andb_true_r in E. cbn [negb] in E.
        destruct (Z.eq_dec i jsonStart) as [->|Hne].
        + rewrite H3 in E. exists fuel. exact E.
        + rewrite (Hfirst i) in E by lia.
          apply (IH (i + 1)); [lia| |exact E]. intros k Hk. apply Hfirst. lia. }
    destruct (Hgen fuel 0 ltac:(lia) H4 Es) as [fuel' E'].
    apply (depthScan_follows fuel' (length bytes) bytes
             (Z.min (len bytes) (50 * 1024 * 1024)) (jsonStart + 1) jsonStart 1
             jsonStart jsonEnd); try lia; try assumption.
    unfold len. lia. }
  rewrite Hd. reflexivity.
Qed.

Lemma json_end_offsets_agree_witness :
  Analyzer.jsonEndOffset [0x20; 0x7b; 0x22; 0x61; 0x22; 0x3a; 0x7b; 0x7d; 0x7d; 0x02] = 9.
Proof.
  apply (json_end_offsets_agree
           [0x20; 0x7b; 0x22; 0x61; 0x22; 0x3a; 0x7b; 0x7d; 0x7d; 0x02] 1 9).
  - reflexivity.
  - discriminate.
  - lia.
Defined.

(** ** Structure analysis *)

Section AnalyzerFacts.
Import Parser Analyzer.

(** Where the block walk stands after the blocks [blocks]. *)
Local Abbreviation walkedTo start blocks :=
  (match last blocks with Some b => b_offset b + 8 + b_size b | None => start end).

(** The test of a block header in [analyzeMcrawStructure]. *)
Local Abbreviation validBlockHeader data offset :=
  ((getUint32LE data offset <=? 10) && (0 <? getUint32LE data (offset + 4))
   && (getUint32LE data (offset + 4) <? 50 * 1024 * 1024)
   && (offset + 8 + getUint32LE data (offset + 4) <=? len data)).

Local Abbreviation hasZstdMagicAt data i :=
  (byteIs data i 0x28 && byteIs data (i + 1) 0xb5
   && byteIs data (i + 2) 0x2f && byteIs data (i + 3) 0xfd).

Lemma walkBlocks_invariant (fuel : nat) (data : list Z) (start offset : Z)
    (blocks : list BlockInfo) (frameOffsets : list Z) :
  offset = walkedTo start blocks ->
  (forall k b b', blocks !! k = Some b -> blocks !! S k = Some b' ->
                  b_offset b' = b_offset b + 8 + b_size b) ->
  (forall b, blocks !! 0%nat = Some b -> b_offset b = start) ->
  Forall (fun b => b_type b <= 10 /\ 0 < b_size b < 50 * 1024 * 1024
                   /\ b_offset b + 8 + b_size b <= len data
                   /\ b_type b = getUint32LE data (b_offset b)
                   /\ b_size b = getUint32LE data (b_offset b + 4)) blocks ->
  frameOffsets = b_offset <$> filter (fun b => b_type b = 2) blocks ->
  (length blocks <= 500)%nat ->
  (Z.to_nat (len data - 8 - offset) <= fuel)%nat ->
  let '(blocks', frameOffsets') := walkBlocks fuel data offset blocks frameOffsets in
  (forall k b b', blocks' !! k = Some b -> blocks' !! S k = Some b' ->
                  b_offset b' = b_offset b + 8 + b_size b)
  /\ (forall b, blocks' !! 0%nat = Some b -> b_offset b = start)
  /\ Forall (fun b => b_type b <= 10 /\ 0 < b_size b < 50 * 1024 * 1024
                      /\ b_offset b + 8 + b_size b <= len data
                      /\ b_type b = getUint32LE data (b_offset b)
                      /\ b_size b = getUint32LE data (b_offset b + 4)) blocks'
  /\ frameOffsets' = b_offset <$> filter (fun b => b_type b = 2) blocks'
  /\ (length blocks' <= 500)%nat
  /\ (length blocks' = 500%nat
      \/ len data - 8 <= walkedTo start blocks'
      \/ validBlockHeader data (walkedTo start blocks') = false).
Proof.
  revert offset blocks frameOffsets.
  induction fuel as [|fuel IH];
    intros offset blocks frameOffsets Hoff Hchain Hfirst Hall Hfo Hn Hfuel;
    cbn [walkBlocks].
  { repeat (split; [assumption|]). right. left. lia. }
  destruct (Z.ltb_spec offset (len data - 8)) as [Hlt|]; cbn [andb].
  2:{ repeat (split; [assumption|]). right. left. lia. }
  destruct (Z.ltb_spec (Z.of_nat (length blocks)) 500) as [Hcount|].
  2:{ repeat (split; [assumption|]). left. lia. }
  change ((getUint32LE data offset <=? 10) && (0 <? getUint32LE data (offset + 4))
          && (getUint32LE data (offset + 4) <? 50 * 1024 * 1024)
          && (offset + 8 + getUint32LE data (offset + 4) <=? len data))
    with (validBlockHeader data offset).
  destruct (validBlockHeader data offset) eqn:Ev.
  2:{ repeat (split; [assumption|]). right. right. rewrite <- Hoff. exact Ev. }
  unfold validBlockHeader in Ev.
  destruct (Z.leb_spec (getUint32LE data offset) 10) as [Ht|]; [|discriminate].
  destruct (Z.ltb_spec 0 (getUint32LE data (offset + 4))) as [Hs|]; [|discriminate].
  destruct (Z.ltb_spec (getUint32LE data (offset + 4)) (50 * 1024 * 1024)) as [Hs'|];
    [|discriminate].
  destruct (Z.leb_spec (offset + 8 + getUint32LE data (offset + 4)) (len data)) as [Hin|];
    [|discriminate].
  clear Ev. apply IH.
  - rewrite last_snoc. reflexivity.
  - intros k b b' Hb Hb'.
    destruct (decide (S k < length blocks)%nat) as [Hk|Hk].
    + rewrite lookup_app_l in Hb by lia. rewrite lookup_app_l in Hb' by lia. eauto.
    + assert (Hlen : S k = length blocks).
      { apply lookup_lt_Some in Hb'. rewrite length_app in Hb'. cbn in Hb'. lia. }
      rewrite lookup_app_l in Hb by lia.
      rewrite lookup_app_r, Hlen, Nat.sub_diag in Hb' by lia.
      cbn in Hb'. injection Hb' as <-. cbn.
      assert (Hl : last blocks = Some b).
      { rewrite last_lookup. rewrite <- Hlen. exact Hb. }
      rewrite Hl in Hoff. exact Hoff.
  - intros b Hb. destruct blocks as [|b0 blocks0].
    + cbn in Hb. injection Hb as <-. cbn. exact Hoff.
    + apply Hfirst. exact Hb.
  - apply Forall_app. split; [exact Hall|]. apply Forall_singleton. cbn. auto 6.
  - rewrite filter_app, fmap_app, <- Hfo.
    destruct (Z.eqb_spec (getUint32LE data offset) 2) as [He|He].
    + rewrite filter_cons_True by exact He. reflexivity.
    + rewrite filter_cons_False by exact He. cbn. rewrite app_nil_r. reflexivity.
  - rewrite length_app. cbn. lia.
  - lia.
Qed.

Lemma scanSignatures_invariant (fuel : nat) (data : list Z) (start i : Z) (found : list Z) :
  start <= i ->
  (length found < 200)%nat ->
  (forall s, s ∈ found <-> start <= s < i /\ s < len data - 4 /\ hasZstdMagicAt data s = true) ->
  (Z.to_nat (len data - 4 - i) <= fuel)%nat ->
  let found' := scanSignatures fuel data i found in
  (length found' <= 200)%nat
  /\ (forall s, s ∈ found' -> start <= s < len data - 4 /\ hasZstdMagicAt data s = true)
  /\ ((length found' < 200)%nat ->
      forall s, start <= s < len data - 4 -> hasZstdMagicAt data s = true -> s ∈ found').
Proof.
  revert i found. induction fuel as [|fuel IH]; intros i found Hi Hn Hfound Hfuel.
  - cbn. split; [lia|]. split.
    + intros s Hs. apply Hfound in Hs. destruct Hs as [? [? ?]]. split; [lia|assumption].
    + intros _ s Hs Hm. apply Hfound. split; [lia|]. split; [lia|assumption].
  - cbn [scanSignatures]. destruct (Z.ltb_spec i (len data - 4)) as [Hlt|Hge].
    2:{ split; [lia|]. split.
        - intros s Hs. apply Hfound in Hs. destruct Hs as [? [? ?]]. split; [lia|assumption].
        - intros _ s Hs Hm. apply Hfound. split; [lia|]. split; [lia|assumption]. }
    destruct (hasZstdMagicAt data i) eqn:Em.
    + assert (Hfound' : forall s, s ∈ found ++ [i]
                <-> start <= s < i + 1 /\ s < len data - 4 /\ hasZstdMagicAt data s = true).
      { intros s. rewrite elem_of_app, list_elem_of_singleton, Hfound. split.
        - intros [[? [? ?]]|Heq]; [|subst s]; (split; [lia|]); (split; [lia|assumption]).
        - intros [H1 [H2 H3]]. destruct (Z.eq_dec s i); [right; assumption|left].
          split; [lia|]. split; [lia|assumption]. }
      destruct (Z.leb_spec 200 (len (found ++ [i]))) as [Hfull|Hroom].
      * unfold len in Hfull. rewrite length_app in *. cbn [length] in *.
        split; [lia|]. split; [|lia].
        intros s Hs. apply Hfound' in Hs. destruct Hs as [? [? ?]]. split; [lia|assumption].
      * unfold len in Hroom. apply IH; try lia; try assumption.
    + apply IH; try lia; try assumption.
      intros s. rewrite Hfound. split.
      * intros [? [? ?]]. split; [lia|]. split; [lia|assumption].
      * intros [H1 [H2 H3]]. split; [|split; [lia|assumption]].
        destruct (Z.eq_dec s i) as [->|]; [congruence|lia].
Qed.

End AnalyzerFacts.

(** X17.  Started at or after the beginning of the file, the block
    walk of [analyzeMcrawStructure] reports blocks that tile the file
    without gaps from the end of the JSON: the first starts at
    [jsonEndOffset] and each next one right behind the 8-byte header and the
    payload of the one before.  Every block has a type of at most 10 and a
    payload of 1 byte to less than 50 MiB that lies inside the file; there
    are at most 500 blocks, and [possibleFrameOffsets] lists the offsets of
    exactly the blocks of type 2, in order.  The walk ends only at the
    500th block, less than nine bytes before the end of the file, or at a
    header that fails the test. *)
Theorem analysis_blocks_tile_the_file (data : list Z) (jsonEndOffset : Z) :
  0 <= jsonEndOffset ->
  let analysis := Analyzer.analyzeMcrawStructure data jsonEndOffset in
  let blocks := Analyzer.blocks analysis in
  let walkedTo := match last blocks with
                  | Some b => Analyzer.b_offset b + 8 + Analyzer.b_size b
                  | None => jsonEndOffset
                  end in
  (forall b, blocks !! 0%nat = Some b -> Analyzer.b_offset b = jsonEndOffset)
  /\ (forall k b b', blocks !! k = Some b -> blocks !! S k = Some b' ->
        Analyzer.b_offset b' = Analyzer.b_offset b + 8 + Analyzer.b_size b)
  /\ (forall b, b ∈ blocks ->
        Analyzer.b_type b <= 10 /\ 0 < Analyzer.b_size b < 50 * 1024 * 1024
        /\ Analyzer.b_offset b + 8 + Analyzer.b_size b <= len data
        /\ Analyzer.b_type b = Parser.getUint32LE data (Analyzer.b_offset b)
        /\ Analyzer.b_size b = Parser.getUint32LE data (Analyzer.b_offset b + 4))
  /\ (length blocks <= 500)%nat
  /\ Analyzer.possibleFrameOffsets analysis
     = Analyzer.b_offset <$> filter (fun b => Analyzer.b_type b = 2) blocks
  /\ (length blocks = 500%nat
      \/ len data - 8 <= walkedTo
      \/ (Parser.getUint32LE data walkedTo <=? 10)
         && (0 <? Parser.getUint32LE data (walkedTo + 4))
         && (Parser.getUint32LE data (walkedTo + 4) <? 50 * 1024 * 1024)
         && (walkedTo + 8 + Parser.getUint32LE data (walkedTo + 4) <=? len data) = false).
Proof.
  intros Hstart analysis blocks. subst blocks analysis.
  unfold Analyzer.analyzeMcrawStructure.
  pose proof (walkBlocks_invariant (length data) data jsonEndOffset jsonEndOffset [] []
                eq_refl) as H.
  destruct (Analyzer.walkBlocks _ _ _ _ _) as [blocks frameOffsets]. cbn.
  destruct H as [H1 [H2 [H3 [H4 [H5 H6]]]]].
  - intros k b b' Hb. discriminate Hb.
  - intros b Hb. discriminate Hb.
  - constructor.
  - reflexivity.
  - cbn. lia.
  - unfold len. lia.
  - rewrite Forall_forall in H3. auto 7.
Qed.

Lemma analysis_blocks_tile_the_file_witness :
  let data := [1; 0; 0; 0; 2; 0; 0; 0; 7; 7; 2; 0; 0; 0; 1; 0; 0; 0; 9;
               0; 0; 0; 0; 0; 0; 0; 0; 0; 0] in
  Analyzer.possibleFrameOffsets (Analyzer.analyzeMcrawStructure data 0)
  = Analyzer.b_offset
      <$> filter (fun b => Analyzer.b_type b = 2)
            (Analyzer.blocks (Analyzer.analyzeMcrawStructure data 0)).
Proof.
  intros data.
  exact (proj1 (proj2 (proj2 (proj2 (proj2
           (analysis_blocks_tile_the_file data 0 ltac:(lia))))))).
Defined.

(** X18.  Started at or after the beginning of the file, the
    analysis lists at most 200 zstd signatures; each listed offset lies at
    or after [jsonEndOffset], more than four bytes before the end of the
    file, and the four magic bytes 28 B5 2F FD stand there.  When fewer
    than 200 are listed the list is complete: every such offset is in it.
    A signature that fills the last four bytes of the file is never
    listed. *)
Theorem analysis_signatures (data : list Z) (jsonEndOffset : Z) :
  0 <= jsonEndOffset ->
  let signatures :=
    Analyzer.zstdSignatures (Analyzer.analyzeMcrawStructure data jsonEndOffset) in
  (length signatures <= 200)%nat
  /\ (forall s, s ∈ signatures ->
        jsonEndOffset <= s < len data - 4 /\ Parser.isZstdCompressed data s = true)
  /\ ((length signatures < 200)%nat ->
      forall s, jsonEndOffset <= s < len data - 4 -> Parser.isZstdCompressed data s = true ->
                s ∈ signatures).
Proof.
  intros Hstart signatures. subst signatures. unfold Analyzer.analyzeMcrawStructure.
  destruct (Analyzer.walkBlocks _ _ _ _ _) as [blocks frameOffsets]. cbn.
  assert (Hmagic : forall s, s < len data - 4 ->
            Parser.isZstdCompressed data s
            = Parser.byteIs data s 0x28 && Parser.byteIs data (s + 1) 0xb5
              && Parser.byteIs data (s + 2) 0x2f && Parser.byteIs data (s + 3) 0xfd).
  { intros s Hs. unfold Parser.isZstdCompressed.
    destruct (Z.ltb_spec (len data) (s + 4)); [lia|reflexivity]. }
  destruct (scanSignatures_invariant (length data) data jsonEndOffset jsonEndOffset [])
    as [H1 [H2 H3]].
  - lia.
  - cbn. lia.
  - intros s. split; [intros H; inversion H|lia].
  - unfold len. lia.
  - split; [exact H1|]. split.
    + intros s Hs. destruct (H2 s Hs) as [Hr Hm]. split; [exact Hr|].
      rewrite Hmagic by lia. exact Hm.
    + intros Hn s Hr Hm. apply H3; [exact Hn|exact Hr|].
      rewrite <- Hmagic by lia. exact Hm.
Qed.

Lemma analysis_signatures_witness :
  let data := [0; 0x28; 0xb5; 0x2f; 0xfd; 0; 0x28; 0xb5; 0x2f; 0xfd] in
  (length (Analyzer.zstdSignatures (Analyzer.analyzeMcrawStructure data 0)) <= 200)%nat.
Proof.
  intros data.
  exact (proj1 (analysis_signatures data 0 ltac:(lia))).
Defined.

(** ** Frame indexer: layout of the indexed frames *)

Section LayoutFacts.
Import Parser.

(** The frames satisfy [Q], none reaches into the next one, and the last
    one ends at or before [cursor]. *)
Local Abbreviation packedUpTo Q cursor frames :=
  (Forall Q frames
   /\ (forall k f f', (frames !! k)%list = Some f -> (frames !! S k)%list = Some f' ->
         f.(offset) + f.(size) <= f'.(offset))
   /\ (forall f, last frames = Some f -> f.(offset) + f.(size) <= cursor)).

Lemma packed_push (Q : FrameInfo -> Prop) (cursor cursor' : Z) (frames : list FrameInfo)
    (info : FrameInfo) :
  packedUpTo Q cursor frames -> Q info -> cursor <= info.(offset) ->
  info.(offset) + info.(size) <= cursor' ->
  packedUpTo Q cursor' (frames ++ [info]).
Proof.
  intros [Hall [Hchain Hlast]] Hq Hfrom Hto. split; [|split].
  - apply Forall_app. split; [exact Hall|]. apply Forall_singleton. exact Hq.
  - intros k f f' Hf Hf'.
    destruct (decide (S k < length frames)%nat) as [Hk|Hk].
    + rewrite lookup_app_l in Hf by lia. rewrite lookup_app_l in Hf' by lia. eauto.
    + assert (Hlen : S k = length frames).
      { apply lookup_lt_Some in Hf'. rewrite length_app in Hf'. cbn in Hf'. lia. }
      rewrite lookup_app_l in Hf by lia.
      rewrite lookup_app_r, Hlen, Nat.sub_diag in Hf' by lia.
      cbn in Hf'. injection Hf' as <-.
      assert (Hl : last frames = Some f) by (rewrite last_lookup, <- Hlen; exact Hf).
      specialize (Hlast f Hl). lia.
  - intros f Hf. rewrite last_snoc in Hf. injection Hf as <-. exact Hto.
Qed.

Lemma packed_mono (Q : FrameInfo -> Prop) (cursor cursor' : Z) (frames : list FrameInfo) :
  packedUpTo Q cursor frames -> cursor <= cursor' -> packedUpTo Q cursor' frames.
Proof.
  intros [Hall [Hchain Hlast]] Hle. split; [exact Hall|]. split; [exact Hchain|].
  intros f Hf. specialize (Hlast f Hf). lia.
Qed.

Lemma packed_nil (Q : FrameInfo -> Prop) (cursor : Z) : packedUpTo Q cursor [].
Proof.
  split; [constructor|]. split.
  - intros k f f' Hf. discriminate Hf.
  - intros f Hf. discriminate Hf.
Qed.

Variable bytes : list Z.
Variable startOffset : Z.

(** Strategy 1: a frame starts inside the file; its end is not tested. *)
Lemma scanTypedLoop_layout (parseJson : list Z -> option PerFrameMetadata) (fuel : nat)
    (expected : Z) (st : ScanState) :
  let Q f := startOffset <= f.(offset) < len bytes /\ 1024 <= f.(size) in
  startOffset <= st.(st_offset) ->
  packedUpTo Q st.(st_offset) st.(st_frames) ->
  packedUpTo Q (st_offset (scanTypedLoop parseJson fuel bytes expected st))
             (st_frames (scanTypedLoop parseJson fuel bytes expected st)).
Proof.
  intros Q. revert st. induction fuel as [|fuel IH]; intros st Hstart Hinv; [exact Hinv|].
  cbn [scanTypedLoop].
  destruct (Z.ltb_spec (st_offset st) (len bytes - 8)) as [Hlt|]; cbn [andb]; [|exact Hinv].
  destruct (st_invalid st <? 5); [|exact Hinv].
  destruct (len bytes <? st_offset st + 8); [exact Hinv|].
  cbv zeta.
  set (isValidFrame := (getUint32LE bytes (st_offset st) =? BLOCK_TYPE_FRAME) && _ && _).
  set (isValidAudio := (getUint32LE bytes (st_offset st) =? BLOCK_TYPE_AUDIO) && _ && _).
  destruct isValidFrame eqn:Ef; [|destruct isValidAudio eqn:Ea]; cbn [negb andb].
  - subst isValidFrame.
    apply andb_true_iff in Ef as [Ef _]. apply andb_true_iff in Ef as [_ Ef].
    apply Z.leb_le in Ef.
    apply IH; cbn [st_offset st_frames]; [lia|].
    eapply packed_push; [exact Hinv| | |]; cbn [offset size]; [|lia|lia].
    unfold Q. cbn [offset size]. lia.
  - subst isValidAudio.
    apply andb_true_iff in Ea as [Ea _]. apply andb_true_iff in Ea as [_ Ea].
    apply Z.leb_le in Ea.
    apply IH; cbn [st_offset st_frames]; [lia|].
    eapply packed_mono; [exact Hinv|lia].
  - apply IH; cbn [st_offset st_frames]; [lia|].
    eapply packed_mono; [exact Hinv|lia].
Qed.

(** Strategies 2 to 5: a frame lies inside the file. *)
Local Abbreviation inFile minSize :=
  (fun f : FrameInfo => startOffset <= f.(offset) /\ minSize <= f.(size)
                        /\ f.(offset) + f.(size) <= len bytes).

Lemma scanSizePrefixedLoop_layout (fuel : nat) (offset0 : Z) (frames : list FrameInfo) :
  startOffset <= offset0 ->
  packedUpTo (inFile 1024) offset0 frames ->
  exists cursor,
    packedUpTo (inFile 1024) cursor (scanSizePrefixedLoop fuel bytes offset0 frames).
Proof.
  revert offset0 frames. induction fuel as [|fuel IH]; intros offset0 frames Hstart Hinv;
    [exists offset0; exact Hinv|].
  cbn [scanSizePrefixedLoop].
  destruct (offset0 <? len bytes - 8); [|exists offset0; exact Hinv]. cbv zeta.
  destruct (_ && isZstdCompressed bytes (offset0 + 4)) eqn:E; [|exists offset0; exact Hinv].
  apply andb_true_iff in E as [E _]. apply andb_true_iff in E as [E Hfits].
  apply andb_true_iff in E as [Hmin _]. apply Z.leb_le in Hmin, Hfits.
  apply IH; [lia|].
  eapply packed_push; [exact Hinv| | |]; cbn [offset size]; lia.
Qed.

Lemma findZstdMagic_layout (fuel : nat) (i : Z) (frameOffsets : list Z) :
  startOffset <= i ->
  Forall (fun o => startOffset <= o < len bytes - 4) frameOffsets ->
  (forall k o o', frameOffsets !! k = Some o -> frameOffsets !! S k = Some o' -> o < o') ->
  (forall o, last frameOffsets = Some o -> o < i) ->
  let found := findZstdMagic fuel bytes i frameOffsets in
  Forall (fun o => startOffset <= o < len bytes - 4) found
  /\ (forall k o o', found !! k = Some o -> found !! S k = Some o' -> o < o').
Proof.
  revert i frameOffsets. induction fuel as [|fuel IH];
    intros i frameOffsets Hstart Hall Hchain Hlast; [split; assumption|].
  cbn [findZstdMagic].
  destruct (Z.ltb_spec i (len bytes - 4)) as [Hi|Hi]; [|split; assumption].
  destruct (byteIs bytes i 40 && _ && _ && _).
  - apply IH; [lia| | |].
    + apply Forall_app. split; [exact Hall|]. apply Forall_singleton. lia.
    + intros k o o' Ho Ho'.
      destruct (decide (S k < length frameOffsets)%nat) as [Hk|Hk].
      * rewrite lookup_app_l in Ho by lia. rewrite lookup_app_l in Ho' by lia. eauto.
      * assert (Hlen : S k = length frameOffsets).
        { apply lookup_lt_Some in Ho'. rewrite length_app in Ho'. cbn in Ho'. lia. }
        rewrite lookup_app_l in Ho by lia.
        rewrite lookup_app_r, Hlen, Nat.sub_diag in Ho' by lia.
        cbn in Ho'. injection Ho' as <-.
        apply Hlast. rewrite last_lookup, <- Hlen. exact Ho.
    + intros o Ho. rewrite last_snoc in Ho. injection Ho as <-. lia.
  - apply IH; [lia|exact Hall|exact Hchain|].
    intros o Ho. specialize (Hlast o Ho). lia.
Qed.

Lemma scanZstdMagic_layout :
  exists cursor, packedUpTo (inFile 100) cursor (scanZstdMagic bytes startOffset).
Proof.
  unfold scanZstdMagic. set (frameOffsets := findZstdMagic _ _ _ _).
  destruct (findZstdMagic_layout (length bytes) startOffset []) as [Hall Hsorted].
  { lia. } { constructor. } { intros k o o' Ho. discriminate Ho. }
  { intros o Ho. discriminate Ho. }
  fold frameOffsets in Hall, Hsorted.
  destruct (forLoop (length frameOffsets) 0 (magicFrame bytes frameOffsets) [])
    as [frames|] eqn:Hrun; [|exists 0; apply packed_nil].
  cbn [default].
  exists (default (len bytes) (frameOffsets !! Z.to_nat (0 + Z.of_nat (length frameOffsets)))).
  apply (forLoop_preserves
           (fun n frames =>
              packedUpTo (inFile 100) (default (len bytes) (frameOffsets !! Z.to_nat n)) frames)
           _ _ _ _ _) in Hrun.
  - exact Hrun.
  - intros n t t' Hn Hstep Hinv. unfold magicFrame in Hstep.
    destruct (frameOffsets !! Z.to_nat n) as [o|] eqn:Eo; [|cbn in Hstep; discriminate].
    cbn [mbind option_bind] in Hstep.
    change (default (len bytes) (Some o)) with o in Hinv.
    pose proof (proj1 (Forall_lookup _ _) Hall _ _ Eo) as Ho. cbv beta in Ho.
    assert (Hnext : (if n <? len frameOffsets - 1
                     then default 0 (frameOffsets !! Z.to_nat (n + 1)) else len bytes)
                    = default (len bytes) (frameOffsets !! Z.to_nat (n + 1))
                    /\ o < default (len bytes) (frameOffsets !! Z.to_nat (n + 1)) <= len bytes).
    { replace (Z.to_nat (n + 1)) with (S (Z.to_nat n)) by lia.
      destruct (Z.ltb_spec n (len frameOffsets - 1)) as [Hl|Hl].
      - destruct (frameOffsets !! S (Z.to_nat n)) as [o'|] eqn:Eo'.
        + change (default 0 (Some o')) with o'. change (default (len bytes) (Some o')) with o'.
          split; [reflexivity|].
          pose proof (proj1 (Forall_lookup _ _) Hall _ _ Eo') as Ho'. cbv beta in Ho'.
          specialize (Hsorted _ _ _ Eo Eo'). lia.
        + apply lookup_ge_None in Eo'. unfold len in Hl. lia.
      - rewrite (proj2 (lookup_ge_None _ _)) by (unfold len in Hl; lia).
        change (default (len bytes) None) with (len bytes). split; [reflexivity|lia]. }
    destruct Hnext as [Hnext Hbounds]. rewrite Hnext in Hstep.
    set (next := default (len bytes) (frameOffsets !! Z.to_nat (n + 1))) in *.
    destruct (Z.leb_spec 100 (next - o)) as [Hmin|Hmin]; cbn [andb] in Hstep.
    + destruct (next - o <=? 100 * 1024 * 1024); injection Hstep as <-.
      * eapply packed_push; [exact Hinv| | |]; cbn [offset size]; lia.
      * eapply packed_mono; [exact Hinv|lia].
    + injection Hstep as <-. eapply packed_mono; [exact Hinv|lia].
  - apply packed_nil.
Qed.

Lemma applyFixedFrameSize_layout (raw : RawMetadata) :
  exists cursor,
    packedUpTo (inFile 1024) cursor (applyFixedFrameSize bytes raw startOffset).
Proof.
  unfold applyFixedFrameSize.
  destruct (negb (truthyZ (numSegments raw)) || _) eqn:Eseg; [exists 0; apply packed_nil|].
  cbv zeta. set (segments := default 0 (numSegments raw)) in *.
  set (frameSize := (len bytes - startOffset) / segments).
  destruct (Z.ltb_spec frameSize 1024) as [Hsmall|Hsize]; [exists 0; apply packed_nil|].
  destruct (forLoop (Z.to_nat segments) 0 (fixedFrame bytes startOffset frameSize) [])
    as [frames|] eqn:Hrun; [|exists 0; apply packed_nil].
  cbn [default].
  exists (startOffset + (0 + Z.of_nat (Z.to_nat segments)) * frameSize).
  apply (forLoop_preserves
           (fun n frames => packedUpTo (inFile 1024) (startOffset + n * frameSize) frames)
           _ _ _ _ _) in Hrun.
  - exact Hrun.
  - intros n t t' Hn Hstep Hinv. unfold fixedFrame in Hstep.
    destruct (Z.leb_spec (startOffset + n * frameSize + frameSize) (len bytes)) as [Hfits|];
      injection Hstep as <-.
    + eapply packed_push; [exact Hinv| | |]; cbn [offset size]; nia.
    + eapply packed_mono; [exact Hinv|nia].
  - apply packed_nil.
Qed.

Lemma scanRawBayerBlocks_layout (raw : RawMetadata) :
  exists cursor,
    packedUpTo (inFile 1024) cursor (scanRawBayerBlocks bytes raw startOffset).
Proof.
  unfold scanRawBayerBlocks. cbv zeta.
  match goal with
  | |- context [(?w =? 0) || (?h =? 0)] => set (width := w); set (height := h)
  end.
  destruct (Z.eqb_spec width 0) as [|Hw]; [exists 0; apply packed_nil|].
  destruct (Z.eqb_spec height 0) as [|Hh]; [exists 0; apply packed_nil|]. cbn [orb].
  assert (Hsize : 1024 <= width * height * 2).
  { subst width height.
    repeat match goal with |- context [if ?c then _ else _] => destruct c end; lia. }
  set (expectedFrameSize := width * height * 2) in *.
  set (possibleFrames := (len bytes - startOffset) / expectedFrameSize).
  destruct (possibleFrames =? 0); [exists 0; apply packed_nil|].
  destruct (forLoop (Z.to_nat possibleFrames) 0 (rawFrame startOffset expectedFrameSize) [])
    as [frames|] eqn:Hrun; [|exists 0; apply packed_nil].
  cbn [default].
  exists (startOffset + (0 + Z.of_nat (Z.to_nat possibleFrames)) * expectedFrameSize).
  apply (forLoop_preserves
           (fun n frames =>
              packedUpTo (inFile 1024) (startOffset + n * expectedFrameSize) frames)
           _ _ _ _ _) in Hrun.
  - exact Hrun.
  - intros n t t' Hn Hstep Hinv. unfold rawFrame in Hstep. injection Hstep as <-.
    assert (Hfits : possibleFrames * expectedFrameSize <= len bytes - startOffset).
    { unfold possibleFrames. rewrite Z.mul_comm. apply Z.mul_div_le. lia. }
    eapply packed_push; [exact Hinv| | |]; cbn [offset size]; nia.
  - apply packed_nil.
Qed.

End LayoutFacts.

(** The layout of the frames that [scanFrameBlocks] indexes. *)
Lemma scanFrameBlocks_layout (parseJson : list Z -> option Parser.PerFrameMetadata)
    (bytes : list Z) (raw : Parser.RawMetadata) (startOffset strategy : Z)
    (frames : list Parser.FrameInfo) :
  0 <= startOffset ->
  Parser.scanFrameBlocks parseJson bytes raw startOffset = (strategy, frames) ->
  (forall f, f ∈ frames ->
     startOffset <= f.(Parser.offset) < len bytes
     /\ (if strategy =? 3 then 100 else 1024) <= f.(Parser.size)
     /\ (strategy <> 1 -> f.(Parser.offset) + f.(Parser.size) <= len bytes))
  /\ (forall k f f', frames !! k = Some f -> frames !! S k = Some f' ->
        f.(Parser.offset) + f.(Parser.size) <= f'.(Parser.offset)).
Proof.
  intros Hstart Hscan.
  unfold Parser.scanFrameBlocks in Hscan.
  destruct (Parser.scanTypePrefixedBlocks parseJson bytes raw startOffset)
    as [frames1 blocksFound] eqn:E1.
  destruct (0 <? blocksFound).
  { injection Hscan as <- <-. unfold Parser.scanTypePrefixedBlocks in E1.
    injection E1 as <- _.
    destruct (scanTypedLoop_layout bytes startOffset parseJson (length bytes)
                (Parser.expected12BitSize raw)
                {| Parser.st_offset := startOffset; Parser.st_frames := [];
                   Parser.st_frameCount := 0; Parser.st_invalid := 0;
                   Parser.st_current := None |}) as [Hall [Hchain _]].
    - cbn. lia.
    - cbn. split; [constructor|]. split.
      + intros k f f' Hf. discriminate Hf.
      + intros f Hf. discriminate Hf.
    - split; [|exact Hchain]. rewrite Forall_forall in Hall.
      intros f Hf. specialize (Hall f Hf). cbv beta in Hall.
      change (1 =? 3) with false. cbv iota. split; [lia|]. split; [lia|]. congruence. }
  assert (Hfrom : forall minSize n cursor result,
            (strategy, frames) = (n, result) -> n <> 1 ->
            (if n =? 3 then 100 else 1024) <= minSize ->
            (Forall (fun f => startOffset <= f.(Parser.offset)
                              /\ minSize <= f.(Parser.size)
                              /\ f.(Parser.offset) + f.(Parser.size) <= len bytes) result
             /\ (forall k f f', result !! k = Some f -> result !! S k = Some f' ->
                   f.(Parser.offset) + f.(Parser.size) <= f'.(Parser.offset))
             /\ (forall f, last result = Some f ->
                   f.(Parser.offset) + f.(Parser.size) <= cursor)) ->
            (forall f, f ∈ frames ->
               startOffset <= f.(Parser.offset) < len bytes
               /\ (if strategy =? 3 then 100 else 1024) <= f.(Parser.size)
               /\ (strategy <> 1 -> f.(Parser.offset) + f.(Parser.size) <= len bytes))
            /\ (forall k f f', frames !! k = Some f -> frames !! S k = Some f' ->
                  f.(Parser.offset) + f.(Parser.size) <= f'.(Parser.offset))).
  { intros minSize n cursor result Heq Hn Hmin [Hall [Hchain _]].
    injection Heq as -> ->. split; [|exact Hchain]. rewrite Forall_forall in Hall.
    intros f Hf. specialize (Hall f Hf). cbv beta in Hall.
    destruct (n =? 3); (split; [lia|]); (split; [lia|]); intros _; lia. }
  destruct (0 <? length (Parser.scanSizePrefixedZstd bytes startOffset))%nat.
  { destruct (scanSizePrefixedLoop_layout bytes startOffset (length bytes) startOffset [])
      as [cursor Hl]; [lia| |].
    - split; [constructor|]. split.
      + intros k f f' Hf. discriminate Hf.
      + intros f Hf. discriminate Hf.
    - eapply (Hfrom 1024 2 cursor); [symmetry; exact Hscan|lia|cbn; lia|exact Hl]. }
  destruct (0 <? length (Parser.scanZstdMagic bytes startOffset))%nat.
  { destruct (scanZstdMagic_layout bytes startOffset) as [cursor Hl].
    eapply (Hfrom 100 3 cursor); [symmetry; exact Hscan|lia|cbn; lia|exact Hl]. }
  destruct (0 <? length (Parser.applyFixedFrameSize bytes raw startOffset))%nat.
  { destruct (applyFixedFrameSize_layout bytes startOffset raw) as [cursor Hl].
    eapply (Hfrom 1024 4 cursor); [symmetry; exact Hscan|lia|cbn; lia|exact Hl]. }
  destruct (0 <? length (Parser.scanRawBayerBlocks bytes raw startOffset))%nat.
  { destruct (scanRawBayerBlocks_layout bytes startOffset raw) as [cursor Hl].
    eapply (Hfrom 1024 5 cursor); [symmetry; exact Hscan|lia|cbn; lia|exact Hl]. }
  injection Hscan as <- <-. split.
  - intros f Hf. inversion Hf.
  - intros k f f' Hf. discriminate Hf.
Qed.

(** X19.  Whatever strategy indexes the frames of a container, the
    indexed frames do not overlap and keep the order of the file: a frame
    ends at or before the start of the next one.  Every frame starts inside
    the file, at or after the offset the scan started from, and has at
    least 1024 bytes (100 in the magic-scan strategy).  In strategies 2 to
    5 every frame also ends inside the file, so the bounds test of
    [decodeFrame] cannot fail there; the typed-block strategy does not
    test the end of a block, and there only the last frame can reach
    beyond the end of the file. *)
Theorem indexed_frames_do_not_overlap (parseJson : list Z -> option Parser.PerFrameMetadata)
    (bytes : list Z) (raw : Parser.RawMetadata) (startOffset strategy : Z)
    (frames : list Parser.FrameInfo) :
  0 <= startOffset ->
  Parser.scanFrameBlocks parseJson bytes raw startOffset = (strategy, frames) ->
  (forall f, f ∈ frames ->
     startOffset <= f.(Parser.offset) < len bytes
     /\ (if strategy =? 3 then 100 else 1024) <= f.(Parser.size)
     /\ (strategy <> 1 -> f.(Parser.offset) + f.(Parser.size) <= len bytes))
  /\ (forall k f f', frames !! k = Some f -> frames !! S k = Some f' ->
        f.(Parser.offset) + f.(Parser.size) <= f'.(Parser.offset) < len bytes).
Proof.
  intros Hstart Hscan.
  destruct (scanFrameBlocks_layout parseJson bytes raw startOffset strategy frames
              Hstart Hscan) as [Hall Hchain].
  split; [exact Hall|].
  intros k f f' Hf Hf'. split; [eapply Hchain; eassumption|].
  apply list_elem_of_lookup_2 in Hf'. apply Hall in Hf'. lia.
Qed.

Lemma indexed_frames_do_not_overlap_witness :
  Forall (fun f => 0 <= f.(Parser.offset) < len Examples.twoPlainFrames
                   /\ 1024 <= f.(Parser.size))
    (snd (Parser.scanFrameBlocks Examples.noJson Examples.twoPlainFrames
            Examples.smallSensor 0)).
Proof.
  apply Forall_forall. intros f Hf.
  destruct (indexed_frames_do_not_overlap Examples.noJson Examples.twoPlainFrames
              Examples.smallSensor 0 1
              (snd (Parser.scanFrameBlocks Examples.noJson Examples.twoPlainFrames
                      Examples.smallSensor 0))
              ltac:(lia) ltac:(vm_compute; reflexivity)) as [Hall _].
  destruct (Hall f Hf) as [H1 [H2 _]]. split; [exact H1|exact H2].
Defined.

(** In the typed-block strategy a block header is not compared with the
    file length: a frame block that announces 1024 bytes in a file that ends
    after 16 of them is indexed. *)
Remark typed_frame_can_reach_beyond_the_file :
  let bytes := Examples.le32 2 ++ Examples.le32 1024 ++ replicate 16 0 in
  exists f, Parser.scanFrameBlocks Examples.noJson bytes Examples.smallSensor 0 = (1, [f])
            /\ len bytes < f.(Parser.offset) + f.(Parser.size).
Proof. eexists. split; [vm_compute; reflexivity|]. vm_compute. reflexivity. Qed.

(** ** Frame decoding *)

Section DecoderFacts.
Import Parser BitPacker Decoder.

Lemma storeU16_length (result : list Z) (i v : Z) :
  length (storeU16 result i v) = length result.
Proof. unfold storeU16. destruct (i <? 0); [reflexivity|]. apply length_insert. Qed.

Lemma unpack12_length (fuel : nat) (packed : list Z) (pixelCount shift i j : Z)
    (result : list Z) :
  length (unpack12 fuel packed pixelCount shift i j result) = length result.
Proof.
  revert i j result. induction fuel as [|fuel IH]; intros i j result; [reflexivity|].
  cbn [unpack12]. destruct (_ && _); [|reflexivity].
  cbv zeta. rewrite IH, !storeU16_length. reflexivity.
Qed.

Lemma unpackBits12_length (packed : list Z) (pixelCount : Z) (bayerData : list Z) :
  unpackBits packed pixelCount 12 = Some bayerData ->
  length bayerData = Z.to_nat pixelCount.
Proof.
  intros H.
  assert (E : bayerData = unpack12 (S (length packed)) packed pixelCount 4 0 0
                            (replicate (Z.to_nat pixelCount) 0)).
  { apply (inj Some). rewrite <- H. reflexivity. }
  rewrite E, unpack12_length, length_replicate. reflexivity.
Qed.

Lemma uint16View_length (data : list Z) (offset count : Z) (bayerData : list Z) :
  uint16View data offset count = Some bayerData ->
  0 <= count /\ offset mod 2 = 0 /\ len bayerData = count.
Proof.
  unfold uint16View. intros H.
  destruct (Z.leb_spec 0 offset); [|discriminate].
  destruct (Z.leb_spec 0 count); [|discriminate].
  destruct (Z.eqb_spec (offset mod 2) 0); [|discriminate].
  destruct (_ <=? _); [|discriminate]. cbn [andb] in H. injection H as <-.
  split; [assumption|]. split; [assumption|].
  unfold len. rewrite length_fmap, length_seqZ. lia.
Qed.

Lemma viewBytes_length (v : View) :
  0 <= v.(byteOffset) -> 0 <= v.(byteLength) ->
  v.(byteOffset) + v.(byteLength) <= len v.(buffer) ->
  len (viewBytes v) = v.(byteLength).
Proof.
  intros Ho Hl Hin. unfold viewBytes, slice, len in *.
  rewrite length_take, length_drop. lia.
Qed.

Lemma packed12Size_bounds (pixels : Z) :
  packed12Size pixels < pixels * 2 -> 0 < pixels.
Proof. unfold packed12Size. intros H. div_mod_lia. Qed.

Lemma findResolution_found (resolutions : list (Z * Z)) (rawData : View) (w h : Z)
    (bayerData : list Z) :
  Forall (fun r => 0 < fst r * snd r) resolutions ->
  findResolution resolutions rawData = inr (Some (w, h, bayerData)) ->
  len bayerData = w * h.
Proof.
  intros Hall. induction Hall as [|[w0 h0] resolutions Hpos Hall IH]; [discriminate|].
  cbn [findResolution]. cbv zeta. cbn [fst snd] in Hpos.
  destruct (_ <? 1000).
  - destruct (unpackBits _ _ 12) as [b|] eqn:E; [|discriminate].
    intros H. injection H as <- <- <-.
    apply unpackBits12_length in E. unfold len. lia.
  - destruct (_ <? 1000); [|exact IH].
    destruct (uint16View _ _ _) as [b|] eqn:E; [|discriminate].
    intros H. injection H as <- <- <-.
    apply uint16View_length in E. lia.
Qed.

Lemma findResolution_none (resolutions : list (Z * Z)) (rawData : View) :
  findResolution resolutions rawData = inr None ->
  Forall (fun r => 1000 <= Z.abs (rawData.(byteLength) - packed12Size (fst r * snd r))
                   /\ 1000 <= Z.abs (rawData.(byteLength) - fst r * snd r * 2))
         resolutions.
Proof.
  induction resolutions as [|[w h] resolutions IH]; [constructor|].
  cbn [findResolution]. cbv zeta.
  destruct (Z.ltb_spec (Z.abs (byteLength rawData - packed12Size (w * h))) 1000) as [|H12].
  { destruct (unpackBits _ _ 12); discriminate. }
  destruct (Z.ltb_spec (Z.abs (byteLength rawData - w * h * 2)) 1000) as [|H16].
  { destruct (uint16View _ _ _); discriminate. }
  intros H. constructor; [cbn [fst snd]; split; assumption|apply IH; exact H].
Qed.

(** The last resort of [toBayer]: no size of the metadata's resolution
    and no common resolution matches. *)
Local Abbreviation lastResort rawLength width height :=
  (rawLength <> width * height * 2
   /\ ~ (packed12Size (width * height) <= rawLength < width * height * 2)
   /\ rawLength <> width * height
   /\ Forall (fun r => 1000 <= Z.abs (rawLength - packed12Size (fst r * snd r))
                       /\ 1000 <= Z.abs (rawLength - fst r * snd r * 2))
             commonResolutions)%Z.

Lemma toBayer_dimensions (rawData : View) (width height width' height' : Z)
    (bayerData : list Z) :
  0 <= rawData.(byteOffset) -> 0 <= rawData.(byteLength) ->
  rawData.(byteOffset) + rawData.(byteLength) <= len rawData.(buffer) ->
  toBayer rawData width height = inr (width', height', bayerData) ->
  len bayerData = width' * height'
  \/ (width' = width /\ height' = height
      /\ len bayerData = rawData.(byteLength) / 2
      /\ lastResort rawData.(byteLength) width height).
Proof.
  intros Ho Hl Hin. unfold toBayer. cbv zeta.
  destruct (Z.eqb_spec (byteLength rawData) (width * height * 2)) as [E16|N16].
  { destruct (uint16View _ _ _) as [b|] eqn:E; [|discriminate].
    intros H. injection H as <- <- <-. left. apply uint16View_length in E. lia. }
  assert (Hrest : ~ (packed12Size (width * height) <= byteLength rawData
                      < width * height * 2) ->
            (if byteLength rawData =? width * height
             then inr (width, height,
                       (fun b => to_u16 (Z.shiftl b 8)) <$> viewBytes rawData)
             else
               match findResolution commonResolutions rawData with
               | inl e => inl e
               | inr (Some found) => inr found
               | inr None =>
                   inr (width, height,
                        (fun i => byteAt (viewBytes rawData) (i * 2)
                                  + 256 * byteAt (viewBytes rawData) (i * 2 + 1))
                          <$> seqZ 0 (byteLength rawData / 2))
               end) = inr (width', height', bayerData) ->
            len bayerData = width' * height'
            \/ (width' = width /\ height' = height
                /\ len bayerData = byteLength rawData / 2
                /\ lastResort (byteLength rawData) width height)).
  { intros N12. destruct (Z.eqb_spec (byteLength rawData) (width * height)) as [E8|N8].
    - intros H. injection H as <- <- <-. left.
      unfold len. rewrite length_fmap. fold (len (viewBytes rawData)).
      rewrite viewBytes_length by assumption. exact E8.
    - destruct (findResolution commonResolutions rawData) as [e|[[[w h] b]|]] eqn:E;
        [discriminate| |].
      + intros H. injection H as <- <- <-. left.
        apply (findResolution_found commonResolutions rawData); [|exact E].
        repeat constructor.
      + intros H. injection H as <- <- <-. right.
        split; [reflexivity|]. split; [reflexivity|]. split.
        * unfold len. rewrite length_fmap, length_seqZ.
          assert (0 <= byteLength rawData / 2) by (apply Z.div_pos; lia). lia.
        * split; [exact N16|]. split; [exact N12|]. split; [exact N8|].
          apply findResolution_none. exact E. }
  destruct (Z.leb_spec (packed12Size (width * height)) (byteLength rawData)) as [H12|H12];
    cbn [andb].
  - destruct (Z.ltb_spec (byteLength rawData) (width * height * 2)) as [Hlt|Hge].
    + destruct (unpackBits _ _ 12) as [b|] eqn:E; [|discriminate].
      intros H. injection H as <- <- <-. left.
      apply unpackBits12_length in E.
      assert (0 < width * height) by (apply packed12Size_bounds; lia).
      unfold len. lia.
    + apply Hrest. lia.
  - apply Hrest. lia.
Qed.

Lemma findResolution_never_beyond (resolutions : list (Z * Z)) (rawData : View) :
  findResolution resolutions rawData <> inl DataExtendsBeyondFile.
Proof.
  induction resolutions as [|[w h] resolutions IH]; [discriminate|].
  cbn [findResolution]. cbv zeta.
  destruct (_ <? 1000); [destruct (unpackBits _ _ _); discriminate|].
  destruct (_ <? 1000); [destruct (uint16View _ _ _); discriminate|]. exact IH.
Qed.

Lemma toBayer_never_beyond (rawData : View) (width height : Z) :
  toBayer rawData width height <> inl DataExtendsBeyondFile.
Proof.
  unfold toBayer. cbv zeta.
  destruct (_ =? _); [destruct (uint16View _ _ _); discriminate|].
  destruct (_ && _); [destruct (unpackBits _ _ _); discriminate|].
  destruct (_ =? _); [discriminate|].
  pose proof (findResolution_never_beyond commonResolutions rawData) as H.
  destruct (findResolution commonResolutions rawData) as [e|[found|]];
    [congruence|discriminate|discriminate].
Qed.

End DecoderFacts.

(** X20.  A frame that [decodeFrame] returns carries the index
    asked for and the timestamp of the indexed frame; its raw data are the
    bytes of the frame, decompressed when the frame is compressed; and its
    Bayer data has exactly [width * height] samples for the width and
    height it reports (those of the metadata, or of the common resolution
    that was detected).  The one exception is the last resort, taken when
    the raw length is none of the three sizes of the metadata's resolution
    and not within 1000 bytes of a size of a common resolution: the frame
    then keeps the dimensions of the metadata while the data has half as
    many samples as the raw data has bytes.  The views that the
    decompressor returns are assumed to lie in their buffers, as every
    typed array does. *)
Theorem decoded_frame_dimensions (decompress : list Z -> option Decoder.View)
    (data : list Z) (parsed : bool) (frameInfos : list Parser.FrameInfo)
    (frames : list (Z * Z)) (frameIndex : Z) (decoded : Decoder.DecodedFrame) :
  (forall compressed rawData, decompress compressed = Some rawData ->
     0 <= rawData.(Decoder.byteOffset) /\ 0 <= rawData.(Decoder.byteLength)
     /\ rawData.(Decoder.byteOffset) + rawData.(Decoder.byteLength)
        <= len rawData.(Decoder.buffer)) ->
  Decoder.decodeFrame decompress data parsed frameInfos frames frameIndex = inr decoded ->
  exists frameInfo width height rawData,
    frameInfos !! Z.to_nat frameIndex = Some frameInfo
    /\ frames !! Z.to_nat frameIndex = Some (width, height)
    /\ decoded.(Decoder.d_frameIndex) = frameIndex
    /\ decoded.(Decoder.d_timestamp) = frameInfo.(Parser.timestamp)
    /\ 0 <= frameInfo.(Parser.offset)
    /\ frameInfo.(Parser.offset) + frameInfo.(Parser.size) <= len data
    /\ (if frameInfo.(Parser.isCompressed)
        then decompress (Parser.slice data frameInfo.(Parser.offset)
                           (frameInfo.(Parser.offset) + frameInfo.(Parser.size)))
             = Some rawData
        else rawData = {| Decoder.buffer := data;
                          Decoder.byteOffset := frameInfo.(Parser.offset);
                          Decoder.byteLength := frameInfo.(Parser.size) |})
    /\ (len decoded.(Decoder.d_bayerData)
        = decoded.(Decoder.d_width) * decoded.(Decoder.d_height)
        \/ (decoded.(Decoder.d_width) = width /\ decoded.(Decoder.d_height) = height
            /\ len decoded.(Decoder.d_bayerData) = rawData.(Decoder.byteLength) / 2
            /\ rawData.(Decoder.byteLength) <> width * height * 2
            /\ ~ (Decoder.packed12Size (width * height) <= rawData.(Decoder.byteLength)
                  < width * height * 2)
            /\ rawData.(Decoder.byteLength) <> width * height
            /\ Forall (fun r =>
                         1000 <= Z.abs (rawData.(Decoder.byteLength)
                                        - Decoder.packed12Size (fst r * snd r))
                         /\ 1000 <= Z.abs (rawData.(Decoder.byteLength)
                                           - fst r * snd r * 2))
                      Decoder.commonResolutions)).
Proof.
  intros Hviews. unfold Decoder.decodeFrame.
  destruct (negb parsed); [discriminate|].
  destruct (_ || _); [discriminate|].
  destruct (frameInfos !! Z.to_nat frameIndex) as [frameInfo|]; [|discriminate].
  destruct (Z.ltb_spec (len data) (Parser.offset frameInfo + Parser.size frameInfo))
    as [|Hin]; [discriminate|].
  destruct (Decoder.uint8View data _ _) as [frameData|] eqn:Ev; [|discriminate].
  unfold Decoder.uint8View in Ev.
  destruct (Z.leb_spec 0 (Parser.offset frameInfo)) as [Ho|]; [|discriminate].
  destruct (Z.leb_spec 0 (Parser.size frameInfo)) as [Hs|]; [|discriminate].
  destruct (_ <=? _); [|discriminate]. cbn [andb] in Ev. injection Ev as <-.
  cbv zeta.
  assert (Hraw : forall rawData width height,
            0 <= rawData.(Decoder.byteOffset) -> 0 <= rawData.(Decoder.byteLength) ->
            rawData.(Decoder.byteOffset) + rawData.(Decoder.byteLength)
            <= len rawData.(Decoder.buffer) ->
            match Decoder.toBayer rawData width height with
            | inl e => inl e
            | inr (width', height', bayerData) =>
                inr {| Decoder.d_frameIndex := frameIndex; Decoder.d_width := width';
                       Decoder.d_height := height'; Decoder.d_bayerData := bayerData;
                       Decoder.d_timestamp := Parser.timestamp frameInfo |}
            end = inr decoded ->
            decoded.(Decoder.d_frameIndex) = frameIndex
            /\ decoded.(Decoder.d_timestamp) = frameInfo.(Parser.timestamp)
            /\ (len decoded.(Decoder.d_bayerData)
                = decoded.(Decoder.d_width) * decoded.(Decoder.d_height)
                \/ (decoded.(Decoder.d_width) = width /\ decoded.(Decoder.d_height) = height
                    /\ len decoded.(Decoder.d_bayerData) = rawData.(Decoder.byteLength) / 2
                    /\ rawData.(Decoder.byteLength) <> width * height * 2
                    /\ ~ (Decoder.packed12Size (width * height)
                          <= rawData.(Decoder.byteLength) < width * height * 2)
                    /\ rawData.(Decoder.byteLength) <> width * height
                    /\ Forall (fun r =>
                                 1000 <= Z.abs (rawData.(Decoder.byteLength)
                                                - Decoder.packed12Size (fst r * snd r))
                                 /\ 1000 <= Z.abs (rawData.(Decoder.byteLength)
                                                   - fst r * snd r * 2))
                              Decoder.commonResolutions))).
  { intros rawData width height H1 H2 H3.
    destruct (Decoder.toBayer rawData width height) as [e|[[w h] b]] eqn:Eb; [discriminate|].
    intros H. injection H as <-. cbn.
    split; [reflexivity|]. split; [reflexivity|].
    exact (toBayer_dimensions rawData width height w h b H1 H2 H3 Eb). }
  destruct (Parser.isCompressed frameInfo) eqn:Ec.
  - destruct (decompress _) as [rawData|] eqn:Ed; [|discriminate].
    destruct (frames !! Z.to_nat frameIndex) as [[width height]|]; [|discriminate].
    intros H. exists frameInfo, width, height, rawData.
    split; [reflexivity|]. split; [reflexivity|].
    destruct (Hviews _ _ Ed) as [H1 [H2 H3]]. rewrite Ec.
    destruct (Hraw rawData width height H1 H2 H3 H) as [Hi [Ht Hd]].
    split; [exact Hi|]. split; [exact Ht|]. split; [exact Ho|]. split; [exact Hin|].
    split; [exact Ed|exact Hd].
  - destruct (frames !! Z.to_nat frameIndex) as [[width height]|]; [|discriminate].
    intros H.
    exists frameInfo, width, height,
      {| Decoder.buffer := data; Decoder.byteOffset := Parser.offset frameInfo;
         Decoder.byteLength := Parser.size frameInfo |}.
    split; [reflexivity|]. split; [reflexivity|]. rewrite Ec.
    destruct (Hraw {| Decoder.buffer := data; Decoder.byteOffset := Parser.offset frameInfo;
                      Decoder.byteLength := Parser.size frameInfo |}
                width height Ho Hs Hin H) as [Hi [Ht Hd]].
    split; [exact Hi|]. split; [exact Ht|]. split; [exact Ho|]. split; [exact Hin|].
    split; [reflexivity|exact Hd].
Qed.

Lemma decoded_frame_dimensions_witness :
  let data := [0; 1; 0; 2; 0; 3; 0; 4; 0] in
  let info := {| Parser.offset := 1; Parser.size := 7; Parser.blockType := 2;
                 Parser.isCompressed := false; Parser.timestamp := 0;
                 Parser.perFrameMetadata := None |} in
  let decoded := {| Decoder.d_frameIndex := 0; Decoder.d_width := 4; Decoder.d_height := 2;
                    Decoder.d_bayerData := [1; 2; 3];
                    Decoder.d_timestamp := 0 |} in
  exists frameInfo width height rawData,
    [info] !! Z.to_nat 0 = Some frameInfo
    /\ [(4, 2)] !! Z.to_nat 0 = Some (width, height)
    /\ decoded.(Decoder.d_frameIndex) = 0
    /\ decoded.(Decoder.d_timestamp) = frameInfo.(Parser.timestamp)
    /\ 0 <= frameInfo.(Parser.offset)
    /\ frameInfo.(Parser.offset) + frameInfo.(Parser.size) <= len data
    /\ (if frameInfo.(Parser.isCompressed)
        then None = Some rawData
        else rawData = {| Decoder.buffer := data;
                          Decoder.byteOffset := frameInfo.(Parser.offset);
                          Decoder.byteLength := frameInfo.(Parser.size) |})
    /\ (len decoded.(Decoder.d_bayerData)
        = decoded.(Decoder.d_width) * decoded.(Decoder.d_height)
        \/ (decoded.(Decoder.d_width) = width /\ decoded.(Decoder.d_height) = height
            /\ len decoded.(Decoder.d_bayerData) = rawData.(Decoder.byteLength) / 2
            /\ rawData.(Decoder.byteLength) <> width * height * 2
            /\ ~ (Decoder.packed12Size (width * height) <= rawData.(Decoder.byteLength)
                  < width * height * 2)
            /\ rawData.(Decoder.byteLength) <> width * height
            /\ Forall (fun r =>
                         1000 <= Z.abs (rawData.(Decoder.byteLength)
                                        - Decoder.packed12Size (fst r * snd r))
                         /\ 1000 <= Z.abs (rawData.(Decoder.byteLength)
                                           - fst r * snd r * 2))
                      Decoder.commonResolutions)).
Proof.
  intros data info decoded.
  apply (decoded_frame_dimensions (fun _ => None) data true [info] [(4, 2)] 0 decoded).
  - intros compressed rawData H. discriminate H.
  - vm_compute. reflexivity.
Defined.

(** X21.  An uncompressed frame that lies in the file and has
    exactly two bytes per pixel of its metadata is decoded only from an
    even offset: [decodeFrame] then returns the little-endian 16-bit words
    of the frame as they are, and from an odd offset it fails with the
    [RangeError] of the [Uint16Array] constructor. *)
Theorem raw_16bit_frame_needs_even_offset (decompress : list Z -> option Decoder.View)
    (data : list Z) (frameInfos : list Parser.FrameInfo) (frames : list (Z * Z))
    (frameIndex : Z) (frameInfo : Parser.FrameInfo) (width height : Z) :
  0 <= frameIndex ->
  frameInfos !! Z.to_nat frameIndex = Some frameInfo ->
  frames !! Z.to_nat frameIndex = Some (width, height) ->
  frameInfo.(Parser.isCompressed) = false ->
  0 <= frameInfo.(Parser.offset) ->
  frameInfo.(Parser.offset) + frameInfo.(Parser.size) <= len data ->
  0 <= width * height ->
  frameInfo.(Parser.size) = width * height * 2 ->
  Decoder.decodeFrame decompress data true frameInfos frames frameIndex
  = if frameInfo.(Parser.offset) mod 2 =? 0
    then inr {| Decoder.d_frameIndex := frameIndex;
                Decoder.d_width := width;
                Decoder.d_height := height;
                Decoder.d_bayerData :=
                  (fun i => byteAt data (frameInfo.(Parser.offset) + 2 * i)
                            + 256 * byteAt data (frameInfo.(Parser.offset) + 2 * i + 1))
                    <$> seqZ 0 (width * height);
                Decoder.d_timestamp := frameInfo.(Parser.timestamp) |}
    else inl Decoder.ArrayRangeError.
Proof.
  intros Hidx Hinfo Hmeta Hraw Ho Hin Hpixels Hsize.
  unfold Decoder.decodeFrame. cbn [negb].
  destruct (Z.ltb_spec frameIndex 0); [lia|].
  destruct (Z.leb_spec (Z.of_nat (length frameInfos)) frameIndex) as [Hge|_].
  { apply lookup_lt_Some in Hinfo. lia. }
  cbn [orb]. rewrite Hinfo.
  destruct (Z.ltb_spec (len data) (Parser.offset frameInfo + Parser.size frameInfo));
    [lia|].
  unfold Decoder.uint8View.
  destruct (Z.leb_spec 0 (Parser.offset frameInfo)); [|lia].
  destruct (Z.leb_spec 0 (Parser.size frameInfo)); [|lia].
  destruct (Z.leb_spec (Parser.offset frameInfo + Parser.size frameInfo) (len data)); [|lia].
  cbn [andb]. rewrite Hraw, Hmeta. cbv zeta.
  unfold Decoder.toBayer.
  cbn [Decoder.byteLength Decoder.buffer Decoder.byteOffset]. cbv zeta.
  destruct (Z.eqb_spec (Parser.size frameInfo) (width * height * 2)); [|lia].
  unfold Decoder.uint16View.
  destruct (Z.leb_spec 0 (Parser.offset frameInfo)); [|lia].
  destruct (Z.leb_spec 0 (width * height)); [|lia].
  destruct (Z.leb_spec (Parser.offset frameInfo + 2 * (width * height)) (len data)); [|lia].
  destruct (Parser.offset frameInfo mod 2 =? 0); reflexivity.
Qed.

Lemma raw_16bit_frame_needs_even_offset_witness :
  Decoder.decodeFrame (fun _ => None) [0; 1; 0; 2; 0; 3; 0; 4; 0] true
    [ {| Parser.offset := 1; Parser.size := 8; Parser.blockType := 2;
         Parser.isCompressed := false; Parser.timestamp := 0;
         Parser.perFrameMetadata := None |} ]
    [ (2, 2) ] 0
  = inl Decoder.ArrayRangeError.
Proof.
  apply (raw_16bit_frame_needs_even_offset (fun _ => None) [0; 1; 0; 2; 0; 3; 0; 4; 0]
           [ {| Parser.offset := 1; Parser.size := 8; Parser.blockType := 2;
                Parser.isCompressed := false; Parser.timestamp := 0;
                Parser.perFrameMetadata := None |} ]
           [ (2, 2) ] 0
           {| Parser.offset := 1; Parser.size := 8; Parser.blockType := 2;
              Parser.isCompressed := false; Parser.timestamp := 0;
              Parser.perFrameMetadata := None |} 2 2).
  - lia.
  - reflexivity.
  - reflexivity.
  - reflexivity.
  - cbn. lia.
  - unfold len. cbn. lia.
  - lia.
  - reflexivity.
Defined.

(** X22.  The bounds test of [decodeFrame] can only fail on the
    last frame of a container indexed by the typed-block strategy: for the
    frames that [scanFrameBlocks] indexes by any other strategy, and for
    every typed-block frame but the last, [decodeFrame] never reports that
    the data extends beyond the file. *)
Theorem only_last_typed_frame_can_exceed_file
    (parseJson : list Z -> option Parser.PerFrameMetadata)
    (decompress : list Z -> option Decoder.View)
    (bytes : list Z) (raw : Parser.RawMetadata) (startOffset strategy : Z)
    (frameInfos : list Parser.FrameInfo) (parsed : bool) (frames : list (Z * Z))
    (frameIndex : Z) :
  0 <= startOffset ->
  Parser.scanFrameBlocks parseJson bytes raw startOffset = (strategy, frameInfos) ->
  Decoder.decodeFrame decompress bytes parsed frameInfos frames frameIndex
  = inl Decoder.DataExtendsBeyondFile ->
  strategy = 1 /\ frameIndex = Z.of_nat (length frameInfos) - 1.
Proof.
  intros Hstart Hscan.
  destruct (scanFrameBlocks_layout parseJson bytes raw startOffset strategy
              frameInfos Hstart Hscan) as [Hall Hchain].
  unfold Decoder.decodeFrame.
  destruct (negb parsed); [discriminate|].
  destruct (Z.ltb_spec frameIndex 0) as [|Hidx]; [discriminate|].
  destruct (Z.leb_spec (Z.of_nat (length frameInfos)) frameIndex) as [|Hlt]; [discriminate|].
  cbn [orb].
  destruct (frameInfos !! Z.to_nat frameIndex) as [frameInfo|] eqn:Ei; [|discriminate].
  destruct (Z.ltb_spec (len bytes) (Parser.offset frameInfo + Parser.size frameInfo))
    as [Hbeyond|Hfits].
  - intros _.
    destruct (Hall frameInfo (list_elem_of_lookup_2 _ _ _ Ei)) as [_ [_ Hin]].
    split.
    + destruct (Z.eq_dec strategy 1) as [|Hne]; [assumption|]. specialize (Hin Hne). lia.
    + destruct (frameInfos !! S (Z.to_nat frameIndex)) as [next|] eqn:En.
      * specialize (Hchain _ _ _ Ei En).
        destruct (Hall next (list_elem_of_lookup_2 _ _ _ En)) as [Hnext _]. lia.
      * apply lookup_ge_None in En. lia.
  - destruct (Decoder.uint8View _ _ _); [|discriminate].
    cbv zeta. destruct (Parser.isCompressed frameInfo).
    + destruct (decompress _); [|discriminate].
      destruct (frames !! _) as [[w h]|]; [|discriminate].
      destruct (Decoder.toBayer _ _ _) as [e|[[? ?] ?]] eqn:Eb; [|discriminate].
      intros H. injection H as ->. exfalso. revert Eb. apply toBayer_never_beyond.
    + destruct (frames !! _) as [[w h]|]; [|discriminate].
      destruct (Decoder.toBayer _ _ _) as [e|[[? ?] ?]] eqn:Eb; [|discriminate].
      intros H. injection H as ->. exfalso. revert Eb. apply toBayer_never_beyond.
Qed.

Lemma only_last_typed_frame_can_exceed_file_witness :
  let bytes := Examples.le32 2 ++ Examples.le32 1024 ++ replicate 16 0 in
  1 = 1 /\ 0 = Z.of_nat (length (snd (Parser.scanFrameBlocks Examples.noJson bytes
                                        Examples.smallSensor 0))) - 1.
Proof.
  intros bytes.
  exact (only_last_typed_frame_can_exceed_file Examples.noJson (fun _ => None) bytes
           Examples.smallSensor 0 1 _ true [(32, 32)] 0 ltac:(lia)
           ltac:(vm_compute; reflexivity) ltac:(vm_compute; reflexivity)).
Defined.

(** ** Frame rate inference: range and time units *)

Section FpsRangeFacts.
Import Fps.

Lemma snapToCommon_member (rates : list Q) (rawFps rate : Q) :
  snapToCommon rates rawFps = Some rate -> In rate rates.
Proof.
  induction rates as [|r rates IH]; cbn [snapToCommon]; [discriminate|].
  destruct (closeTo rawFps r); [|right; auto].
  intros E. injection E as <-. left. reflexivity.
Qed.

End FpsRangeFacts.

(** X23.  Whatever the timestamps are, [calculateFpsFromTimestamps]
    returns one of the ten common rates or a whole number from 1 to 999;
    with fewer than two timestamps it returns 24. *)
Theorem calculateFps_is_a_sane_rate (timestamps : list Q) :
  (In (Fps.calculateFpsFromTimestamps timestamps) Fps.commonRates
   \/ exists n, 1 <= n <= 999 /\ Fps.calculateFpsFromTimestamps timestamps = inject_Z n)
  /\ ((length timestamps < 2)%nat -> Fps.calculateFpsFromTimestamps timestamps = 24%Q).
Proof.
  split.
  - unfold Fps.calculateFpsFromTimestamps.
    destruct (Fps.rawFpsOfTimestamps timestamps) as [rawFps|].
    + destruct (Fps.snapToCommon Fps.commonRates rawFps) as [rate|] eqn:Es.
      * left. eapply snapToCommon_member. exact Es.
      * cbv zeta. destruct (Z.ltb_spec 0 (Fps.jsRound rawFps)); cbn [andb].
        -- destruct (Z.ltb_spec (Fps.jsRound rawFps) 1000).
           ++ right. exists (Fps.jsRound rawFps). split; [lia|reflexivity].
           ++ left. cbn. auto.
        -- left. cbn. auto.
    + left. cbn. auto.
  - intros Hlen. unfold Fps.calculateFpsFromTimestamps, Fps.rawFpsOfTimestamps.
    destruct (Nat.ltb_spec (length timestamps) 2); [reflexivity|lia].
Qed.


Section FpsUnitFacts.
Import Float Fps.

(** The rounding of a double in the normal range moves it by less than
    [10^-15] of itself. *)
Lemma binary64_near (x : Q) :
  (pow2 (-1022) <= x)%Q ->
  ((1 - (1 # 1000000000000000)) * x <= binary64 x)%Q
  /\ (binary64 x <= (1 + (1 # 1000000000000000)) * x)%Q.
Proof.
  intros Hx. pose proof (pow2_pos (-1022)) as Hp.
  assert (Habs : (Qabs x == x)%Q) by (apply Qabs_pos; lra).
  pose proof (round_relative_error 53 (-1074) x) as H.
  change (-1074 + 53 - 1) with (-1022) in H. rewrite Habs in H. specialize (H Hx).
  assert (Hu : (pow2 (-53) <= 1 # 1000000000000000)%Q) by (vm_compute; discriminate).
  assert (H' : (Qabs (binary64 x - x) <= (1 # 1000000000000000) * x)%Q).
  { eapply Qle_trans; [exact H|]. apply Qmult_le_compat_r; [exact Hu|lra]. }
  apply Qabs_Qle_condition in H'. split; lra.
Qed.

Lemma Qabs_diff_triangle (a b c : Q) : (Qabs (a - c) <= Qabs (a - b) + Qabs (b - c))%Q.
Proof.
  apply (Qle_trans _ (Qabs ((a - b) + (b - c)))); [|apply Qabs_triangle].
  apply Qle_lteq. right. apply Qabs_wd. ring.
Qed.

(** The sorted deltas keep a property that all deltas have. *)
Lemma insertSorted_Forall (P : Q -> Prop) (x : Q) (l : list Q) :
  P x -> Forall P l -> Forall P (insertSorted x l).
Proof.
  intros Hx Hl. induction Hl as [|y l Hy Hl IH]; cbn [insertSorted].
  - constructor; [exact Hx|constructor].
  - destruct (Qle_bool x y).
    + constructor; [exact Hx|]. constructor; assumption.
    + constructor; assumption.
Qed.

Lemma insertSorted_length (x : Q) (l : list Q) :
  length (insertSorted x l) = S (length l).
Proof.
  induction l as [|y l IH]; cbn [insertSorted]; [reflexivity|].
  destruct (Qle_bool x y); cbn [length]; [reflexivity|]. rewrite IH. reflexivity.
Qed.

Lemma sortAscending_Forall (P : Q -> Prop) (l : list Q) :
  Forall P l -> Forall P (sortAscending l).
Proof.
  intros H. induction H as [|x l Hx Hl IH]; [constructor|].
  cbn. apply insertSorted_Forall; assumption.
Qed.

Lemma sortAscending_length (l : list Q) : length (sortAscending l) = length l.
Proof.
  induction l as [|x l IH]; [reflexivity|].
  cbn. unfold sortAscending in IH. rewrite insertSorted_length, IH. reflexivity.
Qed.

(** Timestamps whose rounded differences all lie in a positive range give
    one delta per step, each in the range. *)
Lemma deltasFrom_near (lo hi previous : Q) (rest : list Q) :
  (0 < lo)%Q ->
  (forall k a b, (previous :: rest) !! k = Some a -> (previous :: rest) !! S k = Some b ->
                 (lo <= binary64 (b - a))%Q /\ (binary64 (b - a) <= hi)%Q) ->
  Forall (fun d => (lo <= d)%Q /\ (d <= hi)%Q) (deltasFrom previous rest)
  /\ length (deltasFrom previous rest) = length rest.
Proof.
  intros Hpos. revert previous. induction rest as [|t rest IH]; intros previous Hnear.
  - split; [constructor|reflexivity].
  - cbn [deltasFrom].
    assert (Hd : (lo <= binary64 (t - previous))%Q /\ (binary64 (t - previous) <= hi)%Q)
      by (apply (Hnear 0%nat); reflexivity).
    assert (Hlt : Qltb 0 (binary64 (t - previous)) = true) by (apply Qltb_true; lra).
    rewrite Hlt.
    destruct (IH t) as [Hall Hlen].
    { intros k a b Ha Hb. apply (Hnear (S k)); assumption. }
    split.
    + constructor; assumption.
    + cbn. rewrite Hlen. reflexivity.
Qed.

Lemma median_near (timestamps : list Q) (lo hi : Q) :
  (0 < lo)%Q -> (2 <= length timestamps)%nat ->
  (forall k a b, timestamps !! k = Some a -> timestamps !! S k = Some b ->
                 (lo <= binary64 (b - a))%Q /\ (binary64 (b - a) <= hi)%Q) ->
  exists medianDelta, (lo <= medianDelta)%Q /\ (medianDelta <= hi)%Q
    /\ rawFpsOfTimestamps timestamps = Some (rawFpsOf medianDelta).
Proof.
  intros Hpos Hlen Hnear. unfold rawFpsOfTimestamps.
  destruct (Nat.ltb_spec (length timestamps) 2) as [|_]; [lia|].
  destruct timestamps as [|t rest]; [cbn in Hlen; lia|]. cbn [deltasOf].
  destruct (deltasFrom_near lo hi t rest Hpos Hnear) as [Hall Hn].
  set (deltas := sortAscending (deltasFrom t rest)).
  assert (Hsorted : Forall (fun d => (lo <= d)%Q /\ (d <= hi)%Q) deltas)
    by (apply sortAscending_Forall; exact Hall).
  assert (Hcount : length deltas = length rest)
    by (unfold deltas; rewrite sortAscending_length; exact Hn).
  destruct (deltas !! (length deltas / 2)%nat) as [m|] eqn:Em.
  - exists m. pose proof (proj1 (Forall_lookup _ _) Hsorted _ _ Em) as [H1 H2].
    split; [exact H1|]. split; [exact H2|reflexivity].
  - apply lookup_ge_None in Em. cbn in Hlen.
    assert (length deltas / 2 < length deltas)%nat by (apply Nat.div_lt; lia). lia.
Qed.

(** Evenly spaced timestamps of a rate from 0.11 to 99 frames per second,
    in one of the four units and up to a billionth of the spacing, have a
    raw rate within 3 billionths of the rate. *)
Lemma rawFps_near (timestamps : list Q) (rate unit_ : Q) :
  (11 # 100 <= rate)%Q -> (rate <= 99)%Q ->
  In unit_ [1; 1000; 1000000; 1000000000]%Q ->
  (2 <= length timestamps)%nat ->
  (forall k a b, timestamps !! k = Some a -> timestamps !! S k = Some b ->
                 (Qabs (b - a - unit_ / rate) <= (1 # 1000000000) * (unit_ / rate))%Q) ->
  exists rawFps,
    rawFpsOfTimestamps timestamps = Some rawFps
    /\ (Qabs (rawFps - rate) <= (3 # 1000000000) * rate)%Q.
Proof.
  intros Hlo Hhi Hunit Hlen Heven.
  assert (Hrate : (0 < rate)%Q) by lra.
  assert (Hnz : ~ (rate == 0)%Q) by (intros E; lra).
  assert (Hu1 : (1 <= unit_)%Q).
  { cbn [In] in Hunit. destruct Hunit as [<-|[<-|[<-|[<-|[]]]]]; discriminate. }
  set (s := (unit_ / rate)%Q) in *.
  assert (Es : (s * rate == unit_)%Q) by (unfold s; field; exact Hnz).
  assert (Hs1 : (unit_ <= 99 * s)%Q).
  { rewrite <- Es. rewrite (Qmult_comm 99 s). apply Qmult_le_l; [|exact Hhi].
    unfold s. apply Qlt_shift_div_l; [exact Hrate|]. lra. }
  assert (Hs2 : (11 * s <= 100 * unit_)%Q).
  { rewrite <- Es.
    setoid_replace (100 * (s * rate))%Q with (s * (100 * rate))%Q using relation Qeq by ring.
    rewrite (Qmult_comm 11 s). apply Qmult_le_l; [|lra].
    unfold s. apply Qlt_shift_div_l; [exact Hrate|]. lra. }
  assert (Hs0 : (0 < s)%Q) by lra.
  assert (Hp : (pow2 (-1022) <= 1 # 1000)%Q) by (vm_compute; discriminate).
  destruct (median_near timestamps ((1 - (2 # 1000000000)) * s)
              ((1 + (2 # 1000000000)) * s)) as [m [Hm1 [Hm2 Hraw]]].
  - lra.
  - exact Hlen.
  - intros k a b Ha Hb. specialize (Heven k a b Ha Hb).
    apply Qabs_Qle_condition in Heven. destruct Heven as [He1 He2].
    destruct (binary64_near (b - a)) as [Hb1 Hb2]; [lra|]. split; lra.
  - exists (rawFpsOf m). split; [exact Hraw|].
    assert (Hm0 : (0 < m)%Q) by lra.
    assert (Hquot : forall u : Q, (u == unit_)%Q ->
              (Qabs (binary64 (u / m) - rate) <= (3 # 1000000000) * rate)%Q).
    { intros u Eu.
      assert (Hq1 : ((1 - (25 # 10000000000)) * rate <= u / m)%Q).
      { apply Qle_shift_div_l; [exact Hm0|]. rewrite Eu, <- Es.
        apply Qle_trans with ((1 - (25 # 10000000000)) * rate * ((1 + (2 # 1000000000)) * s))%Q.
        - apply Qmult_le_l; [lra|exact Hm2].
        - setoid_replace ((1 - (25 # 10000000000)) * rate * ((1 + (2 # 1000000000)) * s))%Q
            with (((1 - (25 # 10000000000)) * (1 + (2 # 1000000000))) * (s * rate))%Q
            using relation Qeq by ring.
          rewrite <- (Qmult_1_l (s * rate)) at 2.
          apply Qmult_le_compat_r; [vm_compute; discriminate|]. rewrite Es. lra. }
      assert (Hq2 : (u / m <= (1 + (25 # 10000000000)) * rate)%Q).
      { apply Qle_shift_div_r; [exact Hm0|]. rewrite Eu, <- Es.
        apply Qle_trans with ((1 + (25 # 10000000000)) * rate * ((1 - (2 # 1000000000)) * s))%Q.
        - setoid_replace ((1 + (25 # 10000000000)) * rate * ((1 - (2 # 1000000000)) * s))%Q
            with (((1 + (25 # 10000000000)) * (1 - (2 # 1000000000))) * (s * rate))%Q
            using relation Qeq by ring.
          rewrite <- (Qmult_1_l (s * rate)) at 1.
          apply Qmult_le_compat_r; [vm_compute; discriminate|]. rewrite Es. lra.
        - apply Qmult_le_l; [lra|exact Hm1]. }
      destruct (binary64_near (u / m)) as [Hb1 Hb2]; [lra|].
      apply Qabs_Qle_condition. split; lra. }
    unfold rawFpsOf. cbn [In] in Hunit.
    destruct Hunit as [Eu|[Eu|[Eu|[Eu|[]]]]]; rewrite <- Eu in Hs1, Hs2.
    + assert (E1 : Qltb 10000000 m = false) by (apply Qltb_false; lra).
      assert (E2 : Qltb 10000 m = false) by (apply Qltb_false; lra).
      assert (E3 : Qltb 10 m = false) by (apply Qltb_false; lra).
      rewrite E1, E2, E3. apply Hquot. rewrite <- Eu. reflexivity.
    + assert (E1 : Qltb 10000000 m = false) by (apply Qltb_false; lra).
      assert (E2 : Qltb 10000 m = false) by (apply Qltb_false; lra).
      assert (E3 : Qltb 10 m = true) by (apply Qltb_true; lra).
      rewrite E1, E2, E3. apply Hquot. rewrite <- Eu. reflexivity.
    + assert (E1 : Qltb 10000000 m = false) by (apply Qltb_false; lra).
      assert (E2 : Qltb 10000 m = true) by (apply Qltb_true; lra).
      rewrite E1, E2. apply Hquot. rewrite <- Eu. reflexivity.
    + assert (E1 : Qltb 10000000 m = true) by (apply Qltb_true; lra).
      rewrite E1. apply Hquot. rewrite <- Eu. reflexivity.
Qed.

End FpsUnitFacts.

(** X24.  The reported rate does not depend on the unit of the
    timestamps where the rate is clearly at a common rate.  For timestamps
    in seconds, milliseconds, microseconds or nanoseconds that are evenly
    spaced, up to a billionth of the spacing, at a rate from 0.11 to 99
    frames per second, the raw rate is within 3 billionths of the rate;
    and when the rate is within 4.99999% of a common rate and at least
    5.00001% away from every common rate earlier in the list, that common
    rate is reported, whatever the unit. *)
Theorem fps_independent_of_time_unit (timestamps : list Q) (rate unit_ : Q)
    (earlier later : list Q) (common : Q) :
  (11 # 100 <= rate)%Q -> (rate <= 99)%Q ->
  In unit_ [1; 1000; 1000000; 1000000000]%Q ->
  (2 <= length timestamps)%nat ->
  (forall k a b, timestamps !! k = Some a -> timestamps !! S k = Some b ->
                 (Qabs (b - a - unit_ / rate) <= (1 # 1000000000) * (unit_ / rate))%Q) ->
  Fps.commonRates = earlier ++ common :: later ->
  Forall (fun r => ((500001 # 10000000) * r <= Qabs (rate - r))%Q) earlier ->
  (Qabs (rate - common) <= (499999 # 10000000) * common)%Q ->
  (exists rawFps,
     Fps.rawFpsOfTimestamps timestamps = Some rawFps
     /\ (Qabs (rawFps - rate) <= (3 # 1000000000) * rate)%Q)
  /\ Fps.calculateFpsFromTimestamps timestamps = common.
Proof.
  intros Hlo Hhi Hunit Hlen Heven Hsplit Hearlier Hclose.
  destruct (rawFps_near timestamps rate unit_ Hlo Hhi Hunit Hlen Heven) as [rawFps [Hraw Hnear]].
  split; [exists rawFps; split; assumption|].
  assert (Hpositive : forall r, In r Fps.commonRates -> (0 < r)%Q).
  { intros r Hr. exact (proj1 (proj1 (List.Forall_forall _ _) commonRates_windows r Hr)). }
  apply Qabs_Qle_condition in Hnear. destruct Hnear as [Hn1 Hn2].
  unfold Fps.calculateFpsFromTimestamps. rewrite Hraw.
  rewrite (snapToCommon_common rawFps common earlier later Hsplit); [reflexivity| |].
  - apply List.Forall_forall. intros r Hr.
    pose proof (proj1 (List.Forall_forall _ _) Hearlier r Hr) as Hfar. cbv beta in Hfar.
    assert (Hr0 : (0 < r)%Q).
    { apply Hpositive. rewrite Hsplit. apply in_or_app. left. exact Hr. }
    revert Hfar. apply Qabs_case; intros Hsign Hfar.
    + apply Qle_trans with (rawFps - r)%Q; [lra|apply Qabs_ge].
    + apply Qle_trans with (- (rawFps - r))%Q; [lra|].
      rewrite <- Qabs_opp. apply Qabs_ge.
  - assert (Hc0 : (0 < common)%Q).
    { apply Hpositive. rewrite Hsplit. apply in_or_app. right. left. reflexivity. }
    apply Qabs_Qle_condition in Hclose. destruct Hclose as [Hc1 Hc2].
    apply Qabs_Qle_condition. split; lra.
Qed.

Lemma fps_independent_of_time_unit_witness :
  (exists rawFps,
     Fps.rawFpsOfTimestamps [0; 125 # 3; 250 # 3]%Q = Some rawFps
     /\ (Qabs (rawFps - 24) <= (3 # 1000000000) * 24)%Q)
  /\ Fps.calculateFpsFromTimestamps [0; 125 # 3; 250 # 3]%Q = 24%Q.
Proof.
  apply (fps_independent_of_time_unit [0; 125 # 3; 250 # 3]%Q 24 1000
           [18]%Q [25; Fps.rate2997; 30; 48; 50; Fps.rate5994; 60; 120]%Q 24).
  - discriminate.
  - discriminate.
  - right. left. reflexivity.
  - cbn. lia.
  - intros [|[|k]] a b Ha Hb; try discriminate Hb;
      injection Ha as <-; injection Hb as <-; vm_compute; discriminate.
  - reflexivity.
  - constructor; [vm_compute; discriminate|constructor].
  - vm_compute. discriminate.
Defined.

(** ** Batch processing: the counters of a job that returns *)

Section ProcessorFacts.
Import Processor.

Local Abbreviation processed outcome :=
  (fun j : Z => match outcome j with FrameProcessed => true | _ => false end).

Lemma overThreshold_spec (failed framesToProcess : Z) :
  overThreshold failed framesToProcess = false <-> 10 * failed <= 8 * framesToProcess.
Proof.
  unfold overThreshold. rewrite Qltb_false.
  unfold Qle, Qmult, inject_Z. cbn [Qnum Qden]. lia.
Qed.

Lemma frameLoop_counters (fuel : nat) (outcome : Z -> FrameOutcome)
    (i framesToProcess successful failed successful' failed' : Z) :
  frameLoop fuel outcome i framesToProcess successful failed = inr (successful', failed') ->
  successful' + failed' = successful + failed + Z.of_nat fuel
  /\ failed <= failed'
  /\ successful' = successful
                   + Z.of_nat (length (List.filter (processed outcome) (seqZ i (Z.of_nat fuel))))
  /\ ((forall j, outcome j <> FrameNoData) ->
      failed' = failed \/ 10 * failed' <= 8 * framesToProcess).
Proof.
  revert i successful failed.
  induction fuel as [|fuel IH]; intros i successful failed Hrun.
  - cbn in Hrun. injection Hrun as <- <-. rewrite seqZ_nil by lia. cbn.
    split; [lia|]. split; [lia|]. split; [lia|]. intros _. left. reflexivity.
  - cbn [frameLoop] in Hrun.
    replace (Z.of_nat (S fuel)) with (Z.succ (Z.of_nat fuel)) by lia.
    rewrite seqZ_cons by lia.
    replace (Z.pred (Z.succ (Z.of_nat fuel))) with (Z.of_nat fuel) by lia.
    cbn [List.filter]. replace (Z.succ i) with (i + 1) by lia.
    destruct (outcome i) eqn:Eo.
    + apply IH in Hrun as [H1 [H2 [H3 H4]]]. cbn [length].
      split; [lia|]. split; [lia|]. split; [lia|]. exact H4.
    + apply IH in Hrun as [H1 [H2 [H3 H4]]].
      split; [lia|]. split; [lia|]. split; [lia|].
      intros Hno. exfalso. exact (Hno i Eo).
    + destruct (overThreshold (failed + 1) framesToProcess) eqn:Et; [discriminate|].
      apply overThreshold_spec in Et.
      apply IH in Hrun as [H1 [H2 [H3 H4]]].
      split; [lia|]. split; [lia|]. split; [lia|]. intros Hno. right.
      destruct (H4 Hno) as [->|H]; [exact Et|exact H].
Qed.

End ProcessorFacts.

(** X25.  When [processClientSideMcraw] returns a result, at
    least one frame was processed, every frame of the range was counted
    once ([successfulFrames + failedFrames = totalFrames], the length of the
    range), and [successfulFrames] is the number of frames of the range
    that were decoded and encoded.  If no frame came back without data,
    so that every failure was an exception, the failures are at most 80%
    of the range. *)
Theorem returned_job_accounts_for_every_frame (frameCount : Z) (rangeStart rangeEnd : option Z)
    (outcome : Z -> Processor.FrameOutcome) (r : Processor.ProcessingResult) :
  Processor.processClientSideMcraw frameCount rangeStart rangeEnd outcome
  = Processor.JobReturns r ->
  let startFrame := Parser.orZ rangeStart 0 in
  let endFrame := Z.min (Parser.orZ rangeEnd (frameCount - 1)) (frameCount - 1) in
  1 <= r.(Processor.successfulFrames)
  /\ 0 <= r.(Processor.failedFrames)
  /\ r.(Processor.successfulFrames) + r.(Processor.failedFrames) = r.(Processor.totalFrames)
  /\ r.(Processor.totalFrames) = endFrame - startFrame + 1
  /\ r.(Processor.successfulFrames)
     = Z.of_nat (length (List.filter
                           (fun j => match outcome j with
                                     | Processor.FrameProcessed => true
                                     | _ => false
                                     end)
                           (seqZ startFrame (endFrame - startFrame + 1))))
  /\ ((forall j, outcome j <> Processor.FrameNoData) ->
      10 * r.(Processor.failedFrames) <= 8 * r.(Processor.totalFrames)).
Proof.
  intros Hrun startFrame endFrame. unfold Processor.processClientSideMcraw in Hrun.
  destruct (frameCount =? 0); [discriminate|]. cbv zeta in Hrun.
  fold startFrame endFrame in Hrun.
  set (framesToProcess := endFrame - startFrame + 1) in *.
  destruct (Processor.frameLoop _ _ _ _ _ _) as [e|[successful failed]] eqn:Eloop;
    [discriminate|].
  destruct (Z.eqb_spec successful 0) as [|Hs]; [discriminate|].
  injection Hrun as <-. cbn [Processor.successfulFrames Processor.failedFrames
                              Processor.totalFrames].
  apply frameLoop_counters in Eloop as [H1 [H2 [H3 H4]]].
  assert (Hpos : 0 < framesToProcess).
  { destruct (Z_lt_le_dec 0 framesToProcess) as [|Hle]; [assumption|].
    replace (Z.to_nat framesToProcess) with 0%nat in H3 by lia. cbn in H3. lia. }
  rewrite Z2Nat.id in H1, H3 by lia.
  split; [lia|]. split; [lia|]. split; [lia|]. split; [reflexivity|]. split; [lia|].
  intros Hno. destruct (H4 Hno) as [->|H]; lia.
Qed.

Lemma returned_job_accounts_for_every_frame_witness :
  let r := {| Processor.successfulFrames := 4; Processor.failedFrames := 2;
              Processor.totalFrames := 6 |} in
  10 * r.(Processor.failedFrames) <= 8 * r.(Processor.totalFrames).
Proof.
  exact (proj2 (proj2 (proj2 (proj2 (proj2
    (returned_job_accounts_for_every_frame 6 None None
       (fun i => if i <? 2 then Processor.FrameThrows else Processor.FrameProcessed)
       {| Processor.successfulFrames := 4; Processor.failedFrames := 2;
          Processor.totalFrames := 6 |} eq_refl)))))
    ltac:(intros j; cbv beta; destruct (j <? 2); discriminate)).
Defined.
